(* ===== verification/_CoqProject ===== *)
-Q . S2P
Prelude.v
Async.v
Interleave.v
Config.v
Json.v
Parse.v
Dates.v
Tables.v
Queries.v
Schema.v
Redis.v
Services.v
Concrete.v
Scripts.v
Lock.v
TokenBucket.v
CircuitBreaker.v
Repo.v
Frames.v
Crash.v
Ingest.v
Signature.v
Worker.v
WorkerSpec.v
WorkerProtocol.v
DeadLetter.v
Jobs.v
Cursor.v
Listing.v
Api.v
Endpoints.v
AuditTrail.v
Concurrency.v
Mutex.v
Invariants.v
Migrations.v
Ledger.v
Reconciler.v
Memo.v
ApiSpec.v
Posts.v
ReadApi.v
Pagination.v
ReadSpec.v
Monitor.v
Types.v
LoadTest.v
Receiver.v
Dashboard.v
Server.v
Views.v
Explain.v
Journeys.v
