(* ===== verification/Prelude.v ===== *)
(** * Webhook delivery engine: verification development

    The engine accepts events over HTTP, stores each with a delivery, and
    brings every delivery to the customer's endpoint at least once, with
    retries on a fixed table of delays, a per-endpoint cap and circuit
    breaker, a per-delivery lock, and a dead-letter queue for those that
    exhaust their attempts. This library is a shallow embedding of its
    TypeScript and Lua sources (src/src, src/scripts, src/dashboard and the
    load tests of src/loadtest) with the theorems that make it correct.

    ** Reading order

    _The language._ [Prelude]: arrays, numbers as text, strings. [Async]: an
    [async] function as a tree of awaited commands ([prog]) with [throw],
    [try/catch/finally] and [process.exit]; its runs against an environment,
    the weakest precondition [wp], the interpreter [run_with], conformance to
    an automaton. [Interleave]: many programs over one shared state,
    interleaved call by call, and the rely-guarantee rules to prove them.
    [Json], [Parse], [Dates]: [JSON.stringify], [JSON.parse], ISO dates.

    _The services._ [Tables], [Queries], [Schema]: the tables of
    src/migrations, every SQL statement of the sources as data with its
    meaning, sessions with snapshots, row locks and failures. [Migrations]: the
    DDL of src/migrations as data, run on a catalog, up and down, and what it
    says of the tables. [Redis]: the
    commands and the three Lua scripts of redis/scripts. [Services]: all the
    commands of the engine ([cmd]), the world they act on, and [env], the
    relation that says what a call may answer, throw and change. [Concrete]:
    services in memory, for witnesses.

    _The engine_ (paths under src/src):
    - [Config]: shared/config.ts, queue/backoff.ts;
    - [Scripts], [Lock], [TokenBucket], [CircuitBreaker]: redis/;
    - [Repo], [Listing], [Ingest]: db/, and queue/enqueue.ts;
    - [Signature]: worker/signature.ts, shared/headers.ts;
    - [Worker]: the rest of worker/, and shared/alerts.ts; its effects are in
      [WorkerSpec], the order of its calls in [WorkerProtocol], the handler of
      exhausted jobs in [DeadLetter], all the runs of one job, cut short by the
      death of a worker ([Crash]) or not, in [Jobs];
    - [Reconciler]: reconciler/index.ts; [Memo]: shared/memo.ts;
    - [Api] (api/app.ts, api/errors.ts, api/backpressure.ts, the event and
      retry routes), [Endpoints], [ReadApi], [Monitor]: the other routes;
      [Server]: all of them as one server, with its error handler, and the
      requests of the dashboard on their way to it;
      [Cursor]: api/cursor.ts. [ApiSpec], [ReadSpec] and [Pagination] hold
      what the replies mean, [Posts] what the answers to one idempotency key
      do while anything else runs;
    - [Receiver]: test-receiver/index.ts; [Dashboard]: the requests and the
      state of the components of src/dashboard with the polling hook, [Views]:
      what they draw of it, [Types]: the types they read the answers under;
      [Explain] and [Invariants]: src/scripts (explain-check.ts with its
      queries; invariants.sql and the queries for violations of
      expectation.sql);
    - [LoadTest]: the scripts of src/loadtest, iterations of which run beside
      the engine;
    - [AuditTrail], [Concurrency], [Mutex], [Ledger], [Journeys]: what holds
      across the components. [Frames] holds the relations between two worlds these
      theorems are stated with.

    ** How the parts interact

    POST /v1/events ([Api.postEvents]) checks the load and the endpoint, runs
    [Ingest.ingestEvent] (Redis cache, then one transaction: event, delivery,
    creation transition) and adds the delivery's job ([Repo.enqueueDelivery]).
    The worker runs [Worker.processDelivery] on a job: the lock, the pick-up
    checks, the breaker, the token, one signed request under a heartbeat of
    the lock, and [Repo.recordAttempt] with the verdict; a throw makes BullMQ
    retry after [Config.webhookBackoff] and, when the attempts are used up,
    call [Worker.handleFailed], which moves the delivery to the dead-letter
    queue. The reconciler's [Repo.claimUnenqueued] gives a job to each
    delivery that no job will come for, POST /v1/dlq/:deliveryId/retry to a
    dead one. The read API, the statistics and the dashboard look at the same
    tables.

    ** The environment

    A flow's theorem is about all its runs: any answer [env] allows, time
    passing before each call, and at any call on a service a throw, with the
    effect of the call done or not done. [witnessed] puts the calls with their
    answers on record, for theorems that relate them to what a run leaves.
    [steady] is [env] without failures:
    the progress theorems ([reconciler_recovers], [job_life],
    [handleFailed_dead_letters], [accepted_event_ends]) assume it and say so. The Redis server and
    BullMQ are classes ([RedisServer], [BullMQ]) whose laws are their
    documented behaviour; [Concrete] instantiates them. The HMAC, the UUID
    format, [Number] and [new Date] on arbitrary texts, what [Buffer] makes of
    malformed Base64 or UTF-8 ([platform]), the issue texts of zod,
    the query planner, and the router and body parser of Fastify (the record
    [fastify] says what it documents) are arguments. The flows of [AuditTrail] and [Journeys] run
    one after the other, each in a session of its own, and those of
    [AuditTrail] may die at any call; [Concurrency], [Mutex]
    and [Ledger] run any number of the same flows side by side, with processes
    that die. [Mutex] assumes that the random tokens of two sessions differ. Section
    [Lease] of [Lock] interleaves single commands of any clients on a lock.

    ** The groups of theorems

    - the worker: what a run leaves ([processDelivery_effects]), the order of
      its calls ([processDelivery_protocol]), that a delivery becomes DELIVERED
      only on a 2xx answer under a lock not reported lost
      ([processDelivery_delivered]), that finished deliveries are left alone,
      and what the runs of one job add up to ([job_life]);
    - storage: atomicity of [withTx] and [recordAttempt], ingestion and its
      idempotency, also under races ([ingest_race]), the sweep and the
      recovery of stuck deliveries;
    - the audit trail: an invariant of the five tables ([audit]) that every
      flow keeps, logs that only grow, and what the audit queries of
      src/scripts find ([invariants_found]), when the flows run one after the
      other. A delivery's transitions are moves of the table of SCHEMA.md
      ([schema_moves]) or one of three kinds the code makes besides
      ([undocumented]); [circuit_open_undocumented] runs into one of these. Of
      flows side by side only the attempts are proved to stay in order
      ([attempts_race]): a job that has outlived its lock breaks the path of
      statuses ([delivered_again]);
    - the migrations: the tables keep every constraint of the DDL
      ([schema_kept]), the inserts of the model are refused for what the DDL
      says ([inserts_checked]), each [down] undoes its [up]
      ([initial_round_trip], [pending_index_round_trip]), and the indexes hold
      what the sweep and the hot queries look for ([sweep_indexed],
      [hot_queries_served]);
    - Redis: exclusive leases, one job of a delivery at a time in every
      interleaving ([job_mutex]), refinement of an abstract lease and an abstract
      breaker, the token bucket as a semaphore, scripts by SHA transparent;
    - from end to end: what becomes of an accepted event until a job of it has
      ended ([accepted_event_ends]), with its conditions; an endpoint switched
      off gets no new traffic ([pause_stops_traffic]);
    - the configuration: what start-up reads of the environment and refuses
      ([load_config_ok]), and what it does not check
      ([load_config_unordered]);
    - the API: what every reply and every status code means, each refusal
      with its cause ([events_reply]), pagination that
      ends and lists each delivery once, cursors, registration and PATCH of
      endpoints, statistics, shedding, memoised reads; every request is
      answered and keeps the tables well-formed ([request_kept]);
    - both ends of the wire: the receiver reads what the worker signed, the
      API reads what the dashboard asks for and its answers have the types the
      dashboard declares ([reads_typed]); the panel shows what the API
      answered, on audited tables the whole story ([panel_shows]), the tiles the statistics ([tiles_show]),
      and the buttons that are on are the steps that can be taken
      ([dlq_view_clicks], [dlq_view_retries]); a poll shows an answer it
      has got ([poll_shows]), if not always the latest ([poll_goes_back]);
      the reads find their routes ([dashboard_routed]), the retry is refused
      for its empty body ([retry_button_refused]);
    - the load tests: whatever runs beside them, no event answered 202 is lost
      or stored twice ([zero_loss]).

    ** Bounds and fuel

    Three recursions carry a count. [Reconciler.loop n] is the loop whose
    shutdown flag is found unset [n] times; its theorems are for every [n].
    [Pagination.fetch_all n] follows at most [n] cursors, and [pages_walk]
    shows that as many as there are deliveries, and one more, are enough.
    [Parse.JSON_parse] gives its parser the length of the text, enough for
    every printed value ([parse_stringify]). [Worker.beats n] is [n] ticks of
    a timer, for every [n]. Numbers are exact integers: the times, counts and
    delays of the sources are taken to stay below 2^53; [load_config_ok] shows
    that the settings are positive, not that they are small.

    ** Limits

    - ids are kept as the texts PostgreSQL prints (lower-case UUIDs); another
      spelling of a UUID is another text, and a text that is none is only a
      possible error of the statement;
    - a string is a sequence of 8-bit units: one UTF-16 unit each for texts of
      the program, and the UTF-8 bytes for a text decoded from a [Buffer].
      Texts are ordered by their units, not by a collation;
    - the delay of a retry is computed exactly, where the doubles of the source
      round ([equal_jitter]): the two can differ by one, within the bounds of
      [webhookBackoff_bounds];
    - [latency_ms], nullable in the DDL, is a number: the code always writes it;
    - [jsonb] returns the value stored: the reordering of keys and the merging
      of duplicate keys are not modelled;
    - [Promise.all] rejects with the first of its failures in order; calls
      that are not awaited run to their end before the next call;
    - in [life] a worker may die at any call of a job's run, but the handler of
      a 'failed' event runs to its end or fails;
    - the statements take integers of any size: one that leaves the range of
      its column is, for PostgreSQL, an error, which any call may throw
      ([representable] in [schema_kept]);
    - the receiver's numbers are integers, but for the rates of its chaos
      knobs.

    ** Not modelled

    The constructions of library objects and the listeners that tie them to
    processes (shared/logger.ts, redis/client.ts, the rest of worker/index.ts
    and api/index.ts): they hold no logic of their own. The scheduling of the
    users of the load tests, their thresholds and timing metrics, which are
    k6's. The keys and inline styles of the dashboard's elements, and the
    periods of its timers. PostgreSQL's planner, and the summaries of
    expectation.sql and delivery_lag.sql, which only print averages and
    percentiles. *)

From Stdlib Require Import ZArith Lia String Ascii DecimalString DecimalZ.
From stdpp Require Import prelude strings gmap.

Open Scope string_scope.
Open Scope nat_scope.


(** ** JavaScript arrays and numbers *)

(** [l[i]] on a JavaScript array with an integer index: [undefined] (here
    [None]) when the index is negative or past the end. *)
Definition js_at {A} (l : list A) (i : Z) : option A :=
  if (i <? 0)%Z then None else l !! Z.to_nat i.

Lemma js_at_nonneg {A} (l : list A) (i : Z) :
  (0 <= i)%Z -> js_at l i = l !! Z.to_nat i.
Proof. intros Hi. unfold js_at. destruct (Z.ltb_spec i 0); [lia | done]. Qed.

Lemma js_at_Some_elem {A} (l : list A) (i : Z) (x : A) :
  js_at l i = Some x -> x ∈ l.
Proof.
  unfold js_at. destruct (i <? 0)%Z; [done|]. intros H.
  apply list_elem_of_lookup. eauto.
Qed.

(** [arr[arr.length - 1]] is defined exactly on non-empty arrays. *)
Lemma js_at_last {A} (l : list A) :
  l <> [] -> is_Some (js_at l (Z.of_nat (length l) - 1)).
Proof.
  intros Hne. destruct l as [|x l]; [done|]. rewrite js_at_nonneg; cbn [length]; [|lia].
  apply lookup_lt_is_Some. cbn [length]. lia.
Qed.

(** ** Selecting from a list *)

Lemma filter_all {A} (P : A -> Prop) `{!forall x, Decision (P x)} (l : list A) :
  Forall P l -> filter P l = l.
Proof. induction 1 as [|x l Hx Hl IH]; [done|]. rewrite filter_cons, decide_True by done. by f_equal. Qed.

Lemma filter_none {A} (P : A -> Prop) `{!forall x, Decision (P x)} (l : list A) :
  Forall (fun x => ~ P x) l -> filter P l = [].
Proof. induction 1 as [|x l Hx Hl IH]; [done|]. by rewrite filter_cons, decide_False by done. Qed.

(** ** Numbers as text *)

(** [String(n)] on an integer, and the decimal reading that inverts it
    ([Number(s)], [tonumber(s)], the integer parsing of INCR). *)
Definition show_Z (z : Z) : string := NilZero.string_of_int (Z.to_int z).
Definition read_Z (s : string) : option Z := Z.of_int <$> NilZero.int_of_string s.

Lemma read_show_Z (z : Z) : read_Z (show_Z z) = Some z.
Proof.
  unfold read_Z, show_Z. rewrite NilZero.isi.
  - cbn. by rewrite DecimalZ.of_to.
  - destruct z; cbn; try done. intros [= H]. by apply (DecimalPos.Unsigned.to_uint_nonnil p).
  - destruct z; cbn; try done. intros [= H]. by apply (DecimalPos.Unsigned.to_uint_nonnil p).
Qed.

Lemma show_Z_inj (a b : Z) : show_Z a = show_Z b -> a = b.
Proof. intros H. apply (f_equal read_Z) in H. rewrite !read_show_Z in H. by injection H. Qed.

(** ** Strings

    A JavaScript string is a sequence of code units; here a [string], one
    8-bit unit per character. *)

Infix "++s" := String.append (at level 60, right associativity) : string_scope.

#[local] Arguments String.append !_ _ / : simpl nomatch.

Lemma str_app_cons c (a b : string) : String c a ++s b = String c (a ++s b).
Proof. done. Qed.

Lemma str_app_assoc (a b c : string) : ((a ++s b) ++s c = a ++s (b ++s c))%string.
Proof. induction a as [|x a IH]; cbn; [done|]. by rewrite IH. Qed.

Lemma str_app_nil_r (a : string) : (a ++s "" = a)%string.
Proof. induction a as [|x a IH]; cbn; [done|]. by rewrite IH. Qed.

Lemma str_app_length (a b : string) :
  String.length (a ++s b)%string = String.length a + String.length b.
Proof. induction a as [|x a IH]; cbn; [done|]. by rewrite IH. Qed.

(** Both cancellation laws of concatenation: a template with one hole in a
    fixed context is an injective function of what fills the hole. *)
Lemma str_app_inj_l (a b c : string) : (a ++s b = a ++s c)%string -> b = c.
Proof. induction a as [|x a IH]; cbn; [done|]. intros [= H]. auto. Qed.

Lemma str_app_inj_r (a b c : string) : (a ++s c = b ++s c)%string -> a = b.
Proof.
  revert b. induction a as [|x a IH]; intros [|y b] H; try done.
  - apply (f_equal String.length) in H. rewrite !str_app_length in H. cbn in H. lia.
  - apply (f_equal String.length) in H. rewrite !str_app_length in H. cbn in H. lia.
  - cbn in H. injection H as -> H. f_equal. auto.
Qed.

(** [s.includes(sub)] and [s.startsWith(p)]. *)
Fixpoint str_includes (sub s : string) : bool :=
  String.prefix sub s ||
  match s with
  | EmptyString => false
  | String _ s' => str_includes sub s'
  end.

Definition str_startsWith (p s : string) : bool := String.prefix p s.

Lemma str_prefix_app (p s : string) : String.prefix p (p ++s s)%string = true.
Proof.
  induction p as [|x p IH]; cbn; [by destruct s|].
  destruct (Ascii.ascii_dec x x) as [|Hn]; [apply IH | by destruct Hn].
Qed.

Lemma str_prefix_spec (p s : string) :
  String.prefix p s = true <-> exists r, s = (p ++s r)%string.
Proof.
  split; [|intros [r ->]; apply str_prefix_app].
  revert s. induction p as [|x p IH]; intros s H; [by exists s|].
  destruct s as [|y s]; cbn in H; [done|].
  destruct (Ascii.ascii_dec x y) as [->|]; [|done].
  destruct (IH s H) as [r ->]. by exists r.
Qed.

(** [s.slice(0, n)]. *)
Fixpoint str_take (n : nat) (s : string) : string :=
  match n, s with
  | O, _ => ""
  | _, EmptyString => ""
  | S n, String c s => String c (str_take n s)
  end.

Lemma str_take_length (n : nat) (s : string) :
  String.length (str_take n s) = n `min` String.length s.
Proof. revert s. induction n as [|n IH]; intros [|c s]; cbn; auto. Qed.

Lemma str_take_ge (n : nat) (s : string) : String.length s <= n -> str_take n s = s.
Proof.
  revert s. induction n as [|n IH]; intros [|c s] H; cbn in *; try done; [lia|].
  f_equal. apply IH. lia.
Qed.

(** [s.slice(n)]. *)
Fixpoint str_drop (n : nat) (s : string) : string :=
  match n, s with
  | O, s => s
  | _, EmptyString => ""
  | S n, String _ s => str_drop n s
  end.

Lemma str_drop_app (p s : string) : str_drop (String.length p) (p ++s s)%string = s.
Proof. induction p as [|x p IH]; cbn; auto. Qed.

(** [s.split(sep)] for a one-character separator: never the empty array. *)
Fixpoint str_split (sep : ascii) (s : string) : list string :=
  match s with
  | EmptyString => [EmptyString]
  | String c s' =>
      if Ascii.eqb c sep then EmptyString :: str_split sep s'
      else match str_split sep s' with
           | [] => [String c EmptyString]
           | w :: ws => String c w :: ws
           end
  end.

Lemma str_split_nonempty (sep : ascii) (s : string) : str_split sep s <> [].
Proof.
  destruct s as [|c s]; cbn; [done|].
  destruct (Ascii.eqb c sep); [done|]. by destruct (str_split sep s).
Qed.

(** [arr.join(sep)]. *)
Fixpoint str_join (sep : string) (ws : list string) : string :=
  match ws with
  | [] => ""
  | [w] => w
  | w :: ws => w ++s sep ++s str_join sep ws
  end.

Lemma str_join_split (sep : ascii) (s : string) :
  str_join (String sep "") (str_split sep s) = s.
Proof.
  induction s as [|c s IH]; cbn; [done|].
  pose proof (str_split_nonempty sep s) as Hne.
  destruct (Ascii.eqb_spec c sep) as [->|Hc].
  - destruct (str_split sep s) as [|w ws] eqn:E; [done|]. by rewrite <- IH.
  - destruct (str_split sep s) as [|w ws] eqn:E; [done|].
    destruct ws as [|w' ws]; cbn in IH |- *; by rewrite <- IH.
Qed.

(** No unit of [s] is [sep]. *)
Fixpoint without (sep : ascii) (s : string) : bool :=
  match s with String c s => negb (Ascii.eqb c sep) && without sep s | EmptyString => true end.

Lemma str_split_app (sep : ascii) (w s : string) :
  without sep w = true -> str_split sep (w ++s String sep s) = w :: str_split sep s.
Proof.
  induction w as [|c w IH]; cbn [without].
  - intros _. cbn. by rewrite Ascii.eqb_refl.
  - intros [Hc Hw]%andb_true_iff. apply negb_true_iff in Hc. rewrite str_app_cons. cbn [str_split].
    by rewrite Hc, IH.
Qed.

Lemma str_split_none (sep : ascii) (w : string) : without sep w = true -> str_split sep w = [w].
Proof.
  induction w as [|c w IH]; cbn [without str_split]; [done|]. intros [Hc Hw]%andb_true_iff.
  apply negb_true_iff in Hc. by rewrite Hc, IH.
Qed.

(** Splitting what was joined gives the words back. *)
Lemma str_split_join (sep : ascii) (ws : list string) :
  ws <> [] -> Forall (fun w => without sep w = true) ws -> str_split sep (str_join (String sep "") ws) = ws.
Proof.
  intros Hne H. induction H as [|w ws Hw Hws IH]; [done|]. destruct ws as [|w' ws]; [by apply str_split_none|].
  change (str_join _ (w :: w' :: ws)) with (w ++s String sep (str_join (String sep "") (w' :: ws))).
  rewrite str_split_app by done. by rewrite IH.
Qed.

(** The last character of a string. *)
Fixpoint str_last (s : string) : option ascii :=
  match s with
  | EmptyString => None
  | String c EmptyString => Some c
  | String _ s => str_last s
  end.

Lemma str_last_app s c r : str_last (s ++s String c r) = str_last (String c r).
Proof.
  induction s as [|x s IH]; [done|]. cbn [String.append str_last]. rewrite IH.
  by destruct s.
Qed.

(** ** Automation shared by the development *)

Create HintDb webhook.

(** Case analysis on the scrutinee of the first [match] or [if] of the goal. *)
Ltac case_goal :=
  match goal with
  | |- context [match ?x with _ => _ end] => destruct x eqn:?
  end.

(** Splits conjunctions and closes what the hint databases and [lia] close. *)
Ltac crush :=
  repeat first
    [ progress intros
    | progress simplify_eq/=
    | match goal with |- _ /\ _ => split end
    | done
    | lia
    | solve [eauto with webhook] ].
