(* ===== verification/Async.v ===== *)
(** * Asynchronous programs

    The TypeScript sources are [async] functions: sequences of awaited calls
    on services (Redis, PostgreSQL, BullMQ, the network, the clock), with
    [throw], [try/catch], [try/finally] and, in one place, [process.exit].
    A [prog] is such a function: a finite tree whose nodes are the awaited
    commands, branching on every answer a service may give, an exception
    included.

    - Section [Syntax]: the trees and the control operators of the language;
    - Section [Execution]: runs against an environment (a relation that says
      which answers a command may get and how the world changes), the weakest
      precondition [wp] that proves facts about every run, and the executable
      interpreter [run_with];
    - Section [Protocol]: conformance of a program to an automaton over its
      commands and answers, whatever the environment answers. *)

From S2P Require Import Prelude.
From stdpp Require Import prelude.

(** How a call ends: a value, an exception, or the exit of the process, which
    neither [catch] nor [finally] sees. *)
Inductive outcome (exn A : Type) : Type :=
| Returned (a : A)
| Threw (e : exn)
| Exited.
Arguments Returned {exn A} a.
Arguments Threw {exn A} e.
Arguments Exited {exn A}.

Section Syntax.
Context {cmd : Type} {resp : cmd -> Type} {exn : Type}.

Inductive prog (A : Type) : Type :=
| Ret (a : A)
| Throw (e : exn)
| Exit
| Vis (c : cmd) (k : exn + resp c -> prog A).
Arguments Ret {A} a.
Arguments Throw {A} e.
Arguments Exit {A}.
Arguments Vis {A} c k.

(** [await c]: the answer of the service, or its exception. *)
Definition perform (c : cmd) : prog (resp c) :=
  Vis c (fun r => match r with inl e => Throw e | inr x => Ret x end).

Fixpoint bind {A B} (p : prog A) (f : A -> prog B) : prog B :=
  match p with
  | Ret a => f a
  | Throw e => Throw e
  | Exit => Exit
  | Vis c k => Vis c (fun r => bind (k r) f)
  end.

(** [try { p } catch (err) { h(err) }]. *)
Fixpoint try_catch {A} (p : prog A) (h : exn -> prog A) : prog A :=
  match p with
  | Ret a => Ret a
  | Throw e => h e
  | Exit => Exit
  | Vis c k => Vis c (fun r => try_catch (k r) h)
  end.

(** [try { p } finally { f }]: [f] runs after a value and after an
    exception; an exception of [f] replaces the outcome of [p]. *)
Fixpoint try_finally {A} (p : prog A) (f : prog unit) : prog A :=
  match p with
  | Ret a => bind f (fun _ => Ret a)
  | Throw e => bind f (fun _ => Throw e)
  | Exit => Exit
  | Vis c k => Vis c (fun r => try_finally (k r) f)
  end.

(** How [p] settled, as a value. *)
Definition settle {A} (p : prog A) : prog (exn + A) :=
  try_catch (bind p (fun a => Ret (inr a))) (fun e => Ret (inl e)).

(** [for (const x of l) await f(x)]. *)
Fixpoint for_each {A} (l : list A) (f : A -> prog unit) : prog unit :=
  match l with
  | [] => Ret tt
  | x :: l => bind (f x) (fun _ => for_each l f)
  end.

(** [p] awaits no command but those of [P], and exits only if [E]. *)
Fixpoint awaits {A} (E : Prop) (P : cmd -> Prop) (p : prog A) : Prop :=
  match p with
  | Ret _ | Throw _ => True
  | Exit => E
  | Vis c k => P c /\ forall r, awaits E P (k r)
  end.

(** [p] awaits no command but those of [P], and does not exit. *)
Abbreviation issues := (awaits False).

(** When the calls of [p] throw only exceptions of [F], so does [p]. *)
Fixpoint raises {A} (F : exn -> Prop) (p : prog A) : Prop :=
  match p with
  | Ret _ | Exit => True
  | Throw e => F e
  | Vis c k => forall r, match r with inl e => F e | inr _ => True end -> raises F (k r)
  end.

Lemma raises_perform (F : exn -> Prop) c : raises F (perform c).
Proof. by intros [e|x]. Qed.

Lemma raises_bind {A B} F (p : prog A) (f : A -> prog B) :
  raises F p -> (forall a, raises F (f a)) -> raises F (bind p f).
Proof. intros Hp Hf. induction p as [a|e| |c k IH]; cbn in *; auto. Qed.

Lemma raises_try_catch {A} (F : exn -> Prop) (p : prog A) (h : exn -> prog A) :
  raises F p -> (forall e, F e -> raises F (h e)) -> raises F (try_catch p h).
Proof. intros Hp Hf. induction p as [a|e| |c k IH]; cbn in *; auto. Qed.

Lemma raises_try_finally {A} F (p : prog A) (f : prog unit) :
  raises F p -> raises F f -> raises F (try_finally p f).
Proof. intros Hp Hf. induction p as [a|e| |c k IH]; cbn in *; try apply raises_bind; auto. Qed.

(** [p] throws and exits only in answer to an exception. *)
Fixpoint smooth {A} (p : prog A) : Prop :=
  match p with
  | Ret _ => True
  | Throw _ | Exit => False
  | Vis c k => forall x, smooth (k (inr x))
  end.

Lemma smooth_perform c : smooth (perform c).
Proof. done. Qed.

Lemma smooth_bind {A B} (p : prog A) (f : A -> prog B) :
  smooth p -> (forall a, smooth (f a)) -> smooth (bind p f).
Proof. intros Hp Hf. induction p as [a|e| |c k IH]; cbn in *; naive_solver. Qed.

Lemma smooth_try_catch {A} (p : prog A) (h : exn -> prog A) : smooth p -> smooth (try_catch p h).
Proof. intros Hp. induction p as [a|e| |c k IH]; cbn in *; naive_solver. Qed.

Lemma smooth_try_finally {A} (p : prog A) (f : prog unit) : smooth p -> smooth f -> smooth (try_finally p f).
Proof.
  intros Hp Hf. induction p as [a|e| |c k IH]; cbn in *; [by apply smooth_bind|done..|naive_solver].
Qed.

Lemma smooth_for_each {A} (l : list A) (f : A -> prog unit) : (forall x, smooth (f x)) -> smooth (for_each l f).
Proof. intros Hf. induction l as [|x l IH]; cbn; [done|]. by apply smooth_bind. Qed.

Lemma issues_perform {E} (P : cmd -> Prop) c : P c -> awaits E P (perform c).
Proof. intros H. split; [done|]. by intros []. Qed.

Lemma issues_bind {E A B} P (p : prog A) (f : A -> prog B) :
  awaits E P p -> (forall a, awaits E P (f a)) -> awaits E P (bind p f).
Proof. intros Hp Hf. induction p as [a|e| |c k IH]; cbn in *; naive_solver. Qed.

Lemma issues_try_catch {E A} P (p : prog A) (h : exn -> prog A) :
  awaits E P p -> (forall e, awaits E P (h e)) -> awaits E P (try_catch p h).
Proof. intros Hp Hf. induction p as [a|e| |c k IH]; cbn in *; naive_solver. Qed.

Lemma issues_try_finally {E A} P (p : prog A) (f : prog unit) :
  awaits E P p -> awaits E P f -> awaits E P (try_finally p f).
Proof.
  intros Hp Hf. induction p as [a|e| |c k IH]; cbn in *; [by apply issues_bind..|done|naive_solver].
Qed.

Lemma issues_for_each {E A} P (l : list A) (f : A -> prog unit) :
  (forall x, awaits E P (f x)) -> awaits E P (for_each l f).
Proof. intros Hf. induction l as [|x l IH]; cbn; [done|]. by apply issues_bind. Qed.

Lemma issues_mono {E A} (P Q : cmd -> Prop) (p : prog A) :
  (forall c, P c -> Q c) -> awaits E P p -> awaits E Q p.
Proof. intros HPQ. induction p as [a|e| |c k IH]; cbn; naive_solver. Qed.
End Syntax.

Arguments prog {cmd} resp exn A.
Arguments Ret {cmd resp exn A} a.
Arguments Throw {cmd resp exn A} e.
Arguments Exit {cmd resp exn A}.
Arguments Vis {cmd resp exn A} c k.
Abbreviation issues := (awaits False).

Declare Scope async_scope.
Delimit Scope async_scope with async.
Notation "'let*' x ':=' p 'in' q" := (bind p (fun x => q))
  (at level 10, x binder, p at level 100, q at level 200) : async_scope.
Notation "p ;;; q" := (bind p (fun _ => q))
  (at level 100, right associativity) : async_scope.

Section Execution.
Context {cmd : Type} {resp : cmd -> Type} {exn W : Type}.
Abbreviation prog := (prog resp exn).

(** [env w c r w']: in the world [w], the command [c] may be answered [r]
    and leave the world [w']. *)
Context (env : W -> forall c : cmd, exn + resp c -> W -> Prop).

(** [exec p w o w']: some run of [p] from [w] ends in [w'] with outcome [o]. *)
Fixpoint exec {A} (p : prog A) (w : W) (o : outcome exn A) (w' : W) : Prop :=
  match p with
  | Ret a => o = Returned a /\ w' = w
  | Throw e => o = Threw e /\ w' = w
  | Exit => o = Exited /\ w' = w
  | Vis c k => exists r w1, env w c r w1 /\ exec (k r) w1 o w'
  end.

(** Every run of [p] from [w] ends in a state that satisfies [Q]. *)
Fixpoint wp {A} (p : prog A) (Q : outcome exn A -> W -> Prop) (w : W) : Prop :=
  match p with
  | Ret a => Q (Returned a) w
  | Throw e => Q (Threw e) w
  | Exit => Q Exited w
  | Vis c k => forall r w1, env w c r w1 -> wp (k r) Q w1
  end.

Lemma wp_exec {A} (p : prog A) (Q : outcome exn A -> W -> Prop) (w : W) :
  wp p Q w <-> forall o w', exec p w o w' -> Q o w'.
Proof.
  revert w. induction p as [a|e| |c k IH]; intros w; cbn.
  1-3: split; [by intros H o w' [-> ->] | intros H; by apply H].
  split.
  - intros H o w' (r & w1 & He & Hx). by eapply IH; [apply H|].
  - intros H r w1 He. apply IH. intros o w' Hx. apply H. eauto.
Qed.

Lemma wp_mono {A} (p : prog A) (P Q : outcome exn A -> W -> Prop) (w : W) :
  wp p P w -> (forall o w', P o w' -> Q o w') -> wp p Q w.
Proof. rewrite !wp_exec. eauto. Qed.

Lemma wp_and {A} (p : prog A) (P Q : outcome exn A -> W -> Prop) (w : W) :
  wp p P w -> wp p Q w -> wp p (fun o w' => P o w' /\ Q o w') w.
Proof. rewrite !wp_exec. eauto. Qed.

(** What follows a call: the continuation after a value, nothing after an
    exception or an exit. *)
Definition after {A B} (f : A -> prog B) (Q : outcome exn B -> W -> Prop)
    (o : outcome exn A) (w : W) : Prop :=
  match o with
  | Returned a => wp (f a) Q w
  | Threw e => Q (Threw e) w
  | Exited => Q Exited w
  end.

Lemma wp_bind {A B} (p : prog A) (f : A -> prog B) Q (w : W) :
  wp p (after f Q) w <-> wp (bind p f) Q w.
Proof.
  revert w. induction p as [a|e| |c k IH]; intros w; cbn; try done.
  split; intros H r w1 He; apply IH; auto.
Qed.

Lemma wp_try_catch {A} (p : prog A) (h : exn -> prog A) Q (w : W) :
  wp p (fun o w => match o with Threw e => wp (h e) Q w | _ => Q o w end) w <->
  wp (try_catch p h) Q w.
Proof.
  revert w. induction p as [a|e| |c k IH]; intros w; cbn; try done.
  split; intros H r w1 He; apply IH; auto.
Qed.

Lemma wp_try_finally {A} (p : prog A) (f : prog unit) Q (w : W) :
  wp p (fun o w =>
    match o with
    | Exited => Q Exited w
    | _ => wp f (fun fo w' =>
             match fo with
             | Returned _ => Q o w'
             | Threw e => Q (Threw e) w'
             | Exited => Q Exited w'
             end) w
    end) w ->
  wp (try_finally p f) Q w.
Proof.
  revert w. induction p as [a|e| |c k IH]; intros w; cbn; try done.
  - intros H. apply wp_bind. eapply wp_mono; [apply H|]. by intros [].
  - intros H. apply wp_bind. eapply wp_mono; [apply H|]. by intros [].
  - intros H r w1 He. apply IH; auto.
Qed.

(** A loop keeps an invariant that its body keeps, however it ends. *)
Lemma wp_for_each {A} (l : list A) (f : A -> prog unit) (I : W -> Prop) (w : W) :
  I w -> (forall x w, x ∈ l -> I w -> wp (f x) (fun _ => I) w) ->
  wp (for_each l f) (fun _ => I) w.
Proof.
  revert w. induction l as [|x l IH]; intros w Hw Hf; cbn; [done|].
  apply wp_bind. eapply wp_mono; [apply Hf; [left|done]|].
  intros [[]|e|] w' Hw'; cbn; try done. apply IH; [done|].
  intros y w'' Hy. apply Hf. by right.
Qed.

(** A loop over [l], with an invariant on the part of [l] already done. *)
Lemma wp_for_each_prefix {A} (l : list A) (f : A -> prog unit) (I : list A -> W -> Prop)
    (E : outcome exn unit -> W -> Prop) (done todo : list A) (w : W) :
  l = done ++ todo -> I done w ->
  (forall done x rest w, l = done ++ x :: rest -> I done w ->
     wp (f x) (fun o w' => match o with Returned _ => I (done ++ [x]) w' | _ => E o w' end) w) ->
  wp (for_each todo f) (fun o w' => match o with Returned _ => I l w' | _ => E o w' end) w.
Proof.
  intros Hl Hw Hf. revert done w Hl Hw. induction todo as [|x todo IH]; intros done w Hl Hw; cbn.
  { by rewrite Hl, app_nil_r. }
  apply wp_bind. eapply wp_mono; [by eapply Hf|]. intros [[]|e|] w' Ho; cbn; try done.
  apply (IH (done ++ [x])); [|done]. by rewrite <- app_assoc.
Qed.

Lemma wp_raises {A} (F : exn -> Prop) (p : prog A) (w : W) :
  (forall w c e w', env w c (inl e) w' -> F e) -> raises F p ->
  wp p (fun o _ => match o with Threw e => F e | _ => True end) w.
Proof.
  intros Hne. revert w. induction p as [a|e| |c k IH]; intros w Hp; cbn in *; [done..|].
  intros r w1 He. apply IH, Hp. destruct r; [by eapply Hne|done].
Qed.

(** Without exceptions a [smooth] program returns. *)
Lemma wp_smooth {A} (p : prog A) (w : W) :
  (forall w c e w', ~ env w c (inl e) w') -> smooth p -> wp p (fun o _ => exists a, o = Returned a) w.
Proof.
  intros Hne. revert w. induction p as [a|e| |c k IH]; intros w Hp; cbn in *; [by exists a|done..|].
  intros [e|x] w1 He; [by destruct (Hne w c e w1)|]. apply IH, Hp.
Qed.

(** A program terminates on every path: where the environment always has an
    answer, every program has a complete run from every world. *)
Lemma exec_total {A} (p : prog A) (w : W) :
  (forall w c, exists r w', env w c r w') -> exists o w', exec p w o w'.
Proof.
  intros Htot. revert w. induction p as [a|e| |c k IH]; intros w; cbn; eauto.
  destruct (Htot w c) as (r & w1 & He). destruct (IH r w1) as (o & w' & Hx). eauto 6.
Qed.

(** Total correctness: every command has an answer, and every run ends in a
    state that satisfies [Q]. *)
Fixpoint twp {A} (p : prog A) (Q : outcome exn A -> W -> Prop) (w : W) : Prop :=
  match p with
  | Ret a => Q (Returned a) w
  | Throw e => Q (Threw e) w
  | Exit => Q Exited w
  | Vis c k => (exists r w1, env w c r w1) /\ forall r w1, env w c r w1 -> twp (k r) Q w1
  end.

Lemma twp_exec {A} (p : prog A) (Q : outcome exn A -> W -> Prop) (w : W) :
  twp p Q w ->
  (exists o w', exec p w o w' /\ Q o w') /\ forall o w', exec p w o w' -> Q o w'.
Proof.
  revert w. induction p as [a|e| |c k IH]; intros w; cbn.
  1-3: intros H; split; [eauto | by intros o w' [-> ->]].
  intros [(r & w1 & He) H]. split.
  - destruct (IH r w1 (H r w1 He)) as [(o & w' & Hx & HQ) _]. eauto 8.
  - intros o w' (r' & w1' & He' & Hx). by eapply IH; [apply H|].
Qed.

Lemma twp_wp {A} (p : prog A) (Q : outcome exn A -> W -> Prop) (w : W) : twp p Q w -> wp p Q w.
Proof. intros H. apply wp_exec. by apply twp_exec. Qed.

Lemma twp_mono {A} (p : prog A) (P Q : outcome exn A -> W -> Prop) (w : W) :
  twp p P w -> (forall o w', P o w' -> Q o w') -> twp p Q w.
Proof.
  intros H HPQ. revert w H. induction p as [a|e| |c k IH]; intros w; cbn; auto.
  intros [Hex H]. split; [done|]. auto.
Qed.

Lemma twp_bind {A B} (p : prog A) (f : A -> prog B) Q (w : W) :
  twp p (fun o w => match o with
                    | Returned a => twp (f a) Q w
                    | Threw e => Q (Threw e) w
                    | Exited => Q Exited w
                    end) w ->
  twp (bind p f) Q w.
Proof.
  revert w. induction p as [a|e| |c k IH]; intros w; cbn; auto.
  intros [Hex H]. split; [done|]. auto.
Qed.

Lemma twp_try_catch {A} (p : prog A) (h : exn -> prog A) Q (w : W) :
  twp p (fun o w => match o with Threw e => twp (h e) Q w | _ => Q o w end) w ->
  twp (try_catch p h) Q w.
Proof.
  revert w. induction p as [a|e| |c k IH]; intros w; cbn; auto.
  intros [Hex H]. split; [done|]. auto.
Qed.

(** The same rules for a single awaited command. *)
Definition answer {A} (r : exn + A) : outcome exn A :=
  match r with inl e => Threw e | inr x => Returned x end.

Lemma wp_perform (c : cmd) (Q : outcome exn (resp c) -> W -> Prop) (w : W) :
  (forall r w1, env w c r w1 -> Q (answer r) w1) -> wp (perform c) Q w.
Proof. intros H r w1 He. specialize (H r w1 He). by destruct r. Qed.

Lemma twp_perform (c : cmd) (Q : outcome exn (resp c) -> W -> Prop) (w : W) :
  (exists r w1, env w c r w1) -> (forall r w1, env w c r w1 -> Q (answer r) w1) ->
  twp (perform c) Q w.
Proof. intros Hex H. split; [done|]. intros r w1 He. specialize (H r w1 He). by destruct r. Qed.

Lemma wp_ret {A} (a : A) (Q : outcome exn A -> W -> Prop) (w : W) :
  Q (Returned a) w -> wp (Ret a) Q w.
Proof. done. Qed.

Lemma wp_throw {A} (e : exn) (Q : outcome exn A -> W -> Prop) (w : W) :
  Q (Threw e) w -> wp (Throw e) Q w.
Proof. done. Qed.

Lemma twp_ret {A} (a : A) (Q : outcome exn A -> W -> Prop) (w : W) :
  Q (Returned a) w -> twp (Ret a) Q w.
Proof. done. Qed.

Lemma twp_throw {A} (e : exn) (Q : outcome exn A -> W -> Prop) (w : W) :
  Q (Threw e) w -> twp (Throw e) Q w.
Proof. done. Qed.

(** A program keeps what each of its commands keeps. *)
Lemma wp_issues {A} (P : cmd -> Prop) (J : W -> Prop) (p : prog A) (w : W) :
  (forall w c r w1, P c -> J w -> env w c r w1 -> J w1) ->
  issues P p -> J w -> wp p (fun o w' => o <> Exited /\ J w') w.
Proof.
  intros HJ. revert w. induction p as [a|e| |c k IH]; intros w; cbn; try done.
  intros [Hc Hk] Hw r w1 He. apply IH; [done|]. by eapply HJ.
Qed.

(** ** The interpreter: an environment that is a function. *)

Fixpoint run_with (h : W -> forall c : cmd, (exn + resp c) * W) {A}
    (p : prog A) (w : W) : outcome exn A * W :=
  match p with
  | Ret a => (Returned a, w)
  | Throw e => (Threw e, w)
  | Exit => (Exited, w)
  | Vis c k => let '(r, w1) := h w c in run_with h (k r) w1
  end.

Lemma run_with_bind h {A B} (p : prog A) (f : A -> prog B) (w : W) :
  run_with h (bind p f) w =
  match run_with h p w with
  | (Returned a, w') => run_with h (f a) w'
  | (Threw e, w') => (Threw e, w')
  | (Exited, w') => (Exited, w')
  end.
Proof.
  revert w. induction p as [a|e| |c k IH]; intros w; cbn; try done.
  destruct (h w c) as [r w1]. apply IH.
Qed.

Lemma run_with_perform h (c : cmd) (w : W) :
  run_with h (perform c) w = (answer (h w c).1, (h w c).2).
Proof. cbn. destruct (h w c) as [[e|x] w1]; done. Qed.

Definition handles (h : W -> forall c : cmd, (exn + resp c) * W) : Prop :=
  forall w c, env w c (h w c).1 (h w c).2.

Lemma run_with_exec h {A} (p : prog A) (w : W) :
  handles h -> exec p w (run_with h p w).1 (run_with h p w).2.
Proof.
  intros Hh. revert w. induction p as [a|e| |c k IH]; intros w; cbn; try done.
  specialize (Hh w c). destruct (h w c) as [r w1]. cbn in *. eauto.
Qed.

(** Every call of the run is answered. *)
Fixpoint answered (h : W -> forall c : cmd, (exn + resp c) * W) {A} (p : prog A) (w : W) : bool :=
  match p with
  | Vis c k => let '(r, w1) := h w c in
               match r with inl _ => false | inr _ => answered h (k r) w1 end
  | _ => true
  end.
End Execution.

(** A smaller environment has fewer runs. *)
Lemma wp_env_mono {cmd : Type} {resp : cmd -> Type} {exn W A : Type}
    (env1 env2 : W -> forall c : cmd, exn + resp c -> W -> Prop) (p : prog resp exn A) Q w :
  (forall w c r w', env1 w c r w' -> env2 w c r w') -> wp env2 p Q w -> wp env1 p Q w.
Proof.
  intros Hsub. revert w. induction p as [a|e| |c k IH]; intros w; cbn; try done.
  intros H r w1 He. apply IH, H, Hsub, He.
Qed.

(** A run whose calls are all answered. *)
Lemma run_with_answered {cmd : Type} {resp : cmd -> Type} {exn W A : Type}
    (env : W -> forall c : cmd, exn + resp c -> W -> Prop)
    (h : W -> forall c : cmd, (exn + resp c) * W) (p : prog resp exn A) (w : W) :
  handles env h -> answered h p w = true ->
  exec (fun w c r w' => env w c r w' /\ exists x, r = inr x) p w (run_with h p w).1 (run_with h p w).2.
Proof.
  intros Hh. revert w. induction p as [a|e| |c k IH]; intros w Ha; cbn in *; try done.
  pose proof (Hh w c) as He. destruct (h w c) as [[e|x] w1]; [done|]. exists (inr x), w1.
  split; [split; [done|by exists x]|]. by apply IH.
Qed.

Section Protocol.
Context {cmd : Type} {resp : cmd -> Type} {exn : Type}.
Abbreviation prog := (prog resp exn).

(** One awaited command with the answer it got. *)
Inductive event : Type := Ev (c : cmd) (r : exn + resp c).

(** [behaves p tr o]: with some answers of the services, [p] issues the
    commands of [tr], in that order, and ends with [o]. Nothing is assumed
    of the answers. *)
Definition trace_env (tr : list event) (c : cmd) (r : exn + resp c) (tr' : list event) : Prop :=
  tr' = tr ++ [Ev c r].

Definition behaves {A} (p : prog A) (tr : list event) (o : outcome exn A) : Prop :=
  exec trace_env p [] o tr.

(** The run of a world, with the calls it makes on record. *)
Definition witnessed {W : Type} (R : W -> forall c : cmd, exn + resp c -> W -> Prop) (x : W * list event)
    (c : cmd) (r : exn + resp c) (x' : W * list event) : Prop :=
  R x.1 c r x'.1 /\ x'.2 = x.2 ++ [Ev c r].

Section Witnessed.
Context {W : Type} (R : W -> forall c : cmd, exn + resp c -> W -> Prop).

Lemma witnessed_exec {A} (p : prog A) x o x' :
  exec (witnessed R) p x o x' -> exec R p x.1 o x'.1 /\ exec trace_env p x.2 o x'.2.
Proof.
  revert x. induction p as [a|e| |c k IH]; intros x; cbn.
  1-3: by intros [-> ->].
  intros (r & x1 & [HR Htr] & Hx). destruct (IH r x1 Hx) as [H1 H2]. split; [by exists r, x1.1|by exists r, x1.2].
Qed.

(** Every run can be put on record. *)
Lemma exec_witnessed {A} (p : prog A) w tr o w' :
  exec R p w o w' -> exists tr', exec (witnessed R) p (w, tr) o (w', tr').
Proof.
  revert w tr. induction p as [a|e| |c k IH]; intros w tr; cbn.
  1-3: by intros [-> ->]; exists tr.
  intros (r & w1 & HR & Hx). destruct (IH r w1 (tr ++ [Ev c r]) Hx) as [tr' H]. exists tr', r, (w1, tr ++ [Ev c r]). done.
Qed.

(** What each call of the world keeps, a run on record keeps. *)
Lemma witnessed_keeps {A} (J : W -> list event -> Prop) (p : prog A) x o x' :
  (forall w tr c r w1, J w tr -> R w c r w1 -> J w1 (tr ++ [Ev c r])) ->
  exec (witnessed R) p x o x' -> J x.1 x.2 -> J x'.1 x'.2.
Proof.
  intros HJ. revert x. induction p as [a|e| |c k IH]; intros x; cbn.
  1-3: by intros [-> ->].
  intros (r & x1 & [HR Htr] & Hx) H. apply (IH r x1 Hx). rewrite Htr. by eapply HJ.
Qed.
End Witnessed.

Lemma exec_trace_prefix {A} (p : prog A) (tr0 : list event) o tr :
  exec trace_env p tr0 o tr -> exists tr1, tr = tr0 ++ tr1.
Proof.
  revert tr0. induction p as [a|e| |c k IH]; intros tr0; cbn.
  1-3: intros [_ ->]; exists []; by rewrite app_nil_r.
  intros (r & tr1 & -> & Hx). destruct (IH r _ Hx) as [tr2 ->]. exists (Ev c r :: tr2). by rewrite <- app_assoc.
Qed.

(** The command of an event. *)
Definition asked_of (ev : event) : cmd := match ev with Ev c _ => c end.

Lemma behaves_issues {A} (P : cmd -> Prop) (p : prog A) tr o :
  issues P p -> behaves p tr o -> Forall (fun ev => P (asked_of ev)) tr.
Proof.
  intros Hp Hb.
  assert (wp trace_env p (fun o tr => o <> Exited /\ Forall (fun ev => P (asked_of ev)) tr) []) as H.
  { apply (wp_issues trace_env P); [|done|constructor].
    intros tr1 c r tr2 Hc H1 ->. apply Forall_app. by repeat constructor. }
  rewrite wp_exec in H. by apply (H o tr).
Qed.

(** An automaton over events. *)
Context {S : Type} (pstep : S -> event -> option S).

Fixpoint accepts (s : S) (tr : list event) : option S :=
  match tr with
  | [] => Some s
  | e :: tr => match pstep s e with Some s' => accepts s' tr | None => None end
  end.

Lemma accepts_app (s : S) (tr1 tr2 : list event) :
  accepts s (tr1 ++ tr2) =
  match accepts s tr1 with Some s' => accepts s' tr2 | None => None end.
Proof. revert s. induction tr1 as [|e tr1 IH]; intros s; cbn; [done|]. by destruct (pstep s e). Qed.

(** Started in state [s], [p] only issues commands the automaton allows,
    whatever it is answered, and ends in a state that satisfies [Q]. *)
Fixpoint conforms {A} (p : prog A) (Q : outcome exn A -> S -> Prop) (s : S) : Prop :=
  match p with
  | Ret a => Q (Returned a) s
  | Throw e => Q (Threw e) s
  | Exit => Q Exited s
  | Vis c k => forall r, match pstep s (Ev c r) with
                         | Some s' => conforms (k r) Q s'
                         | None => False
                         end
  end.

Lemma conforms_exec {A} (p : prog A) Q (s : S) tr0 o tr :
  conforms p Q s -> exec trace_env p tr0 o tr ->
  exists tr1 s', tr = tr0 ++ tr1 /\ accepts s tr1 = Some s' /\ Q o s'.
Proof.
  revert s tr0. induction p as [a|e| |c k IH]; intros s tr0; cbn.
  1-3: intros HQ [-> ->]; exists [], s; by rewrite app_nil_r.
  intros HQ (r & tr1 & He & Hx). unfold trace_env in He. subst tr1.
  specialize (HQ r). destruct (pstep s (Ev c r)) as [s1|] eqn:Hs; [|done].
  destruct (IH r s1 _ HQ Hx) as (tr2 & s2 & -> & Hacc & HQ').
  exists (Ev c r :: tr2), s2. rewrite <- app_assoc. cbn. by rewrite Hs.
Qed.

Lemma conforms_sound {A} (p : prog A) Q (s : S) tr o :
  conforms p Q s -> behaves p tr o ->
  exists s', accepts s tr = Some s' /\ Q o s'.
Proof.
  intros Hc Hb. destruct (conforms_exec p Q s [] o tr Hc Hb) as (tr1 & s' & -> & H).
  by exists s'.
Qed.

Lemma conforms_vis {A} (c : cmd) (k : exn + resp c -> prog A) Q (s : S) r :
  conforms (Vis c k) Q s -> exists s', pstep s (Ev c r) = Some s' /\ conforms (k r) Q s'.
Proof. intros H. specialize (H r). cbn in H. destruct (pstep s (Ev c r)) as [s'|]; [by exists s'|done]. Qed.

Lemma conforms_mono {A} (p : prog A) (P Q : outcome exn A -> S -> Prop) (s : S) :
  conforms p P s -> (forall o s', P o s' -> Q o s') -> conforms p Q s.
Proof.
  intros H HPQ. revert s H. induction p as [a|e| |c k IH]; intros s; cbn; auto.
  intros H r. specialize (H r). destruct (pstep s (Ev c r)); [|done]. by apply IH.
Qed.

Lemma conforms_perform (c : cmd) (Q : outcome exn (resp c) -> S -> Prop) (s : S) :
  (forall r, exists s', pstep s (Ev c r) = Some s' /\
     Q (match r with inl e => Threw e | inr x => Returned x end) s') ->
  conforms (perform c) Q s.
Proof. intros H r. destruct (H r) as (s' & -> & HQ). by destruct r. Qed.

Lemma conforms_bind {A B} (p : prog A) (f : A -> prog B) Q (s : S) :
  conforms p (fun o s' => match o with
                          | Returned a => conforms (f a) Q s'
                          | Threw e => Q (Threw e) s'
                          | Exited => Q Exited s'
                          end) s ->
  conforms (bind p f) Q s.
Proof.
  revert s. induction p as [a|e| |c k IH]; intros s; cbn; auto.
  intros H r. specialize (H r). destruct (pstep s (Ev c r)); [|done]. by apply IH.
Qed.

Lemma conforms_try_catch {A} (p : prog A) (h : exn -> prog A) Q (s : S) :
  conforms p (fun o s' => match o with Threw e => conforms (h e) Q s' | _ => Q o s' end) s ->
  conforms (try_catch p h) Q s.
Proof.
  revert s. induction p as [a|e| |c k IH]; intros s; cbn; auto.
  intros H r. specialize (H r). destruct (pstep s (Ev c r)); [|done]. by apply IH.
Qed.

(** A program whose commands leave the automaton where it is. *)
Lemma conforms_issues {A} (P : cmd -> Prop) (p : prog A) (s : S) :
  (forall c r, P c -> pstep s (Ev c r) = Some s) ->
  issues P p -> conforms p (fun o s' => o <> Exited /\ s' = s) s.
Proof.
  intros HP. induction p as [a|e| |c k IH]; cbn; try done.
  intros [Hc Hk] r. rewrite (HP c r Hc). by apply IH.
Qed.

Lemma conforms_try_finally {A} (p : prog A) (f : prog unit) Q (s : S) :
  conforms p (fun o s' =>
    match o with
    | Exited => Q Exited s'
    | _ => conforms f (fun fo s'' =>
             match fo with
             | Returned _ => Q o s''
             | Threw e => Q (Threw e) s''
             | Exited => Q Exited s''
             end) s'
    end) s ->
  conforms (try_finally p f) Q s.
Proof.
  revert s. induction p as [a|e| |c k IH]; intros s; cbn; auto.
  1-2: intros H; apply conforms_bind; (eapply conforms_mono; [apply H|]); by intros [].
  intros H r. specialize (H r). destruct (pstep s (Ev c r)); [|done]. by apply IH.
Qed.
End Protocol.

Arguments event {cmd} resp exn.

#[global] Arguments perform : simpl never.
#[global] Arguments exec : simpl never.
#[global] Arguments wp : simpl never.
#[global] Arguments twp : simpl never.
#[global] Arguments conforms : simpl never.
#[global] Arguments awaits : simpl never.
#[global] Arguments smooth : simpl never.
#[global] Arguments raises : simpl never.
#[global] Arguments bind : simpl never.
#[global] Arguments try_catch : simpl never.
#[global] Arguments try_finally : simpl never.

(** Proves [smooth p] by the shape of [p]. *)
Ltac smooth_tac :=
  repeat (intros;
    lazymatch goal with
    | |- smooth (bind ?p ?f) => apply (smooth_bind p f)
    | |- smooth (try_catch ?p ?h) => apply (smooth_try_catch p h)
    | |- smooth (try_finally ?p ?f) => apply (smooth_try_finally p f)
    | |- smooth (for_each ?l ?f) => apply (smooth_for_each l f)
    | |- smooth (Ret _) => exact I
    | |- smooth (perform ?c) => apply (smooth_perform c)
    | |- smooth (match ?x with _ => _ end) => destruct x
    | |- smooth ?p => let q := eval red in p in change (smooth q)
    end).

(** Proves [raises F p] by the shape of [p], down to what it throws itself. *)
Ltac raises_tac tac :=
  repeat (intros;
    lazymatch goal with
    | |- raises ?F (bind ?p ?f) => apply (raises_bind F p f)
    | |- raises ?F (try_catch ?p ?h) => apply (raises_try_catch F p h)
    | |- raises ?F (try_finally ?p ?f) => apply (raises_try_finally F p f)
    | |- raises ?F (Ret _) => exact I
    | |- raises ?F Exit => exact I
    | |- raises ?F (Throw _) => solve [tac]
    | |- raises ?F (perform ?c) => apply (raises_perform F c)
    | |- raises ?F (match ?x with _ => _ end) => destruct x
    | |- raises ?F ?p => first [ assumption | let q := eval red in p in change (raises F q) ]
    end).

(** Proves [issues P p], or [awaits True P p], by the shape of [p], down to the commands. *)
Ltac issues_tac tac :=
  repeat (intros;
    lazymatch goal with
    | |- awaits ?E ?P (bind ?p ?f) => apply (issues_bind (E:=E) P p f)
    | |- awaits ?E ?P (try_catch ?p ?h) => apply (issues_try_catch (E:=E) P p h)
    | |- awaits ?E ?P (try_finally ?p ?f) => apply (issues_try_finally (E:=E) P p f)
    | |- awaits ?E ?P (for_each ?l ?f) => apply (issues_for_each (E:=E) P l f)
    | |- awaits ?E ?P (Ret _) => exact I
    | |- awaits ?E ?P (Throw _) => exact I
    | |- awaits True ?P Exit => exact I
    | |- awaits ?E ?P (perform ?c) => apply (issues_perform (E:=E) P c); tac
    | |- awaits ?E ?P (match ?x with _ => _ end) => destruct x
    | |- awaits ?E ?P ?p => first [ solve [tac] | let q := eval red in p in change (awaits E P q) ]
    end).
