(* ===== verification/Interleave.v ===== *)
(** * Programs side by side

    Many asynchronous programs over one shared state, interleaved call by
    call: what one awaits takes effect while the others stand anywhere between
    two calls of theirs, and a process may die between any two of its calls.

    - Section [System]: the steps of such a system, and runs by a schedule;
    - Section [Rely]: what the others may do to a program ([R]), what it owes
      them in return ([guar]), the rules to prove a program under that
      agreement ([rg]), and that programs that keep it can be run together;
    - Section [Ghost]: additions to the private states that no run depends
      on. *)

From S2P Require Import Prelude Async.
From stdpp Require Import prelude.

Section System.
Context {cmd : Type} {resp : cmd -> Type} {exn : Type} {A S L : Type}.
Abbreviation prog := (prog resp exn).

(** A command of a program with the private state [L], on the shared state. *)
Context (env : S * L -> forall c : cmd, exn + resp c -> S * L -> Prop).
(** What the death of a process leaves. *)
Context (crash : S * L -> S * L -> Prop).

Definition system : Type := S * list (prog A * L).

Inductive sys_move : system -> system -> Prop :=
| move_await s ts i c k l r s' l' :
    ts !! i = Some (Vis c k, l) -> env (s, l) c r (s', l') ->
    sys_move (s, ts) (s', <[i := (k r, l')]> ts)
| move_crash s ts i c k l s' l' :
    ts !! i = Some (Vis c k, l) -> crash (s, l) (s', l') ->
    sys_move (s, ts) (s', <[i := (Exit, l')]> ts).

Lemma sys_move_length st st' : sys_move st st' -> length st'.2 = length st.2.
Proof. destruct 1; apply length_insert. Qed.

(** The run in which the programs of [sched], in that order, make a call
    each, answered by the interpreter [h]. *)
Definition turn (h : S * L -> forall c : cmd, (exn + resp c) * (S * L)) (i : nat) (st : system) : system :=
  match st.2 !! i with
  | Some (Vis c k, l) => let '(r, (s', l')) := h (st.1, l) c in (s', <[i := (k r, l')]> st.2)
  | _ => st
  end.

Definition run_schedule (h : S * L -> forall c : cmd, (exn + resp c) * (S * L)) (sched : list nat) (st : system) : system :=
  foldl (fun st i => turn h i st) st sched.

Lemma run_schedule_moves h sched st : handles env h -> rtc sys_move st (run_schedule h sched st).
Proof.
  intros Hh. revert st. induction sched as [|i sched IH]; intros st; [done|].
  etrans; [|apply IH]. unfold turn. destruct (st.2 !! i) as [[[a|e| |c k] l]|] eqn:Hi; try done.
  specialize (Hh (st.1, l) c). destruct (h (st.1, l) c) as [r [s' l']]. destruct st as [s ts].
  apply rtc_once. by eapply move_await.
Qed.
End System.

Section Rely.
Context {cmd : Type} {resp : cmd -> Type} {exn : Type} {S L : Type}.
Abbreviation prog := (prog resp exn).
Context (env : S * L -> forall c : cmd, exn + resp c -> S * L -> Prop).
Context (crash : S * L -> S * L -> Prop).

(** An invariant of the shared state; one of each private state with it; the
    changes others may make while a program is in a private state; and what
    holds between the private states of any two programs. *)
Context (I : S -> Prop) (J : S -> L -> Prop) (R : L -> S -> S -> Prop) (D : L -> L -> Prop).
Context {R_preorder : forall l, PreOrder (R l)} {D_sym : Symmetric D}.

(** A step of one program, as the others need it. *)
Definition guar (w w' : S * L) : Prop :=
  I w'.1 /\ J w'.1 w'.2 /\
  forall l, D w.2 l -> J w.1 l -> J w'.1 l /\ R l w.1 w'.1 /\ D w'.2 l.

(** The others have moved from [w] to a shared state [s]. *)
Definition meanwhile (w : S * L) (s : S) : Prop := I s /\ J s w.2 /\ R w.2 w.1 s.

(** Every run of [p] from [w], with the others moving before each call, keeps
    the agreement and ends in a state that satisfies [Q]. *)
Fixpoint rg {A} (p : prog A) (Q : outcome exn A -> S * L -> Prop) (w : S * L) : Prop :=
  match p with
  | Ret a => Q (Returned a) w
  | Throw e => Q (Threw e) w
  | Exit => Q Exited w
  | Vis c k => forall s, meanwhile w s -> forall r w', env (s, w.2) c r w' ->
      guar (s, w.2) w' /\ rg (k r) Q w'
  end.

Lemma rg_mono {A} (p : prog A) (P Q : outcome exn A -> S * L -> Prop) w :
  rg p P w -> (forall o w', P o w' -> Q o w') -> rg p Q w.
Proof.
  intros H HPQ. revert w H. induction p as [a|e| |c k IH]; intros w; cbn; auto.
  intros H s Hs r w' He. destruct (H s Hs r w' He) as [Hg Hk]. auto.
Qed.

Lemma rg_bind {A B} (p : prog A) (f : A -> prog B) Q w :
  rg p (fun o w => match o with
                   | Returned a => rg (f a) Q w
                   | Threw e => Q (Threw e) w
                   | Exited => Q Exited w
                   end) w ->
  rg (bind p f) Q w.
Proof.
  revert w. induction p as [a|e| |c k IH]; intros w; cbn; auto.
  intros H s Hs r w' He. destruct (H s Hs r w' He) as [Hg Hk]. auto.
Qed.

Lemma rg_try_catch {A} (p : prog A) (h : exn -> prog A) Q w :
  rg p (fun o w => match o with Threw e => rg (h e) Q w | _ => Q o w end) w -> rg (try_catch p h) Q w.
Proof.
  revert w. induction p as [a|e| |c k IH]; intros w; cbn; auto.
  intros H s Hs r w' He. destruct (H s Hs r w' He) as [Hg Hk]. auto.
Qed.

Lemma rg_try_finally {A} (p : prog A) (f : prog unit) Q w :
  rg p (fun o w =>
    match o with
    | Exited => Q Exited w
    | _ => rg f (fun fo w' => match fo with
                              | Returned _ => Q o w'
                              | Threw e => Q (Threw e) w'
                              | Exited => Q Exited w'
                              end) w
    end) w ->
  rg (try_finally p f) Q w.
Proof.
  revert w. induction p as [a|e| |c k IH]; intros w; cbn; auto.
  - intros H. apply rg_bind. eapply rg_mono; [apply H|]. by intros [].
  - intros H. apply rg_bind. eapply rg_mono; [apply H|]. by intros [].
  - intros H s Hs r w' He. destruct (H s Hs r w' He) as [Hg Hk]. auto.
Qed.

(** One call. *)
Lemma rg_perform (c : cmd) (Q : outcome exn (resp c) -> S * L -> Prop) w :
  (forall s, meanwhile w s -> forall r w', env (s, w.2) c r w' -> guar (s, w.2) w' /\ Q (answer r) w') ->
  rg (perform c) Q w.
Proof. intros H s Hs r w' He. destruct (H s Hs r w' He) as [Hg HQ]. split; [done|]. by destruct r. Qed.

(** A program of calls that keep the agreement wherever they are made. *)
Lemma rg_awaits {A} (P : cmd -> Prop) (p : prog A) w :
  (forall c s l r w', P c -> I s -> J s l -> env (s, l) c r w' -> guar (s, l) w') ->
  awaits True P p -> rg p (fun _ _ => True) w.
Proof.
  intros HP. revert w. induction p as [a|e| |c k IH]; intros w; cbn; auto.
  intros [Hc Hk] s (HI & HJ & _) r w' He. split; [by eapply HP|auto].
Qed.

(** Where a program stands in a system, its end prescribed by [Q]: its private
    state is in order, and it has died, or the rest of it keeps the agreement
    from a moment since which only others have moved. *)
Definition fits {A} (Q : outcome exn A -> S * L -> Prop) (s : S) (t : prog A * L) : Prop :=
  J s t.2 /\ (t.1 = Exit \/ exists s0, R t.2 s0 s /\ rg t.1 Q (s0, t.2)).

Definition fits_all {A} (Q : nat -> outcome exn A -> S * L -> Prop) (st : system) : Prop :=
  I st.1 /\
  (forall i t, st.2 !! i = Some t -> fits (Q i) st.1 t) /\
  forall i j t u, st.2 !! i = Some t -> st.2 !! j = Some u -> i <> j -> D t.2 u.2.

Context (crash_guar : forall w w', I w.1 -> J w.1 w.2 -> crash w w' -> guar w w').

(** A step of the program [i] that keeps the agreement. *)
Lemma fits_insert {A} (Q : nat -> outcome exn A -> S * L -> Prop) s ts i p l s' p' l' :
  fits_all Q (s, ts) -> ts !! i = Some (p, l) -> guar (s, l) (s', l') ->
  (p' = Exit \/ rg p' (Q i) (s', l')) -> fits_all Q (s', <[i := (p', l')]> ts).
Proof.
  intros (HI & Hf & HD) Hi (HI' & HJ' & Hg) Hp. cbn in *.
  assert (forall j t, ts !! j = Some t -> i <> j -> J s' t.2 /\ R t.2 s s' /\ D l' t.2) as Ho.
  { intros j t Hj Hne. apply Hg; [by apply (HD i j _ _ Hi Hj Hne)|]. by apply (Hf j t Hj). }
  split; [done|]. split; cbn.
  - intros j t Hj. apply list_lookup_insert_Some in Hj as [(-> & <- & _)|[Hne Hj]].
    + split; [done|]. destruct Hp as [-> |Hp]; [by left|]. right. exists s'. split; [reflexivity|done].
    + destruct (Ho j t Hj Hne) as (HJt & HRt & _). split; [done|].
      destruct (Hf j t Hj) as [_ [Hx|(s0 & H0 & Hrg)]]; [by left|]. right. exists s0. split; [by etrans|done].
  - intros j k t u Hj Hk Hne.
    apply list_lookup_insert_Some in Hj as [(-> & <- & _)|[Hij Hj]];
      apply list_lookup_insert_Some in Hk as [(-> & <- & _)|[Hik Hk]]; cbn; [done| | |by eapply HD].
    + by apply (Ho k u Hk).
    + symmetry. by apply (Ho j t Hj).
Qed.

Lemma fits_step {A} (Q : nat -> outcome exn A -> S * L -> Prop) st st' :
  sys_move env crash st st' -> fits_all Q st -> fits_all Q st'.
Proof using R_preorder D_sym crash_guar.
  destruct 1 as [s ts i c k l r s' l' Hi He|s ts i c k l s' l' Hi Hc]; intros Hf;
    pose proof Hf as (HI & Hfi & _); destruct (Hfi i _ Hi) as [HJ Hp]; cbn in *.
  - destruct Hp as [Hp|(s0 & HR & Hrg)]; [done|].
    destruct (Hrg s ltac:(by split) r (s', l') He) as [Hg Hk]. by eapply fits_insert; [| |exact Hg|right].
  - eapply fits_insert; [done|done| |by left]. by eapply crash_guar; cbn.
Qed.

(** Programs that keep the agreement keep it together. *)
Lemma fits_steps {A} (Q : nat -> outcome exn A -> S * L -> Prop) st st' :
  rtc (sys_move env crash) st st' -> fits_all Q st -> fits_all Q st'.
Proof using R_preorder D_sym crash_guar. induction 1; eauto using fits_step. Qed.

Lemma fits_start {A} (Q : nat -> outcome exn A -> S * L -> Prop) s (ts : list (prog A * L)) :
  I s -> (forall i p l, ts !! i = Some (p, l) -> J s l /\ rg p (Q i) (s, l)) ->
  (forall i j t u, ts !! i = Some t -> ts !! j = Some u -> i <> j -> D t.2 u.2) ->
  fits_all Q (s, ts).
Proof using R_preorder.
  intros HI Ht HD. split; [done|]. split; [|done]. intros i [p l] Hi. destruct (Ht i p l Hi) as [HJ Hrg].
  split; [done|]. right. exists s. split; [reflexivity|done].
Qed.

(** A relation [T] of programs to private states that their calls keep: such
    programs keep the agreement, and stand in the relation wherever they are. *)
Section Follow.
Context {A : Type} (T : nat -> prog A -> L -> Prop).
Context (HT : forall i c k s l r w', I s -> J s l -> T i (Vis c k) l -> env (s, l) c r w' ->
  guar (s, l) w' /\ T i (k r) w'.2).

Lemma rg_follow i p s l : T i p l -> rg p (fun _ _ => True) (s, l).
Proof using HT.
  revert s l. induction p as [a|e| |c k IH]; intros s l Hp; [done..|].
  intros s1 (HI & HJ & _) r [s2 l2] He. destruct (HT i c k s1 l r (s2, l2) HI HJ Hp He) as [Hg Hk].
  split; [done|]. by apply IH.
Qed.

Definition follows (ts : list (prog A * L)) : Prop :=
  forall i p l, ts !! i = Some (p, l) -> p = Exit \/ T i p l.

Lemma follows_steps Q st st' :
  rtc (sys_move env crash) st st' -> fits_all Q st -> follows st.2 -> fits_all Q st' /\ follows st'.2.
Proof using R_preorder D_sym crash_guar HT.
  induction 1 as [st|st st1 st' H1 _ IH]; intros Hf Hp; [done|].
  apply IH; [by eapply fits_step|]. destruct Hf as (HI & Hfi & _).
  destruct H1 as [s ts i c k l r s' l' Hi He|s ts i c k l s' l' Hi Hc]; intros j p l2 Hj; cbn in *;
    apply list_lookup_insert_Some in Hj as [(-> & [= <- <-] & _)|[_ Hj]]; [|by eapply Hp|by left|by eapply Hp].
  right. destruct (Hp _ _ _ Hi) as [?|HTi]; [done|].
  by destruct (HT j c k s l r (s', l') HI (proj1 (Hfi _ _ Hi)) HTi He) as [_ Hk].
Qed.

(** What every step that keeps the agreement says of the shared state. *)
Lemma follows_shared (P : S -> S -> Prop) `{!PreOrder P} Q st st' :
  (forall w w', I w.1 -> J w.1 w.2 -> guar w w' -> P w.1 w'.1) ->
  rtc (sys_move env crash) st st' -> fits_all Q st -> follows st.2 -> P st.1 st'.1.
Proof using R_preorder D_sym crash_guar HT.
  intros HP. induction 1 as [st|st st1 st' H1 _ IH]; intros Hf Hp; [done|].
  destruct (follows_steps Q st st1 (rtc_once _ _ H1) Hf Hp) as [Hf1 Hp1]. etrans; [|by apply IH].
  destruct Hf as (HI & Hfi & _).
  destruct H1 as [s ts i c k l r s' l' Hi He|s ts i c k l s' l' Hi Hc]; cbn in *; destruct (Hfi i _ Hi) as [HJ _].
  - destruct (Hp _ _ _ Hi) as [?|HTi]; [done|].
    apply (HP (s, l) (s', l')); [done..|]. by destruct (HT i c k s l r (s', l') HI HJ HTi He) as [Hg _].
  - apply (HP (s, l) (s', l')); [done..|]. by apply crash_guar.
Qed.
End Follow.

(** A program that has returned. *)
Lemma fits_returned {A} (Q : nat -> outcome exn A -> S * L -> Prop) s ts i a l :
  fits_all Q (s, ts) -> ts !! i = Some (Ret a, l) ->
  J s l /\ exists s0, R l s0 s /\ Q i (Returned a) (s0, l).
Proof. intros (_ & Hf & _) Hi. by destruct (Hf i _ Hi) as [HJ [Hx|H]]. Qed.
End Rely.

Section Ghost.
Context {cmd : Type} {resp : cmd -> Type} {exn : Type} {A S L G : Type}.
Abbreviation prog := (prog resp exn).
Context (env : S * L -> forall c : cmd, exn + resp c -> S * L -> Prop) (crash : S * L -> S * L -> Prop).
(** What a call, and the death of the process, make of the ghost. *)
Context (note : S * L -> forall c : cmd, exn + resp c -> S * L -> G -> G) (gone : S * L -> S * L -> G -> G).

Definition ghost_env (w : S * (L * G)) (c : cmd) (r : exn + resp c) (w' : S * (L * G)) : Prop :=
  env (w.1, w.2.1) c r (w'.1, w'.2.1) /\ w'.2.2 = note (w.1, w.2.1) c r (w'.1, w'.2.1) w.2.2.

Definition ghost_crash (w w' : S * (L * G)) : Prop :=
  crash (w.1, w.2.1) (w'.1, w'.2.1) /\ w'.2.2 = gone (w.1, w.2.1) (w'.1, w'.2.1) w.2.2.

Definition erase (ts : list (prog A * (L * G))) : list (prog A * L) := (fun t => (t.1, t.2.1)) <$> ts.

Lemma ghost_step s gts st' :
  sys_move env crash (s, erase gts) st' ->
  exists gts', sys_move ghost_env ghost_crash (s, gts) (st'.1, gts') /\ st'.2 = erase gts'.
Proof.
  remember (s, erase gts) as st eqn:E.
  destruct 1 as [s1 ts i c k l r s' l' Hi He|s1 ts i c k l s' l' Hi Hc]; injection E as -> ->;
    unfold erase in Hi; apply list_lookup_fmap_Some_1 in Hi as ([p [l0 g]] & [= <- ->] & Hi); cbn in *.
  - exists (<[i := (k r, (l', note (s, l0) c r (s', l') g))]> gts). split; [|unfold erase; by rewrite list_fmap_insert].
    by eapply move_await; [exact Hi|].
  - exists (<[i := (Exit, (l', gone (s, l0) (s', l') g))]> gts). split; [|unfold erase; by rewrite list_fmap_insert].
    by eapply move_crash; [exact Hi|].
Qed.

(** A run is the run of a system with ghosts. *)
Lemma ghost_steps s gts st' :
  rtc (sys_move env crash) (s, erase gts) st' ->
  exists gts', rtc (sys_move ghost_env ghost_crash) (s, gts) (st'.1, gts') /\ st'.2 = erase gts'.
Proof.
  intros H. remember (s, erase gts) as st eqn:E. revert s gts E.
  induction H as [st|st st1 st' H1 _ IH]; intros s gts ->; [by exists gts|].
  destruct (ghost_step s gts st1 H1) as (gts1 & Hg & E). destruct st1 as [s1 ts1]. cbn in *. subst ts1.
  destruct (IH s1 gts1 eq_refl) as (gts' & Hg' & E'). exists gts'. split; [|done]. by eapply rtc_l.
Qed.

(** The interpreter with ghosts. *)
Definition ghostly (h : S * L -> forall c : cmd, (exn + resp c) * (S * L)) (w : S * (L * G)) (c : cmd) :
    (exn + resp c) * (S * (L * G)) :=
  let x := h (w.1, w.2.1) c in (x.1, (x.2.1, (x.2.2, note (w.1, w.2.1) c x.1 x.2 w.2.2))).

Lemma ghostly_handles h : handles env h -> handles ghost_env (ghostly h).
Proof.
  intros Hh w c. specialize (Hh (w.1, w.2.1) c). unfold ghost_env, ghostly.
  destruct (h (w.1, w.2.1) c) as [r [s' l']]. done.
Qed.
End Ghost.

#[global] Arguments rg : simpl never.
