(* ===== verification/Config.v ===== *)
(** * Configuration and retry schedule

    [src/src/shared/config.ts] and [src/src/queue/backoff.ts]: the parsed
    environment with its defaults, the conditions zod checks at start-up, and
    the jittered backoff computed from [BACKOFF_BASE_MS]. *)

From S2P Require Import Prelude.
From Stdlib Require Import ZArith Lia String Ascii.
From stdpp Require Import prelude strings.

Open Scope Z_scope.

(** A JavaScript number that is an integer, or [NaN]. *)
Inductive jsnum := NaN | Num (z : Z).

#[export] Instance jsnum_eq_dec : EqDecision jsnum.
Proof. solve_decision. Defined.

Inductive node_env := development | test | production.

#[export] Instance node_env_eq_dec : EqDecision node_env.
Proof. solve_decision. Defined.

(** [z.infer<typeof schema>]. *)
Record Config := {
  NODE_ENV : node_env;
  DATABASE_URL : string;
  REDIS_URL : string;
  PORT : Z;
  WORKER_CONCURRENCY : Z;
  HTTP_TIMEOUT_MS : Z;
  LOCK_TTL_MS : Z;
  LOCK_HEARTBEAT_INTERVAL_MS : Z;
  BULLMQ_LOCK_DURATION_MS : Z;
  BULLMQ_STALLED_INTERVAL_MS : Z;
  RECONCILER_INTERVAL_MS : Z;
  RECONCILER_GRACE_SECONDS : Z;
  RECONCILER_BATCH_SIZE : Z;
  REMOVE_ON_COMPLETE_AGE_S : Z;
  REMOVE_ON_COMPLETE_COUNT : Z;
  BACKOFF_BASE_MS : list jsnum;
  BACKPRESSURE_QUEUE_LIMIT : Z;
  QUEUE_DEPTH_CACHE_MS : Z;
  CB_FAIL_THRESHOLD : Z;
  CB_WINDOW_SECONDS : Z;
  CB_OPEN_SECONDS : Z;
  CB_PROBE_SECONDS : Z;
  RL_MAX_INFLIGHT : Z;
  RL_TTL_SECONDS : Z;
  RL_RATE_LIMITED_DELAY_MS : Z;
  IDEM_TTL_SECONDS : Z;
  MAX_PAYLOAD_BYTES : Z;
  MAX_RESPONSE_BODY_BYTES : Z;
  ALERT_WEBHOOK_URL : option string
}.

Section Parsing.
(** [process.env], the conversion [Number] of the language, and zod's URL
    test. *)
Context (env : string -> option string) (Number : string -> jsnum) (is_url : string -> bool).

(** [z.coerce.number().int().positive().default(d)]. *)
Definition positive_int (name : string) (d : Z) : option Z :=
  match env name with
  | None => Some d
  | Some s => match Number s with
              | Num n => if 0 <? n then Some n else None
              | NaN => None
              end
  end.

(** [z.string().min(1)], with [.default(d)] when [d] is given. *)
Definition nonempty_string (name : string) (d : option string) : option string :=
  match env name with
  | None => d
  | Some s => if String.eqb s "" then None else Some s
  end.

(** [z.enum([...]).default('development')]. *)
Definition parse_node_env : option node_env :=
  match env "NODE_ENV" with
  | None => Some development
  | Some "development" => Some development
  | Some "test" => Some test
  | Some "production" => Some production
  | Some _ => None
  end.

(** [z.string().default('10000,...').transform((s) => s.split(',').map(Number))]. *)
Definition backoff_table : list jsnum :=
  map Number (str_split "," (default "10000,30000,120000,600000,3600000" (env "BACKOFF_BASE_MS"))).

(** [z.string().url().optional()]. *)
Definition optional_url (name : string) : option (option string) :=
  match env name with
  | None => Some None
  | Some s => if is_url s then Some (Some s) else None
  end.

(** [schema.safeParse(process.env)]; [None] is the failure that makes the
    process print the errors and exit. *)
Definition load_config : option Config :=
  NODE_ENV' ← parse_node_env;
  DATABASE_URL' ← nonempty_string "DATABASE_URL" None;
  REDIS_URL' ← nonempty_string "REDIS_URL" (Some "redis://localhost:6379");
  PORT' ← positive_int "PORT" 3000;
  WORKER_CONCURRENCY' ← positive_int "WORKER_CONCURRENCY" 50;
  HTTP_TIMEOUT_MS' ← positive_int "HTTP_TIMEOUT_MS" 10000;
  LOCK_TTL_MS' ← positive_int "LOCK_TTL_MS" 60000;
  LOCK_HEARTBEAT_INTERVAL_MS' ← positive_int "LOCK_HEARTBEAT_INTERVAL_MS" 20000;
  BULLMQ_LOCK_DURATION_MS' ← positive_int "BULLMQ_LOCK_DURATION_MS" 90000;
  BULLMQ_STALLED_INTERVAL_MS' ← positive_int "BULLMQ_STALLED_INTERVAL_MS" 30000;
  RECONCILER_INTERVAL_MS' ← positive_int "RECONCILER_INTERVAL_MS" 30000;
  RECONCILER_GRACE_SECONDS' ← positive_int "RECONCILER_GRACE_SECONDS" 60;
  RECONCILER_BATCH_SIZE' ← positive_int "RECONCILER_BATCH_SIZE" 500;
  REMOVE_ON_COMPLETE_AGE_S' ← positive_int "REMOVE_ON_COMPLETE_AGE_S" 3600;
  REMOVE_ON_COMPLETE_COUNT' ← positive_int "REMOVE_ON_COMPLETE_COUNT" 10000;
  BACKPRESSURE_QUEUE_LIMIT' ← positive_int "BACKPRESSURE_QUEUE_LIMIT" 50000;
  QUEUE_DEPTH_CACHE_MS' ← positive_int "QUEUE_DEPTH_CACHE_MS" 1000;
  CB_FAIL_THRESHOLD' ← positive_int "CB_FAIL_THRESHOLD" 20;
  CB_WINDOW_SECONDS' ← positive_int "CB_WINDOW_SECONDS" 300;
  CB_OPEN_SECONDS' ← positive_int "CB_OPEN_SECONDS" 60;
  CB_PROBE_SECONDS' ← positive_int "CB_PROBE_SECONDS" 10;
  RL_MAX_INFLIGHT' ← positive_int "RL_MAX_INFLIGHT" 50;
  RL_TTL_SECONDS' ← positive_int "RL_TTL_SECONDS" 120;
  RL_RATE_LIMITED_DELAY_MS' ← positive_int "RL_RATE_LIMITED_DELAY_MS" 5000;
  IDEM_TTL_SECONDS' ← positive_int "IDEM_TTL_SECONDS" 86400;
  MAX_PAYLOAD_BYTES' ← positive_int "MAX_PAYLOAD_BYTES" (256 * 1024);
  MAX_RESPONSE_BODY_BYTES' ← positive_int "MAX_RESPONSE_BODY_BYTES" (4 * 1024);
  ALERT_WEBHOOK_URL' ← optional_url "ALERT_WEBHOOK_URL";
  Some {|
    NODE_ENV := NODE_ENV'; DATABASE_URL := DATABASE_URL'; REDIS_URL := REDIS_URL';
    PORT := PORT'; WORKER_CONCURRENCY := WORKER_CONCURRENCY';
    HTTP_TIMEOUT_MS := HTTP_TIMEOUT_MS'; LOCK_TTL_MS := LOCK_TTL_MS';
    LOCK_HEARTBEAT_INTERVAL_MS := LOCK_HEARTBEAT_INTERVAL_MS';
    BULLMQ_LOCK_DURATION_MS := BULLMQ_LOCK_DURATION_MS';
    BULLMQ_STALLED_INTERVAL_MS := BULLMQ_STALLED_INTERVAL_MS';
    RECONCILER_INTERVAL_MS := RECONCILER_INTERVAL_MS';
    RECONCILER_GRACE_SECONDS := RECONCILER_GRACE_SECONDS';
    RECONCILER_BATCH_SIZE := RECONCILER_BATCH_SIZE';
    REMOVE_ON_COMPLETE_AGE_S := REMOVE_ON_COMPLETE_AGE_S';
    REMOVE_ON_COMPLETE_COUNT := REMOVE_ON_COMPLETE_COUNT';
    BACKOFF_BASE_MS := backoff_table;
    BACKPRESSURE_QUEUE_LIMIT := BACKPRESSURE_QUEUE_LIMIT';
    QUEUE_DEPTH_CACHE_MS := QUEUE_DEPTH_CACHE_MS';
    CB_FAIL_THRESHOLD := CB_FAIL_THRESHOLD'; CB_WINDOW_SECONDS := CB_WINDOW_SECONDS';
    CB_OPEN_SECONDS := CB_OPEN_SECONDS'; CB_PROBE_SECONDS := CB_PROBE_SECONDS';
    RL_MAX_INFLIGHT := RL_MAX_INFLIGHT'; RL_TTL_SECONDS := RL_TTL_SECONDS';
    RL_RATE_LIMITED_DELAY_MS := RL_RATE_LIMITED_DELAY_MS';
    IDEM_TTL_SECONDS := IDEM_TTL_SECONDS';
    MAX_PAYLOAD_BYTES := MAX_PAYLOAD_BYTES';
    MAX_RESPONSE_BODY_BYTES := MAX_RESPONSE_BODY_BYTES';
    ALERT_WEBHOOK_URL := ALERT_WEBHOOK_URL' |}.
End Parsing.

(** What start-up guarantees of a configuration the process runs with. *)
Record config_ok (c : Config) : Prop := {
  ok_http_timeout : 0 < HTTP_TIMEOUT_MS c;
  ok_lock_ttl : 0 < LOCK_TTL_MS c;
  ok_heartbeat : 0 < LOCK_HEARTBEAT_INTERVAL_MS c;
  ok_grace : 0 < RECONCILER_GRACE_SECONDS c;
  ok_batch : 0 < RECONCILER_BATCH_SIZE c;
  ok_backoff : BACKOFF_BASE_MS c <> [];
  ok_limit : 0 < BACKPRESSURE_QUEUE_LIMIT c;
  ok_cache : 0 < QUEUE_DEPTH_CACHE_MS c;
  ok_threshold : 0 < CB_FAIL_THRESHOLD c;
  ok_window : 0 < CB_WINDOW_SECONDS c;
  ok_open : 0 < CB_OPEN_SECONDS c;
  ok_probe : 0 < CB_PROBE_SECONDS c;
  ok_inflight : 0 < RL_MAX_INFLIGHT c;
  ok_rl_ttl : 0 < RL_TTL_SECONDS c;
  ok_idem_ttl : 0 < IDEM_TTL_SECONDS c;
  ok_payload : 0 < MAX_PAYLOAD_BYTES c;
  ok_body : 0 < MAX_RESPONSE_BODY_BYTES c
}.

(** The integer settings of config.ts: the variable, its default, the field. *)
Definition int_settings : list (string * Z * (Config -> Z)) := [
  ("PORT", 3000, PORT); ("WORKER_CONCURRENCY", 50, WORKER_CONCURRENCY); ("HTTP_TIMEOUT_MS", 10000, HTTP_TIMEOUT_MS);
  ("LOCK_TTL_MS", 60000, LOCK_TTL_MS); ("LOCK_HEARTBEAT_INTERVAL_MS", 20000, LOCK_HEARTBEAT_INTERVAL_MS);
  ("BULLMQ_LOCK_DURATION_MS", 90000, BULLMQ_LOCK_DURATION_MS);
  ("BULLMQ_STALLED_INTERVAL_MS", 30000, BULLMQ_STALLED_INTERVAL_MS);
  ("RECONCILER_INTERVAL_MS", 30000, RECONCILER_INTERVAL_MS); ("RECONCILER_GRACE_SECONDS", 60, RECONCILER_GRACE_SECONDS);
  ("RECONCILER_BATCH_SIZE", 500, RECONCILER_BATCH_SIZE); ("REMOVE_ON_COMPLETE_AGE_S", 3600, REMOVE_ON_COMPLETE_AGE_S);
  ("REMOVE_ON_COMPLETE_COUNT", 10000, REMOVE_ON_COMPLETE_COUNT);
  ("BACKPRESSURE_QUEUE_LIMIT", 50000, BACKPRESSURE_QUEUE_LIMIT); ("QUEUE_DEPTH_CACHE_MS", 1000, QUEUE_DEPTH_CACHE_MS);
  ("CB_FAIL_THRESHOLD", 20, CB_FAIL_THRESHOLD); ("CB_WINDOW_SECONDS", 300, CB_WINDOW_SECONDS);
  ("CB_OPEN_SECONDS", 60, CB_OPEN_SECONDS); ("CB_PROBE_SECONDS", 10, CB_PROBE_SECONDS);
  ("RL_MAX_INFLIGHT", 50, RL_MAX_INFLIGHT); ("RL_TTL_SECONDS", 120, RL_TTL_SECONDS);
  ("RL_RATE_LIMITED_DELAY_MS", 5000, RL_RATE_LIMITED_DELAY_MS); ("IDEM_TTL_SECONDS", 86400, IDEM_TTL_SECONDS);
  ("MAX_PAYLOAD_BYTES", 256 * 1024, MAX_PAYLOAD_BYTES); ("MAX_RESPONSE_BODY_BYTES", 4 * 1024, MAX_RESPONSE_BODY_BYTES)].

Section Reading.
Context (env : string -> option string) (Number : string -> jsnum) (is_url : string -> bool).

(** The value an integer setting has: positive, the default when the variable
    is not set, its number when it is. *)
Definition int_read (name : string) (d v : Z) : Prop :=
  0 < v /\ match env name with None => v = d | Some s => Number s = Num v end.

(** What a configuration has to do with the environment it was read from. The
    entries of the retry table may be any numbers, [NaN] as well, and no
    setting is compared with another. *)
Record settings_read (c : Config) : Prop := {
  sr_node : match env "NODE_ENV" with
            | None => NODE_ENV c = development
            | Some s => s = match NODE_ENV c with development => "development" | test => "test" | production => "production" end
            end;
  sr_database : env "DATABASE_URL" = Some (DATABASE_URL c) /\ DATABASE_URL c <> "";
  sr_redis : default "redis://localhost:6379" (env "REDIS_URL") = REDIS_URL c /\ REDIS_URL c <> "";
  sr_ints : Forall (fun x => int_read x.1.1 x.1.2 (x.2 c)) int_settings;
  sr_table : BACKOFF_BASE_MS c =
    map Number (str_split "," (default "10000,30000,120000,600000,3600000" (env "BACKOFF_BASE_MS")));
  sr_alert : env "ALERT_WEBHOOK_URL" = ALERT_WEBHOOK_URL c /\ forall u, ALERT_WEBHOOK_URL c = Some u -> is_url u = true
}.

Lemma positive_int_read name d v : 0 < d -> positive_int env Number name d = Some v <-> int_read name d v.
Proof.
  intros Hd. unfold positive_int, int_read. destruct (env name) as [s|].
  - destruct (Number s) as [|n]; [split; [done|by intros [_ ?]]|]. destruct (Z.ltb_spec 0 n).
    + split; [by intros [= ->]|by intros [_ [= ->]]].
    + split; [done|]. intros [? [= ->]]. lia.
  - split; [by intros [= ->]|by intros [_ ->]].
Qed.

Lemma node_env_read v : parse_node_env env = Some v <->
  match env "NODE_ENV" with
  | None => v = development
  | Some s => s = match v with development => "development" | test => "test" | production => "production" end
  end.
Proof.
  unfold parse_node_env. destruct (env "NODE_ENV") as [s|]; [|by split; [intros [= <-]|intros ->]].
  split; [|intros ->; by destruct v]. intros H. repeat case_match; simplify_eq/=; done.
Qed.

Lemma database_read v : nonempty_string env "DATABASE_URL" None = Some v <-> env "DATABASE_URL" = Some v /\ v <> "".
Proof.
  unfold nonempty_string. destruct (env "DATABASE_URL") as [s|]; [|naive_solver].
  destruct (String.eqb_spec s ""); naive_solver.
Qed.

Lemma redis_read v : nonempty_string env "REDIS_URL" (Some "redis://localhost:6379") = Some v <->
  default "redis://localhost:6379" (env "REDIS_URL") = v /\ v <> "".
Proof.
  unfold nonempty_string. destruct (env "REDIS_URL") as [s|]; cbn; [destruct (String.eqb_spec s ""); naive_solver|].
  by split; [intros [= <-]|intros [<- _]].
Qed.

Lemma alert_read v : optional_url env is_url "ALERT_WEBHOOK_URL" = Some v <->
  env "ALERT_WEBHOOK_URL" = v /\ forall u, v = Some u -> is_url u = true.
Proof.
  unfold optional_url. destruct (env "ALERT_WEBHOOK_URL") as [s|]; [|by split; [intros [= <-]|intros [<- _]]].
  destruct (is_url s) eqn:E; split.
  - intros [= <-]. split; [done|]. by intros u [= <-].
  - by intros [<- _].
  - done.
  - intros [<- H]. by rewrite (H s eq_refl) in E.
Qed.

(** Reading the schema field by field is [load_config]. *)
Lemma load_config_read c : load_config env Number is_url = Some c <-> settings_read c.
Proof.
  unfold load_config. split.
  - intros H. repeat match type of H with
      | mbind _ _ = Some _ => apply bind_Some in H as (? & ? & H)
      end.
    injection H as <-. repeat match goal with
      | H : positive_int _ _ _ _ = Some _ |- _ => apply positive_int_read in H; [|lia]
      end.
    constructor; cbn -[Z.mul].
    + by apply node_env_read.
    + by apply database_read.
    + by apply redis_read.
    + unfold int_settings. repeat (apply Forall_cons; split; [assumption|]). apply Forall_nil_2.
    + done.
    + by apply alert_read.
  - intros [H1%node_env_read H2%database_read H3%redis_read Hall H5 H6%alert_read]. unfold int_settings in Hall.
    rewrite H1, H2, H3, H6. destruct c. cbn -[Z.mul] in *. repeat (apply Forall_cons in Hall as [?H Hall]). cbn -[Z.mul] in *.
    repeat match goal with
      | H : int_read _ _ _ |- _ => apply positive_int_read in H; [|lia]; rewrite H; clear H; cbn -[Z.mul]
      end.
    by rewrite H5.
Qed.

Lemma settings_ok c : settings_read c -> config_ok c.
Proof.
  intros [_ _ _ Hall H5 _]. unfold int_settings in Hall. repeat (apply Forall_cons in Hall as [[?H _] Hall]).
  constructor; cbn in *; try assumption. rewrite H5. intros E%map_eq_nil. by apply str_split_nonempty in E.
Qed.
End Reading.

(** [Math.floor(base / 2 + Math.random() * (base / 2))], with
    [Math.random() = u / 2^53], computed exactly. The source computes it in
    doubles, whose rounding of the product and of the sum can make the result
    one more, and the base itself: the bounds below include both ends, and hold
    of either. *)
Definition equal_jitter (u base : Z) : Z := base * (2 ^ 53 + u) / 2 ^ 54.

(** [webhookBackoff(attemptsMade)]; [u] is the draw of [Math.random()]. The
    last entry exists because the table is never empty, hence the [!] of the
    source; its [None] case would be [undefined / 2], that is [NaN]. *)
Definition webhookBackoff (cfg : Config) (u attemptsMade : Z) : jsnum :=
  let table := BACKOFF_BASE_MS cfg in
  let base :=
    match js_at table (attemptsMade - 1) with
    | Some b => b
    | None => default NaN (js_at table (Z.of_nat (length table) - 1))
    end in
  match base with
  | Num b => Num (equal_jitter u b)
  | NaN => NaN
  end.

Lemma equal_jitter_bounds (u b : Z) :
  0 <= b -> 0 <= u < 2 ^ 53 -> b / 2 <= equal_jitter u b <= b.
Proof.
  intros Hb Hu. unfold equal_jitter. split.
  - replace (b / 2) with (b * 2 ^ 53 / 2 ^ 54).
    + apply Z.div_le_mono; [lia|]. nia.
    + replace (2 ^ 54) with (2 * 2 ^ 53) by done. rewrite Z.div_mul_cancel_r; lia.
  - apply Z.div_le_upper_bound; [lia|]. nia.
Qed.

(** ** Properties *)

Lemma positive_int_pos env Number name d n :
  0 < d -> positive_int env Number name d = Some n -> 0 < n.
Proof.
  unfold positive_int. intros Hd H. repeat case_match; simplify_eq/=; try lia.
Qed.

Lemma backoff_table_nonempty env Number : backoff_table env Number <> [].
Proof.
  unfold backoff_table. intros H. apply map_eq_nil in H. by apply str_split_nonempty in H.
Qed.

(** C37: what start-up checks of the environment, and nothing else. A process
    runs with a configuration exactly when the configuration is the reading of
    its environment variables: the mode is one of three names, the database
    URL is given and the Redis URL is not empty, each of the 24 integer
    settings is its default or the positive number its variable holds, and the
    alert URL, when given, passes the URL test. So every integer setting is
    positive and the retry table has an entry. Neither the orderings of
    SCHEMA.md section 4 nor the entries of the table are checked
    ([load_config_unordered]). *)
Theorem load_config_ok (env : string -> option string) (Number : string -> jsnum)
    (is_url : string -> bool) (c : Config) :
  (load_config env Number is_url = Some c <-> settings_read env Number is_url c) /\
  (load_config env Number is_url = Some c ->
     config_ok c /\ Forall (fun x => 0 < x.2 c) int_settings).
Proof.
  split; [apply load_config_read|]. intros H%load_config_read. split; [by eapply settings_ok|].
  destruct H as [_ _ _ H _ _]. eapply Forall_impl; [exact H|]. by intros x [Hx _].
Qed.

(** The environment of a bare deployment: only [DATABASE_URL] is set. *)
Definition bare_env (name : string) : option string :=
  if String.eqb name "DATABASE_URL" then Some "postgres://db" else None.

(** [Number] on decimal integer literals. *)
Definition decimal_Number (s : string) : jsnum :=
  match read_Z s with Some z => Num z | None => NaN end.

(** The configuration of the defaults of config.ts. *)
Definition default_config : Config :=
  default (Build_Config development "" "" 0 0 0 0 0 0 0 0 0 0 0 0 [] 0 0 0 0 0 0 0 0 0 0 0 0 None)
    (load_config bare_env decimal_Number (fun _ => true)).

Lemma default_config_loaded :
  load_config bare_env decimal_Number (fun _ => true) = Some default_config.
Proof. vm_compute. reflexivity. Qed.

Lemma load_config_ok_witness :
  load_config bare_env decimal_Number (fun _ => true) = Some default_config /\
  config_ok default_config.
Proof.
  split; [vm_compute; reflexivity|].
  exact (proj1 (proj2 (load_config_ok bare_env decimal_Number (fun _ => true) default_config) default_config_loaded)).
Defined.

Lemma default_config_ok : config_ok default_config.
Proof.
  constructor; vm_compute; congruence.
Qed.

(** The orderings between timeouts of SCHEMA.md §4. *)
Definition timing_ordered (c : Config) : Prop :=
  HTTP_TIMEOUT_MS c < LOCK_TTL_MS c /\
  2 * LOCK_HEARTBEAT_INTERVAL_MS c < LOCK_TTL_MS c /\
  HTTP_TIMEOUT_MS c + 20000 < BULLMQ_LOCK_DURATION_MS c /\
  1 < RECONCILER_GRACE_SECONDS c /\
  3600 <= REMOVE_ON_COMPLETE_AGE_S c.

(** The defaults satisfy every ordering the design depends on (HTTP
    timeout below the lock TTL, two heartbeats within one TTL, BullMQ's job
    lock above the worst processing time, ...). *)
Theorem default_config_ordered : timing_ordered default_config.
Proof. unfold timing_ordered. vm_compute. repeat split; congruence. Qed.

(** Nothing checks the orderings, nor that the retry table holds numbers: a
    lock that ends before the request does, with no delay between the tries,
    is loaded. *)
Definition loose_env (name : string) : option string :=
  if String.eqb name "LOCK_TTL_MS" then Some "1000"
  else if String.eqb name "BACKOFF_BASE_MS" then Some "abc" else bare_env name.

Theorem load_config_unordered :
  exists c, load_config loose_env decimal_Number (fun _ => true) = Some c /\
    ~ timing_ordered c /\ LOCK_TTL_MS c < HTTP_TIMEOUT_MS c /\ BACKOFF_BASE_MS c = [NaN].
Proof.
  eexists. split; [vm_compute; reflexivity|]. split; [|by vm_compute]. intros [H _]. by vm_compute in H.
Qed.

(** The entry of the retry table that attempt [n] uses: the [n]-th, and the
    last one from there on. *)
Definition backoff_entry (table : list jsnum) (n : Z) : option jsnum :=
  if (1 <=? n) && (n <=? Z.of_nat (length table)) then table !! Z.to_nat (n - 1)
  else last table.

Lemma js_at_length_last {A} (l : list A) :
  js_at l (Z.of_nat (length l) - 1) = last l.
Proof.
  destruct l as [|x l]; [done|].
  rewrite js_at_nonneg by (cbn [length]; lia). rewrite last_lookup. f_equal.
  cbn [length]. lia.
Qed.

Lemma webhookBackoff_entry cfg u n :
  webhookBackoff cfg u n =
  match backoff_entry (BACKOFF_BASE_MS cfg) n with
  | Some (Num b) => Num (equal_jitter u b)
  | _ => NaN
  end.
Proof.
  unfold webhookBackoff, backoff_entry. rewrite js_at_length_last.
  destruct (Z.leb_spec 1 n); cbn [andb].
  - rewrite js_at_nonneg by lia.
    destruct (Z.leb_spec n (Z.of_nat (length (BACKOFF_BASE_MS cfg)))).
    + destruct (lookup_lt_is_Some_2 (BACKOFF_BASE_MS cfg) (Z.to_nat (n - 1))) as [b Hb]; [lia|].
      rewrite Hb. by destruct b.
    + rewrite lookup_ge_None_2 by lia. by destruct (last _) as [[]|].
  - unfold js_at. destruct (Z.ltb_spec (n - 1) 0); [|lia].
    by destruct (last _) as [[]|].
Qed.

(** C38: when the retry table holds non-negative integers, the delay before a
    retry is defined for every attempt number (0 and numbers past the table
    included) and lies between half of the attempt's table entry and the
    entry itself, for every random draw. *)
Theorem webhookBackoff_bounds (cfg : Config) (u n : Z) :
  BACKOFF_BASE_MS cfg <> [] ->
  Forall (fun b => exists z, b = Num z /\ 0 <= z) (BACKOFF_BASE_MS cfg) ->
  0 <= u < 2 ^ 53 ->
  exists b d, backoff_entry (BACKOFF_BASE_MS cfg) n = Some (Num b) /\
    webhookBackoff cfg u n = Num d /\ b / 2 <= d <= b.
Proof.
  intros Hne Hall Hu. rewrite webhookBackoff_entry.
  assert (exists x, backoff_entry (BACKOFF_BASE_MS cfg) n = Some x /\ x ∈ BACKOFF_BASE_MS cfg)
    as (x & Hx & Hin).
  { unfold backoff_entry. destruct (Z.leb_spec 1 n); cbn [andb]; [destruct (Z.leb_spec n (Z.of_nat (length (BACKOFF_BASE_MS cfg))))|].
    - destruct (lookup_lt_is_Some_2 (BACKOFF_BASE_MS cfg) (Z.to_nat (n - 1))) as [b Hb]; [lia|].
      exists b. split; [done|]. apply list_elem_of_lookup. eauto.
    - destruct (last (BACKOFF_BASE_MS cfg)) as [b|] eqn:E; [|by apply last_None in E].
      exists b. split; [done|]. by apply last_Some_elem_of.
    - destruct (last (BACKOFF_BASE_MS cfg)) as [b|] eqn:E; [|by apply last_None in E].
      exists b. split; [done|]. by apply last_Some_elem_of. }
  rewrite Forall_forall in Hall. destruct (Hall x Hin) as (b & -> & Hb). rewrite Hx.
  exists b, (equal_jitter u b). split; [done|]. split; [done|]. by apply equal_jitter_bounds.
Qed.

Lemma webhookBackoff_bounds_witness :
  exists b d, backoff_entry (BACKOFF_BASE_MS default_config) 6 = Some (Num b) /\
    webhookBackoff default_config (2 ^ 52) 6 = Num d /\ b / 2 <= d <= b.
Proof.
  apply (webhookBackoff_bounds default_config (2 ^ 52) 6).
  - vm_compute. congruence.
  - vm_compute. repeat constructor; eexists; (split; [reflexivity|]); intros H; discriminate H.
  - lia.
Defined.
