(* ===== verification/Json.v ===== *)
(** * JSON values and [JSON.stringify]

    The part of the language's JSON the sources use: the values that payloads
    and bodies are made of, and their compact printing. A number is kept as
    the text JavaScript prints for it. *)

From S2P Require Import Prelude.
From Stdlib Require Import String Ascii.
From stdpp Require Import prelude strings.

#[local] Set Warnings "-register-all".

Inductive json :=
| JNull
| JBool (b : bool)
| JNum (text : string)
| JStr (s : string)
| JArr (l : list json)
| JObj (fields : list (string * json)).

(** A hexadecimal digit, lower case, as [JSON.stringify] prints escapes and
    [Buffer.toString('hex')] prints bytes. *)
Definition hex_digit (n : nat) : ascii :=
  nth n ["0"; "1"; "2"; "3"; "4"; "5"; "6"; "7"; "8"; "9"; "a"; "b"; "c"; "d"; "e"; "f"]%char "0"%char.

(** [buffer.toString('hex')]. *)
Fixpoint to_hex (bytes : string) : string :=
  match bytes with
  | EmptyString => ""
  | String c s => String (hex_digit (nat_of_ascii c / 16)) (String (hex_digit (nat_of_ascii c mod 16)) (to_hex s))
  end.

(** The double quote character. *)
Definition dquote : ascii := ascii_of_nat 34.

(** The escape of one character inside a JSON string. *)
Definition json_escape (c : ascii) : string :=
  let n := nat_of_ascii c in
  if Ascii.eqb c dquote then String "\" (String dquote "")
  else if Ascii.eqb c "\" then String "\" (String "\" "")
  else if n =? 8 then "\b"
  else if n =? 9 then "\t"
  else if n =? 10 then "\n"
  else if n =? 12 then "\f"
  else if n =? 13 then "\r"
  else if n <? 32 then "\u00" ++s String (hex_digit (n / 16)) (String (hex_digit (n mod 16)) "")
  else String c "".

Fixpoint json_escape_all (s : string) : string :=
  match s with
  | EmptyString => ""
  | String c s => json_escape c ++s json_escape_all s
  end.

Definition json_quote (s : string) : string :=
  String dquote (json_escape_all s ++s String dquote "").

(** [JSON.stringify(v)]. *)
Fixpoint stringify (v : json) : string :=
  match v with
  | JNull => "null"
  | JBool b => if b then "true" else "false"
  | JNum t => t
  | JStr s => json_quote s
  | JArr l => "[" ++s str_join "," (map stringify l) ++s "]"
  | JObj fs =>
      "{" ++s str_join "," (map (fun '(k, v) => json_quote k ++s ":" ++s stringify v) fs) ++s "}"
  end.

(** A value that may be [null]. *)
Definition opt_json {A} (f : A -> json) (o : option A) : json :=
  match o with Some x => f x | None => JNull end.
