(* ===== verification/Parse.v ===== *)
(** * [JSON.parse]

    The parser of the language, for the texts the sources read back: cursors
    and request bodies. A text decoded from a [Buffer] is kept as its UTF-8
    bytes, one per character; an object as the fields of its text, in their
    order (the last of a name counts, [field]).

    [JSON_parse] needs no fuel of its caller: every recursive call consumes a
    character, so the length of the text is enough ([parse_stringify]). *)

From S2P Require Import Prelude Json.
From Stdlib Require Import ZArith Lia String Ascii.
From stdpp Require Import prelude strings.

(** A property of a parsed JSON object: the last field of that name. *)
Definition field (name : string) (fs : list (string * json)) : option json :=
  snd <$> last (filter (fun f => f.1 = name) fs).

(** ** Characters *)

Definition is_space (c : ascii) : bool :=
  let n := nat_of_ascii c in (n =? 32) || (n =? 9) || (n =? 10) || (n =? 13).

Definition is_digit (c : ascii) : bool :=
  let n := nat_of_ascii c in (48 <=? n) && (n <=? 57).

Fixpoint skip_ws (s : string) : string :=
  match s with
  | String c r => if is_space c then skip_ws r else s
  | EmptyString => ""
  end.

Definition hex_value (c : ascii) : option nat :=
  let n := nat_of_ascii c in
  if is_digit c then Some (n - 48)
  else if (97 <=? n) && (n <=? 102) then Some (n - 87)
  else if (65 <=? n) && (n <=? 70) then Some (n - 55)
  else None.

Definition hex4 (a b c d : ascii) : option N :=
  x ← hex_value a; y ← hex_value b; z ← hex_value c; w ← hex_value d;
  Some (N.of_nat (16 * (16 * (16 * x + y) + z) + w)).

(** ** Code units as UTF-8 *)

Definition byte (n : N) : ascii := ascii_of_N n.

(** The bytes of a code unit that stands alone. *)
Definition unit_bytes (n : N) : string :=
  if (n <? 128)%N then String (byte n) ""
  else if (n <? 2048)%N then String (byte (192 + n / 64)) (String (byte (128 + n mod 64)) "")
  else String (byte (224 + n / 4096)) (String (byte (128 + n / 64 mod 64)) (String (byte (128 + n mod 64)) "")).

(** A low surrogate at the head of a text, and what follows it. *)
Definition low_surrogate (s : string) : option (N * string) :=
  match s with
  | String a (String b (String c r)) =>
      let x := N_of_ascii a in let y := N_of_ascii b in let z := N_of_ascii c in
      if (x =? 237)%N && (176 <=? y)%N && (y <? 192)%N then Some (((y - 176) * 64 + (z - 128))%N, r) else None
  | _ => None
  end.

(** The code unit [n] in front of the text [s]: a high surrogate joins the low
    one that follows. *)
Definition join_unit (n : N) (s : string) : string :=
  match low_surrogate s with
  | Some (l, r) =>
      if (55296 <=? n)%N && (n <? 56320)%N then
        let p := (65536 + (n - 55296) * 1024 + l)%N in
        String (byte (240 + p / 262144)) (String (byte (128 + p / 4096 mod 64))
          (String (byte (128 + p / 64 mod 64)) (String (byte (128 + p mod 64)) r)))
      else unit_bytes n ++s s
  | None => unit_bytes n ++s s
  end.

(** ** Tokens *)

(** The character an escape of one letter stands for. *)
Definition simple_escape (c : ascii) : option ascii :=
  if Ascii.eqb c dquote then Some dquote
  else if Ascii.eqb c "\" then Some "\"%char
  else if Ascii.eqb c "/" then Some "/"%char
  else if Ascii.eqb c "b" then Some "008"%char
  else if Ascii.eqb c "f" then Some "012"%char
  else if Ascii.eqb c "n" then Some "010"%char
  else if Ascii.eqb c "r" then Some "013"%char
  else if Ascii.eqb c "t" then Some "009"%char
  else None.

(** The rest of a string literal, after its opening quote. *)
Fixpoint parse_chars (s : string) : option (string * string) :=
  match s with
  | EmptyString => None
  | String c r =>
      if Ascii.eqb c dquote then Some ("", r)
      else if Ascii.eqb c "\" then
        match r with
        | EmptyString => None
        | String e r1 =>
            if Ascii.eqb e "u" then
              match r1 with
              | String h1 (String h2 (String h3 (String h4 r2))) =>
                  n ← hex4 h1 h2 h3 h4;
                  '(t, rest) ← parse_chars r2;
                  Some (join_unit n t, rest)
              | _ => None
              end
            else
              x ← simple_escape e;
              '(t, rest) ← parse_chars r1;
              Some (String x t, rest)
        end
      else if nat_of_ascii c <? 32 then None
      else '(t, rest) ← parse_chars r; Some (String c t, rest)
  end.

(** The longest run of digits. *)
Fixpoint span_digits (s : string) : string * string :=
  match s with
  | String c r => if is_digit c then let '(d, rest) := span_digits r in (String c d, rest) else ("", s)
  | EmptyString => ("", "")
  end.

Definition parse_int (s : string) : option (string * string) :=
  match s with
  | String c r =>
      if Ascii.eqb c "0" then Some ("0", r)
      else match span_digits s with (EmptyString, _) => None | (d, r) => Some (d, r) end
  | EmptyString => None
  end.

Definition parse_frac (s : string) : option (string * string) :=
  match s with
  | String c r =>
      if Ascii.eqb c "." then
        match span_digits r with (EmptyString, _) => None | (d, r') => Some (String "." d, r') end
      else Some ("", s)
  | EmptyString => Some ("", "")
  end.

Definition exp_digits (mark : string) (s : string) : option (string * string) :=
  match span_digits s with (EmptyString, _) => None | (d, r) => Some (mark ++s d, r) end.

Definition parse_exp (s : string) : option (string * string) :=
  match s with
  | String e r =>
      if Ascii.eqb e "e" || Ascii.eqb e "E" then
        match r with
        | String c r' =>
            if Ascii.eqb c "+" then exp_digits (String e "+") r'
            else if Ascii.eqb c "-" then exp_digits (String e "-") r'
            else exp_digits (String e "") r
        | EmptyString => None
        end
      else Some ("", s)
  | EmptyString => Some ("", "")
  end.

Definition parse_number (s : string) : option (string * string) :=
  let '(sign, s) := match s with
                    | String c r => if Ascii.eqb c "-" then ("-", r) else ("", s)
                    | EmptyString => ("", "")
                    end in
  '(i, s) ← parse_int s;
  '(f, s) ← parse_frac s;
  '(e, s) ← parse_exp s;
  Some (sign ++s i ++s f ++s e, s).

Fixpoint strip (p s : string) : option string :=
  match p, s with
  | EmptyString, s => Some s
  | String a p, String b s => if Ascii.eqb a b then strip p s else None
  | _, _ => None
  end.

(** The character [c], after white space. *)
Definition closes (c : ascii) (s : string) : option string :=
  match skip_ws s with
  | String x r => if Ascii.eqb x c then Some r else None
  | EmptyString => None
  end.

(** ** Values *)

Section Values.
(** How the language prints the number a literal denotes. *)
Context (print_number : string -> string).

Definition parse_scalar (s : string) : option (json * string) :=
  match strip "null" s, strip "true" s, strip "false" s with
  | Some r, _, _ => Some (JNull, r)
  | _, Some r, _ => Some (JBool true, r)
  | _, _, Some r => Some (JBool false, r)
  | None, None, None => '(t, r) ← parse_number s; Some (JNum (print_number t), r)
  end.

Fixpoint parse_value (fuel : nat) (s : string) : option (json * string) :=
  match fuel with
  | O => None
  | S n =>
      match skip_ws s with
      | EmptyString => None
      | String c r =>
          if Ascii.eqb c dquote then '(t, r) ← parse_chars r; Some (JStr t, r)
          else if Ascii.eqb c "[" then
            match closes "]" r with
            | Some r' => Some (JArr [], r')
            | None => '(l, r) ← parse_elements n r; Some (JArr l, r)
            end
          else if Ascii.eqb c "{" then
            match closes "}" r with
            | Some r' => Some (JObj [], r')
            | None => '(l, r) ← parse_fields n r; Some (JObj l, r)
            end
          else parse_scalar (String c r)
      end
  end
with parse_elements (fuel : nat) (s : string) : option (list json * string) :=
  match fuel with
  | O => None
  | S n =>
      '(v, r) ← parse_value n s;
      match closes "]" r, closes "," r with
      | Some r, _ => Some ([v], r)
      | None, Some r => '(l, r) ← parse_elements n r; Some (v :: l, r)
      | None, None => None
      end
  end
with parse_fields (fuel : nat) (s : string) : option (list (string * json) * string) :=
  match fuel with
  | O => None
  | S n =>
      r ← closes dquote s;
      '(k, r) ← parse_chars r;
      r ← closes ":" r;
      '(v, r) ← parse_value n r;
      match closes "}" r, closes "," r with
      | Some r, _ => Some ([(k, v)], r)
      | None, Some r => '(l, r) ← parse_fields n r; Some ((k, v) :: l, r)
      | None, None => None
      end
  end.

(** [JSON.parse(text)]; [None] is its SyntaxError. *)
Definition JSON_parse (text : string) : option json :=
  '(v, rest) ← parse_value (String.length text) text;
  match skip_ws rest with EmptyString => Some v | String _ _ => None end.
End Values.

(** ** Consumption and fuel *)

Lemma skip_ws_length s : String.length (skip_ws s) <= String.length s.
Proof. induction s as [|c s IH]; cbn; [lia|]. destruct (is_space c); cbn; lia. Qed.

(** Splits an equation between an option-valued program and [Some]. *)
Ltac option_inv :=
  repeat match goal with
  | H : _ ≫= _ = Some _ |- _ => apply bind_Some in H as (? & ? & ?)
  | H : Some _ = Some _ |- _ => injection H as H
  | H : (_, _) = (_, _) |- _ => injection H as H
  | H : None = Some _ |- _ => discriminate H
  | H : (let '(_, _) := ?p in _) = Some _ |- _ => destruct p eqn:?
  | H : match ?x with _ => _ end = Some _ |- _ => destruct x eqn:?
  | H : match ?x with _ => _ end = (_, _) |- _ => destruct x eqn:?
  | H : String _ _ = String _ _ |- _ => injection H as H
  end; subst.

Lemma parse_chars_length s t r : parse_chars s = Some (t, r) -> String.length r < String.length s.
Proof.
  revert t r. induction s as [s IH] using (induction_ltof1 _ String.length). intros t r H.
  destruct s as [|c s]; cbn in H; option_inv; cbn [String.length]; try lia.
  all: match goal with H : parse_chars ?x = Some _ |- _ =>
    apply (IH x) in H; [cbn in *; lia|unfold ltof; cbn; lia] end.
Qed.

Lemma span_digits_length s : String.length (span_digits s).2 <= String.length s.
Proof.
  induction s as [|c s IH]; cbn; [lia|]. destruct (is_digit c); cbn; [|lia].
  destruct (span_digits s). cbn in *. lia.
Qed.

Lemma span_digits_consumes s d r : span_digits s = (d, r) -> String.length d + String.length r = String.length s.
Proof.
  revert d r. induction s as [|c s IH]; cbn; intros d r H; [by injection H as <- <-|].
  destruct (is_digit c); [|by injection H as <- <-]. destruct (span_digits s) as [d' r'] eqn:E.
  injection H as <- <-. cbn. by rewrite <- (IH d' r').
Qed.

Ltac digits_consumed :=
  repeat match goal with
  | H : span_digits _ = _ |- _ => apply span_digits_consumes in H
  end; cbn [String.length] in *; lia.

Lemma parse_int_length s t r : parse_int s = Some (t, r) -> String.length r < String.length s.
Proof. unfold parse_int. intros H. option_inv; digits_consumed. Qed.

Lemma parse_frac_length s t r : parse_frac s = Some (t, r) -> String.length r <= String.length s.
Proof. unfold parse_frac. intros H. option_inv; digits_consumed. Qed.

Lemma parse_exp_length s t r : parse_exp s = Some (t, r) -> String.length r <= String.length s.
Proof. unfold parse_exp, exp_digits. intros H. option_inv; digits_consumed. Qed.

Lemma parse_number_length s t r : parse_number s = Some (t, r) -> String.length r < String.length s.
Proof.
  unfold parse_number. intros H. option_inv; cbn [String.length];
    repeat match goal with
    | H : parse_int _ = _ |- _ => apply parse_int_length in H
    | H : parse_frac _ = _ |- _ => apply parse_frac_length in H
    | H : parse_exp _ = _ |- _ => apply parse_exp_length in H
    end; cbn [String.length] in *; lia.
Qed.

Lemma strip_length p s r : strip p s = Some r -> String.length s = String.length p + String.length r.
Proof.
  revert s. induction p as [|a p IH]; intros s H; cbn in H; [by injection H as ->|].
  destruct s as [|b s]; [done|]. destruct (Ascii.eqb a b); [|done]. cbn. by rewrite (IH s H).
Qed.

#[local] Arguments String.append !_ _ / : simpl nomatch.

Section Fuel.
Context (print_number : string -> string).
Abbreviation value := (parse_value print_number).
Abbreviation elements := (parse_elements print_number).
Abbreviation fields := (parse_fields print_number).

Lemma parse_scalar_length s v r : parse_scalar print_number s = Some (v, r) -> String.length r < String.length s.
Proof.
  unfold parse_scalar. intros H. option_inv;
    repeat match goal with
    | H : strip _ _ = Some _ |- _ => apply strip_length in H
    | H : parse_number _ = _ |- _ => apply parse_number_length in H
    end; cbn [String.length] in *; lia.
Qed.

(** A successful parse from [s] to [r] needs no more fuel than the characters
    it consumed. *)
Definition enough {A} (p : nat -> string -> option (A * string)) (n : nat) : Prop :=
  forall s x r, p n s = Some (x, r) ->
    String.length r < String.length s /\
    forall m, String.length s - String.length r <= m -> p m s = Some (x, r).


Lemma closes_length c s r : closes c s = Some r -> String.length r < String.length s.
Proof.
  unfold closes. pose proof (skip_ws_length s). intros Hc. option_inv. cbn in *. lia.
Qed.

Ltac consumed IHv IHe IHf :=
  repeat match goal with
  | H : closes _ _ = Some _ |- _ => pose proof (closes_length _ _ _ H); revert H
  | H : parse_chars _ = Some _ |- _ => pose proof (parse_chars_length _ _ _ H); revert H
  | H : parse_scalar _ _ = Some _ |- _ => pose proof (parse_scalar_length _ _ _ H); revert H
  | H : value _ _ = Some _ |- _ => pose proof (IHv _ _ _ H) as [? ?]; clear H
  | H : elements _ _ = Some _ |- _ => pose proof (IHe _ _ _ H) as [? ?]; clear H
  | H : fields _ _ = Some _ |- _ => pose proof (IHf _ _ _ H) as [? ?]; clear H
  end; intros; cbn [String.length] in *.


(** Replays a successful parse with other fuel. *)
Ltac replay :=
  split; [lia|]; intros [|m] Hm; [lia|]; cbn;
  repeat match goal with
  | H : ?x = _ |- context [?x] => rewrite H; cbn
  | H : forall m, _ -> ?p m ?s = Some _ |- context [?p ?k ?s] => rewrite (H k) by lia; cbn
  end; done.

Lemma parse_enough n : enough value n /\ enough elements n /\ enough fields n.
Proof.
  induction n as [|n (IHv & IHe & IHf)]; [by repeat split|].
  split; [|split]; intros s x r H; cbn in H.
  - pose proof (skip_ws_length s) as Hs. option_inv; cbn [String.length] in *; consumed IHv IHe IHf; replay.
  - option_inv; consumed IHv IHe IHf; replay.
  - option_inv; consumed IHv IHe IHf; replay.
Qed.

Lemma parse_value_enough n m s v r :
  value n s = Some (v, r) -> String.length s <= m -> value m s = Some (v, r).
Proof. intros H Hm. destruct (parse_enough n) as (Hv & _). destruct (Hv s v r H) as [? H']. apply H'. lia. Qed.
End Fuel.

(** ** Round trip with [JSON.stringify] *)

Lemma join_unit_basic n s : (n < 55296)%N -> join_unit n s = (unit_bytes n ++s s)%string.
Proof.
  intros Hn. unfold join_unit. destruct (low_surrogate s) as [[l r]|]; [|done].
  by replace (55296 <=? n)%N with false by (symmetry; apply N.leb_gt; lia).
Qed.

Lemma parse_chars_unit h1 h2 h3 h4 s :
  parse_chars (String "\" (String "u" (String h1 (String h2 (String h3 (String h4 s)))))) =
  n ← hex4 h1 h2 h3 h4; '(t, rest) ← parse_chars s; Some (join_unit n t, rest).
Proof. reflexivity. Qed.

Lemma parse_chars_escape c s :
  parse_chars (json_escape c ++s s) = '(t, rest) ← parse_chars s; Some (String c t, rest).
Proof.
  assert (forall h1 h2 n, hex4 "0" "0" h1 h2 = Some n -> (n < 55296)%N -> unit_bytes n = String c "" ->
    parse_chars (String "\" (String "u" (String "0" (String "0" (String h1 (String h2 s)))))) =
    '(t, rest) ← parse_chars s; Some (String c t, rest)) as Hu.
  { intros h1 h2 n Hh Hn Hc. rewrite parse_chars_unit, Hh. cbn. destruct (parse_chars s) as [[t r]|]; [|done]. cbn.
    by rewrite join_unit_basic, Hc. }
  destruct c as [[] [] [] [] [] [] [] []]; try reflexivity; by eapply Hu.
Qed.

Lemma parse_chars_quoted s rest :
  parse_chars (json_escape_all s ++s String dquote rest) = Some (s, rest).
Proof.
  induction s as [|c s IH]; [done|]. cbn [json_escape_all].
  by rewrite str_app_assoc, parse_chars_escape, IH.
Qed.

(** What may follow a value: a text that does not continue a number. *)
Definition ends (rest : string) : bool :=
  match rest with
  | EmptyString => true
  | String c _ => negb (is_digit c || Ascii.eqb c "." || Ascii.eqb c "e" || Ascii.eqb c "E")
  end.

Lemma span_digits_app s d r rest :
  ends rest = true -> span_digits s = (d, r) -> span_digits (s ++s rest) = (d, (r ++s rest)%string).
Proof.
  intros He. revert d r. induction s as [|c s IH]; intros d r H.
  - injection H as <- <-. destruct rest as [|x rest]; [done|]. cbn -[is_digit] in *.
    apply negb_true_iff in He. rewrite !orb_false_iff in He. by destruct He as [[[-> _] _] _].
  - rewrite str_app_cons. cbn in *. destruct (is_digit c); [|by injection H as <- <-].
    destruct (span_digits s) as [d' r']. injection H as <- <-. by rewrite (IH d' r').
Qed.

Lemma ends_not rest : ends rest = true ->
  match rest with
  | EmptyString => True
  | String c _ => Ascii.eqb c "." = false /\ Ascii.eqb c "e" || Ascii.eqb c "E" = false
  end.
Proof.
  destruct rest as [|c rest]; cbn; [done|]. intros He%negb_true_iff. rewrite !orb_false_iff in *. tauto.
Qed.

(** Each part of a number reads the same when a text that [ends] it follows. *)
Ltac digits_app :=
  repeat match goal with
  | H : span_digits ?s = _ |- context [span_digits (?s ++s ?rest)] =>
      rewrite (span_digits_app s _ _ rest) by eassumption
  end.

Lemma parse_int_app s t r rest :
  ends rest = true -> parse_int s = Some (t, r) -> parse_int (s ++s rest) = Some (t, (r ++s rest)%string).
Proof.
  intros He. destruct s as [|c s]; [done|]. rewrite str_app_cons. unfold parse_int. intros H.
  destruct (Ascii.eqb c "0"); [by injection H as <- <-|].
  rewrite <- str_app_cons. destruct (span_digits (String c s)) as [d r'] eqn:E. digits_app.
  destruct d; [done|]. by injection H as <- <-.
Qed.

Lemma parse_frac_app s t r rest :
  ends rest = true -> parse_frac s = Some (t, r) -> parse_frac (s ++s rest) = Some (t, (r ++s rest)%string).
Proof.
  intros He. pose proof (ends_not rest He) as Hr. destruct s as [|c s].
  - intros [= <- <-]. destruct rest as [|x rest]; [done|]. cbn -[is_digit Ascii.eqb] in *. by destruct Hr as [-> _].
  - rewrite str_app_cons. unfold parse_frac. intros H. destruct (Ascii.eqb c "."); [|by injection H as <- <-].
    destruct (span_digits s) as [d r'] eqn:E. digits_app. destruct d; [done|]. by injection H as <- <-.
Qed.

Lemma exp_digits_app mark s t r rest :
  ends rest = true -> exp_digits mark s = Some (t, r) -> exp_digits mark (s ++s rest) = Some (t, (r ++s rest)%string).
Proof.
  intros He. unfold exp_digits. intros H. destruct (span_digits s) as [d r'] eqn:E. digits_app.
  destruct d; [done|]. by injection H as <- <-.
Qed.

Lemma parse_exp_app s t r rest :
  ends rest = true -> parse_exp s = Some (t, r) -> parse_exp (s ++s rest) = Some (t, (r ++s rest)%string).
Proof.
  intros He. pose proof (ends_not rest He) as Hr. destruct s as [|c s].
  - intros [= <- <-]. destruct rest as [|x rest]; [done|]. cbn -[is_digit Ascii.eqb] in *. by destruct Hr as [_ ->].
  - rewrite str_app_cons. unfold parse_exp. intros H. destruct (_ || _); [|by injection H as <- <-].
    destruct s as [|x s]; [done|]. rewrite str_app_cons.
    destruct (Ascii.eqb x "+"); [by apply exp_digits_app|].
    destruct (Ascii.eqb x "-"); [by apply exp_digits_app|]. rewrite <- str_app_cons. by apply exp_digits_app.
Qed.

Lemma parse_number_app s t r rest :
  ends rest = true -> parse_number s = Some (t, r) -> parse_number (s ++s rest) = Some (t, (r ++s rest)%string).
Proof.
  intros He. unfold parse_number. intros H.
  assert (exists sign s', (match s with
                           | String c r => if Ascii.eqb c "-" then ("-", r) else ("", s)
                           | EmptyString => ("", "")
                           end) = (sign, s') /\
    (match s ++s rest with
     | String c r => if Ascii.eqb c "-" then ("-", r) else ("", s ++s rest)
     | EmptyString => ("", "")
     end)%string = (sign, (s' ++s rest)%string)) as (sign & s' & Hs & Hs').
  { destruct s as [|c s]; [done|]. rewrite str_app_cons. destruct (Ascii.eqb c "-"); eauto. }
  rewrite Hs in H. rewrite Hs'. clear Hs Hs'. option_inv.
  erewrite parse_int_app by eassumption. cbn. erewrite parse_frac_app by eassumption. cbn.
  by erewrite parse_exp_app by eassumption.
Qed.

(** ** Round trip *)

Section RoundTrip.
Context (print_number : string -> string).
Abbreviation value := (parse_value print_number).
Abbreviation elements := (parse_elements print_number).
Abbreviation fields := (parse_fields print_number).

(** The texts [JSON.stringify] prints for numbers: number literals that read
    back as the number they print. *)
Definition printed (t : string) : Prop := parse_number t = Some (t, "") /\ print_number t = t.

Fixpoint printable (v : json) : Prop :=
  match v with
  | JNum t => printed t
  | JArr l => foldr (fun v P => printable v /\ P) True l
  | JObj fs => foldr (fun f P => printable f.2 /\ P) True fs
  | _ => True
  end.

(** Induction on values through arrays and objects. *)
Lemma json_nested_ind (P : json -> Prop) :
  P JNull -> (forall b, P (JBool b)) -> (forall t, P (JNum t)) -> (forall s, P (JStr s)) ->
  (forall l, Forall P l -> P (JArr l)) -> (forall fs, Forall (fun f => P f.2) fs -> P (JObj fs)) ->
  forall v, P v.
Proof.
  intros Hn Hb Hnum Hs Ha Ho. fix IH 1. intros [|b|t|s|l|fs];
    [exact Hn|apply Hb|apply Hnum|apply Hs|apply Ha|apply Ho].
  - induction l as [|v l IHl]; constructor; [apply IH|exact IHl].
  - induction fs as [|[k v] fs IHf]; constructor; [apply IH|exact IHf].
Qed.

Definition reads (v : json) : Prop :=
  forall rest, ends rest = true -> exists n, value n (stringify v ++s rest) = Some (v, rest).

Lemma reads_any n v rest :
  reads v -> ends rest = true -> String.length (stringify v ++s rest) <= n ->
  value n (stringify v ++s rest) = Some (v, rest).
Proof. intros Hv He Hn. destruct (Hv rest He) as [m Hm]. by eapply parse_value_enough. Qed.

Lemma closes_here c rest : is_space c = false -> closes c (String c rest) = Some rest.
Proof. intros Hc. unfold closes. cbn [skip_ws]. rewrite Hc. by rewrite Ascii.eqb_refl. Qed.

Lemma closes_other c x rest : is_space x = false -> Ascii.eqb x c = false -> closes c (String x rest) = None.
Proof. intros Hx Hc. unfold closes. cbn [skip_ws]. by rewrite Hx, Hc. Qed.

(** No value's text starts with white space or with a closing bracket. *)
Definition opens (s : string) : bool :=
  match s with
  | String c _ => negb (is_space c || Ascii.eqb c "]")
  | EmptyString => false
  end.

Lemma number_head t x r : parse_number t = Some (x, r) ->
  exists c s, t = String c s /\ (is_digit c || Ascii.eqb c "-") = true.
Proof.
  assert (forall s x r, parse_int s = Some (x, r) -> exists c s', s = String c s' /\ is_digit c = true) as Hi.
  { intros [|c s] y r'; cbn; [done|]. intros H. exists c, s. split; [done|].
    destruct (Ascii.eqb_spec c "0") as [->|]; [done|]. by destruct (is_digit c). }
  destruct t as [|c s]; [done|]. intros H. exists c, s. split; [done|]. unfold parse_number in H.
  destruct (Ascii.eqb c "-"); [by rewrite orb_true_r|]. option_inv.
  match goal with H : parse_int _ = _ |- _ => apply Hi in H as (c' & s' & [= -> ->] & ->) end. done.
Qed.

Lemma value_number t rest n :
  printed t -> ends rest = true -> value (S n) (t ++s rest) = Some (JNum t, rest).
Proof.
  intros [Ht Hp] He. destruct (number_head _ _ _ Ht) as (c & s & -> & Hc).
  apply (parse_number_app _ _ _ rest He) in Ht. rewrite str_app_cons in *.
  assert (value (S n) (String c (s ++s rest)) =
    '(t, r) ← parse_number (String c (s ++s rest)); Some (JNum (print_number t), r)) as ->.
  { destruct c as [[] [] [] [] [] [] [] []]; try discriminate Hc; reflexivity. }
  rewrite Ht. cbn [mbind option_bind]. by rewrite Hp.
Qed.

Lemma stringify_opens v : printable v -> opens (stringify v) = true.
Proof.
  destruct v as [|b|t|s|l|fs]; cbn; try done; [by destruct b|].
  intros [Ht _]. destruct (number_head _ _ _ Ht) as (c & s & -> & Hc). cbn.
  destruct c as [[] [] [] [] [] [] [] []]; try discriminate Hc; reflexivity.
Qed.

Lemma opens_not_closes s rest : opens s = true -> closes "]" (s ++s rest) = None.
Proof.
  destruct s as [|c s]; [done|]. cbn. intros H%negb_true_iff. apply orb_false_iff in H as [H1 H2].
  by apply closes_other.
Qed.

Lemma elements_read l rest :
  Forall reads l -> l <> [] -> exists n, elements n (str_join "," (map stringify l) ++s String "]" rest) = Some (l, rest).
Proof.
  intros Hl Hne. induction Hl as [|v l Hv Hl IH]; [done|]. destruct l as [|v' l].
  - destruct (Hv (String "]" rest) eq_refl) as [n Hn]. exists (S n). cbn [map str_join parse_elements].
    rewrite Hn. cbn [mbind option_bind]. by rewrite closes_here.
  - destruct IH as [n Hn]; [done|].
    change (str_join "," (map stringify (v :: v' :: l))) with (stringify v ++s "," ++s str_join "," (map stringify (v' :: l))).
    rewrite !str_app_assoc. set (tl := str_join _ _ ++s _) in *.
    change ("," ++s tl) with (String "," tl).
    exists (S (n `max` String.length (stringify v ++s String "," tl))). cbn [parse_elements].
    rewrite (reads_any _ v) by (done || cbn; lia). cbn [mbind option_bind].
    rewrite closes_other, closes_here by done. destruct (parse_enough print_number n) as (_ & He & _).
    destruct (He _ _ _ Hn) as [_ He']. rewrite He'; [done|].
    rewrite str_app_length. cbn [String.length]. lia.
Qed.

Definition field_text (f : string * json) : string := let '(k, v) := f in json_quote k ++s ":" ++s stringify v.

Lemma quote_app s rest : (json_quote s ++s rest = String dquote (json_escape_all s ++s String dquote rest))%string.
Proof. unfold json_quote. rewrite str_app_cons, str_app_assoc. done. Qed.

Lemma fields_read fs rest :
  Forall (fun f => reads f.2) fs -> fs <> [] ->
  exists n, fields n (str_join "," (map field_text fs) ++s String "}" rest) = Some (fs, rest).
Proof.
  intros Hl Hne. induction Hl as [|[k v] fs Hv Hl IH]; [done|]. cbn [snd] in Hv. destruct fs as [|f fs].
  - destruct (Hv (String "}" rest) eq_refl) as [n Hn]. exists (S n).
    cbn [map str_join field_text]. rewrite str_app_assoc, quote_app. cbn [parse_fields].
    rewrite closes_here by done. cbn [mbind option_bind]. rewrite parse_chars_quoted. cbn [mbind option_bind].
    rewrite str_app_assoc. change (":" ++s ?s) with (String ":" s). rewrite closes_here by done.
    cbn [mbind option_bind]. rewrite Hn. cbn [mbind option_bind]. by rewrite closes_here.
  - destruct IH as [n Hn]; [done|].
    change (str_join "," (map field_text ((k, v) :: f :: fs))) with
      ((json_quote k ++s ":" ++s stringify v) ++s "," ++s str_join "," (map field_text (f :: fs))).
    rewrite !str_app_assoc, quote_app. set (tl := str_join _ _ ++s _) in *.
    change ("," ++s tl) with (String "," tl).
    exists (S (n `max` String.length (stringify v ++s String "," tl))). cbn [parse_fields].
    rewrite closes_here by done. cbn [mbind option_bind]. rewrite parse_chars_quoted. cbn [mbind option_bind].
    change (":" ++s ?s) with (String ":" s). rewrite closes_here by done. cbn [mbind option_bind].
    rewrite (reads_any _ v) by (done || cbn; lia). cbn [mbind option_bind].
    rewrite closes_other, closes_here by done. destruct (parse_enough print_number n) as (_ & _ & Hf).
    destruct (Hf _ _ _ Hn) as [_ Hf']. rewrite Hf'; [done|]. rewrite str_app_length. cbn [String.length]. lia.
Qed.

Lemma value_string n s : value (S n) (String dquote s) = '(t, r) ← parse_chars s; Some (JStr t, r).
Proof. reflexivity. Qed.

Lemma value_array n s : closes "]" s = None ->
  value (S n) (String "[" s) = '(l, r) ← elements n s; Some (JArr l, r).
Proof.
  intros H. change (value (S n) (String "[" s)) with
    (match closes "]" s with Some r' => Some (JArr [], r') | None => '(l, r) ← elements n s; Some (JArr l, r) end).
  by rewrite H.
Qed.

Lemma value_object n s : closes "}" s = None ->
  value (S n) (String "{" s) = '(l, r) ← fields n s; Some (JObj l, r).
Proof.
  intros H. change (value (S n) (String "{" s)) with
    (match closes "}" s with Some r' => Some (JObj [], r') | None => '(l, r) ← fields n s; Some (JObj l, r) end).
  by rewrite H.
Qed.

Lemma foldr_and {A} (P Q : A -> Prop) (l : list A) :
  Forall (fun x => P x -> Q x) l -> foldr (fun x R => P x /\ R) True l -> Forall Q l.
Proof. induction 1; cbn; [done|]. intros [? ?]. constructor; auto. Qed.

Lemma join_head sep w ws rest : exists x, (str_join sep (w :: ws) ++s rest = w ++s x)%string.
Proof. destruct ws; cbn [str_join]; [|rewrite str_app_assoc]; eauto. Qed.

Lemma stringify_reads v : printable v -> reads v.
Proof.
  induction v as [|b|t|s|l IH|fs IH] using json_nested_ind; intros Hp rest He.
  - by exists 1.
  - exists 1. by destruct b.
  - exists 1. by apply value_number.
  - exists 1. cbn [stringify]. rewrite quote_app, value_string. by rewrite parse_chars_quoted.
  - destruct l as [|v l]; [by exists 1|].
    assert (closes "]" (str_join "," (map stringify (v :: l)) ++s String "]" rest) = None) as Hc.
    { destruct (join_head "," (stringify v) (map stringify l) (String "]" rest)) as [x Hx]. cbn [map]. rewrite Hx.
      apply opens_not_closes, stringify_opens, Hp. }
    destruct (elements_read (v :: l) rest) as [n Hn]; [by eapply foldr_and|done|]. exists (S n).
    change (stringify (JArr (v :: l))) with (String "[" (str_join "," (map stringify (v :: l)) ++s "]")).
    rewrite str_app_cons, str_app_assoc. change ("]" ++s rest) with (String "]" rest).
    rewrite value_array by done. by rewrite Hn.
  - destruct fs as [|[k v] fs]; [by exists 1|].
    assert (closes "}" (str_join "," (map field_text ((k, v) :: fs)) ++s String "}" rest) = None) as Hc.
    { destruct (join_head "," (field_text (k, v)) (map field_text fs) (String "}" rest)) as [x Hx]. cbn [map]. rewrite Hx.
      unfold field_text. rewrite str_app_assoc, quote_app. by apply closes_other. }
    destruct (fields_read ((k, v) :: fs) rest) as [n Hn]; [by apply (foldr_and (fun f => printable f.2) (fun f => reads f.2))|done|]. exists (S n).
    change (stringify (JObj ((k, v) :: fs))) with (String "{" (str_join "," (map field_text ((k, v) :: fs)) ++s "}")).
    rewrite str_app_cons, str_app_assoc. change ("}" ++s rest) with (String "}" rest).
    rewrite value_object by done. by rewrite Hn.
Qed.

(** [JSON.parse(JSON.stringify(v))] is [v]. *)
Lemma parse_stringify v : printable v -> JSON_parse print_number (stringify v) = Some v.
Proof.
  intros Hp. unfold JSON_parse. pose proof (reads_any (String.length (stringify v)) v "" (stringify_reads v Hp) eq_refl) as H.
  rewrite str_app_nil_r in H. by rewrite H.
Qed.
End RoundTrip.

Definition quoted (s : string) : string := String dquote (s ++s String dquote "").

(** White space, escapes and nesting; a repeated name stays in the list. *)
Example parse_example :
  JSON_parse id (" { " ++s quoted "a\u00e9\ud83d\ude00\n" ++s " : [ 1 , -2.5e+3 , {} , [ ] , null ] , " ++s quoted "b" ++s ":true}") =
  Some (JObj [("aé😀" ++s String "010" "", JArr [JNum "1"; JNum "-2.5e+3"; JObj []; JArr []; JNull]); ("b", JBool true)]).
Proof. vm_compute. reflexivity. Qed.

(** Trailing commas, leading zeros, single quotes, and text after the value. *)
Example parse_errors :
  Forall (fun t => JSON_parse id t = None)
    ["[1,]"; "{,}"; "01"; "1."; "'a'"; "[1] x"; ""; "[1"; quoted "a\x"; "nul"; "-"; "+1"; "[1 2]"].
Proof. repeat constructor. Qed.
