(* ===== verification/Dates.v ===== *)
(** * Dates as text

    [Date.prototype.toISOString] on a time in milliseconds, for the bodies and
    cursors that carry dates: the proleptic Gregorian calendar, in UTC. *)

From S2P Require Import Prelude.
From Stdlib Require Import ZArith Lia String Ascii.
From stdpp Require Import prelude strings.

Open Scope Z_scope.

(** The year, month and day of a number of days since 1970-01-01: eras of 400
    years that start on 1 March. *)
Definition civil_from_days (days : Z) : Z * Z * Z :=
  let z := days + 719468 in
  let era := z / 146097 in
  let doe := z mod 146097 in
  let yoe := (doe - doe / 1460 + doe / 36524 - doe / 146096) / 365 in
  let doy := doe - (365 * yoe + yoe / 4 - yoe / 100) in
  let mp := (5 * doy + 2) / 153 in
  let d := doy - (153 * mp + 2) / 5 + 1 in
  let m := if mp <? 10 then mp + 3 else mp - 9 in
  let y := yoe + 400 * era in
  ((if m <=? 2 then y + 1 else y), m, d).

(** A number below [10 ^ width] on [width] digits, zeros in front: every field
    of the format is one, for the years a [Date] can hold. *)
Fixpoint pad (width : nat) (n : Z) : string :=
  match width with
  | O => ""
  | S w => pad w (n / 10) ++s String (ascii_of_nat (Z.to_nat (48 + n mod 10))) ""
  end.

Definition year_text (y : Z) : string :=
  if (0 <=? y) && (y <=? 9999) then pad 4 y
  else if y <? 0 then "-" ++s pad 6 (- y) else "+" ++s pad 6 y.

Definition toISOString (ms : Z) : string :=
  let '(y, m, d) := civil_from_days (ms / 86400000) in
  let t := ms mod 86400000 in
  year_text y ++s "-" ++s pad 2 m ++s "-" ++s pad 2 d ++s "T" ++s
  pad 2 (t / 3600000) ++s ":" ++s pad 2 (t / 60000 mod 60) ++s ":" ++s
  pad 2 (t / 1000 mod 60) ++s "." ++s pad 3 (t mod 1000) ++s "Z".

Example iso_epoch : toISOString 0 = "1970-01-01T00:00:00.000Z".
Proof. vm_compute. reflexivity. Qed.

Example iso_leap_day : toISOString 1709251199999 = "2024-02-29T23:59:59.999Z".
Proof. vm_compute. reflexivity. Qed.

Example iso_before_epoch : toISOString (-1) = "1969-12-31T23:59:59.999Z".
Proof. vm_compute. reflexivity. Qed.

(** ** Reading the format back

    The timestamps PostgreSQL and [new Date] read are texts; the sources send
    them what [toISOString] wrote. [parse_iso] reads exactly that format. *)

Definition days_from_civil (y m d : Z) : Z :=
  let y := if m <=? 2 then y - 1 else y in
  let era := y / 400 in
  let yoe := y mod 400 in
  let mp := if m <=? 2 then m + 9 else m - 3 in
  let doy := (153 * mp + 2) / 5 + d - 1 in
  era * 146097 + (yoe * 365 + yoe / 4 - yoe / 100 + doy) - 719468.

(** [n] decimal digits. *)
Fixpoint read_digits (n : nat) (acc : Z) (s : string) : option (Z * string) :=
  match n with
  | O => Some (acc, s)
  | S n =>
      match s with
      | String c r =>
          let v := Z.of_nat (nat_of_ascii c) - 48 in
          if (0 <=? v) && (v <=? 9) then read_digits n (10 * acc + v) r else None
      | EmptyString => None
      end
  end.

Definition expect (c : ascii) (s : string) : option string :=
  match s with String x r => if Ascii.eqb x c then Some r else None | EmptyString => None end.

Definition in_date (y m d h mi sec : Z) : bool :=
  bool_decide (civil_from_days (days_from_civil y m d) = (y, m, d)) &&
  (h <=? 23) && (mi <=? 59) && (sec <=? 59).

Definition parse_iso (s : string) : option Z :=
  '(y, s) ← read_digits 4 0 s; s ← expect "-" s;
  '(m, s) ← read_digits 2 0 s; s ← expect "-" s;
  '(d, s) ← read_digits 2 0 s; s ← expect "T" s;
  '(h, s) ← read_digits 2 0 s; s ← expect ":" s;
  '(mi, s) ← read_digits 2 0 s; s ← expect ":" s;
  '(sec, s) ← read_digits 2 0 s; s ← expect "." s;
  '(ms, s) ← read_digits 3 0 s; s ← expect "Z" s;
  if in_date y m d h mi sec && String.eqb s "" then
    Some (86400000 * days_from_civil y m d + 3600000 * h + 60000 * mi + 1000 * sec + ms)
  else None.

Lemma read_digit z : 0 <= z < 10 ->
  Z.of_nat (nat_of_ascii (ascii_of_nat (Z.to_nat (48 + z)))) - 48 = z.
Proof. intros Hz. rewrite nat_ascii_embedding by lia. lia. Qed.

Lemma read_pad_app w k acc z s : 0 <= z < 10 ^ Z.of_nat w ->
  read_digits (w + k) acc (pad w z ++s s) = read_digits k (acc * 10 ^ Z.of_nat w + z) s.
Proof.
  revert k acc z s. induction w as [|w IH]; intros k acc z s Hz.
  - cbn in *. f_equal. lia.
  - rewrite Nat2Z.inj_succ, Z.pow_succ_r in * by lia. cbn [pad]. rewrite str_app_assoc.
    pose proof (Z.mod_pos_bound z 10 ltac:(lia)). pose proof (Z.div_mod z 10 ltac:(lia)).
    replace (S w + k)%nat with (w + S k)%nat by lia. rewrite IH by (split; [lia|]; apply Z.div_lt_upper_bound; lia).
    rewrite str_app_cons. change ("" ++s s) with s. cbn [read_digits]. rewrite read_digit by lia.
    replace ((0 <=? z mod 10) && (z mod 10 <=? 9)) with true by (symmetry; apply andb_true_iff; lia).
    f_equal. lia.
Qed.

Lemma read_pad w z rest : 0 <= z < 10 ^ Z.of_nat w -> read_digits w 0 (pad w z ++s rest) = Some (z, rest).
Proof. intros Hz. pose proof (read_pad_app w 0 0 z rest Hz) as H. by rewrite Nat.add_0_r in H. Qed.

(** The calendar within one era of 400 years that starts on 1 March: the year
    of a day, and the day's place in its year. *)
Lemma year_of_era doe a b c yoe q4 q100 :
  0 <= doe < 146097 ->
  1460 * c <= doe < 1460 * c + 1460 -> 36524 * a <= doe < 36524 * a + 36524 ->
  146096 * b <= doe < 146096 * b + 146096 ->
  365 * yoe <= doe - c + a - b < 365 * yoe + 365 ->
  4 * q4 <= yoe < 4 * q4 + 4 -> 100 * q100 <= yoe < 100 * q100 + 100 ->
  0 <= yoe <= 399 /\ 0 <= doe - (365 * yoe + q4 - q100) <= 365 /\
  (146037 <= doe <-> yoe = 399 /\ 306 <= doe - (365 * yoe + q4 - q100)).
Proof.
  intros. assert (a = 0 \/ a = 1 \/ a = 2 \/ a = 3 \/ a = 4) as Ha by lia.
  assert (0 <= b <= 1) by lia. assert (0 <= yoe <= 399) by lia. split; [lia|].
  assert (q100 = 0 \/ q100 = 1 \/ q100 = 2 \/ q100 = 3) as Hq by lia.
  destruct Ha as [->|[->|[->|[->| ->]]]], Hq as [->|[->|[->| ->]]]; lia.
Qed.

Lemma div_bounds a k : 0 < k -> k * (a / k) <= a < k * (a / k) + k.
Proof. intros Hk. pose proof (Z.mul_div_le a k Hk). pose proof (Z.mul_succ_div_gt a k Hk). lia. Qed.

(** What the format can hold: the years of four digits. *)
Definition four_digit_years (days : Z) : Prop := -719528 <= days <= 2932896.

Lemma civil_ok days : four_digit_years days ->
  let '(y, m, d) := civil_from_days days in
  0 <= y <= 9999 /\ 1 <= m <= 12 /\ 1 <= d <= 31 /\ days_from_civil y m d = days.
Proof.
  unfold four_digit_years, civil_from_days, days_from_civil. intros Hd.
  set (z := days + 719468). pose proof (Z.mod_pos_bound z 146097 ltac:(lia)) as Hdoe.
  pose proof (Z.div_mod z 146097 ltac:(lia)) as Hz. set (doe := z mod 146097) in *. set (era := z / 146097) in *.
  set (yoe := (doe - doe / 1460 + doe / 36524 - doe / 146096) / 365).
  destruct (year_of_era doe (doe / 36524) (doe / 146096) (doe / 1460) yoe (yoe / 4) (yoe / 100)) as (Hy & Hdoy & Hlast);
    [exact Hdoe|apply div_bounds; lia..|].
  set (doy := doe - (365 * yoe + yoe / 4 - yoe / 100)) in *.
  set (mp := (5 * doy + 2) / 153). assert (0 <= mp <= 11 /\ (mp < 10 <-> doy < 306)) as [Hmp Hm10].
  { pose proof (div_bounds (5 * doy + 2) 153 ltac:(lia)). fold mp in H. lia. }
  assert (1 <= doy - (153 * mp + 2) / 5 + 1 <= 31) as Hday.
  { pose proof (div_bounds (5 * doy + 2) 153 ltac:(lia)). fold mp in H.
    pose proof (div_bounds (153 * mp + 2) 5 ltac:(lia)). lia. }
  assert (-1 <= era <= 24 /\ (era = -1 -> 146037 <= doe) /\ (era = 24 -> doe < 146037)) as Hera by lia.
  assert (forall e, e = era -> (yoe + 400 * e) / 400 = era /\ (yoe + 400 * e) mod 400 = yoe) as Hsplit.
  { intros e ->. rewrite (Z.mul_comm 400), Z.div_add, Z.mod_add, Z.div_small, Z.mod_small by lia. lia. }
  destruct (Z.ltb_spec mp 10); cbv iota beta zeta.
  - replace (mp + 3 <=? 2) with false by (symmetry; apply Z.leb_gt; lia). cbv iota beta.
    destruct (Hsplit era eq_refl) as [-> ->]. replace (mp + 3 - 3) with mp by lia. lia.
  - replace (mp - 9 <=? 2) with true by (symmetry; apply Z.leb_le; lia). cbv iota beta.
    replace (yoe + 400 * era + 1 - 1) with (yoe + 400 * era) by lia.
    destruct (Hsplit era eq_refl) as [-> ->]. replace (mp - 9 + 9) with mp by lia. lia.
Qed.

(** Reads the next field of the format, and the character after it. *)
Ltac iso_field :=
  rewrite read_pad by (cbn; lia); cbn [mbind option_bind];
  change (expect ?c (String.append (String ?c "") ?s)) with (Some s);
  change (expect ?c (String ?c "")) with (Some "");
  cbn [mbind option_bind].

(** Reading what [toISOString] wrote gives the time back. *)
Lemma parse_toISOString ms :
  four_digit_years (ms / 86400000) -> parse_iso (toISOString ms) = Some ms.
Proof.
  intros H. pose proof (civil_ok _ H) as Hc. unfold toISOString.
  destruct (civil_from_days (ms / 86400000)) as [[y m] d] eqn:E. destruct Hc as (Hy & Hm & Hd & Hdays).
  pose proof (Z.mod_pos_bound ms 86400000 ltac:(lia)) as Ht. pose proof (Z.div_mod ms 86400000 ltac:(lia)) as Hms.
  set (t := ms mod 86400000) in *.
  assert (year_text y = pad 4 y) as ->.
  { unfold year_text. by replace ((0 <=? y) && (y <=? 9999)) with true by (symmetry; apply andb_true_iff; lia). }
  pose proof (div_bounds t 3600000 ltac:(lia)). pose proof (div_bounds t 60000 ltac:(lia)). pose proof (div_bounds t 1000 ltac:(lia)).
  pose proof (Z.mod_pos_bound (t / 60000) 60 ltac:(lia)). pose proof (Z.mod_pos_bound (t / 1000) 60 ltac:(lia)).
  pose proof (Z.mod_pos_bound t 1000 ltac:(lia)).
  unfold parse_iso. do 7 iso_field.
  assert (in_date y m d (t / 3600000) (t / 60000 mod 60) (t / 1000 mod 60) = true) as ->.
  { unfold in_date. rewrite !andb_true_iff, bool_decide_eq_true, !Z.leb_le, Hdays, E. split_and!; [done|lia..]. }
  cbn. f_equal. rewrite Hdays.
  pose proof (Z.div_mod t 1000 ltac:(lia)). pose proof (Z.div_mod (t / 1000) 60 ltac:(lia)).
  pose proof (Z.div_mod (t / 60000) 60 ltac:(lia)).
  rewrite Z.div_div in * by lia. change (1000 * 60) with 60000 in *. change (60000 * 60) with 3600000 in *. lia.
Qed.
