(* ===== verification/Tables.v ===== *)
(** * The tables

    [src/migrations/]: the five tables, their rows, and the row-level
    [write]s the statements perform. Timestamps are integers in microseconds,
    the resolution of [timestamptz]; a JavaScript [Date] is in milliseconds. *)

From S2P Require Import Prelude Json.
From Stdlib Require Import ZArith Lia String.
From stdpp Require Import prelude strings gmap.

Open Scope Z_scope.

(** The CHECK constraints of [status], [outcome] and [actor]. *)
Inductive status := PENDING | DELIVERING | DELIVERED | FAILED | DLQ.
Inductive AttemptOutcome :=
| SUCCESS | HTTP_ERROR | TIMEOUT | CONN_ERROR | CIRCUIT_OPEN | LOCK_LOST.
Inductive actor := worker | api | reconciler | manual_retry.

#[export] Instance status_eq_dec : EqDecision status.
Proof. solve_decision. Defined.
#[export] Instance AttemptOutcome_eq_dec : EqDecision AttemptOutcome.
Proof. solve_decision. Defined.
#[export] Instance actor_eq_dec : EqDecision actor.
Proof. solve_decision. Defined.

Definition status_text (s : status) : string :=
  match s with
  | PENDING => "PENDING" | DELIVERING => "DELIVERING" | DELIVERED => "DELIVERED"
  | FAILED => "FAILED" | DLQ => "DLQ"
  end.

Definition outcome_text (o : AttemptOutcome) : string :=
  match o with
  | SUCCESS => "SUCCESS" | HTTP_ERROR => "HTTP_ERROR" | TIMEOUT => "TIMEOUT"
  | CONN_ERROR => "CONN_ERROR" | CIRCUIT_OPEN => "CIRCUIT_OPEN" | LOCK_LOST => "LOCK_LOST"
  end.

Definition actor_text (a : actor) : string :=
  match a with
  | worker => "worker" | api => "api" | reconciler => "reconciler" | manual_retry => "manual-retry"
  end.

(** ** Rows *)

Record endpoint_row := {
  e_client_id : string; e_url : string; e_signing_secret : string;
  e_is_active : bool; e_created_at : Z
}.

Record event_row := {
  ev_client_id : string; ev_idempotency_key : string; ev_event_type : string;
  ev_payload : json; ev_received_at : Z
}.

Record delivery_row := {
  d_event_id : string; d_endpoint_id : string; d_status : status;
  d_attempt_count : Z; d_next_attempt_at : option Z; d_enqueued : bool;
  d_created_at : Z; d_updated_at : Z
}.

(** [latency_ms] is nullable in the DDL, but the one INSERT of the code always
    writes it, so it is a plain number here. *)
Record attempt_row := {
  a_delivery_id : string; a_attempt_number : Z; a_outcome : AttemptOutcome;
  a_http_status : option Z; a_response_body : option string;
  a_error_message : option string; a_latency_ms : Z;
  a_started_at : Z; a_finished_at : Z
}.

Record transition_row := {
  t_delivery_id : string; t_from_status : option status; t_to_status : status;
  t_reason : string; t_actor : actor; t_created_at : Z
}.

(** The five tables. The two append-only tables are lists in insertion
    order, the order of their identity column. *)
Record tables := {
  endpoints : gmap string endpoint_row;
  events : gmap string event_row;
  deliveries : gmap string delivery_row;
  delivery_attempts : list attempt_row;
  delivery_transitions : list transition_row
}.

Definition empty_tables : tables := {|
  endpoints := ∅; events := ∅; deliveries := ∅;
  delivery_attempts := []; delivery_transitions := [] |}.

Definition ts_of_ms (ms : Z) : Z := 1000 * ms.
Definition ms_of_ts (ts : Z) : Z := ts / 1000.

(** ** Row-level writes *)

Inductive write :=
| WEvent (id : string) (r : event_row)
| WDelivery (id : string) (r : delivery_row)
| WStatus (id : string) (st : status) (now : Z)
| WEnqueued (id : string) (now : Z)
| WAttempt (r : attempt_row)
| WAttempted (id : string) (st : status) (next : option Z) (now : Z)
| WTransition (r : transition_row)
| WEndpoint (id : string) (r : endpoint_row)
| WPatch (id : string) (is_active : option bool) (url : option string).

Definition on_deliveries (f : gmap string delivery_row -> gmap string delivery_row) (t : tables) : tables := {|
  endpoints := endpoints t; events := events t; deliveries := f (deliveries t);
  delivery_attempts := delivery_attempts t; delivery_transitions := delivery_transitions t |}.

Definition set_status (st : status) (now : Z) (d : delivery_row) : delivery_row := {|
  d_event_id := d_event_id d; d_endpoint_id := d_endpoint_id d; d_status := st;
  d_attempt_count := d_attempt_count d; d_next_attempt_at := d_next_attempt_at d;
  d_enqueued := d_enqueued d; d_created_at := d_created_at d; d_updated_at := now |}.

Definition set_enqueued (now : Z) (d : delivery_row) : delivery_row := {|
  d_event_id := d_event_id d; d_endpoint_id := d_endpoint_id d; d_status := d_status d;
  d_attempt_count := d_attempt_count d; d_next_attempt_at := d_next_attempt_at d;
  d_enqueued := true; d_created_at := d_created_at d; d_updated_at := now |}.

Definition set_attempted (st : status) (next : option Z) (now : Z) (d : delivery_row) : delivery_row := {|
  d_event_id := d_event_id d; d_endpoint_id := d_endpoint_id d; d_status := st;
  d_attempt_count := d_attempt_count d + 1; d_next_attempt_at := next;
  d_enqueued := d_enqueued d; d_created_at := d_created_at d; d_updated_at := now |}.

(** [SET is_active = .., url = ..]: the columns that are given. *)
Definition patched (is_active : option bool) (url : option string) (e : endpoint_row) : endpoint_row := {|
  e_client_id := e_client_id e; e_url := default (e_url e) url; e_signing_secret := e_signing_secret e;
  e_is_active := default (e_is_active e) is_active; e_created_at := e_created_at e |}.

Definition on_endpoints (f : gmap string endpoint_row -> gmap string endpoint_row) (t : tables) : tables := {|
  endpoints := f (endpoints t); events := events t; deliveries := deliveries t;
  delivery_attempts := delivery_attempts t; delivery_transitions := delivery_transitions t |}.

Definition apply_write (t : tables) (w : write) : tables :=
  match w with
  | WEvent id r => {|
      endpoints := endpoints t; events := <[id := r]> (events t); deliveries := deliveries t;
      delivery_attempts := delivery_attempts t; delivery_transitions := delivery_transitions t |}
  | WDelivery id r => on_deliveries (<[id := r]>) t
  | WStatus id st now => on_deliveries (alter (set_status st now) id) t
  | WEnqueued id now => on_deliveries (alter (set_enqueued now) id) t
  | WAttempt r => {|
      endpoints := endpoints t; events := events t; deliveries := deliveries t;
      delivery_attempts := delivery_attempts t ++ [r]; delivery_transitions := delivery_transitions t |}
  | WAttempted id st next now => on_deliveries (alter (set_attempted st next now) id) t
  | WTransition r => {|
      endpoints := endpoints t; events := events t; deliveries := deliveries t;
      delivery_attempts := delivery_attempts t; delivery_transitions := delivery_transitions t ++ [r] |}
  | WEndpoint id r => on_endpoints (<[id := r]>) t
  | WPatch id is_active url => on_endpoints (alter (patched is_active url) id) t
  end.

Definition apply_writes (t : tables) (ws : list write) : tables := foldl apply_write t ws.

Lemma apply_writes_app t ws1 ws2 :
  apply_writes t (ws1 ++ ws2) = apply_writes (apply_writes t ws1) ws2.
Proof. apply foldl_app. Qed.
