(* ===== verification/Queries.v ===== *)
(** * The queries of the read API

    The SELECTs of [list], [listDlq] and [getDetail]
    (src/src/db/deliveries.repo.ts), of the endpoint listing and of the
    statistics, as data ([query]) with their answers on the tables
    ([query_ok]). The listing builds the text of its WHERE clause: its
    conditions name their parameters by position, as in the source. *)

From S2P Require Import Prelude Json Config Dates Tables.
From Stdlib Require Import ZArith Lia String OrdersEx.
From stdpp Require Import prelude strings gmap sorting.

Open Scope Z_scope.

(** ** Keyset order

    [ORDER BY updated_at DESC, id DESC]: ids compare as texts, by code unit,
    which on canonical UUIDs is the order of [uuid]. *)

Definition keyset : Type := Z * string.

Definition key_lt (a b : keyset) : Prop := a.1 < b.1 \/ a.1 = b.1 /\ String.compare a.2 b.2 = Lt.

#[export] Instance key_lt_dec a b : Decision (key_lt a b).
Proof. unfold key_lt. apply _. Defined.

Lemma str_lt_trans a b c : String.compare a b = Lt -> String.compare b c = Lt -> String.compare a c = Lt.
Proof. apply (StrictOrder_Transitive (R := OrdersEx.String_as_OT.lt)). Qed.

Lemma str_lt_irrefl a : String.compare a a <> Lt.
Proof. apply (StrictOrder_Irreflexive (R := OrdersEx.String_as_OT.lt)). Qed.

Lemma key_lt_trans a b c : key_lt a b -> key_lt b c -> key_lt a c.
Proof.
  unfold key_lt. intros [H1|[H1 H1']] [H2|[H2 H2']]; [left; lia..|]. right. split; [lia|]. by eapply str_lt_trans.
Qed.

Lemma key_lt_irrefl a : ~ key_lt a a.
Proof. intros [H|[_ H]]; [lia|by apply str_lt_irrefl in H]. Qed.

Lemma key_lt_total a b : key_lt a b \/ a = b \/ key_lt b a.
Proof.
  unfold key_lt. destruct a as [x i], b as [y j]. cbn.
  destruct (Z.lt_trichotomy x y) as [H|[->|H]]; [by left; left| |by right; right; left].
  destruct (String.compare i j) eqn:E; [|by left; right|].
  - apply String.compare_eq_iff in E as ->. by right; left.
  - right; right; right. split; [done|]. rewrite String.compare_antisym, E. done.
Qed.

(** The newest first. *)
Definition newer (a b : keyset) : Prop := a = b \/ key_lt b a.

#[export] Instance newer_dec a b : Decision (newer a b).
Proof. unfold newer. solve_decision. Defined.

#[export] Instance newer_trans : Transitive newer.
Proof. intros a b c [->|H1] [->|H2]; [by left|by right..|]. right. by eapply key_lt_trans. Qed.

#[export] Instance newer_total : Total newer.
Proof. intros a b. unfold newer. destruct (key_lt_total a b) as [H|[H|H]]; auto. Qed.

#[export] Instance newer_antisymm : AntiSymm (=) newer.
Proof.
  intros a b [H1|H1] [H2|H2]; try done. destruct (key_lt_irrefl a (key_lt_trans a b a H2 H1)).
Qed.

Section SortBy.
Context {A : Type} (key : A -> keyset).

Definition newer_row (a b : A) : Prop := newer (key a) (key b).

#[export] Instance newer_row_dec a b : Decision (newer_row a b).
Proof. unfold newer_row. apply _. Defined.

#[export] Instance newer_row_trans : Transitive newer_row.
Proof. intros a b c. apply newer_trans. Qed.

#[export] Instance newer_row_total : Total newer_row.
Proof. intros a b. apply newer_total. Qed.

Definition newest_first (l : list A) : list A := merge_sort newer_row l.
End SortBy.

(** ** Rows *)

(** deliveries.repo.ts, [DeliveryListRow]. *)
Record DeliveryListRow := {
  lr_id : string; lr_event_id : string; lr_endpoint_id : string; lr_event_type : string;
  lr_status : status; lr_attempt_count : Z; lr_next_attempt_at : option Z;
  lr_created_at : Z; lr_updated_at : Z
}.

(** [DlqRow]: the same columns and one more. *)
Record DlqRow := { dlq_row : DeliveryListRow; dlq_entered_at : Z }.

(** The row of [getDetail], [AttemptDetail] and [TransitionDetail]. *)
Record detail_row := {
  de_id : string; de_status : status; de_attempt_count : Z; de_next_attempt_at : option Z;
  de_created_at : Z; de_updated_at : Z; de_event_id : string; de_event_type : string;
  de_payload : json; de_received_at : Z; de_endpoint_id : string; de_endpoint_url : string
}.

Record AttemptDetail := {
  ad_attempt_number : Z; ad_outcome : AttemptOutcome; ad_http_status : option Z;
  ad_response_body : option string; ad_error_message : option string; ad_latency_ms : Z;
  ad_started_at : Z; ad_finished_at : Z
}.

Record TransitionDetail := {
  td_from_status : option status; td_to_status : status; td_actor : actor; td_reason : string; td_created_at : Z
}.

(** endpoints.ts, [EndpointRow]. *)
Record EndpointRow := {
  er_id : string; er_client_id : string; er_url : string; er_signing_secret : string;
  er_is_active : bool; er_created_at : Z
}.

(** ** The joins *)

Definition list_row (t : tables) (id : string) (d : delivery_row) : option DeliveryListRow :=
  ev ← events t !! d_event_id d;
  Some {|
    lr_id := id; lr_event_id := d_event_id d; lr_endpoint_id := d_endpoint_id d;
    lr_event_type := ev_event_type ev; lr_status := d_status d; lr_attempt_count := d_attempt_count d;
    lr_next_attempt_at := d_next_attempt_at d; lr_created_at := d_created_at d; lr_updated_at := d_updated_at d |}.

Definition list_rows (t : tables) : list DeliveryListRow :=
  omap (fun '(id, d) => list_row t id d) (map_to_list (deliveries t)).

Definition row_key (r : DeliveryListRow) : keyset := (lr_updated_at r, lr_id r).

(** The newest transition of a delivery into the DLQ. *)
Definition entered_dlq (t : tables) (id : string) : option Z :=
  t_created_at <$> last (filter (fun x => t_delivery_id x = id /\ t_to_status x = DLQ) (delivery_transitions t)).

Definition dlq_rows (t : tables) : list DlqRow :=
  omap (fun r => if bool_decide (lr_status r = DLQ)
                 then (fun at_ => {| dlq_row := r; dlq_entered_at := at_ |}) <$> entered_dlq t (lr_id r)
                 else None) (list_rows t).

Definition find_detail (t : tables) (id : string) : option detail_row :=
  d ← deliveries t !! id;
  ev ← events t !! d_event_id d;
  e ← endpoints t !! d_endpoint_id d;
  Some {|
    de_id := id; de_status := d_status d; de_attempt_count := d_attempt_count d;
    de_next_attempt_at := d_next_attempt_at d; de_created_at := d_created_at d; de_updated_at := d_updated_at d;
    de_event_id := d_event_id d; de_event_type := ev_event_type ev; de_payload := ev_payload ev;
    de_received_at := ev_received_at ev; de_endpoint_id := d_endpoint_id d; de_endpoint_url := e_url e |}.

Definition attempt_detail (a : attempt_row) : AttemptDetail := {|
  ad_attempt_number := a_attempt_number a; ad_outcome := a_outcome a; ad_http_status := a_http_status a;
  ad_response_body := a_response_body a; ad_error_message := a_error_message a;
  ad_latency_ms := a_latency_ms a; ad_started_at := a_started_at a; ad_finished_at := a_finished_at a |}.

Definition transition_detail (x : transition_row) : TransitionDetail := {|
  td_from_status := t_from_status x; td_to_status := t_to_status x; td_actor := t_actor x;
  td_reason := t_reason x; td_created_at := t_created_at x |}.

Definition endpoint_detail (id : string) (e : endpoint_row) : EndpointRow := {|
  er_id := id; er_client_id := e_client_id e; er_url := e_url e; er_signing_secret := e_signing_secret e;
  er_is_active := e_is_active e; er_created_at := e_created_at e |}.

(** [ORDER BY attempt_number ASC]. *)
Definition by_number (a b : AttemptDetail) : Prop := ad_attempt_number a <= ad_attempt_number b.

#[export] Instance by_number_dec a b : Decision (by_number a b).
Proof. unfold by_number. apply _. Defined.
#[export] Instance by_number_trans : Transitive by_number.
Proof. intros a b c. unfold by_number. lia. Qed.
#[export] Instance by_number_total : Total by_number.
Proof. intros a b. unfold by_number. lia. Qed.

Definition attempt_details (t : tables) (id : string) : list AttemptDetail :=
  merge_sort by_number (attempt_detail <$> filter (fun a => a_delivery_id a = id) (delivery_attempts t)).

Definition transition_details (t : tables) (id : string) : list TransitionDetail :=
  transition_detail <$> filter (fun x => t_delivery_id x = id) (delivery_transitions t).

(** ** The conditions of the listing *)

(** A condition of the WHERE clause, over the parameters [$n]. *)
Inductive condition :=
| StatusIsAny (n : nat)      (** [d.status = ANY($n::text[])] *)
| EndpointIs (n : nat)       (** [d.endpoint_id = $n::uuid] *)
| CreatedFrom (n : nat)      (** [d.created_at >= $n::timestamptz] *)
| CreatedTo (n : nat)        (** [d.created_at <= $n::timestamptz] *)
| KeyBefore (n m : nat).     (** [(d.updated_at, d.id::text) < ($n::timestamptz, $m::text)] *)

Inductive param :=
| PTexts (l : list string)
| PText (s : string)
| PNumber (n : Z)
| PBool (b : bool).

(** [$n]: positions start at 1. *)
Definition param_at (ps : list param) (n : nat) : option param :=
  match n with O => None | S i => ps !! i end.

Definition text_at (ps : list param) (n : nat) : option string :=
  match param_at ps n with Some (PText s) => Some s | _ => None end.

(** The reading of texts as timestamps, in microseconds: fixed for what
    [toISOString] writes, any for other texts. *)
Definition reads_iso (read : string -> Z) : Prop :=
  forall s ms, parse_iso s = Some ms -> read s = ts_of_ms ms.

Section Conditions.
Context (read : string -> Z) (ps : list param).

(** [None]: the parameter is missing, or cannot be cast. *)
Definition holds (c : condition) (r : DeliveryListRow) : option bool :=
  match c with
  | StatusIsAny n =>
      match param_at ps n with
      | Some (PTexts l) => Some (bool_decide (status_text (lr_status r) ∈ l))
      | _ => None
      end
  | EndpointIs n => s ← text_at ps n; Some (String.eqb (lr_endpoint_id r) s)
  | CreatedFrom n => s ← text_at ps n; Some (read s <=? lr_created_at r)
  | CreatedTo n => s ← text_at ps n; Some (lr_created_at r <=? read s)
  | KeyBefore n m =>
      s ← text_at ps n; i ← text_at ps m; Some (bool_decide (key_lt (row_key r) (read s, i)))
  end.

Definition all_hold (cs : list condition) (r : DeliveryListRow) : bool :=
  forallb (fun c => default false (holds c r)) cs.
End Conditions.

(** The parameter a condition names has the type it is cast to. *)
Definition well_typed (ps : list param) (c : condition) : bool :=
  match c with
  | StatusIsAny n => match param_at ps n with Some (PTexts _) => true | _ => false end
  | EndpointIs n | CreatedFrom n | CreatedTo n => bool_decide (is_Some (text_at ps n))
  | KeyBefore n m => bool_decide (is_Some (text_at ps n)) && bool_decide (is_Some (text_at ps m))
  end.

(** [LIMIT $n]: a number that is not negative. *)
Definition limit_at (ps : list param) (n : nat) : option nat :=
  match param_at ps n with
  | Some (PNumber z) => if 0 <=? z then Some (Z.to_nat z) else None
  | _ => None
  end.

(** ** Queries *)

Inductive query :=
| SelectDeliveries (conditions : list condition) (limit : nat) (params : list param)
| SelectDlq (before : option (jsnum * string)) (limit : Z)
| SelectDetail (id : string)
| SelectAttempts (id : string)
| SelectTransitions (id : string)
| SelectEndpoints (client : option string)
| SelectStatusCounts
| SelectOldest (st : status)
| SelectOne.

Definition query_resp (q : query) : Type :=
  match q with
  | SelectDeliveries _ _ _ => list DeliveryListRow
  | SelectDlq _ _ => list DlqRow
  | SelectDetail _ => list detail_row
  | SelectAttempts _ => list AttemptDetail
  | SelectTransitions _ => list TransitionDetail
  | SelectEndpoints _ => list EndpointRow
  | SelectStatusCounts => list (status * Z)
  | SelectOldest _ => list (option Z)
  | SelectOne => unit
  end.

(** The row comes before the cursor: [(d.updated_at, d.id) < ($1, $2)]. *)
Definition dlq_before (before : option (jsnum * string)) (r : DlqRow) : bool :=
  match before with
  | Some (Num ms, id) => bool_decide (key_lt (row_key (dlq_row r)) (ts_of_ms ms, id))
  | Some (NaN, _) => false
  | None => true
  end.

Definition with_status (t : tables) (st : status) : list (string * delivery_row) :=
  filter (fun x => d_status x.2 = st) (map_to_list (deliveries t)).

Definition count_status (t : tables) (st : status) : Z := Z.of_nat (length (with_status t st)).

(** [min(created_at)], [None] of no rows. *)
Definition min_created (l : list (string * delivery_row)) : option Z :=
  match (fun x : string * delivery_row => d_created_at x.2) <$> l with
  | [] => None
  | z :: zs => Some (foldr Z.min z zs)
  end.

Definition of_client (client : option string) (e : EndpointRow) : bool :=
  match client with Some c => String.eqb (er_client_id e) c | None => true end.

Definition endpoint_rows (t : tables) (client : option string) : list EndpointRow :=
  filter (of_client client)
    (map (fun '(id, e) => endpoint_detail id e) (map_to_list (endpoints t))).

(** What the server refuses: a parameter that cannot be cast. *)
Definition query_violates (q : query) : bool :=
  match q with
  | SelectDeliveries cs n ps => negb (forallb (well_typed ps) cs && bool_decide (is_Some (limit_at ps n)))
  | SelectDlq (Some (NaN, _)) _ => true
  | SelectDlq _ limit => limit <? 0
  | _ => false
  end.

(** The answers, at [now()]. *)
Definition query_ok (now : Z) (t : tables) (q : query) : query_resp q -> Prop :=
  match q return query_resp q -> Prop with
  | SelectDeliveries cs n ps => fun r => exists read limit, reads_iso read /\ limit_at ps n = Some limit /\
      r = take limit (newest_first row_key (filter (all_hold read ps cs) (list_rows t)))
  | SelectDlq before limit => fun r =>
      r = take (Z.to_nat limit) (newest_first (fun r => row_key (dlq_row r)) (filter (dlq_before before) (dlq_rows t)))
  | SelectDetail id => fun r => r = option_list (find_detail t id)
  | SelectAttempts id => fun r => r = attempt_details t id
  | SelectTransitions id => fun r => r = transition_details t id
  | SelectEndpoints client => fun r => r ≡ₚ endpoint_rows t client /\
      StronglySorted (fun a b => er_created_at b <= er_created_at a) r
  | SelectStatusCounts => fun r => NoDup (r.*1) /\
      forall st n, (st, n) ∈ r <-> n = count_status t st /\ 0 < n
  | SelectOldest st => fun r => r = [(fun m => now - m) <$> min_created (with_status t st)]
  | SelectOne => fun _ => True
  end.
