(* ===== verification/Schema.v ===== *)
(** * The statements and the sessions of PostgreSQL

    Every SQL statement the modelled sources send, as data ([stmt]) with its
    meaning on the tables of Tables.v ([stmt_ok], [stmt_violates]); the queries
    of the read API are those of Queries.v. Below: transactions, row locks, and
    what a call that throws may have done. *)

From S2P Require Import Prelude Json Config Tables Queries.
From Stdlib Require Import ZArith Lia String.
From stdpp Require Import prelude strings gmap.

Open Scope Z_scope.

(** ** Statements *)

(** The row of the worker's read (deliveries.repo.ts, [DeliveryForWorkerRow]). *)
Record for_worker_row := {
  w_id : string; w_status : status; w_attempt_count : Z; w_endpoint_id : string;
  w_endpoint_url : string; w_signing_secret : string; w_endpoint_active : bool;
  w_event_id : string; w_event_type : string; w_payload : json; w_received_at : Z
}.

(** The row of the alert (alerts.ts, [LastAttemptSummary]). *)
Record LastAttemptSummary := {
  la_attempt_number : Z; la_outcome : AttemptOutcome;
  la_http_status : option Z; la_error_message : option string
}.

(** An assignment of [UPDATE endpoints SET ..], over the parameters [$n]. *)
Inductive assignment :=
| SetActive (n : nat)        (** [is_active = $n] *)
| SetUrl (n : nat).          (** [url = $n] *)

Inductive stmt :=
| SelectForWorker (id : string)
| UpdateStatus (id : string) (st : status)
| InsertTransition (id : string) (from : option status) (to : status) (reason : string) (by_ : actor)
| SelectClaimable (grace_s limit : Z)
| UpdateEnqueued (id : string)
| SelectStatusForUpdate (id : string)
| InsertAttempt (id : string) (number : Z) (o : AttemptOutcome) (http : option Z)
    (body error : option string) (latency_ms started_ms finished_ms : Z)
| UpdateAttempted (id : string) (st : status) (next : option jsnum)
| SelectLastAttempt (id : string)
| SelectDeliveryOfEvent (event : string)
| InsertEvent (client key type : string) (payload : json)
| SelectEvent (client key : string)
| InsertDelivery (event endpoint : string)
| SelectEndpoint (id : string)
| InsertEndpoint (client url secret : string)
| UpdateEndpoint (sets : list assignment) (where_ : nat) (values : list param)
| Select (q : query).

(** The rows a statement answers with. *)
Definition stmt_resp (q : stmt) : Type :=
  match q with
  | SelectForWorker _ => list for_worker_row
  | SelectClaimable _ _ => list string
  | SelectStatusForUpdate _ => list status
  | SelectLastAttempt _ => list LastAttemptSummary
  | SelectDeliveryOfEvent _ => list (string * status)
  | InsertEvent _ _ _ _ | SelectEvent _ _ | InsertDelivery _ _ => list string
  | SelectEndpoint _ => list (string * string * bool)
  | InsertEndpoint _ _ _ | UpdateEndpoint _ _ _ => list EndpointRow
  | Select q => query_resp q
  | UpdateStatus _ _ | InsertTransition _ _ _ _ _ | UpdateEnqueued _
  | InsertAttempt _ _ _ _ _ _ _ _ _ | UpdateAttempted _ _ _ => unit
  end.

(** What a writing transaction locks until it ends: the row of a delivery,
    or the key of a primary key or unique constraint. *)
Inductive lockkey :=
| LDelivery (id : string)
| LEventId (id : string)
| LDeliveryId (id : string)
| LAttempt (id : string) (number : Z)
| LEvent (client key : string)
| LDeliveryOf (event endpoint : string)
| LEndpoint (id : string).

#[export] Instance lockkey_eq_dec : EqDecision lockkey.
Proof. solve_decision. Defined.

Definition stmt_locks (q : stmt) : stmt_resp q -> list lockkey :=
  match q return stmt_resp q -> list lockkey with
  | UpdateStatus id _ | UpdateEnqueued id | UpdateAttempted id _ _
  | SelectStatusForUpdate id => fun _ => [LDelivery id]
  | SelectClaimable _ _ => fun ids => map LDelivery ids
  | InsertAttempt id n _ _ _ _ _ _ _ => fun _ => [LAttempt id n]
  | InsertEvent c k _ _ => fun ids => LEvent c k :: map LEventId ids
  | InsertDelivery ev ep => fun ids => LDeliveryOf ev ep :: map LDeliveryId ids
  | UpdateEndpoint _ n ps => fun _ => LEndpoint <$> option_list (text_at ps n)
  | _ => fun _ => []
  end.

(** ** Meaning of the statements *)

Definition worker_row (t : tables) (id : string) : option for_worker_row :=
  d ← deliveries t !! id;
  e ← endpoints t !! d_endpoint_id d;
  ev ← events t !! d_event_id d;
  Some {|
    w_id := id; w_status := d_status d; w_attempt_count := d_attempt_count d;
    w_endpoint_id := d_endpoint_id d; w_endpoint_url := e_url e;
    w_signing_secret := e_signing_secret e; w_endpoint_active := e_is_active e;
    w_event_id := d_event_id d; w_event_type := ev_event_type ev;
    w_payload := ev_payload ev; w_received_at := ev_received_at ev |}.

(** The WHERE clause of the reconciler's sweep. *)
Definition claimable (now grace_s : Z) (d : delivery_row) : bool :=
  (bool_decide (d_status d = PENDING) ||
   bool_decide (d_status d = FAILED) &&
   match d_next_attempt_at d with Some n => n <? now | None => false end) &&
  (d_updated_at d <? now - 1000000 * grace_s).

Definition same_event_key (client key : string) (r : event_row) : bool :=
  String.eqb (ev_client_id r) client && String.eqb (ev_idempotency_key r) key.

Definition attempt_summary (a : attempt_row) : LastAttemptSummary := {|
  la_attempt_number := a_attempt_number a; la_outcome := a_outcome a;
  la_http_status := a_http_status a; la_error_message := a_error_message a |}.

Definition new_delivery (event endpoint : string) (now : Z) : delivery_row := {|
  d_event_id := event; d_endpoint_id := endpoint; d_status := PENDING;
  d_attempt_count := 0; d_next_attempt_at := None; d_enqueued := false;
  d_created_at := now; d_updated_at := now |}.

Definition opt_ts (next : option jsnum) : option (option Z) :=
  match next with
  | None => Some None
  | Some (Num ms) => Some (Some (ts_of_ms ms))
  | Some NaN => None
  end.

(** The columns an UPDATE sets; [None]: a parameter that cannot be cast. *)
Definition assign (ps : list param) (acc : option bool * option string) (a : assignment) :
    option (option bool * option string) :=
  match a with
  | SetActive n => match param_at ps n with Some (PBool b) => Some (Some b, acc.2) | _ => None end
  | SetUrl n => match param_at ps n with Some (PText s) => Some (acc.1, Some s) | _ => None end
  end.

Definition assigned (ps : list param) (sets : list assignment) : option (option bool * option string) :=
  foldl (fun acc a => x ← acc; assign ps x a) (Some (None, None)) sets.

(** The constraints a statement breaks: foreign keys, unique keys, and a
    timestamp parameter that is no date. *)
Definition stmt_violates (t : tables) (q : stmt) : Prop :=
  match q with
  | InsertTransition id _ _ _ _ => deliveries t !! id = None
  | InsertAttempt id n _ _ _ _ _ _ _ =>
      deliveries t !! id = None \/
      exists a, a ∈ delivery_attempts t /\ a_delivery_id a = id /\ a_attempt_number a = n
  | UpdateAttempted _ _ next => opt_ts next = None
  | InsertDelivery ev ep =>
      events t !! ev = None \/ endpoints t !! ep = None \/
      exists id d, deliveries t !! id = Some d /\ d_event_id d = ev /\ d_endpoint_id d = ep
  | UpdateEndpoint sets n ps => sets = [] \/ assigned ps sets = None \/ text_at ps n = None
  | Select q => query_violates q = true
  | _ => False
  end.

(** [stmt_ok now t busy q r ws]: on the tables [t], at the transaction's
    [now()], with the keys [busy] locked by others, [q] may answer [r] and
    performs the writes [ws]. Queries without ORDER BY may answer in any
    order; generated ids are any ids not in use. *)
Definition stmt_ok (now : Z) (t : tables) (busy : lockkey -> Prop) (q : stmt) :
    stmt_resp q -> list write -> Prop :=
  match q return stmt_resp q -> list write -> Prop with
  | SelectForWorker id => fun r ws => ws = [] /\ r = option_list (worker_row t id)
  | UpdateStatus id st => fun _ ws => ws = [WStatus id st now]
  | InsertTransition id from to reason by_ => fun _ ws =>
      ws = [WTransition {| t_delivery_id := id; t_from_status := from; t_to_status := to;
                           t_reason := reason; t_actor := by_; t_created_at := now |}]
  | SelectClaimable grace_s limit => fun ids ws =>
      let eligible id := exists d, deliveries t !! id = Some d /\
        claimable now grace_s d = true /\ ~ busy (LDelivery id) in
      ws = [] /\ NoDup ids /\ Z.of_nat (length ids) <= Z.max 0 limit /\
      Forall eligible ids /\
      (Z.of_nat (length ids) < limit -> forall id, eligible id -> id ∈ ids)
  | UpdateEnqueued id => fun _ ws => ws = [WEnqueued id now]
  | SelectStatusForUpdate id => fun r ws => ws = [] /\ r = option_list (d_status <$> deliveries t !! id)
  | InsertAttempt id n o http body err latency started finished => fun _ ws =>
      ws = [WAttempt {| a_delivery_id := id; a_attempt_number := n; a_outcome := o;
                        a_http_status := http; a_response_body := body; a_error_message := err;
                        a_latency_ms := latency; a_started_at := ts_of_ms started;
                        a_finished_at := ts_of_ms finished |}]
  | UpdateAttempted id st next => fun _ ws =>
      exists n, opt_ts next = Some n /\ ws = [WAttempted id st n now]
  | SelectLastAttempt id => fun r ws => ws = [] /\
      ((r = [] /\ forall a, a ∈ delivery_attempts t -> a_delivery_id a <> id) \/
       (exists a, r = [attempt_summary a] /\ a ∈ delivery_attempts t /\ a_delivery_id a = id /\
          forall a', a' ∈ delivery_attempts t -> a_delivery_id a' = id ->
                     a_attempt_number a' <= a_attempt_number a))
  | SelectDeliveryOfEvent ev => fun r ws => ws = [] /\
      ((r = [] /\ forall id d, deliveries t !! id = Some d -> d_event_id d <> ev) \/
       (exists id d, r = [(id, d_status d)] /\ deliveries t !! id = Some d /\ d_event_id d = ev))
  | InsertEvent client key type payload => fun r ws =>
      ((exists id e, events t !! id = Some e /\ same_event_key client key e = true) /\
       r = [] /\ ws = []) \/
      ((forall id e, events t !! id = Some e -> same_event_key client key e = false) /\
       exists id, events t !! id = None /\ r = [id] /\
         ws = [WEvent id {| ev_client_id := client; ev_idempotency_key := key;
                            ev_event_type := type; ev_payload := payload; ev_received_at := now |}])
  | SelectEvent client key => fun r ws => ws = [] /\ NoDup r /\
      forall id, id ∈ r <-> exists e, events t !! id = Some e /\ same_event_key client key e = true
  | InsertDelivery ev ep => fun r ws =>
      exists id, deliveries t !! id = None /\ r = [id] /\ ws = [WDelivery id (new_delivery ev ep now)]
  | SelectEndpoint id => fun r ws => ws = [] /\
      r = option_list ((fun e => (id, e_client_id e, e_is_active e)) <$> endpoints t !! id)
  | InsertEndpoint client url secret => fun r ws =>
      exists id, endpoints t !! id = None /\
      let e := {| e_client_id := client; e_url := url; e_signing_secret := secret;
                  e_is_active := true; e_created_at := now |} in
      r = [endpoint_detail id e] /\ ws = [WEndpoint id e]
  | UpdateEndpoint sets n ps => fun r ws =>
      exists active url id, assigned ps sets = Some (active, url) /\ text_at ps n = Some id /\
      match endpoints t !! id with
      | None => r = [] /\ ws = []
      | Some e => r = [endpoint_detail id (patched active url e)] /\ ws = [WPatch id active url]
      end
  | Select q => fun r ws => ws = [] /\ query_ok now t q r
  end.

(** ** Sessions and transactions

    Every flow of the engine holds at most one client at a time, so a session
    is: no open transaction, or one with its start time ([now()] inside it)
    and the writes so far, private until COMMIT. *)

Record txn := { tx_start : Z; tx_writes : list write }.

Record pgstate := { pg_tables : tables; pg_locks : list (lockkey * nat) }.

Inductive pgcmd :=
| CONNECT | CLIENT_RELEASE | BEGIN | COMMIT | ROLLBACK
| CLIENT_QUERY (q : stmt)
| POOL_QUERY (q : stmt).

Definition pg_resp (c : pgcmd) : Type :=
  match c with
  | CLIENT_QUERY q | POOL_QUERY q => stmt_resp q
  | _ => unit
  end.

(** Locked by a session other than [tid]. *)
Definition busy (p : pgstate) (tid : nat) (k : lockkey) : Prop :=
  exists tid', (k, tid') ∈ pg_locks p /\ tid' <> tid.

Definition release_locks (tid : nat) (l : list (lockkey * nat)) : list (lockkey * nat) :=
  filter (fun '(_, tid') => tid' <> tid) l.

Definition tx_view (p : pgstate) (x : txn) : tables := apply_writes (pg_tables p) (tx_writes x).

Definition committed (p : pgstate) (tid : nat) (ws : list write) : pgstate := {|
  pg_tables := apply_writes (pg_tables p) ws; pg_locks := release_locks tid (pg_locks p) |}.

(** A statement that succeeds in session [tid]. *)
Definition stmt_runs (now : Z) (p : pgstate) (t : tables) (tid : nat) (q : stmt)
    (r : stmt_resp q) (ws : list write) : Prop :=
  stmt_ok now t (busy p tid) q r ws /\ ~ stmt_violates t q /\
  Forall (fun k => ~ busy p tid k) (stmt_locks q r).

(** [pg_answers now p tid tx c r p' tx']: the server answers [r] to [c]. *)
Definition pg_answers (now : Z) (p : pgstate) (tid : nat) (tx : option txn) (c : pgcmd) :
    pg_resp c -> pgstate -> option txn -> Prop :=
  match c return pg_resp c -> pgstate -> option txn -> Prop with
  | CONNECT | CLIENT_RELEASE => fun _ p' tx' => p' = p /\ tx' = tx
  | BEGIN => fun _ p' tx' => p' = p /\ tx' = Some {| tx_start := now; tx_writes := [] |}
  | COMMIT => fun _ p' tx' =>
      p' = committed p tid (default [] (tx_writes <$> tx)) /\ tx' = None
  | ROLLBACK => fun _ p' tx' => p' = committed p tid [] /\ tx' = None
  | CLIENT_QUERY q => fun r p' tx' =>
      exists x ws, tx = Some x /\ stmt_runs (tx_start x) p (tx_view p x) tid q r ws /\
      p' = {| pg_tables := pg_tables p;
              pg_locks := map (fun k => (k, tid)) (stmt_locks q r) ++ pg_locks p |} /\
      tx' = Some {| tx_start := tx_start x; tx_writes := tx_writes x ++ ws |}
  | POOL_QUERY q => fun r p' tx' =>
      exists ws, stmt_runs now p (pg_tables p) tid q r ws /\
      p' = {| pg_tables := apply_writes (pg_tables p) ws; pg_locks := pg_locks p |} /\ tx' = tx
  end.

(** [pg_fails now p tid tx c p' tx']: the call throws. A statement has then
    had no effect, or (an autocommitted statement or a COMMIT whose reply is
    lost) its whole effect; an open transaction stays open until it is rolled
    back, and a transaction whose COMMIT or ROLLBACK fails is over. *)
Definition pg_fails (now : Z) (p : pgstate) (tid : nat) (tx : option txn) (c : pgcmd)
    (p' : pgstate) (tx' : option txn) : Prop :=
  match c with
  | CLIENT_RELEASE => False
  | CONNECT | CLIENT_QUERY _ => p' = p /\ tx' = tx
  | BEGIN => p' = p /\ tx' = None
  | COMMIT =>
      (p' = committed p tid [] \/ p' = committed p tid (default [] (tx_writes <$> tx))) /\ tx' = None
  | ROLLBACK => p' = committed p tid [] /\ tx' = None
  | POOL_QUERY q =>
      tx' = tx /\ (p' = p \/ exists r, pg_answers now p tid tx (POOL_QUERY q) r p' tx')
  end.
