(* ===== verification/Redis.v ===== *)
(** * Redis: the commands the sources issue, and the Lua scripts

    The server is not part of the repository: it is the class [RedisServer],
    whose laws say that its observable key space follows the documented
    meaning of the commands ([redis_doc]) and that keys with a deadline
    disappear when it passes. The three Lua scripts under
    [src/src/redis/scripts/] are programs over the same commands, run
    atomically by EVALSHA. *)

From S2P Require Import Prelude Async.
From Stdlib Require Import ZArith Lia String.
From stdpp Require Import prelude strings gmap.

Open Scope Z_scope.
Open Scope async_scope.

(** The option [EX s] or [PX ms] of SET. *)
Inductive ttl := EX (s : Z) | PX (ms : Z).

Definition ttl_ms (t : ttl) : Z := match t with EX s => 1000 * s | PX ms => ms end.

Inductive rcmd :=
| GET (k : string)
| SET (k v : string) (ex : option ttl) (nx : bool)
| EXISTS (k : string)
| DEL (ks : list string)
| INCR (k : string)
| EXPIRE (k : string) (s : Z)
| PEXPIRE (k : string) (ms : Z)
| HGET (k f : string)
| HSET (k f v : string)
| HINCRBY (k f : string) (n : Z).

(** The replies, as ioredis hands them over: [null] is [None], the status of
    SET is [true] for ['OK'] and [false] for [null]. *)
Definition rresp (c : rcmd) : Type :=
  match c with
  | GET _ | HGET _ _ => option string
  | SET _ _ _ _ => bool
  | EXISTS _ | DEL _ | INCR _ | EXPIRE _ _ | PEXPIRE _ _ | HSET _ _ _ | HINCRBY _ _ _ => Z
  end.

(** ** The key space *)

Inductive rval := RStr (s : string) | RHash (h : gmap string string).

Record rentry := { r_val : rval; r_deadline : option Z }.

Abbreviation keyspace := (gmap string rentry).

Definition alive (t : Z) (e : rentry) : Prop :=
  match r_deadline e with Some d => t < d | None => True end.

#[export] Instance alive_dec t e : Decision (alive t e).
Proof. unfold alive. destruct (r_deadline e); apply _. Defined.

(** The keys that are left at time [t]. *)
Definition live (t : Z) (ks : keyspace) : keyspace := filter (fun '(_, e) => alive t e) ks.

Lemma live_lookup t ks k :
  live t ks !! k = match ks !! k with Some e => if decide (alive t e) then Some e else None | None => None end.
Proof.
  unfold live. rewrite map_lookup_filter. destruct (ks !! k) as [e|]; cbn; [|done].
  rewrite option_guard_decide. by destruct (decide (alive t e)).
Qed.

Definition wrongtype : string := "WRONGTYPE Operation against a key holding the wrong kind of value".
Definition notint : string := "ERR value is not an integer or out of range".
Definition badexpire : string := "ERR invalid expire time in 'set' command".
Definition noscript : string := "NOSCRIPT No matching script. Please use EVAL.".

(** A key that gets the deadline [d] at time [t]: gone at once if it passed. *)
Definition set_deadline (t d : Z) (k : string) (ks : keyspace) : keyspace :=
  match ks !! k with
  | Some e => if d <=? t then delete k ks else <[k := {| r_val := r_val e; r_deadline := Some d |}]> ks
  | None => ks
  end.

(** [INCR]/[HINCRBY] on the textual value, absent counting as 0. *)
Definition incr_text (v : option string) (n : Z) : option Z :=
  match v with
  | None => Some n
  | Some s => z ← read_Z s; Some (z + n)
  end.

(** The documented effect of a command on the keys alive at time [t]. *)
Definition redis_doc (t : Z) (ks : keyspace) (c : rcmd) : (string + rresp c) * keyspace :=
  match c return (string + rresp c) * keyspace with
  | GET k =>
      match ks !! k with
      | None => (inr None, ks)
      | Some {| r_val := RStr s |} => (inr (Some s), ks)
      | Some _ => (inl wrongtype, ks)
      end
  | SET k v ex nx =>
      if match ex with Some x => ttl_ms x <=? 0 | None => false end then (inl badexpire, ks)
      else
      match nx, ks !! k with
      | true, Some _ => (inr false, ks)
      | _, _ => (inr true, <[k := {| r_val := RStr v; r_deadline := (fun x => t + ttl_ms x) <$> ex |}]> ks)
      end
  | EXISTS k => (inr (match ks !! k with Some _ => 1 | None => 0 end), ks)
  | DEL l => (inr (Z.of_nat (length (filter (fun k => is_Some (ks !! k)) (remove_dups l)))),
              foldr delete ks l)
  | INCR k =>
      match ks !! k with
      | None => (inr 1, <[k := {| r_val := RStr (show_Z 1); r_deadline := None |}]> ks)
      | Some {| r_val := RStr s; r_deadline := d |} =>
          match incr_text (Some s) 1 with
          | Some z => (inr z, <[k := {| r_val := RStr (show_Z z); r_deadline := d |}]> ks)
          | None => (inl notint, ks)
          end
      | Some _ => (inl wrongtype, ks)
      end
  | EXPIRE k s => (inr (match ks !! k with Some _ => 1 | None => 0 end), set_deadline t (t + 1000 * s) k ks)
  | PEXPIRE k ms => (inr (match ks !! k with Some _ => 1 | None => 0 end), set_deadline t (t + ms) k ks)
  | HGET k f =>
      match ks !! k with
      | None => (inr None, ks)
      | Some {| r_val := RHash h |} => (inr (h !! f), ks)
      | Some _ => (inl wrongtype, ks)
      end
  | HSET k f v =>
      match ks !! k with
      | None => (inr 1, <[k := {| r_val := RHash {[f := v]}; r_deadline := None |}]> ks)
      | Some {| r_val := RHash h; r_deadline := d |} =>
          (inr (match h !! f with Some _ => 0 | None => 1 end),
           <[k := {| r_val := RHash (<[f := v]> h); r_deadline := d |}]> ks)
      | Some _ => (inl wrongtype, ks)
      end
  | HINCRBY k f n =>
      match ks !! k with
      | None => (inr n, <[k := {| r_val := RHash {[f := show_Z n]}; r_deadline := None |}]> ks)
      | Some {| r_val := RHash h; r_deadline := d |} =>
          match incr_text (h !! f) n with
          | Some z => (inr z, <[k := {| r_val := RHash (<[f := show_Z z]> h); r_deadline := d |}]> ks)
          | None => (inl notint, ks)
          end
      | Some _ => (inl wrongtype, ks)
      end
  end.

(** ** The Lua scripts *)

(** The scripts shipped with the engine, by file name. *)
Inductive script := release_lock_lua | extend_lock_lua | token_bucket_lua.

#[export] Instance script_eq_dec : EqDecision script.
Proof. solve_decision. Defined.

(** A Lua script: calls on the server, errors as text, an integer result. *)
Abbreviation lua := (prog rresp string Z).

Definition redis_call (c : rcmd) : prog rresp string (rresp c) := perform c.

(** release_lock.lua, with [KEYS] and [ARGV]. A missing argument is [nil],
    which [redis.call] and the comparison reject. *)
Definition release_lock (KEYS ARGV : list string) : lua :=
  match KEYS, ARGV with
  | k :: _, token :: _ =>
      let* v := redis_call (GET k) in
      if bool_decide (v = Some token) then redis_call (DEL [k]) else Ret 0
  | _, _ => Throw "ERR Lua redis lib command arguments must be strings or integers"
  end.

(** extend_lock.lua. *)
Definition extend_lock (KEYS ARGV : list string) : lua :=
  match KEYS, ARGV with
  | k :: _, token :: ttl_ms :: _ =>
      let* v := redis_call (GET k) in
      if bool_decide (v = Some token) then
        match read_Z ttl_ms with
        | Some ms => redis_call (PEXPIRE k ms)
        | None => Throw notint
        end
      else Ret 0
  | _, _ => Throw "ERR Lua redis lib command arguments must be strings or integers"
  end.

(** token_bucket.lua: [tonumber] of a text that is no number is [nil], and
    comparing it is an error. *)
Definition token_bucket (KEYS ARGV : list string) : lua :=
  match KEYS, ARGV with
  | k :: _, max_tokens :: ttl_s :: _ =>
      let* cur := redis_call (HGET k "tokens") in
      match read_Z (default max_tokens cur) with
      | None => Throw "ERR attempt to compare nil with number"
      | Some tokens =>
          if tokens <=? 0 then Ret (-1)
          else
            redis_call (HSET k "tokens" (show_Z (tokens - 1))) ;;;
            match read_Z ttl_s with
            | None => Throw notint
            | Some s => redis_call (EXPIRE k s) ;;; Ret (tokens - 1)
            end
      end
  | _, _ => Throw "ERR Lua redis lib command arguments must be strings or integers"
  end.

Definition script_body (sc : script) : list string -> list string -> lua :=
  match sc with
  | release_lock_lua => release_lock
  | extend_lock_lua => extend_lock
  | token_bucket_lua => token_bucket
  end.

(** A script runs alone on the server: no other client between its calls. *)
Definition run_script (t : Z) (sc : script) (keys args : list string) (ks : keyspace) :
    (string + Z) * keyspace :=
  match run_with (redis_doc t) (script_body sc keys args) ks with
  | (Returned n, ks') => (inr n, ks')
  | (Threw e, ks') => (inl e, ks')
  | (Exited, ks') => (inl "ERR", ks')
  end.

(** ** The server *)

Inductive rtop :=
| RCmd (c : rcmd)
| EVALSHA (sha : string) (keys args : list string)
| SCRIPT_LOAD (sc : script)
| PING.

Definition rtop_resp (c : rtop) : Type :=
  match c with
  | RCmd c => rresp c
  | EVALSHA _ _ _ => Z
  | SCRIPT_LOAD _ => string
  | PING => string
  end.

(** A Redis server: its store, its keys alive at a time (in ms), the scripts
    it has loaded, and how it executes a command at a time. *)
Class RedisServer (S : Type) := {
  rs_keys : S -> Z -> keyspace;
  rs_scripts : S -> string -> bool;
  rs_exec : S -> Z -> forall c : rtop, (string + rtop_resp c) * S;
  sha1 : script -> string
}.

(** What the engine relies on of the server: the documented meaning of the
    commands, keys that go when their deadline passes, scripts run by the
    identifier they were loaded under, and that a script touches only the keys
    it is called with. *)
Class RedisLaws (S : Type) `{RedisServer S} : Prop := {
  rs_expiry : forall s t t', t <= t' -> rs_keys s t' = live t' (rs_keys s t);
  rs_cmd : forall s t c,
    (rs_exec s t (RCmd c)).1 = (redis_doc t (rs_keys s t) c).1 /\
    rs_keys (rs_exec s t (RCmd c)).2 t = (redis_doc t (rs_keys s t) c).2 /\
    rs_scripts (rs_exec s t (RCmd c)).2 = rs_scripts s;
  rs_evalsha : forall s t sc keys args, rs_scripts s (sha1 sc) = true ->
    (rs_exec s t (EVALSHA (sha1 sc) keys args)).1 = (run_script t sc keys args (rs_keys s t)).1 /\
    rs_keys (rs_exec s t (EVALSHA (sha1 sc) keys args)).2 t =
      (run_script t sc keys args (rs_keys s t)).2 /\
    rs_scripts (rs_exec s t (EVALSHA (sha1 sc) keys args)).2 = rs_scripts s;
  rs_evalsha_keys : forall s t sha keys args k, k ∉ keys ->
    rs_keys (rs_exec s t (EVALSHA sha keys args)).2 t !! k = rs_keys s t !! k;
  rs_ping : forall s t, rs_keys (rs_exec s t PING).2 t = rs_keys s t;
  rs_noscript : forall s t sha keys args, rs_scripts s sha = false ->
    rs_exec s t (EVALSHA sha keys args) = (inl noscript, s);
  rs_script_load : forall s t sc,
    (rs_exec s t (SCRIPT_LOAD sc)).1 = inr (sha1 sc) /\
    rs_keys (rs_exec s t (SCRIPT_LOAD sc)).2 t = rs_keys s t /\
    rs_scripts (rs_exec s t (SCRIPT_LOAD sc)).2 (sha1 sc) = true /\
    (forall sha, rs_scripts s sha = true -> rs_scripts (rs_exec s t (SCRIPT_LOAD sc)).2 sha = true)
}.

(** ** Facts about the documented commands *)

(** No script, and no command, fails with a NOSCRIPT error of its own. *)
Lemma redis_doc_error t ks c e : (redis_doc t ks c).1 = inl e -> e ∈ [wrongtype; notint; badexpire].
Proof.
  destruct c as [k|k v ex nx|k|l|k|k x|k x|k f|k f v|k f n]; cbn;
    repeat case_match; cbn; intros; simplify_eq; set_solver.
Qed.

Lemma redis_doc_del1 t ks k :
  redis_doc t ks (DEL [k]) =
  (inr (match ks !! k with Some _ => 1 | None => 0 end), delete k ks).
Proof.
  cbn [redis_doc foldr]. f_equal. f_equal. simpl.
  destruct (decide_rel elem_of k []) as [Hin|_]; [by apply elem_of_nil in Hin|].
  rewrite filter_cons.
  destruct (ks !! k) eqn:E; [rewrite decide_True by eauto | rewrite decide_False by (intros [? ?]; congruence)]; done.
Qed.

(** The three scripts, as one step on the key space. *)

Definition run_release (k token : string) (ks : keyspace) : (string + Z) * keyspace :=
  match ks !! k with
  | None => (inr 0, ks)
  | Some {| r_val := RStr v |} => if decide (v = token) then (inr 1, delete k ks) else (inr 0, ks)
  | Some _ => (inl wrongtype, ks)
  end.

Definition run_extend (t : Z) (k token : string) (ms : Z) (ks : keyspace) : (string + Z) * keyspace :=
  match ks !! k with
  | None => (inr 0, ks)
  | Some {| r_val := RStr v |} =>
      if decide (v = token) then (inr 1, set_deadline t (t + ms) k ks) else (inr 0, ks)
  | Some _ => (inl wrongtype, ks)
  end.

(** The hash field [tokens] of a bucket, with the initial value of an absent
    bucket; [None] when the key or the field holds something else. *)
Definition bucket_tokens (k : string) (max : Z) (ks : keyspace) : option Z :=
  match ks !! k with
  | None => Some max
  | Some {| r_val := RHash h |} => match h !! "tokens" with None => Some max | Some v => read_Z v end
  | Some _ => None
  end.

Definition put_tokens (k : string) (n : Z) (ks : keyspace) : keyspace :=
  match ks !! k with
  | Some {| r_val := RHash h; r_deadline := d |} =>
      <[k := {| r_val := RHash (<["tokens" := show_Z n]> h); r_deadline := d |}]> ks
  | _ => <[k := {| r_val := RHash {["tokens" := show_Z n]}; r_deadline := None |}]> ks
  end.

Ltac run_script_tac :=
  rewrite ?run_with_bind; unfold perform; cbn [run_with redis_doc answer fst snd].

Lemma run_release_script t k token ks :
  run_script t release_lock_lua [k] [token] ks = run_release k token ks.
Proof.
  unfold run_script, run_release, script_body, release_lock, redis_call. run_script_tac.
  destruct (ks !! k) as [[[v|h] d]|] eqn:E; cbn; [|done|done].
  destruct (decide (v = token)) as [->|Hne].
  - rewrite bool_decide_true by done. run_script_tac.
    pose proof (redis_doc_del1 t ks k) as Hd. rewrite E in Hd. apply Hd.
  - rewrite bool_decide_false by congruence. done.
Qed.

Lemma run_extend_script t k token ms ks :
  run_script t extend_lock_lua [k] [token; show_Z ms] ks = run_extend t k token ms ks.
Proof.
  unfold run_script, run_extend, script_body, extend_lock, redis_call. run_script_tac.
  destruct (ks !! k) as [[[v|h] d]|] eqn:E; cbn; [|done|done].
  destruct (decide (v = token)) as [->|Hne].
  - rewrite bool_decide_true by done. rewrite read_show_Z. run_script_tac. by rewrite E.
  - rewrite bool_decide_false by congruence. done.
Qed.

Lemma run_bucket_script t k max ttl ks :
  run_script t token_bucket_lua [k] [show_Z max; show_Z ttl] ks =
  match bucket_tokens k max ks with
  | Some n => if n <=? 0 then (inr (-1), ks)
              else (inr (n - 1), set_deadline t (t + 1000 * ttl) k (put_tokens k (n - 1) ks))
  | None => (inl (match ks !! k with
                  | Some {| r_val := RStr _ |} => wrongtype
                  | _ => "ERR attempt to compare nil with number"
                  end), ks)
  end.
Proof.
  unfold run_script, bucket_tokens, script_body, token_bucket, redis_call. run_script_tac.
  destruct (ks !! k) as [[[v|h] d]|] eqn:E; [done| |].
  - run_script_tac. assert (read_Z (default (show_Z max) (h !! "tokens")) =
            match h !! "tokens" with Some v => read_Z v | None => Some max end) as ->.
    { destruct (h !! "tokens"); cbn; [done|]. apply read_show_Z. }
    destruct (match h !! "tokens" with Some v => read_Z v | None => Some max end) as [n|]; [|done].
    destruct (Z.leb_spec n 0); [done|].
    run_script_tac. rewrite E. run_script_tac. rewrite read_show_Z. run_script_tac.
    unfold put_tokens. by rewrite E.
  - run_script_tac. cbn [default]. rewrite read_show_Z.
    destruct (Z.leb_spec max 0); [done|].
    run_script_tac. rewrite E. run_script_tac. rewrite read_show_Z. run_script_tac.
    unfold put_tokens. by rewrite E.
Qed.

(** A script never fails with a NOSCRIPT error of its own, whatever its
    arguments and the keys. *)
Definition plain_error (o : outcome string Z) : Prop :=
  match o with
  | Returned _ => True
  | Threw e => str_includes "NOSCRIPT" e = false
  | Exited => False
  end.

Definition doc_env (t : Z) (ks : keyspace) (c : rcmd) (r : string + rresp c) (ks' : keyspace) : Prop :=
  r = (redis_doc t ks c).1 /\ ks' = (redis_doc t ks c).2.

Lemma doc_handles t : handles (doc_env t) (redis_doc t).
Proof. done. Qed.

Lemma wp_doc t ks (c : rcmd) (Q : outcome string (rresp c) -> keyspace -> Prop) :
  (forall x ks', Q (Returned x) ks') ->
  (forall e ks', str_includes "NOSCRIPT" e = false -> Q (Threw e) ks') ->
  wp (doc_env t) (redis_call c) Q ks.
Proof.
  intros Hr Ht. apply wp_perform. intros r w1 [-> ->].
  destruct (redis_doc t ks c).1 as [e|x] eqn:E; cbn; [|done].
  apply Ht. apply redis_doc_error in E. rewrite !elem_of_cons, elem_of_nil in E.
  destruct E as [->|[->|[->|[]]]]; reflexivity.
Qed.

Lemma script_body_plain t sc keys args ks :
  wp (doc_env t) (script_body sc keys args) (fun o _ => plain_error o) ks.
Proof.
  assert (forall (c : rcmd) (f : rresp c -> lua) ks,
    (forall x ks, wp (doc_env t) (f x) (fun o _ => plain_error o) ks) ->
    wp (doc_env t) (bind (redis_call c) f) (fun o _ => plain_error o) ks) as Hbind.
  { intros c f ks' Hf. apply wp_bind. by apply wp_doc. }
  assert (forall (c : rcmd) (H : rresp c = Z) ks,
    wp (doc_env t) (redis_call c) (fun o _ => match o with Threw e => str_includes "NOSCRIPT" e = false | Exited => False | _ => True end) ks) as Hcall.
  { intros c _ ks'. by apply wp_doc. }
  destruct sc, keys as [|k keys], args as [|a [|b args]]; cbn; try reflexivity.
  all: apply Hbind; intros v ks1.
  all: repeat case_match; try reflexivity; try (by apply (Hcall (DEL _))); try (by apply (Hcall (PEXPIRE _ _))).
  all: apply Hbind; intros v1 ks2; try reflexivity; apply Hbind; reflexivity.
Qed.

Lemma run_script_plain t sc keys args ks e ks' :
  run_script t sc keys args ks = (inl e, ks') -> str_includes "NOSCRIPT" e = false.
Proof.
  pose proof (script_body_plain t sc keys args ks) as H. rewrite wp_exec in H.
  specialize (H _ _ (run_with_exec _ _ (script_body sc keys args) ks (doc_handles t))).
  unfold run_script. destruct (run_with _ _ _) as [[n|e'|] w1]; cbn in *; [done| |done].
  by intros [= <- <-].
Qed.

(** ** Frame: a command changes no key it does not name *)

Definition rcmd_keys (c : rcmd) : list string :=
  match c with
  | GET k | SET k _ _ _ | EXISTS k | INCR k | EXPIRE k _ | PEXPIRE k _
  | HGET k _ | HSET k _ _ | HINCRBY k _ _ => [k]
  | DEL ks => ks
  end.

Lemma lookup_deletes k l (ks : keyspace) : k ∉ l -> foldr delete ks l !! k = ks !! k.
Proof.
  induction l as [|x l IH]; cbn; [done|]. rewrite not_elem_of_cons. intros [Hne Hl].
  rewrite lookup_delete_ne by done. auto.
Qed.

Lemma set_deadline_frame t d k k' ks : k' <> k -> set_deadline t d k ks !! k' = ks !! k'.
Proof.
  intros Hne. unfold set_deadline. destruct (ks !! k); [|done].
  destruct (d <=? t); [by rewrite lookup_delete_ne|by rewrite lookup_insert_ne].
Qed.

Lemma redis_doc_frame t ks c k : k ∉ rcmd_keys c -> (redis_doc t ks c).2 !! k = ks !! k.
Proof.
  destruct c as [x|x v ex nx|x|l|x|x s|x s|x f|x f v|x f n]; cbn [rcmd_keys];
    rewrite ?list_elem_of_singleton; intros Hne; cbn;
    try (by apply lookup_deletes); try (by apply set_deadline_frame);
    repeat case_match; cbn; try done; by rewrite lookup_insert_ne.
Qed.

Lemma script_body_frame t sc keys args ks k :
  k ∉ keys ->
  wp (doc_env t) (script_body sc keys args) (fun _ ks' => ks' !! k = ks !! k) ks.
Proof.
  intros Hk.
  assert (forall (c : rcmd) ks1, k ∉ rcmd_keys c -> ks1 !! k = ks !! k ->
    wp (doc_env t) (redis_call c) (fun _ ks' => ks' !! k = ks !! k) ks1) as Hcall.
  { intros c ks1 Hc H1. apply wp_perform. intros r w1 [-> ->]. by rewrite redis_doc_frame. }
  assert (forall (c : rcmd) (f : rresp c -> lua) ks1, k ∉ rcmd_keys c -> ks1 !! k = ks !! k ->
    (forall x ks2, ks2 !! k = ks !! k -> wp (doc_env t) (f x) (fun _ ks' => ks' !! k = ks !! k) ks2) ->
    wp (doc_env t) (bind (redis_call c) f) (fun _ ks' => ks' !! k = ks !! k) ks1) as Hbind.
  { intros c f ks1 Hc H1 Hf. apply wp_bind. eapply wp_mono; [by apply Hcall|].
    intros [x|e|] ks2 H2; cbn; auto. }
  destruct sc, keys as [|k0 keys], args as [|a [|b args]]; cbn; try reflexivity.
  all: rewrite not_elem_of_cons in Hk; destruct Hk as [Hk _].
  all: apply Hbind; [cbn; by rewrite list_elem_of_singleton|done|]; intros v ks1 H1.
  all: repeat case_match; try by apply H1.
  all: try (by apply (Hcall (DEL _)); [cbn; rewrite list_elem_of_singleton|]).
  all: try (by apply (Hcall (PEXPIRE _ _)); [cbn; rewrite list_elem_of_singleton|]).
  all: apply Hbind; [cbn; by rewrite list_elem_of_singleton|done|]; intros v2 ks2 Hks2; try by apply Hks2.
  all: apply Hbind; [cbn; by rewrite list_elem_of_singleton|done|]; intros v3 ks3 Hks3; by apply Hks3.
Qed.

Lemma run_script_frame t sc keys args ks k :
  k ∉ keys -> (run_script t sc keys args ks).2 !! k = ks !! k.
Proof.
  intros Hk. pose proof (script_body_frame t sc keys args ks k Hk) as H. rewrite wp_exec in H.
  specialize (H _ _ (run_with_exec _ _ (script_body sc keys args) ks (doc_handles t))).
  unfold run_script. by destruct (run_with _ _ _) as [[n|e'|] w1].
Qed.

(** Two key spaces that agree away from some keys. *)
Definition unchanged_but (l : list string) (ks ks' : keyspace) : Prop :=
  forall k, k ∉ l -> ks' !! k = ks !! k.

Lemma unchanged_but_refl l ks : unchanged_but l ks ks.
Proof. done. Qed.

Lemma unchanged_but_trans l ks1 ks2 ks3 :
  unchanged_but l ks1 ks2 -> unchanged_but l ks2 ks3 -> unchanged_but l ks1 ks3.
Proof. intros H1 H2 k Hk. by rewrite H2, H1. Qed.

Lemma unchanged_but_doc l t ks c :
  rcmd_keys c ⊆ l -> unchanged_but l ks (redis_doc t ks c).2.
Proof. intros Hl k Hk. apply redis_doc_frame. set_solver. Qed.

#[export] Hint Resolve unchanged_but_refl : webhook.
