(* ===== verification/Services.v ===== *)
(** * The services behind the engine, and their failures

    Every [await] of the sources is a command ([cmd]) on one of: Redis,
    PostgreSQL, BullMQ, the HTTP client, the clock, the random generators, the
    memory of the process. [env] is the relation between a command, its
    answer and the change of the world; any call on a service may also throw,
    before or after taking effect. The exceptions of the engine are [exn]. *)

From S2P Require Import Prelude Async Json Config Tables Queries Schema Redis.
From Stdlib Require Import ZArith QArith Lia String.
From stdpp Require Import prelude strings gmap.

Open Scope Z_scope.

(** ** Exceptions *)

(** httpClient.ts, [DeliverErrorKind]. *)
Inductive DeliverErrorKind := KIND_TIMEOUT | KIND_CONN_ERROR.

#[export] Instance DeliverErrorKind_eq_dec : EqDecision DeliverErrorKind.
Proof. solve_decision. Defined.

(** What the engine throws and catches: an [Error] of the platform or of a
    library with its name and message, a thrown value that is no [Error],
    BullMQ's [DelayedError], and the engine's own classes. *)
Inductive exn :=
| JsError (name message : string)
| JsOther (text : string)
| DelayedError
| DeliverError (kind : DeliverErrorKind) (message : string)
| AppError (statusCode : Z) (code message : string) (details : json).

(** [err instanceof Error ? err.message : String(err)]. *)
Definition exn_message (e : exn) : string :=
  match e with
  | JsError _ m | DeliverError _ m | AppError _ _ m _ => m
  | JsOther t => t
  | DelayedError => "bullmq:movedToDelayed"
  end.

(** [new Error(message)]. *)
Definition NewError (message : string) : exn := JsError "Error" message.

(** What a service or a library throws: never one of the engine's classes. *)
Definition foreign (e : exn) : Prop :=
  match e with JsError _ _ | JsOther _ => True | _ => False end.

(** ** BullMQ *)

Inductive queue := webhook_delivery | webhook_dlq.

#[export] Instance queue_eq_dec : EqDecision queue.
Proof. solve_decision. Defined.

Inductive job_state := JWait | JActive | JDelayed | JCompleted | JFailed.

#[export] Instance job_state_eq_dec : EqDecision job_state.
Proof. solve_decision. Defined.

Record job := { j_deliveryId : string; j_state : job_state }.

(** The jobs a queue remembers, by id, and the two operations the engine
    calls. *)
Class BullMQ (B : Type) := {
  bq_jobs : B -> queue -> gmap string job;
  bq_add : B -> queue -> string -> string -> B;
  bq_delay : B -> string -> B
}.

(** What the engine relies on: adding a job under an id the queue remembers,
    in whatever state, does nothing; a new id becomes a waiting job; delaying
    an active job changes its state only. *)
Class BullMQLaws (B : Type) `{BullMQ B} : Prop := {
  bq_add_jobs : forall b q id d q',
    bq_jobs (bq_add b q id d) q' =
    if decide (q' = q) then
      match bq_jobs b q !! id with
      | Some _ => bq_jobs b q
      | None => <[id := {| j_deliveryId := d; j_state := JWait |}]> (bq_jobs b q)
      end
    else bq_jobs b q';
  bq_delay_jobs : forall b id q,
    bq_jobs (bq_delay b id) q =
    if decide (q = webhook_delivery) then
      alter (fun j => {| j_deliveryId := j_deliveryId j; j_state := JDelayed |}) id (bq_jobs b q)
    else bq_jobs b q
}.

Definition job_state_text (s : job_state) : string :=
  match s with
  | JWait => "wait" | JActive => "active" | JDelayed => "delayed"
  | JCompleted => "completed" | JFailed => "failed"
  end.

Definition count_jobs (jobs : gmap string job) (ty : string) : Z :=
  Z.of_nat (size (filter (fun '(_, j) => job_state_text (j_state j) = ty) jobs)).

(** ** Commands *)

Record http_request := {
  h_url : string; h_method : string; h_headers : list (string * string); h_body : string;
  h_headersTimeout : option Z; h_bodyTimeout : option Z; h_maxRedirections : option Z
}.

Inductive cmd :=
| Redis (c : rtop)
| Pg (c : pgcmd)
| QueueAdd (q : queue) (name deliveryId jobId : string)
| JobCounts (q : queue) (types : list string)
| MoveToDelayed (job : string) (timestamp : Q) (token : option string)
| DateNow
| MathRandom
| RandomBytes (n : Z)
| HttpSend (r : http_request)
| HttpHead
| HttpBody
| AbortSignal
| ShaGet (sc : script)
| ShaSet (sc : script) (sha : string)
| Log (level message : string).

Definition resp (c : cmd) : Type :=
  match c with
  | Redis c => rtop_resp c
  | Pg c => pg_resp c
  | JobCounts _ _ => gmap string Z
  | DateNow | MathRandom | HttpHead => Z
  | RandomBytes _ | HttpBody => string
  | ShaGet _ => option string
  | QueueAdd _ _ _ _ | MoveToDelayed _ _ _ | HttpSend _ | AbortSignal
  | ShaSet _ _ | Log _ _ => unit
  end.

(** The engine's asynchronous functions. *)
Abbreviation io := (prog resp exn).

(** [await c]. *)
Definition await (c : cmd) : io (resp c) := perform (cmd := cmd) (resp := resp) c.

Definition redis (c : rcmd) : io (rresp c) := await (Redis (RCmd c)).
Definition pg (c : pgcmd) : io (pg_resp c) := await (Pg c).
Definition pool_query (q : stmt) : io (stmt_resp q) := pg (POOL_QUERY q).
Definition client_query (q : stmt) : io (stmt_resp q) := pg (CLIENT_QUERY q).
Definition queue_add (q : queue) (name deliveryId jobId : string) : io unit :=
  await (QueueAdd q name deliveryId jobId).
Definition date_now : io Z := await DateNow.
Definition math_random : io Z := await MathRandom.
(** [randomBytes(n).toString('hex')]. *)
Definition random_hex (n : Z) : io string :=
  let* bytes := await (RandomBytes n) in Ret (to_hex bytes).
Definition log (level message : string) : io unit :=
  await (Log level message).

(** ** The world *)

Section World.
Context {RS BS : Type} `{!RedisServer RS} `{!BullMQ BS}.

(** What all the processes share. The clock is in microseconds. *)
Record shared := {
  s_now : Z;
  s_pg : pgstate;
  s_redis : RS;
  s_bull : BS;
  s_sent : list http_request
}.

(** What belongs to one flow: its identity, its open transaction, and the
    script identifiers its process has loaded. *)
Record session := {
  l_tid : nat;
  l_tx : option txn;
  l_sha : script -> option string
}.

Definition world : Type := shared * session.

Definition now_ms (s : shared) : Z := ms_of_ts (s_now s).

Definition with_pg (p : pgstate) (s : shared) : shared := {|
  s_now := s_now s; s_pg := p; s_redis := s_redis s; s_bull := s_bull s; s_sent := s_sent s |}.
Definition with_redis (r : RS) (s : shared) : shared := {|
  s_now := s_now s; s_pg := s_pg s; s_redis := r; s_bull := s_bull s; s_sent := s_sent s |}.
Definition with_bull (b : BS) (s : shared) : shared := {|
  s_now := s_now s; s_pg := s_pg s; s_redis := s_redis s; s_bull := b; s_sent := s_sent s |}.
Definition with_sent (l : list http_request) (s : shared) : shared := {|
  s_now := s_now s; s_pg := s_pg s; s_redis := s_redis s; s_bull := s_bull s; s_sent := l |}.
Definition with_now (n : Z) (s : shared) : shared := {|
  s_now := n; s_pg := s_pg s; s_redis := s_redis s; s_bull := s_bull s; s_sent := s_sent s |}.
Definition with_tx (tx : option txn) (l : session) : session := {|
  l_tid := l_tid l; l_tx := tx; l_sha := l_sha l |}.
Definition with_sha (sc : script) (sha : string) (l : session) : session := {|
  l_tid := l_tid l; l_tx := l_tx l;
  l_sha := fun sc' => if decide (sc' = sc) then Some sha else l_sha l sc' |}.

(** The commands that cannot throw: language built-ins and the process. *)
Definition infallible (c : cmd) : bool :=
  match c with
  | DateNow | MathRandom | RandomBytes _ | HttpSend _ | AbortSignal
  | ShaGet _ | ShaSet _ _ | Log _ _ | Pg CLIENT_RELEASE => true
  | _ => false
  end.

Definition env_answers (w : world) (c : cmd) : resp c -> world -> Prop :=
  let '(s, l) := w in
  match c return resp c -> world -> Prop with
  | Redis c => fun r w' =>
      (rs_exec (s_redis s) (now_ms s) c).1 = inr r /\
      w' = (with_redis (rs_exec (s_redis s) (now_ms s) c).2 s, l)
  | Pg c => fun r w' => exists p' tx',
      pg_answers (s_now s) (s_pg s) (l_tid l) (l_tx l) c r p' tx' /\
      w' = (with_pg p' s, with_tx tx' l)
  | QueueAdd q _ d id => fun _ w' => w' = (with_bull (bq_add (s_bull s) q id d) s, l)
  | JobCounts q types => fun r w' => w' = w /\
      forall ty, ty ∈ types -> r !! ty = Some (count_jobs (bq_jobs (s_bull s) q) ty)
  | MoveToDelayed id _ _ => fun _ w' => w' = (with_bull (bq_delay (s_bull s) id) s, l)
  | DateNow => fun r w' => r = now_ms s /\ w' = w
  | MathRandom => fun r w' => 0 <= r < 2 ^ 53 /\ w' = w
  | HttpSend q => fun _ w' => w' = (with_sent (s_sent s ++ [q]) s, l)
  | RandomBytes _ | HttpHead | HttpBody => fun _ w' => w' = w
  | AbortSignal | Log _ _ => fun _ w' => w' = w
  | ShaGet sc => fun r w' => r = l_sha l sc /\ w' = w
  | ShaSet sc sha => fun _ w' => w' = (s, with_sha sc sha l)
  end.

Definition env_throws (w : world) (c : cmd) (e : exn) (w' : world) : Prop :=
  let '(s, l) := w in
  infallible c = false /\
  match c with
  | Redis c =>
      (exists msg, (rs_exec (s_redis s) (now_ms s) c).1 = inl msg /\
         e = JsError "ReplyError" msg /\
         w' = (with_redis (rs_exec (s_redis s) (now_ms s) c).2 s, l)) \/
      (foreign e /\ str_includes "NOSCRIPT" (exn_message e) = false /\
         (w' = w \/ w' = (with_redis (rs_exec (s_redis s) (now_ms s) c).2 s, l)))
  | Pg c => foreign e /\ exists p' tx',
      pg_fails (s_now s) (s_pg s) (l_tid l) (l_tx l) c p' tx' /\
      w' = (with_pg p' s, with_tx tx' l)
  | QueueAdd q _ d id => foreign e /\ (w' = w \/ w' = (with_bull (bq_add (s_bull s) q id d) s, l))
  | MoveToDelayed id _ _ => foreign e /\ (w' = w \/ w' = (with_bull (bq_delay (s_bull s) id) s, l))
  | _ => foreign e /\ w' = w
  end.

(** Time passes while a call is under way. *)
Definition elapse (s s' : shared) : Prop := exists n, s_now s <= n /\ s' = with_now n s.

Definition env (w : world) (c : cmd) (r : exn + resp c) (w' : world) : Prop :=
  exists s1, elapse w.1 s1 /\
  match r with
  | inl e => env_throws (s1, w.2) c e w'
  | inr x => env_answers (s1, w.2) c x w'
  end.
Lemma env_foreign (w : world) c e w' : env w c (inl e) w' -> foreign e.
Proof.
  intros (s1 & _ & H). cbn in H. destruct c; cbn in H;
    repeat match goal with
    | H : _ /\ _ |- _ => destruct H
    | H : _ \/ _ |- _ => destruct H
    | H : exists _, _ |- _ => destruct H
    end; subst; done.
Qed.

(** Services that do not fail. *)
Definition steady (w : world) (c : cmd) (r : exn + resp c) (w' : world) : Prop :=
  env w c r w' /\ exists x, r = inr x.

Lemma wp_steady {A} (p : io A) Q (w : world) :
  smooth p -> wp env p Q w -> wp steady p (fun o w' => exists a, o = Returned a /\ Q o w') w.
Proof.
  intros Hp Hq. eapply wp_mono.
  - apply (wp_and steady).
    + apply (wp_smooth steady p); [|exact Hp]. by intros w1 c e w2 [_ [x ?]].
    + eapply wp_env_mono; [|exact Hq]. by intros w1 c r w2 [].
  - intros o w' [[a ->] H]. eauto.
Qed.
Lemma wp_steady_bind {A B} (p : io A) (f : A -> io B) P Q (w : world) :
  smooth p -> wp env p P w -> (forall a w1, P (Returned a) w1 -> wp steady (f a) Q w1) ->
  wp steady (bind p f) Q w.
Proof.
  intros Hp HP Hf. apply wp_bind. eapply wp_mono; [by apply wp_steady|].
  intros o w1 (a & -> & H). by apply Hf.
Qed.
End World.
Arguments shared : clear implicits.
Arguments world : clear implicits.

(** The rules of a single call, for any environment over these commands. *)
Lemma wp_await {W} (R : W -> forall c, exn + resp c -> W -> Prop) (c : cmd)
    (Q : outcome exn (resp c) -> W -> Prop) (w : W) :
  (forall r w1, R w c r w1 -> Q (answer r) w1) -> wp R (await c) Q w.
Proof. apply wp_perform. Qed.

Lemma twp_await {W} (R : W -> forall c, exn + resp c -> W -> Prop) (c : cmd)
    (Q : outcome exn (resp c) -> W -> Prop) (w : W) :
  (exists r w1, R w c r w1) -> (forall r w1, R w c r w1 -> Q (answer r) w1) ->
  twp R (await c) Q w.
Proof. apply twp_perform. Qed.

#[global] Arguments await : simpl never.

(** The command a one-command program awaits. *)
Ltac awaited p :=
  lazymatch p with
  | await ?c => c
  | ?f => let q := eval red in p in awaited q
  end.

(** Applies the rule of a single call at the head of the goal. *)
Ltac wp_call :=
  lazymatch goal with
  | |- wp ?R ?p _ _ => let c := awaited p in apply (wp_await R c)
  | |- twp ?R ?p _ _ => let c := awaited p in apply (twp_await R c)
  end.

(** A Redis command anywhere in time: executed at some later moment, or it
    failed before or after its effect. *)
Section RedisCalls.
Context {RS BS : Type} `{!RedisServer RS} `{!RedisLaws RS} `{!BullMQ BS}.
Abbreviation world := (world RS BS).

Lemma ms_of_ts_mono a b : a <= b -> ms_of_ts a <= ms_of_ts b.
Proof. intros H. unfold ms_of_ts. apply Z.div_le_mono; lia. Qed.

Lemma wp_redis_env (c : rcmd) Q (w : world) :
  (forall n st, s_now w.1 <= n ->
     let t := ms_of_ts n in let ks := rs_keys (s_redis w.1) t in
     let w' := (with_redis st (with_now n w.1), w.2) in
     (forall r, (redis_doc t ks c).1 = inr r -> rs_keys st t = (redis_doc t ks c).2 -> Q (Returned r) w') /\
     (forall e, foreign e -> st = s_redis w.1 \/ rs_keys st t = (redis_doc t ks c).2 -> Q (Threw e) w')) ->
  wp env (redis c) Q w.
Proof.
  intros H. apply (wp_await env (Redis (RCmd c))). intros r w1 (s1 & (n & Hn & ->) & Hw1).
  destruct (rs_cmd (s_redis w.1) (ms_of_ts n) c) as (Hr & Hk & _).
  destruct (H n (rs_exec (s_redis w.1) (ms_of_ts n) (RCmd c)).2 Hn) as [HR HT].
  destruct r as [e|x]; cbn in Hw1 |- *; unfold now_ms in Hw1; cbn in Hw1.
  - destruct Hw1 as [_ [(msg & Hm & -> & ->)|(He & _ & [->| ->])]].
    + apply HT; [done|by right].
    + destruct (H n (s_redis w.1) Hn) as [_ HT']. specialize (HT' e He (or_introl eq_refl)).
      by destruct w as [[] ?].
    + apply HT; [done|by right].
  - destruct Hw1 as [Hx ->]. apply HR; [|done]. rewrite <- Hr. exact Hx.
Qed.
End RedisCalls.

(** [void p]: the call is started and not awaited. What it answers, or throws,
    does not reach the function that started it. *)
Definition detach {A} (p : io A) : io unit := try_catch (p ;;; Ret tt)%async (fun _ => Ret tt).
