(* ===== verification/Concrete.v ===== *)
(** * A concrete set of services

    An in-memory Redis server and BullMQ that satisfy the laws of [RedisLaws]
    and [BullMQLaws], and an executable environment ([serve]) that [env]
    admits: the services on which the development's witnesses run the
    programs. Only witnesses, examples and counterexamples use it. *)

From S2P Require Import Prelude Async Json Config Dates Tables Queries Schema Redis Services.
From Stdlib Require Import ZArith QArith Lia String.
From stdpp Require Import prelude strings gmap sorting.

Open Scope Z_scope.

(** ** Redis in memory *)

Record mem_redis := { mr_keys : keyspace; mr_scripts : list string }.

Definition mem_sha1 (sc : script) : string :=
  match sc with
  | release_lock_lua => "sha-release" | extend_lock_lua => "sha-extend"
  | token_bucket_lua => "sha-bucket"
  end.

Definition mem_script (sha : string) : option script :=
  if String.eqb sha "sha-release" then Some release_lock_lua
  else if String.eqb sha "sha-extend" then Some extend_lock_lua
  else if String.eqb sha "sha-bucket" then Some token_bucket_lua
  else None.

Definition mem_exec (s : mem_redis) (t : Z) (c : rtop) : (string + rtop_resp c) * mem_redis :=
  let ks := live t (mr_keys s) in
  match c return (string + rtop_resp c) * mem_redis with
  | RCmd c => let '(r, ks') := redis_doc t ks c in
              (r, {| mr_keys := ks'; mr_scripts := mr_scripts s |})
  | EVALSHA sha keys args =>
      if bool_decide (sha ∈ mr_scripts s) then
        match mem_script sha with
        | Some sc => let '(r, ks') := run_script t sc keys args ks in
                     (r, {| mr_keys := ks'; mr_scripts := mr_scripts s |})
        | None => (inl noscript, s)
        end
      else (inl noscript, s)
  | SCRIPT_LOAD sc => (inr (mem_sha1 sc), {| mr_keys := mr_keys s; mr_scripts := mem_sha1 sc :: mr_scripts s |})
  | PING => (inr "PONG", s)
  end.

#[local] Arguments mem_exec : simpl never.

#[export] Instance mem_redis_server : RedisServer mem_redis := {
  rs_keys s t := live t (mr_keys s);
  rs_scripts s sha := bool_decide (sha ∈ mr_scripts s);
  rs_exec := mem_exec;
  sha1 := mem_sha1
}.

Lemma live_live t t' ks : t <= t' -> live t' (live t ks) = live t' ks.
Proof.
  intros Ht. apply map_eq. intros k. rewrite !live_lookup.
  destruct (ks !! k) as [e|]; [|done].
  destruct (decide (alive t e)) as [|Hd]; [done|].
  destruct (decide (alive t' e)) as [Hd'|]; [|done].
  destruct Hd. unfold alive in *. destruct (r_deadline e); [lia|done].
Qed.

(** What is alive, and stays so at the same time. *)
Definition all_alive (t : Z) (ks : keyspace) : Prop := map_Forall (fun _ e => alive t e) ks.

Lemma live_all_alive t ks : all_alive t (live t ks).
Proof. intros k e. rewrite live_lookup. repeat case_match; naive_solver. Qed.

Lemma live_id t ks : all_alive t ks -> live t ks = ks.
Proof.
  intros H. apply map_eq. intros k. rewrite live_lookup.
  destruct (ks !! k) as [e|] eqn:E; [|done]. rewrite decide_True; [done|]. by eapply H.
Qed.

Lemma all_alive_insert t k e ks : alive t e -> all_alive t ks -> all_alive t (<[k := e]> ks).
Proof. intros. by apply map_Forall_insert_2. Qed.

Lemma all_alive_delete t k ks : all_alive t ks -> all_alive t (delete k ks).
Proof. intros. by apply map_Forall_delete. Qed.

Lemma all_alive_deletes t l ks : all_alive t ks -> all_alive t (foldr delete ks l).
Proof. intros H. induction l; cbn; [done|]. by apply all_alive_delete. Qed.

Lemma all_alive_set_deadline t d k ks : all_alive t ks -> all_alive t (set_deadline t d k ks).
Proof.
  intros H. unfold set_deadline. destruct (ks !! k) as [e|] eqn:E; [|done].
  destruct (Z.leb_spec d t); [by apply all_alive_delete|].
  apply all_alive_insert; [done|done].
Qed.

Lemma all_alive_doc t c ks : all_alive t ks -> all_alive t (redis_doc t ks c).2.
Proof.
  intros H. destruct c as [k|k v ex nx|k|l|k|k x|k x|k f|k f v|k f n]; cbn.
  1,3,8: by repeat case_match.
  - destruct ex as [x|]; cbn; [destruct (Z.leb_spec (ttl_ms x) 0); [done|]|];
      destruct nx, (ks !! k); cbn; try done; apply all_alive_insert; try done; unfold alive; cbn; lia.
  - by apply all_alive_deletes.
  - destruct (ks !! k) as [[[s|h] d]|] eqn:E; cbn; [|done|by apply all_alive_insert].
    destruct (read_Z s ≫= _); cbn; [|done]. apply all_alive_insert; [by apply (H k _ E)|done].
  - by apply all_alive_set_deadline.
  - by apply all_alive_set_deadline.
  - destruct (ks !! k) as [[[s|h] d]|] eqn:E; cbn; [done| |by apply all_alive_insert].
    apply all_alive_insert; [by apply (H k _ E)|done].
  - destruct (ks !! k) as [[[s|h] d]|] eqn:E; cbn; [done| |by apply all_alive_insert].
    destruct (incr_text (h !! f) n); cbn; [|done]. apply all_alive_insert; [by apply (H k _ E)|done].
Qed.

Lemma all_alive_script t sc keys args ks :
  all_alive t ks -> all_alive t (run_script t sc keys args ks).2.
Proof.
  intros H. unfold run_script.
  assert (all_alive t (run_with (redis_doc t) (script_body sc keys args) ks).2) as Hp.
  { generalize (script_body sc keys args). intros p. revert ks H.
    induction p as [a|e| |c k IH]; intros ks H; cbn; try done.
    destruct (redis_doc t ks c) as [r ks1] eqn:E. apply IH.
    replace ks1 with (redis_doc t ks c).2 by by rewrite E. by apply all_alive_doc. }
  destruct (run_with _ _ _) as [[n|e|] ks']; done.
Qed.

#[export] Instance mem_redis_laws : RedisLaws mem_redis.
Proof.
  constructor; cbn.
  - intros s t t' Ht. by rewrite live_live.
  - intros s t c. unfold mem_exec. destruct (redis_doc t _ c) as [r ks'] eqn:E. cbn.
    split; [done|]. split; [|done]. apply live_id.
    replace ks' with (redis_doc t (live t (mr_keys s)) c).2 by by rewrite E.
    apply all_alive_doc, live_all_alive.
  - intros s t sc keys args Hsc.
    assert (mem_exec s t (EVALSHA (mem_sha1 sc) keys args) =
      let '(r, ks') := run_script t sc keys args (live t (mr_keys s)) in
      (r, {| mr_keys := ks'; mr_scripts := mr_scripts s |})) as ->.
    { unfold mem_exec. rewrite Hsc. by destruct sc. }
    destruct (run_script t sc keys args _) as [r ks'] eqn:E. cbn.
    split; [done|]. split; [|done]. apply live_id.
    replace ks' with (run_script t sc keys args (live t (mr_keys s))).2 by by rewrite E.
    apply all_alive_script, live_all_alive.
  - intros s t sha keys args k Hk. unfold mem_exec.
    destruct (bool_decide _); [destruct (mem_script sha) as [sc|]|]; cbn [snd]; try done.
    destruct (run_script t sc keys args _) as [r ks'] eqn:E. cbn [snd rs_keys mem_redis_server mr_keys].
    replace ks' with (run_script t sc keys args (live t (mr_keys s))).2 by by rewrite E.
    rewrite live_id by apply all_alive_script, live_all_alive. by apply run_script_frame.
  - intros s t. unfold mem_exec. cbn. done.
  - intros s t sha keys args Hsha. unfold mem_exec. by rewrite Hsha.
  - intros s t sc. split; [done|]. split; [done|]. split.
    + apply bool_decide_true. set_solver.
    + intros sha. rewrite !bool_decide_eq_true. set_solver.
Qed.

(** ** BullMQ in memory *)

Record mem_bull := { mb_delivery : gmap string job; mb_dlq : gmap string job }.

Definition mem_jobs (b : mem_bull) (q : queue) : gmap string job :=
  match q with webhook_delivery => mb_delivery b | webhook_dlq => mb_dlq b end.

Definition mem_update (f : gmap string job -> gmap string job) (q : queue) (b : mem_bull) : mem_bull :=
  match q with
  | webhook_delivery => {| mb_delivery := f (mb_delivery b); mb_dlq := mb_dlq b |}
  | webhook_dlq => {| mb_delivery := mb_delivery b; mb_dlq := f (mb_dlq b) |}
  end.

Definition mem_add (id d : string) (jobs : gmap string job) : gmap string job :=
  match jobs !! id with
  | Some _ => jobs
  | None => <[id := {| j_deliveryId := d; j_state := JWait |}]> jobs
  end.

Definition mem_delay (id : string) (jobs : gmap string job) : gmap string job :=
  alter (fun j => {| j_deliveryId := j_deliveryId j; j_state := JDelayed |}) id jobs.

#[export] Instance mem_bullmq : BullMQ mem_bull := {
  bq_jobs := mem_jobs;
  bq_add b q id d := mem_update (mem_add id d) q b;
  bq_delay b id := mem_update (mem_delay id) webhook_delivery b
}.

#[export] Instance mem_bullmq_laws : BullMQLaws mem_bull.
Proof.
  constructor; cbn.
  - intros b q id d q'. destruct q, q'; cbn; try done; unfold mem_add; by destruct (_ !! id).
  - intros b id q. by destruct q.
Qed.

(** ** PostgreSQL in memory *)

Definition find_id {A} (f : A -> bool) (m : gmap string A) : list string :=
  map fst (List.filter (fun '(_, a) => f a) (map_to_list m)).

Lemma elem_of_find_id {A} (f : A -> bool) (m : gmap string A) id :
  id ∈ find_id f m <-> exists a, m !! id = Some a /\ f a = true.
Proof.
  unfold find_id. rewrite list_elem_of_fmap. setoid_rewrite list_elem_of_In.
  setoid_rewrite filter_In. setoid_rewrite <- list_elem_of_In. split.
  - intros ([i a] & -> & Hin & Hf). exists a. split; [by apply elem_of_map_to_list|done].
  - intros (a & Hm & Hf). exists (id, a). split; [done|]. split; [by apply elem_of_map_to_list|done].
Qed.

Lemma NoDup_find_id {A} (f : A -> bool) (m : gmap string A) : NoDup (find_id f m).
Proof.
  unfold find_id. pose proof (NoDup_fst_map_to_list m) as H. revert H.
  generalize (map_to_list m) as l. induction l as [|[i a] l IH]; cbn; [constructor|].
  rewrite NoDup_cons. intros [Hni Hl]. destruct (f a); cbn; [|auto].
  rewrite NoDup_cons. split; [|auto]. intros Hin. apply Hni.
  apply list_elem_of_fmap in Hin as (x & Hx & Hin). apply list_elem_of_fmap. exists x. split; [done|].
  apply list_elem_of_In, filter_In in Hin as [Hin _]. by apply list_elem_of_In.
Qed.

Definition attempt_of (id : string) (a : attempt_row) : bool := String.eqb (a_delivery_id a) id.

(** The attempt with the highest number. *)
Fixpoint max_attempt (l : list attempt_row) : option attempt_row :=
  match l with
  | [] => None
  | a :: l => match max_attempt l with
              | Some b => if a_attempt_number a <=? a_attempt_number b then Some b else Some a
              | None => Some a
              end
  end.

Lemma max_attempt_None l : max_attempt l = None -> l = [].
Proof.
  destruct l as [|x l]; cbn; [done|]. destruct (max_attempt l) as [b|]; [|done].
  destruct (a_attempt_number x <=? a_attempt_number b); discriminate.
Qed.

Lemma max_attempt_Some l a :
  max_attempt l = Some a -> a ∈ l /\ forall b, b ∈ l -> a_attempt_number b <= a_attempt_number a.
Proof.
  revert a. induction l as [|x l IH]; intros a; cbn; [discriminate|].
  destruct (max_attempt l) as [b|] eqn:E.
  - destruct (IH b eq_refl) as [Hb Hmax].
    destruct (Z.leb_spec (a_attempt_number x) (a_attempt_number b)); intros [= <-]; (split; [by constructor|]);
      intros c; rewrite elem_of_cons; intros [->|Hc]; try lia; specialize (Hmax c Hc); lia.
  - clear IH. intros [= <-]. split; [left|]. intros b. rewrite elem_of_cons.
    intros [->|Hb]; [lia|]. apply max_attempt_None in E as ->. by apply elem_of_nil in Hb.
Qed.

Definition event_with (client key : string) (t : tables) : list string :=
  find_id (same_event_key client key) (events t).

(** A UUID made of the number of rows, or any other text if it is taken. *)
Definition fresh_id {A} (m : gmap string A) : string :=
  let id := "00000000-0000-4000-8000-" ++s pad 12 (Z.of_nat (size m)) in
  match m !! id with None => id | Some _ => fresh (dom m) end.

Lemma fresh_id_None {A} (m : gmap string A) : m !! fresh_id m = None.
Proof.
  unfold fresh_id. destruct (m !! (_ ++s _)) eqn:E; [|exact E]. apply not_elem_of_dom, is_fresh.
Qed.

Definition violates (t : tables) (q : stmt) : bool :=
  match q with
  | InsertTransition id _ _ _ _ => bool_decide (deliveries t !! id = None)
  | InsertAttempt id n _ _ _ _ _ _ _ =>
      bool_decide (deliveries t !! id = None) ||
      existsb (fun a => attempt_of id a && (a_attempt_number a =? n)) (delivery_attempts t)
  | UpdateAttempted _ _ next => bool_decide (opt_ts next = None)
  | InsertDelivery ev ep =>
      bool_decide (events t !! ev = None) || bool_decide (endpoints t !! ep = None) ||
      match find_id (fun d => String.eqb (d_event_id d) ev && String.eqb (d_endpoint_id d) ep) (deliveries t) with
      | [] => false | _ => true end
  | UpdateEndpoint sets n ps =>
      match sets with [] => true | _ => false end || bool_decide (assigned ps sets = None) || bool_decide (text_at ps n = None)
  | Select q => query_violates q
  | _ => false
  end.

Lemma violates_spec t q : violates t q = false -> ~ stmt_violates t q.
Proof.
  destruct q; cbn; try (intros _ H; exact H).
  - intros H%bool_decide_eq_false. done.
  - intros [H1%bool_decide_eq_false H2]%orb_false_iff [H|(a & Ha & Hid & Hn)]; [done|].
    assert (existsb (fun a => attempt_of id a && (a_attempt_number a =? number)) (delivery_attempts t) = true); [|congruence].
    apply existsb_exists. exists a. split; [by apply list_elem_of_In|].
    unfold attempt_of. by rewrite Hid, Hn, String.eqb_refl, Z.eqb_refl.
  - intros H%bool_decide_eq_false. done.
  - intros [[H1%bool_decide_eq_false H2%bool_decide_eq_false]%orb_false_iff H3]%orb_false_iff
      [H|[H|(id & d & Hd & He & Hp)]]; [done|done|].
    assert (id ∈ find_id (fun d => String.eqb (d_event_id d) event && String.eqb (d_endpoint_id d) endpoint) (deliveries t)) as Hin.
    { apply elem_of_find_id. exists d. by rewrite He, Hp, !String.eqb_refl. }
    destruct (find_id _ _); [by apply elem_of_nil in Hin|done].
  - rewrite !orb_false_iff, !bool_decide_eq_false. intros [[H1 H2] H3] [-> |[H|H]]; done.
  - intros H. by rewrite H.
Qed.

Definition lockedb (p : pgstate) (tid : nat) (k : lockkey) : bool :=
  existsb (fun '(k', tid') => bool_decide (k' = k) && negb (Nat.eqb tid' tid)) (pg_locks p).

Lemma lockedb_spec p tid k : lockedb p tid k = true <-> busy p tid k.
Proof.
  unfold lockedb, busy. rewrite existsb_exists. split.
  - intros ([k' tid'] & Hin & H). apply andb_true_iff in H as [H1 H2].
    apply bool_decide_eq_true in H1 as ->. exists tid'. split; [by apply list_elem_of_In|].
    apply negb_true_iff, Nat.eqb_neq in H2. done.
  - intros (tid' & Hin & Hne). exists (k, tid'). split; [by apply list_elem_of_In|].
    rewrite bool_decide_true by done. by apply negb_true_iff, Nat.eqb_neq.
Qed.

Definition opt_one {A} (l : list A) : list A := match l with [] => [] | x :: _ => [x] end.

(** A query of the read API: the first answer [query_ok] allows; a text that is
    no ISO date is read as the epoch. *)
Definition read_text (s : string) : Z := match parse_iso s with Some ms => ts_of_ms ms | None => 0 end.

Definition created_first (a b : EndpointRow) : Prop := er_created_at b <= er_created_at a.

#[export] Instance created_first_dec a b : Decision (created_first a b).
Proof. unfold created_first. apply _. Defined.
#[export] Instance created_first_trans : Transitive created_first.
Proof. intros a b c. unfold created_first. lia. Qed.
#[export] Instance created_first_total : Total created_first.
Proof. intros a b. unfold created_first. lia. Qed.

Definition statuses : list status := [PENDING; DELIVERING; DELIVERED; FAILED; DLQ].

Definition status_counts (t : tables) : list (status * Z) :=
  filter (fun x => 0 < x.2) (map (fun st => (st, count_status t st)) statuses).

Definition query_run (now : Z) (t : tables) (q : query) : query_resp q :=
  match q return query_resp q with
  | SelectDeliveries cs n ps =>
      take (default O (limit_at ps n)) (newest_first row_key (filter (all_hold read_text ps cs) (list_rows t)))
  | SelectDlq before limit =>
      take (Z.to_nat limit) (newest_first (fun r => row_key (dlq_row r)) (filter (dlq_before before) (dlq_rows t)))
  | SelectDetail id => option_list (find_detail t id)
  | SelectAttempts id => attempt_details t id
  | SelectTransitions id => transition_details t id
  | SelectEndpoints client => merge_sort created_first (endpoint_rows t client)
  | SelectStatusCounts => status_counts t
  | SelectOldest st => [(fun m => now - m) <$> min_created (with_status t st)]
  | SelectOne => tt
  end.

Lemma read_text_iso : reads_iso read_text.
Proof. intros s ms H. unfold read_text. by rewrite H. Qed.

Lemma status_counts_ok t :
  NoDup ((status_counts t).*1) /\ forall st n, (st, n) ∈ status_counts t <-> n = count_status t st /\ 0 < n.
Proof.
  unfold status_counts. set (f := fun st => (st, count_status t st)). split.
  - eapply sublist_NoDup; [|apply fmap_sublist, sublist_filter].
    assert ((map f statuses).*1 = statuses) as -> by done. apply (bool_decide_unpack _). vm_compute. exact I.
  - intros st n. rewrite list_elem_of_filter. unfold f. rewrite list_elem_of_In, in_map_iff. split.
    + intros [Hn (st' & [= -> <-] & _)]. done.
    + intros [-> Hn]. split; [done|]. exists st. split; [done|]. destruct st; cbn; tauto.
Qed.

Lemma query_run_ok now t q : query_violates q = false -> query_ok now t q (query_run now t q).
Proof.
  destruct q as [cs n ps|before limit|id|id|id|client| |st|]; cbn; intros Hv; try done.
  - apply negb_false_iff, andb_true_iff in Hv as [_ Hl%bool_decide_eq_true_1].
    destruct Hl as [limit Hl]. exists read_text, limit. split; [apply read_text_iso|]. by rewrite Hl.
  - split; [apply merge_sort_Permutation|]. apply (StronglySorted_merge_sort created_first).
  - apply status_counts_ok.
Qed.

(** A statement on the tables: the first answer [stmt_ok] allows. *)
Definition stmt_run (now : Z) (t : tables) (busy : lockkey -> bool) (q : stmt) :
    stmt_resp q * list write :=
  match q return stmt_resp q * list write with
  | SelectForWorker id => (option_list (worker_row t id), [])
  | UpdateStatus id st => (tt, [WStatus id st now])
  | InsertTransition id from to reason by_ =>
      (tt, [WTransition {| t_delivery_id := id; t_from_status := from; t_to_status := to;
                           t_reason := reason; t_actor := by_; t_created_at := now |}])
  | SelectClaimable grace_s limit =>
      (take (Z.to_nat limit)
        (List.filter (fun id => negb (busy (LDelivery id))) (find_id (claimable now grace_s) (deliveries t))), [])
  | UpdateEnqueued id => (tt, [WEnqueued id now])
  | SelectStatusForUpdate id => (option_list (d_status <$> deliveries t !! id), [])
  | InsertAttempt id n o http body err latency started finished =>
      (tt, [WAttempt {| a_delivery_id := id; a_attempt_number := n; a_outcome := o;
                        a_http_status := http; a_response_body := body; a_error_message := err;
                        a_latency_ms := latency; a_started_at := ts_of_ms started;
                        a_finished_at := ts_of_ms finished |}])
  | UpdateAttempted id st next => (tt, [WAttempted id st (default None (opt_ts next)) now])
  | SelectLastAttempt id =>
      (option_list (attempt_summary <$> max_attempt (List.filter (attempt_of id) (delivery_attempts t))), [])
  | SelectDeliveryOfEvent ev =>
      (match find_id (fun d => String.eqb (d_event_id d) ev) (deliveries t) with
       | [] => []
       | id :: _ => match deliveries t !! id with Some d => [(id, d_status d)] | None => [] end
       end, [])
  | InsertEvent client key type payload =>
      match event_with client key t with
      | [] => let id := fresh_id (events t) in
              ([id], [WEvent id {| ev_client_id := client; ev_idempotency_key := key;
                                   ev_event_type := type; ev_payload := payload; ev_received_at := now |}])
      | _ => ([], [])
      end
  | SelectEvent client key => (event_with client key t, [])
  | InsertDelivery ev ep =>
      let id := fresh_id (deliveries t) in ([id], [WDelivery id (new_delivery ev ep now)])
  | SelectEndpoint id =>
      (option_list ((fun e => (id, e_client_id e, e_is_active e)) <$> endpoints t !! id), [])
  | InsertEndpoint client url secret =>
      let id := fresh_id (endpoints t) in
      let e := {| e_client_id := client; e_url := url; e_signing_secret := secret;
                  e_is_active := true; e_created_at := now |} in
      ([endpoint_detail id e], [WEndpoint id e])
  | UpdateEndpoint sets n ps =>
      match assigned ps sets, text_at ps n with
      | Some (active, url), Some id =>
          match endpoints t !! id with
          | None => ([], [])
          | Some e => ([endpoint_detail id (patched active url e)], [WPatch id active url])
          end
      | _, _ => ([], [])
      end
  | Select q => (query_run now t q, [])
  end.

Lemma stmt_run_ok now t (busyb : lockkey -> bool) (busyp : lockkey -> Prop) q :
  (forall k, busyb k = true <-> busyp k) -> violates t q = false ->
  stmt_ok now t busyp q (stmt_run now t busyb q).1 (stmt_run now t busyb q).2.
Proof.
  intros Hbusy Hv.
  destruct q as [id|id st|id from to reason by_|grace_s limit|id|id|id n o http body err la st fi
                |id st next|id|ev|client key type payload|client key|ev ep|id|client url secret|sets n ps|q]; cbn; try done.
  - split; [done|].
    set (l := List.filter _ (find_id (claimable now grace_s) (deliveries t))).
    assert (forall id, id ∈ l <-> (exists d, deliveries t !! id = Some d /\ claimable now grace_s d = true /\ ~ busyp (LDelivery id))) as Hl.
    { intros id. unfold l. rewrite list_elem_of_In, filter_In, <- list_elem_of_In, elem_of_find_id.
      rewrite negb_true_iff. specialize (Hbusy (LDelivery id)).
      destruct (busyb (LDelivery id)); split;
        [by intros []| |intros [(d & H1 & H2) _]; exists d; rewrite <- Hbusy; auto| ];
        intros (d & H1 & H2 & H3); [destruct H3; by apply Hbusy|]. split; [eauto|done]. }
    assert (NoDup l) as Hnd.
    { unfold l. apply NoDup_ListNoDup, List.NoDup_filter, NoDup_ListNoDup, NoDup_find_id. }
    split; [by eapply sublist_NoDup; [|apply sublist_take]|]. split; [rewrite length_take; lia|]. split.
    + apply Forall_forall. intros id Hid. apply Hl.
      apply elem_of_take in Hid as (i & Hi & _). apply list_elem_of_lookup. eauto.
    + intros Hlt id Hid. apply Hl in Hid. rewrite take_ge; [done|]. rewrite length_take in Hlt. lia.
  - cbn in Hv. apply bool_decide_eq_false in Hv. destruct (opt_ts next) as [x|]; [|done]. by exists x.
  - split; [done|]. destruct (max_attempt _) as [a|] eqn:E; cbn.
    + right. apply max_attempt_Some in E as [Hin Hmax]. exists a.
      apply list_elem_of_In, filter_In in Hin as [Hin Ha]. apply String.eqb_eq in Ha.
      split; [done|]. split; [by apply list_elem_of_In|]. split; [done|].
      intros b Hb Hid. apply Hmax, list_elem_of_In, filter_In. split; [by apply list_elem_of_In|].
      by apply String.eqb_eq.
    + left. split; [done|]. intros a Ha Hid. apply max_attempt_None in E.
      assert (a ∈ List.filter (attempt_of id) (delivery_attempts t)) as Hin.
      { apply list_elem_of_In, filter_In. split; [by apply list_elem_of_In|]. by apply String.eqb_eq. }
      rewrite E in Hin. by apply elem_of_nil in Hin.
  - split; [done|]. destruct (find_id _ _) as [|id l] eqn:E.
    + left. split; [done|]. intros id d Hd <-.
      assert (id ∈ find_id (fun d' => String.eqb (d_event_id d') (d_event_id d)) (deliveries t)) as Hin.
      { apply elem_of_find_id. exists d. by rewrite String.eqb_refl. }
      rewrite E in Hin. by apply elem_of_nil in Hin.
    + assert (id ∈ id :: l) as Hin by left. rewrite <- E in Hin.
      apply elem_of_find_id in Hin as (d & Hd & He). apply String.eqb_eq in He.
      right. exists id, d. by rewrite Hd.
  - unfold event_with. destruct (find_id _ _) as [|id l] eqn:E.
    + right. split; [|by exists (fresh_id (events t)); rewrite fresh_id_None].
      intros id e He. destruct (same_event_key client key e) eqn:Hs; [|done].
      assert (id ∈ find_id (same_event_key client key) (events t)) as Hin by (apply elem_of_find_id; eauto).
      rewrite E in Hin. by apply elem_of_nil in Hin.
    + left. split; [|done]. assert (id ∈ id :: l) as Hin by left. rewrite <- E in Hin.
      apply elem_of_find_id in Hin. eauto.
  - split; [done|]. split; [apply NoDup_find_id|]. intros id. apply elem_of_find_id.
  - exists (fresh_id (deliveries t)). by rewrite fresh_id_None.
  - exists (fresh_id (endpoints t)). by rewrite fresh_id_None.
  - cbn in Hv. rewrite !orb_false_iff, !bool_decide_eq_false in Hv. destruct Hv as [[_ Ha] Hi].
    destruct (assigned ps sets) as [[active url]|]; [|done]. destruct (text_at ps n) as [id|]; [|done].
    exists active, url, id. split; [done|]. split; [done|]. by destruct (endpoints t !! id).
  - split; [done|]. by apply query_run_ok.
Qed.

(** ** The executable environment *)

(** The choices the services leave open: the random draw and bytes, the
    answer of the endpoint, and the calls that fail, with what. *)
Record oracle := {
  o_random : Z; o_bytes : string; o_status : Z; o_body : string;
  o_fail : cmd -> option exn
}.

Definition reliable : oracle := {|
  o_random := 0; o_bytes := "token"; o_status := 200; o_body := "ok"; o_fail := fun _ => None |}.

(** A failure the environment admits: on a service call, with an exception
    that is no class of the engine's and no NOSCRIPT error. *)
Definition admitted (c : cmd) (e : exn) : bool :=
  negb (infallible c) &&
  match e with JsError _ _ | JsOther _ => true | _ => false end &&
  negb (str_includes "NOSCRIPT" (exn_message e)).

Definition pg_run (now : Z) (p : pgstate) (tid : nat) (tx : option txn) (c : pgcmd) :
    (exn + pg_resp c) * (pgstate * option txn) :=
  let stmt (start : Z) (t : tables) (q : stmt) :=
    let '(r, ws) := stmt_run start t (lockedb p tid) q in
    if violates t q then inl (JsError "error" "violates constraint")
    else if existsb (lockedb p tid) (stmt_locks q r) then inl (JsError "error" "canceling statement due to lock timeout")
    else inr (r, ws) in
  match c return (exn + pg_resp c) * (pgstate * option txn) with
  | CONNECT | CLIENT_RELEASE => (inr tt, (p, tx))
  | BEGIN => (inr tt, (p, Some {| tx_start := now; tx_writes := [] |}))
  | COMMIT => (inr tt, (committed p tid (default [] (tx_writes <$> tx)), None))
  | ROLLBACK => (inr tt, (committed p tid [], None))
  | CLIENT_QUERY q =>
      match tx with
      | None => (inl (JsError "error" "no transaction"), (p, tx))
      | Some x =>
          match stmt (tx_start x) (tx_view p x) q with
          | inl e => (inl e, (p, tx))
          | inr (r, ws) =>
              (inr r, ({| pg_tables := pg_tables p;
                          pg_locks := map (fun k => (k, tid)) (stmt_locks q r) ++ pg_locks p |},
                       Some {| tx_start := tx_start x; tx_writes := tx_writes x ++ ws |}))
          end
      end
  | POOL_QUERY q =>
      match stmt now (pg_tables p) q with
      | inl e => (inl e, (p, tx))
      | inr (r, ws) =>
          (inr r, ({| pg_tables := apply_writes (pg_tables p) ws; pg_locks := pg_locks p |}, tx))
      end
  end.

Definition pg_break (p : pgstate) (tid : nat) (tx : option txn) (c : pgcmd) : pgstate * option txn :=
  match c with
  | BEGIN => (p, None)
  | COMMIT | ROLLBACK => (committed p tid [], None)
  | _ => (p, tx)
  end.

Abbreviation mem_world := (world mem_redis mem_bull).

Definition answer_of (o : oracle) (w : mem_world) (c : cmd) : (exn + resp c) * mem_world :=
  let '(s, l) := w in
  match c return (exn + resp c) * mem_world with
  | Redis c =>
      match rs_exec (s_redis s) (now_ms s) c with
      | (inl msg, st) => (inl (JsError "ReplyError" msg), (with_redis st s, l))
      | (inr r, st) => (inr r, (with_redis st s, l))
      end
  | Pg c => let '(r, (p', tx')) := pg_run (s_now s) (s_pg s) (l_tid l) (l_tx l) c in
            (r, (with_pg p' s, with_tx tx' l))
  | QueueAdd q _ d id => (inr tt, (with_bull (bq_add (s_bull s) q id d) s, l))
  | JobCounts q types =>
      (inr (list_to_map (map (fun ty => (ty, count_jobs (bq_jobs (s_bull s) q) ty)) types)), w)
  | MoveToDelayed id _ _ => (inr tt, (with_bull (bq_delay (s_bull s) id) s, l))
  | DateNow => (inr (now_ms s), w)
  | MathRandom => (inr (o_random o mod 2 ^ 53), w)
  | RandomBytes _ => (inr (o_bytes o), w)
  | HttpSend q => (inr tt, (with_sent (s_sent s ++ [q]) s, l))
  | HttpHead => (inr (o_status o), w)
  | HttpBody => (inr (o_body o), w)
  | AbortSignal | Log _ _ => (inr tt, w)
  | ShaGet sc => (inr (l_sha l sc), w)
  | ShaSet sc sha => (inr tt, (s, with_sha sc sha l))
  end.

Definition serve (o : oracle) (w : mem_world) (c : cmd) : (exn + resp c) * mem_world :=
  match o_fail o c with
  | Some e =>
      if admitted c e then
        (inl e, match c with
                | Pg c => let '(p', tx') := pg_break (s_pg w.1) (l_tid w.2) (l_tx w.2) c in
                          (with_pg p' w.1, with_tx tx' w.2)
                | _ => w
                end)
      else answer_of o w c
  | None => answer_of o w c
  end.

Lemma pg_run_spec now p tid tx c :
  match (pg_run now p tid tx c).1 with
  | inr r => pg_answers now p tid tx c r (pg_run now p tid tx c).2.1 (pg_run now p tid tx c).2.2
  | inl e => foreign e /\ pg_fails now p tid tx c (pg_run now p tid tx c).2.1 (pg_run now p tid tx c).2.2
  end.
Proof.
  assert (forall start t q,
    violates t q = false ->
    existsb (lockedb p tid) (stmt_locks q (stmt_run start t (lockedb p tid) q).1) = false ->
    stmt_runs start p t tid q (stmt_run start t (lockedb p tid) q).1 (stmt_run start t (lockedb p tid) q).2) as Hruns.
  { intros start t q Hv Hl. split; [apply stmt_run_ok; [apply lockedb_spec|done]|].
    split; [by apply violates_spec|]. apply Forall_forall. intros k Hk Hb.
    assert (existsb (lockedb p tid) (stmt_locks q (stmt_run start t (lockedb p tid) q).1) = true); [|congruence].
    apply existsb_exists. exists k. split; [by apply list_elem_of_In|]. by apply lockedb_spec. }
  destruct c as [| | | | |q|q]; cbn; try done.
  - destruct tx as [x|]; cbn; [|done]. specialize (Hruns (tx_start x) (tx_view p x) q).
    destruct (stmt_run _ _ _ _) as [r ws]. destruct (violates _ _); [done|].
    cbn in *. destruct (existsb _ _); [done|]. cbn. exists x, ws. auto.
  - specialize (Hruns now (pg_tables p) q).
    destruct (stmt_run _ _ _ _) as [r ws]. destruct (violates _ _); [cbn; auto|].
    cbn in *. destruct (existsb _ _); [cbn; auto|]. cbn. exists ws. auto.
Qed.

Lemma pg_break_fails now p tid tx c :
  c <> CLIENT_RELEASE -> pg_fails now p tid tx c (pg_break p tid tx c).1 (pg_break p tid tx c).2.
Proof. destruct c; cbn; auto. Qed.

Lemma list_to_map_fun (f : string -> Z) (l : list string) ty :
  ty ∈ l -> (list_to_map (map (fun x => (x, f x)) l) : gmap string Z) !! ty = Some (f ty).
Proof.
  induction l as [|x l IH]; intros Hin; [by apply elem_of_nil in Hin|]. cbn.
  destruct (decide (x = ty)) as [->|Hne]; [by rewrite lookup_insert_eq|].
  rewrite lookup_insert_ne by done. apply IH. by apply elem_of_cons in Hin as [->|].
Qed.

Lemma answer_of_env o (w : mem_world) c : env w c (answer_of o w c).1 (answer_of o w c).2.
Proof.
  destruct w as [s l]. exists s. split; [exists (s_now s); split; [done|by destruct s]|]. cbn [snd].
  destruct c; cbn; try done.
  - destruct (mem_exec (s_redis s) (now_ms s) c) as [[msg|r] st] eqn:Ex; cbn.
    + split; [done|]. left. exists msg. by rewrite ?Ex.
    + by rewrite ?Ex.
  - pose proof (pg_run_spec (s_now s) (s_pg s) (l_tid l) (l_tx l) c) as H.
    destruct (pg_run _ _ _ _ _) as [r [p' tx']] eqn:E. destruct r as [e|r]; cbn in *; [|eauto].
    destruct H as [He H]. split; [|eauto]. by destruct c.
  - split; [done|]. intros ty Hty.
    apply (list_to_map_fun (fun ty => count_jobs (mem_jobs (s_bull s) q) ty) types ty Hty).
  - split; [|done]. apply Z.mod_pos_bound. lia.
Qed.

(** Every step of [serve] is one the environment admits. *)
Lemma serve_env o : handles env (serve o).
Proof.
  intros w c. unfold serve. destruct (o_fail o c) as [e|]; [|apply answer_of_env].
  destruct (admitted c e) eqn:Ha; [|apply answer_of_env].
  unfold admitted in Ha. rewrite !andb_true_iff, !negb_true_iff in Ha. destruct Ha as [[Hi Hf] Hn].
  destruct w as [s l]. exists s. split; [exists (s_now s); split; [done|by destruct s]|].
  cbn. assert (foreign e) as Hfe by (destruct e; done). split; [done|].
  destruct c; cbn; eauto; try done.
  split; [done|]. pose proof (pg_break_fails (s_now s) (s_pg s) (l_tid l) (l_tx l) c) as Hp.
  destruct (pg_break _ _ _ _) as [p' tx']. cbn in *. exists p', tx'. split; [|done].
  apply Hp. by intros ->.
Qed.

(** ** Worlds to start from *)

Definition demo_session : session := {|
  l_tid := 1%nat; l_tx := None; l_sha := fun sc => Some (mem_sha1 sc) |}.

(** The clock at [ms] milliseconds, the tables [t], the keys [ks], the jobs
    [jobs], every script loaded, no transaction open. *)
Definition demo_world (ms : Z) (t : tables) (ks : keyspace) (jobs : gmap string job) : mem_world := ({|
  s_now := ts_of_ms ms;
  s_pg := {| pg_tables := t; pg_locks := [] |};
  s_redis := {| mr_keys := ks; mr_scripts := ["sha-release"; "sha-extend"; "sha-bucket"] |};
  s_bull := {| mb_delivery := jobs; mb_dlq := ∅ |};
  s_sent := [] |}, demo_session).

(** Running a program on the executable services is one of its runs. *)
Lemma serve_exec {A} o (p : io A) (w : mem_world) :
  exec env p w (run_with (serve o) p w).1 (run_with (serve o) p w).2.
Proof. apply run_with_exec, serve_env. Qed.

Lemma serve_steady {A} o (p : io A) (w : mem_world) :
  answered (serve o) p w = true ->
  exec steady p w (run_with (serve o) p w).1 (run_with (serve o) p w).2.
Proof. apply run_with_answered, serve_env. Qed.

(** A service that records the calls: the trace of a run on [serve o]. *)
Definition traced (o : oracle) (wt : mem_world * list (event resp exn)) (c : cmd) :
    (exn + resp c) * (mem_world * list (event resp exn)) :=
  let '(w, tr) := wt in
  let '(r, w') := serve o w c in
  (r, (w', tr ++ [Ev c r])).

Lemma traced_witnessed {A} o (p : io A) w tr :
  exec (witnessed env) p (w, tr) (run_with (traced o) p (w, tr)).1
    ((run_with (traced o) p (w, tr)).2.1, (run_with (traced o) p (w, tr)).2.2).
Proof.
  rewrite <- surjective_pairing. apply run_with_exec. intros [w1 tr1] c. unfold traced, witnessed.
  pose proof (serve_env o w1 c) as H. by destruct (serve o w1 c) as [r w2].
Qed.

Lemma traced_exec {A} o (p : io A) w tr :
  exec trace_env p tr (run_with (traced o) p (w, tr)).1 (run_with (traced o) p (w, tr)).2.2.
Proof.
  revert w tr. induction p as [a|e| |c k IH]; intros w tr; cbn; try done.
  destruct (serve o w c) as [r w'] eqn:E. exists r, (tr ++ [Ev c r]). split; [done|apply IH].
Qed.

(** One endpoint, one event, one delivery [d1] in the given state. *)
Definition demo_delivery (st : status) (attempts : Z) (next : option Z) : delivery_row := {|
  d_event_id := "v1"; d_endpoint_id := "e1"; d_status := st; d_attempt_count := attempts;
  d_next_attempt_at := next; d_enqueued := true; d_created_at := 0; d_updated_at := 0 |}.

Definition demo_attempt (n : Z) : attempt_row := {|
  a_delivery_id := "d1"; a_attempt_number := n; a_outcome := HTTP_ERROR;
  a_http_status := Some 503; a_response_body := Some ""; a_error_message := Some "HTTP 503";
  a_latency_ms := 3; a_started_at := 0; a_finished_at := 3000 |}.

Definition demo_transition (from : option status) (to : status) : transition_row := {|
  t_delivery_id := "d1"; t_from_status := from; t_to_status := to;
  t_reason := "created"; t_actor := api; t_created_at := 0 |}.

Definition demo_tables (st : status) (attempts : list attempt_row) (next : option Z) : tables := {|
  endpoints := {["e1" := {| e_client_id := "c1"; e_url := "http://receiver/hook"; e_signing_secret := "secret";
                            e_is_active := true; e_created_at := 0 |}]};
  events := {["v1" := {| ev_client_id := "c1"; ev_idempotency_key := "k1"; ev_event_type := "order.created";
                         ev_payload := JObj [("id", JNum "1")]; ev_received_at := 0 |}]};
  deliveries := {["d1" := demo_delivery st (Z.of_nat (length attempts)) next]};
  delivery_attempts := attempts;
  delivery_transitions := [demo_transition None st] |}.
