(* ===== verification/Scripts.v ===== *)
(** * Scripts kept loaded on the server

    [src/src/redis/scripts.ts]: the class [LoadedScript], which calls a Lua
    script by its identifier and reloads it when the server has forgotten it,
    and the three typed entry points. *)

From S2P Require Import Prelude Async Tables Queries Schema Redis Services Concrete.
From Stdlib Require Import ZArith Lia String.
From stdpp Require Import prelude strings gmap.

Open Scope Z_scope.
Open Scope async_scope.

(** [isNoScriptError(err)]. *)
Definition isNoScriptError (err : exn) : bool :=
  match err with
  | JsOther _ => false
  | _ => str_includes "NOSCRIPT" (exn_message err)
  end.

Definition script_load (sc : script) : io string :=
  await (Redis (SCRIPT_LOAD sc)).
Definition evalsha (sha : string) (keys args : list string) : io Z :=
  await (Redis (EVALSHA sha keys args)).
Definition get_sha (sc : script) : io (option string) :=
  await (ShaGet sc).
Definition set_sha (sc : script) (sha : string) : io unit :=
  await (ShaSet sc sha).

(** The constructor of [LoadedScript]: the promise [ready]. *)
Definition load_script (sc : script) : io unit :=
  let* sha := script_load sc in set_sha sc sha.

(** [LoadedScript.eval]: [await this.ready] fails when the initial load did,
    and [this.sha] is set otherwise. *)
Definition eval_script (sc : script) (keys args : list string) : io Z :=
  let* sha := get_sha sc in
  match sha with
  | None => Throw (NewError "SCRIPT LOAD failed")
  | Some sha =>
      try_catch (evalsha sha keys args) (fun err =>
        if isNoScriptError err then
          let* sha := script_load sc in
          set_sha sc sha ;;;
          evalsha sha keys args
        else Throw err)
  end.

Definition evalReleaseLock (key token : string) : io Z :=
  eval_script release_lock_lua [key] [token].
Definition evalExtendLock (key token : string) (ttlMs : Z) : io Z :=
  eval_script extend_lock_lua [key] [token; show_Z ttlMs].
Definition evalTokenBucket (key : string) (maxTokens ttlSeconds : Z) : io Z :=
  eval_script token_bucket_lua [key] [show_Z maxTokens; show_Z ttlSeconds].

(** ** The calm environment

    No failure and no time passing: what a call does when everything works,
    within one reading of the clock. *)

Section Calm.
Context {RS BS : Type} `{!RedisServer RS} `{!RedisLaws RS} `{!BullMQ BS}.
Abbreviation world := (world RS BS).

(** The only exceptions left are the error replies of the Redis server. *)
Definition calm (w : world) (c : cmd) (r : exn + resp c) (w' : world) : Prop :=
  match r with
  | inl e => exists rc msg, c = Redis rc /\ e = JsError "ReplyError" msg /\
      (rs_exec (s_redis w.1) (now_ms w.1) rc).1 = inl msg /\
      w' = (with_redis (rs_exec (s_redis w.1) (now_ms w.1) rc).2 w.1, w.2)
  | inr x => env_answers w c x w'
  end.

(** The key space the world shows. *)
Definition ks_of (w : world) : keyspace := rs_keys (s_redis w.1) (now_ms w.1).
Definition scripts_of (w : world) : string -> bool := rs_scripts (s_redis w.1).

(** A calm run is a run of the environment. *)
Lemma calm_env w c r w' : calm w c r w' -> env w c r w'.
Proof.
  destruct w as [s l]. unfold calm, env. intros H. exists s. split.
  { exists (s_now s). split; [done|]. by destruct s. }
  destruct r as [e|x]; [|done]. destruct H as (rc & msg & -> & -> & Hr & ->).
  split; [done|]. left. eauto.
Qed.

(** Same session, clock and database; only Redis may differ. *)
Definition same_but_redis (w w' : world) : Prop :=
  exists r, w' = (with_redis r w.1, w.2).

(** Every script is loaded by this process and known to the server. *)
Definition scripts_ready (w : world) : Prop :=
  forall sc, l_sha w.2 sc = Some (sha1 sc) /\ scripts_of w (sha1 sc) = true.

Lemma same_but_redis_refl w : same_but_redis w w.
Proof. exists (s_redis w.1). by destruct w as [[] ?]. Qed.

Lemma same_but_redis_trans w1 w2 w3 :
  same_but_redis w1 w2 -> same_but_redis w2 w3 -> same_but_redis w1 w3.
Proof. intros [r1 ->] [r2 ->]. by exists r2. Qed.

Lemma same_but_redis_clock w w' : same_but_redis w w' -> now_ms w'.1 = now_ms w.1.
Proof. by intros [r ->]. Qed.

(** What the answer of a Redis command becomes for the program. *)
Definition reply_of {A} (x : string + A) : exn + A :=
  match x with inl msg => inl (JsError "ReplyError" msg) | inr a => inr a end.

(** One command on the server, in the calm environment. *)
Lemma twp_rtop (c : rtop) Q (w : world) :
  Q (answer (reply_of (rs_exec (s_redis w.1) (now_ms w.1) c).1))
    (with_redis (rs_exec (s_redis w.1) (now_ms w.1) c).2 w.1, w.2) ->
  twp calm (await (Redis c)) Q w.
Proof.
  destruct w as [s l]. cbn [fst snd].
  destruct (rs_exec (s_redis s) (now_ms s) c) as [[msg|x] st] eqn:E; cbn [fst snd reply_of answer];
    intros HQ; apply (twp_await calm (Redis c)).
  - exists (inl (JsError "ReplyError" msg)), (with_redis st s, l). exists c, msg. cbn. by rewrite E.
  - intros r w1. destruct r as [e|x]; cbn; [|rewrite E; by intros [? ?]].
    intros (rc & msg' & [= <-] & -> & Hr & ->). cbn in *. rewrite E in Hr |- *. by simplify_eq/=.
  - exists (inr x), (with_redis st s, l). cbn. by rewrite E.
  - intros r w1. destruct r as [e|x']; cbn.
    + intros (rc & msg' & [= <-] & -> & Hr & ->). cbn in Hr. by rewrite E in Hr.
    + rewrite E. cbn. by intros [[= <-] ->].
Qed.

(** A plain command: answered and performed as documented. *)
Lemma twp_redis (c : rcmd) Q (w : world) :
  (forall w', same_but_redis w w' -> ks_of w' = (redis_doc (now_ms w.1) (ks_of w) c).2 ->
     scripts_of w' = scripts_of w ->
     Q (answer (reply_of (redis_doc (now_ms w.1) (ks_of w) c).1)) w') ->
  twp calm (redis c) Q w.
Proof.
  intros H. apply twp_rtop.
  destruct (rs_cmd (s_redis w.1) (now_ms w.1) c) as (H1 & H2 & H3).
  rewrite H1. apply H; [by eexists | done | done].
Qed.

(** EVALSHA of a script the server knows: the body, atomically. *)
Lemma twp_evalsha (sc : script) (keys args : list string) Q (w : world) :
  scripts_of w (sha1 sc) = true ->
  (forall w', same_but_redis w w' ->
     ks_of w' = (run_script (now_ms w.1) sc keys args (ks_of w)).2 ->
     scripts_of w' = scripts_of w ->
     Q (answer (reply_of (run_script (now_ms w.1) sc keys args (ks_of w)).1)) w') ->
  twp calm (evalsha (sha1 sc) keys args) Q w.
Proof.
  intros Hsc H. apply twp_rtop.
  destruct (rs_evalsha (s_redis w.1) (now_ms w.1) sc keys args Hsc) as (H1 & H2 & H3).
  rewrite H1. apply H; [by eexists | done | done].
Qed.

Lemma twp_get_sha (sc : script) Q (w : world) :
  Q (Returned (l_sha w.2 sc)) w -> twp calm (get_sha sc) Q w.
Proof.
  destruct w as [s l]. intros HQ. apply (twp_await calm (ShaGet sc));
    [by exists (inr (l_sha l sc) : exn + resp (ShaGet sc)), (s, l)|].
  intros [e|x] w1; [by intros (? & ? & ? & ?)|]. by intros [-> ->].
Qed.

(** A script call, once the scripts are loaded: the script and nothing else. *)
Lemma twp_eval_script (sc : script) (keys args : list string) Q (w : world) n ks' :
  scripts_ready w ->
  run_script (now_ms w.1) sc keys args (ks_of w) = (inr n, ks') ->
  (forall w', same_but_redis w w' -> ks_of w' = ks' -> scripts_of w' = scripts_of w ->
     Q (Returned n) w') ->
  twp calm (eval_script sc keys args) Q w.
Proof.
  intros Hready Hrun HQ. destruct (Hready sc) as [Hsha Hsc].
  unfold eval_script. apply twp_bind, twp_get_sha. rewrite Hsha.
  apply twp_try_catch, twp_evalsha; [done|].
  intros w' Hsame Hks Hscr. rewrite Hrun in Hks |- *. cbn in Hks |- *. auto.
Qed.

Lemma scripts_ready_mono w w' :
  same_but_redis w w' -> scripts_of w' = scripts_of w -> scripts_ready w -> scripts_ready w'.
Proof.
  intros [r ->] Hs Hr sc. destruct (Hr sc) as [H1 H2]. split; [done|]. by rewrite Hs.
Qed.
End Calm.

(** ** The script cache is invisible *)

Section Cache.
Context {RS BS : Type} `{!RedisServer RS} `{!RedisLaws RS} `{!BullMQ BS}.
Abbreviation world := (world RS BS).

(** What a caller of [eval_script] is promised, from the store [r] at time
    [t0]: a value is the result of exactly one run of the script, at some
    moment of the call; an exception is never a NOSCRIPT error. *)
Definition script_promise (sc : script) (keys args : list string) (r : RS) (t0 : Z)
    (o : outcome exn Z) (w' : world) : Prop :=
  match o with
  | Returned n => exists t, t0 <= t <= now_ms w'.1 /\
      run_script t sc keys args (rs_keys r t) = (inr n, rs_keys (s_redis w'.1) t)
  | Threw e => isNoScriptError e = false
  | Exited => False
  end.

Lemma isNoScriptError_foreign e :
  str_includes "NOSCRIPT" (exn_message e) = false -> isNoScriptError e = false.
Proof. by destruct e. Qed.

(** One EVALSHA of a script the server knows, on a store that shows the
    same keys as [r] from [t1] on. *)
Lemma wp_evalsha_known sc keys args (r : RS) (t1 : Z) (w : world) :
  scripts_of w (sha1 sc) = true -> t1 <= now_ms w.1 ->
  (forall t, now_ms w.1 <= t -> rs_keys (s_redis w.1) t = rs_keys r t) ->
  wp env (evalsha (sha1 sc) keys args) (script_promise sc keys args r t1) w.
Proof.
  intros Hsc Ht Hkeys. wp_call. intros a w1 (s1 & (n & Hn & ->) & Hw1).
  destruct w as [s l]. cbn [fst snd] in *. apply ms_of_ts_mono in Hn.
  destruct (rs_evalsha (s_redis s) (ms_of_ts n) sc keys args Hsc) as (H1 & H2 & _).
  rewrite Hkeys in H1, H2 by exact Hn.
  set (st := (rs_exec (s_redis s) (ms_of_ts n) (EVALSHA (sha1 sc) keys args)).2) in *.
  destruct a as [e|x]; cbn [answer script_promise].
  - destruct Hw1 as [_ [(msg & Hm & -> & _)|(_ & Hns & _)]]; [|by apply isNoScriptError_foreign].
    unfold now_ms in *. cbn in Hm |- *. pose proof (eq_trans (eq_sym Hm) H1) as Hrun.
    destruct (run_script _ _ _ _ _) as [[e|?] ks'] eqn:E; [|done]. injection Hrun as ->.
    by eapply run_script_plain.
  - destruct Hw1 as [Hx ->]. unfold now_ms in *. cbn in Hx |- *. exists (ms_of_ts n).
    split; [cbn in *; lia|]. change (run_script (ms_of_ts n) sc keys args (rs_keys r (ms_of_ts n)) = (inr x, rs_keys st (ms_of_ts n))).
    rewrite H2. pose proof (eq_trans (eq_sym Hx) H1) as Hrun.
    rewrite (surjective_pairing (run_script _ _ _ _ _)) at 1. f_equal. exact (eq_sym Hrun).
Qed.

Lemma rs_keys_later (s : RS) (r : RS) t t' :
  rs_keys s t = rs_keys r t -> t <= t' -> rs_keys s t' = rs_keys r t'.
Proof. intros H Ht. by rewrite (rs_expiry s t t' Ht), (rs_expiry r t t' Ht), H. Qed.

Lemma wp_reload sc keys args (r : RS) (t1 : Z) (w : world) :
  t1 <= now_ms w.1 -> s_redis w.1 = r ->
  wp env (let* sha := script_load sc in set_sha sc sha ;;; evalsha sha keys args)
    (script_promise sc keys args r t1) w.
Proof.
  intros Ht <-. apply wp_bind. wp_call. intros a w1 (s1 & (n & Hn & ->) & Hw1).
  destruct w as [s l]. cbn [fst snd] in *. apply ms_of_ts_mono in Hn.
  destruct (rs_script_load (s_redis s) (ms_of_ts n) sc) as (H1 & H2 & H3 & _).
  destruct a as [e|sha]; cbn [answer after].
  { destruct Hw1 as [_ [(msg & Hm & _)|(_ & Hns & _)]]; [|by apply isNoScriptError_foreign].
    unfold now_ms in Hm. cbn in Hm. by pose proof (eq_trans (eq_sym Hm) H1). }
  destruct Hw1 as [Hx ->]. unfold now_ms in Hx. cbn in Hx.
  pose proof (eq_trans (eq_sym Hx) H1) as Hsha. injection Hsha as ->.
  apply wp_bind. wp_call. intros a w2 (s2 & (n2 & Hn2 & ->) & Hw2).
  cbn in Hn2. apply ms_of_ts_mono in Hn2.
  destruct a as [e|[]]; cbn [answer after]; [by destruct Hw2|].
  cbn in Hw2. subst w2. apply wp_evalsha_known; [done| |]; unfold now_ms in *; cbn in *; [lia|].
  intros t Htt. eapply rs_keys_later; [exact H2|lia].
Qed.

(** C34: a caller of [LoadedScript.eval] never sees that the server forgot
    the script. Whatever fails and however long the calls take, a value it
    returns is the result of exactly one atomic run of the script on the
    keys of the store at a moment of the call, and an exception is never a
    NOSCRIPT error. *)
Theorem eval_script_transparent (sc : script) (keys args : list string) (w w' : world)
    (o : outcome exn Z) :
  l_sha w.2 sc = Some (sha1 sc) ->
  exec env (eval_script sc keys args) w o w' ->
  script_promise sc keys args (s_redis w.1) (now_ms w.1) o w'.
Proof.
  intros Hsha. revert o w'. apply wp_exec.
  unfold eval_script. apply wp_bind. wp_call.
  intros a w1 (s1 & (n & Hn & ->) & Hw1). destruct w as [s l]. cbn [fst snd] in *.
  apply ms_of_ts_mono in Hn. destruct a as [e|sha]; cbn [answer after]; [by destruct Hw1|].
  destruct Hw1 as [-> ->]. rewrite Hsha. apply wp_try_catch.
  destruct (rs_scripts (s_redis s) (sha1 sc)) eqn:Hknown.
  - eapply wp_mono; [apply (wp_evalsha_known sc keys args (s_redis s) (now_ms s)); [done| |]|];
      unfold now_ms in *; cbn in *; [lia|done|].
    intros [x|e|] w2; cbn; try done. intros He. rewrite He. by apply wp_throw.
  - wp_call. intros a w2 (s2 & (n2 & Hn2 & ->) & Hw2).
    cbn in Hn2. apply ms_of_ts_mono in Hn2. cbn [fst snd] in *.
    assert (forall t, rs_exec (s_redis s) t (EVALSHA (sha1 sc) keys args) = (inl noscript, s_redis s)) as Hno
      by (intros t; by apply rs_noscript).
    destruct a as [e|x]; cbn [answer]; destruct Hw2 as [Hx Hw2].
    + destruct Hw2 as [(msg & Hm & -> & ->)|(_ & Hns & [->| ->])]; cbn in *; unfold now_ms in *; cbn in *.
      * rewrite Hno in Hm |- *. cbn in Hm |- *. injection Hm as <-. cbn.
        apply wp_reload; [unfold now_ms; cbn; lia|done].
      * rewrite isNoScriptError_foreign by done. apply wp_throw. cbn. by apply isNoScriptError_foreign.
      * rewrite isNoScriptError_foreign by done. apply wp_throw. cbn. by apply isNoScriptError_foreign.
    + cbn in Hx. rewrite Hno in Hx. done.
Qed.
End Cache.

(** The server has restarted and forgotten every script: the call still
    releases the lock. *)
Definition forgotten_world : mem_world :=
  let '(s, l) := demo_world 5 empty_tables {["k" := {| r_val := RStr "tok"; r_deadline := Some 9 |}]} ∅ in
  (with_redis {| mr_keys := mr_keys (s_redis s); mr_scripts := [] |} s, l).

Lemma eval_script_transparent_witness :
  let '(o, w') := run_with (serve reliable) (eval_script release_lock_lua ["k"] ["tok"]) forgotten_world in
  o = Returned 1 /\
  script_promise release_lock_lua ["k"] ["tok"] (s_redis forgotten_world.1) (now_ms forgotten_world.1) o w'.
Proof.
  pose proof (run_with_exec env (serve reliable) (eval_script release_lock_lua ["k"] ["tok"])
    forgotten_world (serve_env reliable)) as Hx.
  assert ((run_with (serve reliable) (eval_script release_lock_lua ["k"] ["tok"]) forgotten_world).1 = Returned 1)
    as Ho by (vm_compute; reflexivity).
  destruct (run_with _ _ _) as [o w']. cbn in Hx, Ho. split; [exact Ho|].
  apply (eval_script_transparent release_lock_lua ["k"] ["tok"] forgotten_world w' o); [reflexivity|exact Hx].
Defined.
