(* ===== verification/Lock.v ===== *)
(** * The per-delivery lock

    [src/src/redis/lock.ts]: a lease on [wh:lock:{deliveryId}], taken with SET
    NX, released and extended by the token-checked scripts. Section [Refine]
    relates the three functions to an abstract lease; section [Lease] shows
    that while a lease runs no other client can take, extend or release it,
    whatever the interleaving of their commands. *)

From S2P Require Import Prelude Async Config Tables Queries Schema Redis Services Concrete Scripts.
From Stdlib Require Import ZArith Lia String.
From stdpp Require Import prelude strings gmap.

Open Scope Z_scope.
Open Scope async_scope.

Definition lockKey (deliveryId : string) : string := "wh:lock:" ++s deliveryId.

Record AcquireResult := { acquired : bool; token : string }.

(** The command of [acquire]. *)
Definition acquire_cmd (cfg : Config) (deliveryId tok : string) : rcmd :=
  SET (lockKey deliveryId) tok (Some (PX (LOCK_TTL_MS cfg))) true.

Definition acquire (cfg : Config) (deliveryId : string) : io AcquireResult :=
  let* tok := random_hex 16 in
  let* result := redis (acquire_cmd cfg deliveryId tok) in
  Ret {| acquired := result; token := tok |}.

Definition release (deliveryId tok : string) : io bool :=
  let* result := evalReleaseLock (lockKey deliveryId) tok in
  Ret (result =? 1).

Definition extend (cfg : Config) (deliveryId tok : string) : io bool :=
  let* result := evalExtendLock (lockKey deliveryId) tok (LOCK_TTL_MS cfg) in
  Ret (result =? 1).

(** ** The abstract lease *)

Inductive lease := Free | Held (tok : string) (until : Z).

Definition lease_acquire (t ttl : Z) (tok : string) (st : lease) : bool * lease :=
  match st with
  | Free => (true, Held tok (t + ttl))
  | Held _ _ => (false, st)
  end.

Definition lease_release (tok : string) (st : lease) : bool * lease :=
  match st with
  | Held tok' _ => if decide (tok' = tok) then (true, Free) else (false, st)
  | Free => (false, Free)
  end.

Definition lease_extend (t ttl : Z) (tok : string) (st : lease) : bool * lease :=
  match st with
  | Held tok' _ => if decide (tok' = tok) then (true, Held tok (t + ttl)) else (false, st)
  | Free => (false, Free)
  end.

(** The lease a key space stores for a delivery. *)
Definition lease_entry (st : lease) : option rentry :=
  match st with
  | Free => None
  | Held tok until => Some {| r_val := RStr tok; r_deadline := Some until |}
  end.

Definition lease_rep (ks : keyspace) (deliveryId : string) (st : lease) : Prop :=
  ks !! lockKey deliveryId = lease_entry st.

(** Two key spaces that agree away from a key. *)
Definition same_elsewhere (k : string) (ks ks' : keyspace) : Prop :=
  forall k', k' <> k -> ks' !! k' = ks !! k'.

Section Refine.
Context {RS BS : Type} `{!RedisServer RS} `{!RedisLaws RS} `{!BullMQ BS}.
Abbreviation world := (world RS BS).

Lemma twp_random_hex n (Q : outcome exn string -> world -> Prop) w :
  (forall tok, Q (Returned tok) w) -> twp calm (random_hex n) Q w.
Proof.
  intros HQ. destruct w as [s l]. unfold random_hex. apply twp_bind. wp_call.
  - by exists (inr ("" : string) : exn + resp (RandomBytes n)), (s, l).
  - intros [e|bytes] w1; [by intros (? & ? & ? & ?)|]. intros ->. apply HQ.
Qed.

(** What a lock operation does: the abstract result [st2.1] as [f] reports
    it, the abstract state [st2.2] in the store, nothing else changed. *)
Definition lock_post {A} (deliveryId : string) (w : world) (f : bool -> A) (st2 : bool * lease)
    (o : outcome exn A) (w' : world) : Prop :=
  o = Returned (f st2.1) /\ same_but_redis w w' /\
  lease_rep (ks_of w') deliveryId st2.2 /\
  same_elsewhere (lockKey deliveryId) (ks_of w) (ks_of w').

Lemma acquire_refines cfg deliveryId st (w : world) :
  0 < LOCK_TTL_MS cfg -> lease_rep (ks_of w) deliveryId st ->
  twp calm (acquire cfg deliveryId) (fun o w' => exists tok,
    lock_post deliveryId w (fun b => {| acquired := b; token := tok |})
      (lease_acquire (now_ms w.1) (LOCK_TTL_MS cfg) tok st) o w') w.
Proof.
  intros Httl Hrep. unfold acquire. apply twp_bind, twp_random_hex. intros tok.
  apply twp_bind, twp_redis. intros w' Hsame Hks _. cbn in Hks |- *.
  unfold lease_rep in *. rewrite Hrep in Hks |- *.
  destruct (Z.leb_spec (LOCK_TTL_MS cfg) 0); [lia|].
  destruct st as [|tok' until]; cbn in Hks |- *; apply twp_ret; exists tok;
    split; try done; split; try done; unfold lease_rep, same_elsewhere; rewrite Hks; cbn.
  - split; [by rewrite lookup_insert_eq|]. intros k' Hk. by rewrite lookup_insert_ne.
  - done.
Qed.

Lemma release_refines deliveryId tok st (w : world) :
  scripts_ready w -> lease_rep (ks_of w) deliveryId st ->
  twp calm (release deliveryId tok)
    (lock_post deliveryId w (fun b => b) (lease_release tok st)) w.
Proof.
  intros Hr Hrep. unfold release, evalReleaseLock. apply twp_bind.
  unfold lease_rep in Hrep.
  destruct (run_release (lockKey deliveryId) tok (ks_of w)) as [[msg|n] ks'] eqn:E;
    unfold run_release in E; rewrite Hrep in E; destruct st as [|tok' until]; cbn in E;
    try (destruct (decide (tok' = tok))); simplify_eq.
  all: (eapply twp_eval_script; [done| rewrite run_release_script; unfold run_release; rewrite Hrep; cbn;
    try (rewrite decide_True by done); try (rewrite decide_False by done); reflexivity|]).
  all: intros w' Hsame Hks _; apply twp_ret; cbn;
    try (rewrite decide_True by done); try (rewrite decide_False by done);
    split; [done|]; split; [done|]; unfold lease_rep, same_elsewhere; rewrite Hks; cbn.
  - done.
  - split; [by rewrite lookup_delete_eq|]. intros k' Hk. by rewrite lookup_delete_ne.
  - done.
Qed.

Lemma extend_refines cfg deliveryId tok st (w : world) :
  0 < LOCK_TTL_MS cfg -> scripts_ready w -> lease_rep (ks_of w) deliveryId st ->
  twp calm (extend cfg deliveryId tok)
    (lock_post deliveryId w (fun b => b) (lease_extend (now_ms w.1) (LOCK_TTL_MS cfg) tok st)) w.
Proof.
  intros Httl Hr Hrep. unfold extend, evalExtendLock. apply twp_bind.
  unfold lease_rep in Hrep.
  destruct (run_extend (now_ms w.1) (lockKey deliveryId) tok (LOCK_TTL_MS cfg) (ks_of w)) as [[msg|n] ks'] eqn:E;
    unfold run_extend, set_deadline in E; rewrite Hrep in E; destruct st as [|tok' until]; cbn in E;
    try (destruct (decide (tok' = tok))); simplify_eq;
    try (destruct (Z.leb_spec (now_ms w.1 + LOCK_TTL_MS cfg) (now_ms w.1)); [lia|]).
  all: (eapply twp_eval_script; [done| rewrite run_extend_script; unfold run_extend, set_deadline; rewrite Hrep; cbn;
    try (rewrite decide_True by done); try (rewrite decide_False by done);
    try (destruct (Z.leb_spec (now_ms w.1 + LOCK_TTL_MS cfg) (now_ms w.1)); [lia|]); reflexivity|]).
  all: intros w' Hsame Hks _; apply twp_ret; cbn;
    try (rewrite decide_True by done); try (rewrite decide_False by done);
    split; [done|]; split; [done|]; unfold lease_rep, same_elsewhere; rewrite Hks; cbn.
  - done.
  - split; [by rewrite lookup_insert_eq|]. intros k' Hk. by rewrite lookup_insert_ne.
  - done.
Qed.
End Refine.

Section Lease.
Context {RS : Type} `{!RedisServer RS} `{!RedisLaws RS}.

(** A command another client may send while [mine] holds the lock of
    [deliveryId]: an attempt to acquire it under any token, a release or an
    extension under another token, any command or script on other keys. *)
Inductive foreign_cmd (deliveryId mine : string) : rtop -> Prop :=
| FAcquire cfg tok : 0 < LOCK_TTL_MS cfg ->
    foreign_cmd deliveryId mine (RCmd (acquire_cmd cfg deliveryId tok))
| FRelease tok : tok <> mine ->
    foreign_cmd deliveryId mine (EVALSHA (sha1 release_lock_lua) [lockKey deliveryId] [tok])
| FExtend tok ms : tok <> mine ->
    foreign_cmd deliveryId mine (EVALSHA (sha1 extend_lock_lua) [lockKey deliveryId] [tok; show_Z ms])
| FOther c : lockKey deliveryId ∉ rcmd_keys c -> foreign_cmd deliveryId mine (RCmd c)
| FScript sc keys args : lockKey deliveryId ∉ keys ->
    foreign_cmd deliveryId mine (EVALSHA (sha1 sc) keys args)
| FLoad sc : foreign_cmd deliveryId mine (SCRIPT_LOAD sc)
| FPing : foreign_cmd deliveryId mine PING.

(** The server turned a request on the lock down. *)
Definition refused (deliveryId : string) (c : rtop) : string + rtop_resp c -> Prop :=
  match c return string + rtop_resp c -> Prop with
  | RCmd (SET k _ _ true) => fun r => k = lockKey deliveryId -> r = inr false
  | EVALSHA _ [k] _ => fun r => k = lockKey deliveryId -> r = inr 0 \/ r = inl noscript
  | _ => fun _ => True
  end.

(** Commands executed one after the other, each at its time. *)
Definition run_history (s : RS) (h : list (Z * rtop)) : RS :=
  foldl (fun s '(t, c) => (rs_exec s t c).2) s h.

(** The lease is in the store from time [t] on. *)
Definition leased (s : RS) (t : Z) (deliveryId mine : string) (until : Z) : Prop :=
  lease_rep (rs_keys s t) deliveryId (Held mine until).

Lemma leased_later s t t' deliveryId mine until :
  leased s t deliveryId mine until -> t <= t' < until -> leased s t' deliveryId mine until.
Proof.
  unfold leased, lease_rep. intros H Ht. rewrite (rs_expiry s t t') by lia.
  unfold live. rewrite map_lookup_filter, H. cbn. rewrite option_guard_decide, decide_True; [done|].
  unfold alive. cbn. lia.
Qed.

Lemma leased_step s t deliveryId mine until c :
  leased s t deliveryId mine until -> foreign_cmd deliveryId mine c ->
  refused deliveryId c (rs_exec s t c).1 /\ leased (rs_exec s t c).2 t deliveryId mine until.
Proof.
  unfold leased, lease_rep. intros Hl Hc.
  destruct Hc as [cfg tok Httl|tok Hne|tok ms Hne|c Hk|sc keys args Hk|sc|].
  - destruct (rs_cmd s t (acquire_cmd cfg deliveryId tok)) as (H1 & H2 & _).
    cbn in H1, H2. rewrite Hl in H1, H2. cbn in H1, H2.
    destruct (Z.leb_spec (LOCK_TTL_MS cfg) 0); [lia|]. cbn in H1, H2.
    split; [intros _; exact H1|].
    exact (eq_trans (f_equal (lookup (lockKey deliveryId)) H2) Hl).
  - destruct (rs_scripts s (sha1 release_lock_lua)) eqn:Hs; [|rewrite rs_noscript by done; cbn; auto].
    destruct (rs_evalsha s t release_lock_lua [lockKey deliveryId] [tok] Hs) as (H1 & H2 & _).
    rewrite run_release_script in H1, H2. unfold run_release in H1, H2. rewrite Hl in H1, H2. cbn in H1, H2.
    rewrite decide_False in H1, H2 by done.
    split; [intros _; left; exact H1|].
    exact (eq_trans (f_equal (lookup (lockKey deliveryId)) H2) Hl).
  - destruct (rs_scripts s (sha1 extend_lock_lua)) eqn:Hs; [|rewrite rs_noscript by done; cbn; auto].
    destruct (rs_evalsha s t extend_lock_lua [lockKey deliveryId] [tok; show_Z ms] Hs) as (H1 & H2 & _).
    rewrite run_extend_script in H1, H2. unfold run_extend in H1, H2. rewrite Hl in H1, H2. cbn in H1, H2.
    rewrite decide_False in H1, H2 by done.
    split; [intros _; left; exact H1|].
    exact (eq_trans (f_equal (lookup (lockKey deliveryId)) H2) Hl).
  - destruct (rs_cmd s t c) as (_ & H2 & _). rewrite H2, redis_doc_frame by done. split; [|done].
    destruct c as [| k v ex nx | | | | | | | |]; cbn; try done. destruct nx; [|done].
    intros ->. cbn in Hk. set_solver.
  - destruct (rs_scripts s (sha1 sc)) eqn:Hs.
    + destruct (rs_evalsha s t sc keys args Hs) as (_ & H2 & _). rewrite H2, run_script_frame by done.
      split; [|done]. destruct keys as [|k [|]]; cbn; try done. intros ->. set_solver.
    + rewrite rs_noscript by done. split; [|done]. destruct keys as [|k [|]]; cbn; auto.
  - destruct (rs_script_load s t sc) as (_ & H2 & _). by rewrite H2.
  - by rewrite rs_ping.
Qed.

(** The times of a history: not decreasing, from [t] on and before [until]. *)
Fixpoint timed (t until : Z) (h : list (Z * rtop)) : Prop :=
  match h with
  | [] => t < until
  | (t', _) :: h => t <= t' < until /\ timed t' until h
  end.

Lemma leased_history s t deliveryId mine until h :
  leased s t deliveryId mine until -> timed t until h ->
  Forall (fun tc => foreign_cmd deliveryId mine tc.2) h ->
  (forall t', timed t t' h -> t' <= until ->
     leased (run_history s h) (t' - 1) deliveryId mine until) /\
  forall h1 t1 c h2, h = h1 ++ (t1, c) :: h2 ->
    refused deliveryId c (rs_exec (run_history s h1) t1 c).1.
Proof.
  revert s t. induction h as [|[t1 c] h IH]; intros s t Hl Ht Hf; cbn in Ht.
  - split; [|by intros [] ? ? ?]. cbn. intros t' H1 H2. by eapply leased_later; [|split; [|]]; [exact Hl|lia|lia].
  - apply Forall_cons in Hf as [Hc Hf]. destruct Ht as [Ht1 Ht].
    assert (leased s t1 deliveryId mine until) as Hl1 by (by eapply leased_later).
    destruct (leased_step s t1 deliveryId mine until c Hl1 Hc) as [Hr Hl2].
    destruct (IH _ t1 Hl2 Ht Hf) as [HL HR]. split.
    + cbn. intros t' [_ Htt] Hu. by apply HL.
    + intros [|[t2 c2] h1] t3 c3 h2; cbn; intros [= -> -> Hh]; [by subst|]. by apply (HR h1 t3 c3 h2).
Qed.
End Lease.

(** ** Properties *)

(** C24: the three lock functions implement an abstract lease. On a store whose
    entry for the delivery represents the lease [st], [acquire] takes it
    exactly when it is free, [release] and [extend] act exactly when the
    caller's token is the stored one, the returned boolean says which, the
    entry afterwards represents the resulting lease, and no other key, table
    or job changes. *)
Theorem lock_refines {RS BS : Type} `{!RedisServer RS} `{!RedisLaws RS} `{!BullMQ BS}
    (cfg : Config) (deliveryId : string) (st : lease) (w : world RS BS) :
  0 < LOCK_TTL_MS cfg -> scripts_ready w -> lease_rep (ks_of w) deliveryId st ->
  twp calm (acquire cfg deliveryId) (fun o w' => exists tok,
    lock_post deliveryId w (fun b => {| acquired := b; token := tok |})
      (lease_acquire (now_ms w.1) (LOCK_TTL_MS cfg) tok st) o w') w /\
  (forall tok, twp calm (release deliveryId tok)
     (lock_post deliveryId w id (lease_release tok st)) w) /\
  (forall tok, twp calm (extend cfg deliveryId tok)
     (lock_post deliveryId w id (lease_extend (now_ms w.1) (LOCK_TTL_MS cfg) tok st)) w).
Proof.
  intros Httl Hr Hrep.
  split; [|split; intros tok];
    [by apply acquire_refines|by apply release_refines|by apply extend_refines].
Qed.

Lemma lock_refines_witness :
  let w := demo_world 1000 empty_tables {[lockKey "d1" := {| r_val := RStr "mine"; r_deadline := Some 5000 |}]} ∅ in
  exists o w', exec calm (release "d1" "other") w o w' /\
    lock_post "d1" w id (false, Held "mine" 5000) o w'.
Proof.
  intros w.
  assert (twp calm (release "d1" "other") (lock_post "d1" w id (lease_release "other" (Held "mine" 5000))) w) as H.
  { apply (lock_refines default_config "d1" (Held "mine" 5000) w).
    - vm_compute. reflexivity.
    - intros []; vm_compute; split; reflexivity.
    - vm_compute. reflexivity. }
  apply twp_exec in H as [(o & w' & Hx & Hp) _]. exists o, w'. split; [exact Hx|exact Hp].
Defined.

(** Mutual exclusion. Once the server stores my lease until [until], no
    history of other clients' commands, however interleaved, takes, extends or
    removes it before that time: at every later moment before [until] the
    entry is still mine, and every such request on the lock was refused. *)
Theorem lease_exclusive {RS : Type} `{!RedisServer RS} `{!RedisLaws RS}
    (s : RS) (t until t' : Z) (deliveryId mine : string) (h : list (Z * rtop)) :
  lease_rep (rs_keys s t) deliveryId (Held mine until) ->
  Forall (fun tc => foreign_cmd deliveryId mine tc.2) h ->
  timed t (t' + 1) h -> t' < until ->
  lease_rep (rs_keys (run_history s h) t') deliveryId (Held mine until) /\
  forall h1 t1 c h2, h = h1 ++ (t1, c) :: h2 ->
    refused deliveryId c (rs_exec (run_history s h1) t1 c).1.
Proof.
  intros Hl Hf Ht Hu.
  assert (timed t until h) as Htu.
  { clear -Ht Hu. revert t Ht. induction h as [|[t1 c] h IH]; intros t; cbn; [lia|].
    intros [H1 H2]. split; [lia|]. by apply IH. }
  destruct (leased_history s t deliveryId mine until h Hl Htu Hf) as [HL HR].
  split; [|exact HR]. replace t' with (t' + 1 - 1) by lia. apply HL; [done|lia].
Qed.

Lemma lease_exclusive_witness :
  let s := {| mr_keys := {[lockKey "d1" := {| r_val := RStr "mine"; r_deadline := Some 5000 |}]};
              mr_scripts := ["sha-release"] |} in
  let h := [(1500, RCmd (acquire_cmd default_config "d1" "other"));
            (2000, EVALSHA "sha-release" [lockKey "d1"] ["other"])] in
  lease_rep (rs_keys (run_history s h) 4999) "d1" (Held "mine" 5000) /\
  (rs_exec s 1500 (RCmd (acquire_cmd default_config "d1" "other"))).1 = inr false.
Proof.
  intros s h.
  destruct (lease_exclusive s 1000 5000 4999 "d1" "mine" h) as [H1 H2].
  - vm_compute. reflexivity.
  - repeat constructor; discriminate.
  - cbn. lia.
  - lia.
  - split; [exact H1|]. by apply (H2 [] 1500 (RCmd (acquire_cmd default_config "d1" "other"))
      [(2000, EVALSHA "sha-release" [lockKey "d1"] ["other"])]).
Defined.
