(* ===== verification/TokenBucket.v ===== *)
(** * The per-endpoint in-flight cap

    [src/src/redis/tokenBucket.ts]: a token counter per endpoint, decremented
    by the script token_bucket.lua and given back with plain commands. *)

From S2P Require Import Prelude Async Config Tables Queries Schema Redis Services Concrete Scripts.
From Stdlib Require Import ZArith Lia String.
From stdpp Require Import prelude strings gmap.

Open Scope Z_scope.
Open Scope async_scope.

Definition bucketKey (endpointId : string) : string := "wh:rl:" ++s endpointId.

Definition tryAcquire (cfg : Config) (endpointId : string) : io bool :=
  let* remaining := evalTokenBucket (bucketKey endpointId) (RL_MAX_INFLIGHT cfg) (RL_TTL_SECONDS cfg) in
  Ret (negb (remaining =? -1)).

Definition release (cfg : Config) (endpointId : string) : io unit :=
  let key := bucketKey endpointId in
  let* current := redis (HINCRBY key "tokens" 1) in
  (if RL_MAX_INFLIGHT cfg <? current
   then redis (HSET key "tokens" (show_Z (RL_MAX_INFLIGHT cfg))) ;;; Ret tt
   else Ret tt) ;;;
  redis (EXPIRE key (RL_TTL_SECONDS cfg)) ;;;
  Ret tt.

(** ** The counter *)

(** The key space stores [n] tokens for the endpoint, until [d]. *)
Definition bucket_at (ks : keyspace) (endpointId : string) (n d : Z) : Prop :=
  exists h v, ks !! bucketKey endpointId = Some {| r_val := RHash h; r_deadline := Some d |} /\
    h !! "tokens" = Some v /\ read_Z v = Some n.

Lemma bucket_at_tokens ks ep n d max : bucket_at ks ep n d -> bucket_tokens (bucketKey ep) max ks = Some n.
Proof. intros (h & v & Hk & Hv & Hn). unfold bucket_tokens. by rewrite Hk, Hv. Qed.

Lemma put_tokens_lookup k n ks :
  exists h d, put_tokens k n ks !! k = Some {| r_val := RHash h; r_deadline := d |} /\
    h !! "tokens" = Some (show_Z n).
Proof.
  unfold put_tokens. repeat case_match; rewrite lookup_insert_eq; do 2 eexists;
    (split; [reflexivity|]);
    by rewrite ?lookup_singleton_eq, ?lookup_insert_eq.
Qed.

(** A counter written and then given a deadline in the future. *)
Lemma bucket_at_put ks ep n t ttl :
  0 < ttl -> bucket_at (set_deadline t (t + 1000 * ttl) (bucketKey ep) (put_tokens (bucketKey ep) n ks)) ep n (t + 1000 * ttl).
Proof.
  intros Httl. destruct (put_tokens_lookup (bucketKey ep) n ks) as (h & d & Hk & Ht).
  unfold set_deadline. rewrite Hk. destruct (Z.leb_spec (t + 1000 * ttl) t); [lia|].
  exists h, (show_Z n). rewrite lookup_insert_eq. split; [done|]. by rewrite read_show_Z.
Qed.

Section Spec.
Context {RS BS : Type} `{!RedisServer RS} `{!RedisLaws RS} `{!BullMQ BS}.
Abbreviation world := (world RS BS).
Context (cfg : Config) (Hmax : 0 < RL_MAX_INFLIGHT cfg) (Httl : 0 < RL_TTL_SECONDS cfg).

Abbreviation deadline w := (now_ms w.1 + 1000 * RL_TTL_SECONDS cfg).

(** [tryAcquire] on a counter that holds [n], or an absent one ([n] is then
    the maximum). *)
Lemma tryAcquire_spec ep n (w : world) :
  scripts_ready w -> bucket_tokens (bucketKey ep) (RL_MAX_INFLIGHT cfg) (ks_of w) = Some n ->
  twp calm (tryAcquire cfg ep) (fun o w' =>
    o = Returned (0 <? n) /\ same_but_redis w w' /\ scripts_ready w' /\
    if 0 <? n then bucket_at (ks_of w') ep (n - 1) (deadline w) else ks_of w' = ks_of w) w.
Proof.
  intros Hr Hn. unfold tryAcquire, evalTokenBucket. apply twp_bind.
  pose proof (run_bucket_script (now_ms w.1) (bucketKey ep) (RL_MAX_INFLIGHT cfg) (RL_TTL_SECONDS cfg) (ks_of w)) as Hrun.
  rewrite Hn in Hrun. destruct (Z.leb_spec n 0), (Z.ltb_spec 0 n); try lia.
  all: eapply twp_eval_script; [done|apply Hrun|].
  all: intros w' Hsame Hks Hscr; apply twp_ret.
  all: split; [|split; [done|split; [by eapply scripts_ready_mono|]]]; rewrite ?Hks; try done.
  - by destruct (Z.eqb_spec (n - 1) (-1)); [lia|].
  - by apply bucket_at_put.
Qed.

(** The commands of [release] on a counter of [n] tokens. *)
Lemma incr_bucket ep n d t ks :
  bucket_at ks ep n d ->
  (redis_doc t ks (HINCRBY (bucketKey ep) "tokens" 1)).1 = inr (n + 1) /\
  bucket_at (redis_doc t ks (HINCRBY (bucketKey ep) "tokens" 1)).2 ep (n + 1) d.
Proof.
  intros (h & v & Hk & Hv & Hn). cbn. rewrite Hk, Hv. cbn. rewrite Hn. cbn. split; [done|].
  exists (<["tokens" := show_Z (n + 1)]> h), (show_Z (n + 1)). rewrite !lookup_insert_eq.
  by rewrite read_show_Z.
Qed.

Lemma set_bucket ep n m d t ks :
  bucket_at ks ep n d ->
  (exists x, (redis_doc t ks (HSET (bucketKey ep) "tokens" (show_Z m))).1 = inr x) /\
  bucket_at (redis_doc t ks (HSET (bucketKey ep) "tokens" (show_Z m))).2 ep m d.
Proof.
  intros (h & v & Hk & Hv & Hn). cbn. rewrite Hk. cbn. split; [eauto|].
  exists (<["tokens" := show_Z m]> h), (show_Z m). rewrite !lookup_insert_eq.
  by rewrite read_show_Z.
Qed.

Lemma expire_bucket ep n d t ks :
  bucket_at ks ep n d ->
  (exists x, (redis_doc t ks (EXPIRE (bucketKey ep) (RL_TTL_SECONDS cfg))).1 = inr x) /\
  bucket_at (redis_doc t ks (EXPIRE (bucketKey ep) (RL_TTL_SECONDS cfg))).2 ep n
    (t + 1000 * RL_TTL_SECONDS cfg).
Proof.
  intros (h & v & Hk & Hv & Hn). cbn. unfold set_deadline. rewrite Hk. split; [eauto|].
  destruct (Z.leb_spec (t + 1000 * RL_TTL_SECONDS cfg) t); [lia|].
  exists h, v. by rewrite lookup_insert_eq.
Qed.

(** What [release] leaves: one token more, at most the maximum, and a fresh
    deadline. *)
Lemma release_spec ep n d (w : world) :
  bucket_at (ks_of w) ep n d ->
  twp calm (release cfg ep) (fun o w' =>
    o = Returned tt /\ same_but_redis w w' /\ (scripts_ready w -> scripts_ready w') /\
    bucket_at (ks_of w') ep (Z.min (n + 1) (RL_MAX_INFLIGHT cfg)) (deadline w)) w.
Proof.
  intros Hb. unfold release. apply twp_bind, twp_redis. intros w1 Hs1 Hk1 Hc1.
  destruct (incr_bucket ep n d (now_ms w.1) (ks_of w) Hb) as [Hr1 Hb1]. rewrite <- Hk1 in Hb1.
  rewrite Hr1. cbn [reply_of answer].
  pose proof (same_but_redis_clock _ _ Hs1) as Ht1.
  apply twp_bind.
  assert (twp calm (if RL_MAX_INFLIGHT cfg <? n + 1
     then redis (HSET (bucketKey ep) "tokens" (show_Z (RL_MAX_INFLIGHT cfg))) ;;; Ret tt else Ret tt)
    (fun o w' => o = Returned tt /\ same_but_redis w1 w' /\ (scripts_ready w1 -> scripts_ready w') /\
       bucket_at (ks_of w') ep (Z.min (n + 1) (RL_MAX_INFLIGHT cfg)) d) w1) as Hclamp.
  { destruct (Z.ltb_spec (RL_MAX_INFLIGHT cfg) (n + 1)) as [Hlt|Hge].
    - apply twp_bind, twp_redis. intros w2 Hs2 Hk2 Hc2.
      destruct (set_bucket ep (n + 1) (RL_MAX_INFLIGHT cfg) d (now_ms w1.1) (ks_of w1) Hb1) as [[x Hx] Hb2].
      rewrite Hx. cbn [reply_of answer]. apply twp_ret. split; [done|]. split; [done|].
      split; [by apply scripts_ready_mono|]. rewrite Hk2, Z.min_r by lia. done.
    - apply twp_ret. split; [done|]. split; [apply same_but_redis_refl|].
      split; [done|]. by rewrite Z.min_l by lia. }
  eapply twp_mono; [exact Hclamp|]. intros o w2 (-> & Hs2 & Hc2 & Hb2). cbn.
  apply twp_bind, twp_redis. intros w3 Hs3 Hk3 Hc3.
  rewrite (same_but_redis_clock _ _ Hs2), Ht1 in *.
  destruct (expire_bucket ep _ d (now_ms w.1) (ks_of w2) Hb2) as [[x Hx] Hb3].
  rewrite Hx. cbn [reply_of answer]. apply twp_ret. split; [done|].
  split; [by eapply same_but_redis_trans; [|eapply same_but_redis_trans]|]. split.
  - intros Hr. eapply scripts_ready_mono; [done|done|]. apply Hc2. by eapply scripts_ready_mono.
  - by rewrite Hk3.
Qed.

(** On an absent counter [release] creates one that holds a single token. *)
Lemma release_absent ep (w : world) :
  ks_of w !! bucketKey ep = None ->
  twp calm (release cfg ep) (fun o w' =>
    o = Returned tt /\ same_but_redis w w' /\ (scripts_ready w -> scripts_ready w') /\
    bucket_at (ks_of w') ep 1 (deadline w)) w.
Proof.
  intros Hb. unfold release. apply twp_bind, twp_redis. intros w1 Hs1 Hk1 Hc1.
  cbn in Hk1 |- *. rewrite Hb in Hk1 |- *. cbn in Hk1 |- *.
  destruct (Z.ltb_spec (RL_MAX_INFLIGHT cfg) 1); [lia|].
  apply twp_bind, twp_ret. apply twp_bind, twp_redis. intros w2 Hs2 Hk2 Hc2.
  cbn in Hk2 |- *. apply twp_ret. split; [done|]. split; [by eapply same_but_redis_trans|].
  split; [intros Hr; eapply scripts_ready_mono; [done|done|]; by eapply scripts_ready_mono|].
  rewrite Hk2, Hk1. unfold set_deadline. rewrite lookup_insert_eq. cbn.
  rewrite (same_but_redis_clock _ _ Hs1).
  destruct (Z.leb_spec (deadline w) (now_ms w.1)); [lia|].
  exists {["tokens" := show_Z 1]}, (show_Z 1). rewrite lookup_insert_eq, lookup_singleton_eq.
  by rewrite read_show_Z.
Qed.
End Spec.

(** ** Properties *)

(** A worker's use of the cap: a token, and giving it back. *)
Definition acquire_then_release (cfg : Config) (endpointId : string) : io bool :=
  let* b := tryAcquire cfg endpointId in
  if (b : bool) then release cfg endpointId ;;; Ret true else Ret false.

(** The in-flight cap is a counting semaphore. With [n] tokens left
    (an absent counter counting as full), [tryAcquire] admits exactly when
    [n > 0] and changes nothing when it refuses; admitted, it leaves [n - 1]
    with a fresh deadline; and giving the token back restores exactly [n]. *)
Theorem bucket_semaphore {RS BS : Type} `{!RedisServer RS} `{!RedisLaws RS} `{!BullMQ BS}
    (cfg : Config) (ep : string) (n : Z) (w : world RS BS) :
  config_ok cfg -> scripts_ready w ->
  bucket_tokens (bucketKey ep) (RL_MAX_INFLIGHT cfg) (ks_of w) = Some n -> n <= RL_MAX_INFLIGHT cfg ->
  twp calm (tryAcquire cfg ep) (fun o w' =>
    o = Returned (0 <? n) /\
    if 0 <? n then bucket_at (ks_of w') ep (n - 1) (now_ms w.1 + 1000 * RL_TTL_SECONDS cfg)
    else ks_of w' = ks_of w) w /\
  twp calm (acquire_then_release cfg ep) (fun o w' =>
    o = Returned (0 <? n) /\
    bucket_tokens (bucketKey ep) (RL_MAX_INFLIGHT cfg) (ks_of w') = Some n) w.
Proof.
  intros [] Hr Hn Hle. split.
  - eapply twp_mono; [by apply tryAcquire_spec|]. by intros o w' (-> & _ & _ & H).
  - unfold acquire_then_release. apply twp_bind.
    eapply twp_mono; [by apply tryAcquire_spec|]. intros o w' (-> & Hs & Hr' & H).
    destruct (Z.ltb_spec 0 n); [|apply twp_ret; split; [done|by rewrite H]].
    apply twp_bind. eapply twp_mono; [by eapply release_spec|].
    intros o w'' (-> & Hs' & _ & Hb). cbn. apply twp_ret. split; [done|].
    rewrite Z.min_l in Hb by lia. replace (n - 1 + 1) with n in Hb by lia. by eapply bucket_at_tokens.
Qed.

Lemma bucket_semaphore_witness :
  let w := demo_world 1000 empty_tables ∅ ∅ in
  exists o w', exec calm (acquire_then_release default_config "e1") w o w' /\
    o = Returned true /\ bucket_tokens (bucketKey "e1") 50 (ks_of w') = Some 50.
Proof.
  intros w.
  destruct (bucket_semaphore default_config "e1" 50 w) as [_ H].
  - exact default_config_ok.
  - intros []; vm_compute; split; reflexivity.
  - vm_compute. reflexivity.
  - vm_compute. congruence.
  - apply twp_exec in H as [(o & w' & Hx & Hp) _]. exists o, w'. split; [exact Hx|exact Hp].
Defined.

(** A token given back after its counter expired does not reset the cap
    to the maximum, as the comment of the function says: it creates a counter
    of one token, so that one further delivery is admitted and the next one is
    refused, whatever [RL_MAX_INFLIGHT] is. *)
Theorem bucket_release_after_expiry {RS BS : Type} `{!RedisServer RS} `{!RedisLaws RS} `{!BullMQ BS}
    (cfg : Config) (ep : string) (w : world RS BS) :
  config_ok cfg -> scripts_ready w -> ks_of w !! bucketKey ep = None ->
  twp calm (release cfg ep ;;;
            let* first := tryAcquire cfg ep in
            let* second := tryAcquire cfg ep in
            Ret (first, second))
    (fun o _ => o = Returned (true, false)) w.
Proof.
  intros [] Hr Hb. apply twp_bind. eapply twp_mono; [by apply release_absent|].
  intros o w1 (-> & _ & Hr1 & Hb1). cbn. apply twp_bind.
  eapply twp_mono; [eapply tryAcquire_spec; [done|by apply Hr1|by eapply bucket_at_tokens]|].
  intros o w2 (-> & _ & Hr2 & Hb2). cbn in Hb2 |- *. apply twp_bind.
  eapply twp_mono; [eapply tryAcquire_spec; [done|by apply Hr2|by eapply bucket_at_tokens]|].
  intros o w3 (-> & _). cbn. by apply twp_ret.
Qed.

Lemma bucket_release_after_expiry_witness :
  let w := demo_world 1000 empty_tables ∅ ∅ in
  exists w', exec calm (release default_config "e1" ;;;
                        let* first := tryAcquire default_config "e1" in
                        let* second := tryAcquire default_config "e1" in
                        Ret (first, second)) w (Returned (true, false)) w'.
Proof.
  intros w.
  assert (twp calm (release default_config "e1" ;;;
            let* first := tryAcquire default_config "e1" in
            let* second := tryAcquire default_config "e1" in
            Ret (first, second))
    (fun o _ => o = Returned (true, false)) w) as H.
  { apply (bucket_release_after_expiry default_config "e1" w).
    - exact default_config_ok.
    - intros []; vm_compute; split; reflexivity.
    - vm_compute. reflexivity. }
  apply twp_exec in H as [(o & w' & Hx & ->) _]. exists w'. exact Hx.
Defined.
