(* ===== verification/CircuitBreaker.v ===== *)
(** * The per-endpoint circuit breaker

    [src/src/redis/circuitBreaker.ts]: three keys per endpoint and the
    functions over them; the abstract breaker they implement ([breaker], with
    its deadlines), the refinement, and the facts about its life cycle. *)

From S2P Require Import Prelude Async Config Tables Queries Schema Redis Services Concrete Scripts.
From Stdlib Require Import ZArith Lia String.
From stdpp Require Import prelude strings gmap.

#[local] Set Warnings "-clear-no-such-hyp".

Open Scope Z_scope.
Open Scope async_scope.

Inductive BreakerState := closed | open | probe.

#[export] Instance BreakerState_eq_dec : EqDecision BreakerState.
Proof. solve_decision. Defined.

Definition failsKey (endpointId : string) : string := "wh:cb:" ++s endpointId ++s ":fails".
Definition openKey (endpointId : string) : string := "wh:cb:" ++s endpointId ++s ":open".
Definition probeKey (endpointId : string) : string := "wh:cb:" ++s endpointId ++s ":probe".

Definition recordFailure (cfg : Config) (endpointId : string) : io unit :=
  let* fails := redis (INCR (failsKey endpointId)) in
  redis (EXPIRE (failsKey endpointId) (CB_WINDOW_SECONDS cfg)) ;;;
  if CB_FAIL_THRESHOLD cfg <=? fails
  then redis (SET (openKey endpointId) "1" (Some (EX (CB_OPEN_SECONDS cfg))) false) ;;; Ret tt
  else Ret tt.

(** [Number(fails) >= threshold], on the text INCR keeps; a text that is no
    number compares false. *)
Definition at_least (fails : string) (threshold : Z) : bool :=
  match read_Z fails with Some n => threshold <=? n | None => false end.

Definition checkState (cfg : Config) (endpointId : string) : io BreakerState :=
  let* isOpen := redis (EXISTS (openKey endpointId)) in
  if negb (isOpen =? 0) then Ret open
  else
    let* fails := redis (GET (failsKey endpointId)) in
    if match fails with Some f => at_least f (CB_FAIL_THRESHOLD cfg) | None => false end then
      let* wonProbe := redis (SET (probeKey endpointId) "1" (Some (EX (CB_PROBE_SECONDS cfg))) true) in
      Ret (if (wonProbe : bool) then probe else open)
    else Ret closed.

Definition onProbeResult (cfg : Config) (endpointId : string) (ok : bool) : io unit :=
  if ok then redis (DEL [failsKey endpointId; probeKey endpointId]) ;;; Ret tt
  else
    redis (SET (openKey endpointId) "1" (Some (EX (CB_OPEN_SECONDS cfg))) false) ;;;
    redis (DEL [probeKey endpointId]) ;;;
    Ret tt.

(** ** The three keys of an endpoint are three keys *)

Lemma breaker_keys_ne a b :
  failsKey a <> openKey b /\ failsKey a <> probeKey b /\ openKey a <> probeKey b.
Proof.
  repeat split; intros H; apply (f_equal str_last) in H;
    unfold failsKey, openKey, probeKey in H; rewrite <- !str_app_assoc in H;
    rewrite !str_last_app in H; discriminate H.
Qed.

Ltac keys_ne :=
  match goal with
  | |- failsKey ?a <> openKey ?b => exact (proj1 (breaker_keys_ne a b))
  | |- failsKey ?a <> probeKey ?b => exact (proj1 (proj2 (breaker_keys_ne a b)))
  | |- openKey ?a <> probeKey ?b => exact (proj2 (proj2 (breaker_keys_ne a b)))
  | |- openKey ?a <> failsKey ?b => exact (not_eq_sym (proj1 (breaker_keys_ne b a)))
  | |- probeKey ?a <> failsKey ?b => exact (not_eq_sym (proj1 (proj2 (breaker_keys_ne b a))))
  | |- probeKey ?a <> openKey ?b => exact (not_eq_sym (proj2 (proj2 (breaker_keys_ne b a))))
  end.

(** ** The abstract breaker *)

(** The failure count with its deadline, and the deadlines of the open mark
    and of the probe mark. *)
Record breaker := {
  b_fails : option (Z * option Z); b_open : option Z; b_probe : option Z
}.

Definition fresh_breaker : breaker := {| b_fails := None; b_open := None; b_probe := None |}.

Definition fails_count (b : breaker) : Z := match b_fails b with Some (n, _) => n | None => 0 end.

(** What is left of the breaker at time [t]. *)
Definition b_at (t : Z) (b : breaker) : breaker := {|
  b_fails := match b_fails b with
             | Some (n, Some d) => if t <? d then Some (n, Some d) else None
             | f => f
             end;
  b_open := match b_open b with Some d => if t <? d then Some d else None | None => None end;
  b_probe := match b_probe b with Some d => if t <? d then Some d else None | None => None end |}.

(** The operations, on a breaker as it is at time [t]. *)
Definition b_failure (cfg : Config) (t : Z) (b : breaker) : breaker := {|
  b_fails := Some (fails_count b + 1, Some (t + 1000 * CB_WINDOW_SECONDS cfg));
  b_open := if CB_FAIL_THRESHOLD cfg <=? fails_count b + 1
            then Some (t + 1000 * CB_OPEN_SECONDS cfg) else b_open b;
  b_probe := b_probe b |}.

Definition b_check (cfg : Config) (t : Z) (b : breaker) : BreakerState * breaker :=
  match b_open b with
  | Some _ => (open, b)
  | None =>
      match b_fails b with
      | Some (n, _) =>
          if CB_FAIL_THRESHOLD cfg <=? n then
            match b_probe b with
            | Some _ => (open, b)
            | None => (probe, {| b_fails := b_fails b; b_open := b_open b;
                                 b_probe := Some (t + 1000 * CB_PROBE_SECONDS cfg) |})
            end
          else (closed, b)
      | None => (closed, b)
      end
  end.

Definition b_result (cfg : Config) (t : Z) (ok : bool) (b : breaker) : breaker :=
  if ok then {| b_fails := None; b_open := b_open b; b_probe := None |}
  else {| b_fails := b_fails b; b_open := Some (t + 1000 * CB_OPEN_SECONDS cfg); b_probe := None |}.

(** ** The representation in the key space *)

Definition mark (d : option Z) : option rentry :=
  (fun d => {| r_val := RStr "1"; r_deadline := Some d |}) <$> d.

Definition fails_entry (ks : keyspace) (k : string) (f : option (Z * option Z)) : Prop :=
  match f with
  | None => ks !! k = None
  | Some (n, d) => exists s, ks !! k = Some {| r_val := RStr s; r_deadline := d |} /\ read_Z s = Some n
  end.

Record b_rep (ks : keyspace) (endpointId : string) (b : breaker) : Prop := {
  rep_fails : fails_entry ks (failsKey endpointId) (b_fails b);
  rep_open : ks !! openKey endpointId = mark (b_open b);
  rep_probe : ks !! probeKey endpointId = mark (b_probe b)
}.

(** Time on the key space is time on the breaker. *)
Lemma b_rep_live t ks ep b : b_rep ks ep b -> b_rep (live t ks) ep (b_at t b).
Proof.
  assert (forall k d, ks !! k = mark d ->
    live t ks !! k = mark (match d with Some d => if t <? d then Some d else None | None => None end)) as Hm.
  { intros k d Hk. rewrite live_lookup, Hk. destruct d as [d|]; cbn; [|done].
    unfold alive. cbn. destruct (Z.ltb_spec t d); [by rewrite decide_True|rewrite decide_False by lia; done]. }
  intros [Hf Ho Hp]. constructor; cbn; [|by apply Hm|by apply Hm].
  destruct (b_fails b) as [[n [d|]]|]; cbn in *.
  - destruct Hf as (s & Hk & Hs). unfold fails_entry. rewrite live_lookup, Hk. unfold alive. cbn.
    destruct (Z.ltb_spec t d); [rewrite decide_True by done; eauto|by rewrite decide_False by lia].
  - destruct Hf as (s & Hk & Hs). exists s. rewrite live_lookup, Hk. by rewrite decide_True.
  - by rewrite live_lookup, Hf.
Qed.

Definition breaker_keys (endpointId : string) : list string :=
  [failsKey endpointId; openKey endpointId; probeKey endpointId].

(** ** One command on the representation *)

Section Commands.
Context (cfg : Config) (t : Z) (ks : keyspace) (ep : string) (b : breaker).
Context (Hcfg : config_ok cfg) (Hrep : b_rep ks ep b).

Lemma incr_fails :
  (redis_doc t ks (INCR (failsKey ep))).1 = inr (fails_count b + 1) /\
  b_rep (redis_doc t ks (INCR (failsKey ep))).2 ep {|
    b_fails := Some (fails_count b + 1, match b_fails b with Some (_, d) => d | None => None end);
    b_open := b_open b; b_probe := b_probe b |}.
Proof.
  destruct Hrep as [Hf Ho Hp]. unfold fails_count. cbn.
  destruct (b_fails b) as [[n d]|]; cbn in Hf.
  - destruct Hf as (s & Hk & Hs). rewrite Hk. cbn. rewrite Hs. cbn. split; [done|].
    constructor; cbn; [|by rewrite lookup_insert_ne by keys_ne..].
    exists (show_Z (n + 1)). by rewrite lookup_insert_eq, read_show_Z.
  - rewrite Hf. cbn. split; [done|]. constructor; cbn; [|by rewrite lookup_insert_ne by keys_ne..].
    exists (show_Z 1). by rewrite lookup_insert_eq.
Qed.

Lemma expire_fails n d :
  b_fails b = Some (n, d) ->
  (exists x, (redis_doc t ks (EXPIRE (failsKey ep) (CB_WINDOW_SECONDS cfg))).1 = inr x) /\
  b_rep (redis_doc t ks (EXPIRE (failsKey ep) (CB_WINDOW_SECONDS cfg))).2 ep {|
    b_fails := Some (n, Some (t + 1000 * CB_WINDOW_SECONDS cfg)); b_open := b_open b; b_probe := b_probe b |}.
Proof.
  destruct Hrep as [Hf Ho Hp], Hcfg. intros E. rewrite E in Hf. destruct Hf as (s & Hk & Hs).
  split; [cbn; eauto|]. cbn. unfold set_deadline. rewrite Hk.
  destruct (Z.leb_spec (t + 1000 * CB_WINDOW_SECONDS cfg) t); [lia|].
  constructor; cbn; [|by rewrite lookup_insert_ne by keys_ne..].
  exists s. by rewrite lookup_insert_eq.
Qed.

Lemma set_open :
  (redis_doc t ks (SET (openKey ep) "1" (Some (EX (CB_OPEN_SECONDS cfg))) false)).1 = inr true /\
  b_rep (redis_doc t ks (SET (openKey ep) "1" (Some (EX (CB_OPEN_SECONDS cfg))) false)).2 ep {|
    b_fails := b_fails b; b_open := Some (t + 1000 * CB_OPEN_SECONDS cfg); b_probe := b_probe b |}.
Proof.
  destruct Hrep as [Hf Ho Hp], Hcfg. cbn [redis_doc ttl_ms].
  destruct (Z.leb_spec (1000 * CB_OPEN_SECONDS cfg) 0); [lia|]. cbn. split; [done|].
  constructor; cbn.
  - destruct (b_fails b) as [[n d]|]; cbn in *; by rewrite lookup_insert_ne by keys_ne.
  - by rewrite lookup_insert_eq.
  - by rewrite lookup_insert_ne by keys_ne.
Qed.

Lemma set_probe :
  (redis_doc t ks (SET (probeKey ep) "1" (Some (EX (CB_PROBE_SECONDS cfg))) true)).1 =
    inr (match b_probe b with Some _ => false | None => true end) /\
  b_rep (redis_doc t ks (SET (probeKey ep) "1" (Some (EX (CB_PROBE_SECONDS cfg))) true)).2 ep {|
    b_fails := b_fails b; b_open := b_open b;
    b_probe := match b_probe b with Some d => Some d | None => Some (t + 1000 * CB_PROBE_SECONDS cfg) end |}.
Proof.
  pose proof Hrep as Hrep'. destruct Hrep as [Hf Ho Hp], Hcfg. cbn [redis_doc ttl_ms].
  destruct (Z.leb_spec (1000 * CB_PROBE_SECONDS cfg) 0); [lia|].
  rewrite Hp. destruct (b_probe b) as [d|] eqn:E; cbn; (split; [done|]).
  - destruct b; cbn in *. by subst.
  - constructor; cbn.
    + destruct (b_fails b) as [[n d]|]; cbn in *; by rewrite lookup_insert_ne by keys_ne.
    + by rewrite lookup_insert_ne by keys_ne.
    + by rewrite lookup_insert_eq.
Qed.

(** Deleting the failure count, the probe mark, or both. *)
Lemma del_keys (df dp : bool) :
  b_rep (foldr delete ks ((if df then [failsKey ep] else []) ++ (if dp then [probeKey ep] else []))) ep {|
    b_fails := if df then None else b_fails b; b_open := b_open b;
    b_probe := if dp then None else b_probe b |}.
Proof.
  destruct Hrep as [Hf Ho Hp]. destruct df, dp; constructor; cbn;
    repeat first [ rewrite lookup_delete_eq | rewrite lookup_delete_ne by keys_ne ]; try done.
  all: destruct (b_fails b) as [[n d]|]; cbn in *; by rewrite lookup_delete_ne by keys_ne.
Qed.
End Commands.

(** ** The functions implement the abstract breaker *)

Section Refine.
Context {RS BS : Type} `{!RedisServer RS} `{!RedisLaws RS} `{!BullMQ BS}.
Abbreviation world := (world RS BS).
Context (cfg : Config) (ep : string) (Hcfg : config_ok cfg).

(** The outcome of a breaker function from [w]: its value, the new breaker
    in the store, no other key, table or job changed. *)
Definition breaker_post {A} (w : world) (a : A) (b : breaker) (o : outcome exn A) (w' : world) : Prop :=
  o = Returned a /\ same_but_redis w w' /\ b_rep (ks_of w') ep b /\
  unchanged_but (breaker_keys ep) (ks_of w) (ks_of w').

(** One command of a breaker function, then the rest of it. *)
Lemma twp_breaker_cmd {A} (c : rcmd) (x : rresp c) (b1 b' : breaker) (f : rresp c -> io A) (a : A) (w : world) :
  (redis_doc (now_ms w.1) (ks_of w) c).1 = inr x ->
  b_rep (redis_doc (now_ms w.1) (ks_of w) c).2 ep b1 ->
  rcmd_keys c ⊆ breaker_keys ep ->
  (forall w1, now_ms w1.1 = now_ms w.1 -> b_rep (ks_of w1) ep b1 ->
     twp calm (f x) (breaker_post w1 a b') w1) ->
  twp calm (bind (redis c) f) (breaker_post w a b') w.
Proof using RedisLaws0.
  intros Hx Hb Hk Hf. apply twp_bind, twp_redis. intros w1 Hs1 Hk1 Hc1. rewrite Hx. cbn.
  rewrite <- Hk1 in Hb. eapply twp_mono; [apply Hf; [by apply same_but_redis_clock|done]|].
  intros o w2 (-> & Hs2 & Hb2 & Hu2). split; [done|]. split; [by eapply same_but_redis_trans|].
  split; [done|]. eapply unchanged_but_trans; [|done]. rewrite Hk1. by apply unchanged_but_doc.
Qed.

Lemma breaker_ret {A} (a : A) b (w : world) :
  b_rep (ks_of w) ep b -> twp calm (Ret a) (breaker_post w a b) w.
Proof. intros Hb. apply twp_ret. split; [done|]. split; [apply same_but_redis_refl|]. by split. Qed.

Lemma recordFailure_refines b (w : world) :
  b_rep (ks_of w) ep b ->
  twp calm (recordFailure cfg ep) (breaker_post w tt (b_failure cfg (now_ms w.1) b)) w.
Proof using RedisLaws0 Hcfg.
  intros Hb. unfold recordFailure.
  destruct (incr_fails (now_ms w.1) (ks_of w) ep b Hb) as [Hx1 Hb1].
  eapply twp_breaker_cmd; [exact Hx1|exact Hb1|set_solver|]. intros w1 Ht1 Hr1.
  destruct (expire_fails cfg (now_ms w1.1) (ks_of w1) ep _ Hcfg Hr1 _ _ eq_refl) as [[y Hx2] Hb2].
  eapply twp_breaker_cmd; [exact Hx2|exact Hb2|set_solver|]. intros w2 Ht2 Hr2. cbn in Hr2.
  unfold b_failure. rewrite <- Ht1. destruct (Z.leb_spec (CB_FAIL_THRESHOLD cfg) (fails_count b + 1)).
  - destruct (set_open cfg (now_ms w2.1) (ks_of w2) ep _ Hcfg Hr2) as [Hx3 Hb3].
    eapply twp_breaker_cmd; [exact Hx3|exact Hb3|set_solver|]. intros w3 Ht3 Hr3. cbn in Hr3.
    rewrite Ht2 in Hr3. by apply breaker_ret.
  - by apply breaker_ret.
Qed.

Lemma checkState_refines b (w : world) :
  b_rep (ks_of w) ep b ->
  twp calm (checkState cfg ep) (breaker_post w (b_check cfg (now_ms w.1) b).1 (b_check cfg (now_ms w.1) b).2) w.
Proof using RedisLaws0 Hcfg.
  intros Hb. unfold checkState. pose proof Hb as [Hf Ho Hp].
  eapply twp_breaker_cmd; [reflexivity|exact Hb|set_solver|]. intros w1 Ht1 Hr1. rewrite Ho.
  unfold b_check. destruct (b_open b) as [d|] eqn:Eo; cbn; [by apply breaker_ret|].
  assert (exists v, (redis_doc (now_ms w1.1) (ks_of w1) (GET (failsKey ep))).1 = inr v /\
    match v with Some f => at_least f (CB_FAIL_THRESHOLD cfg) | None => false end =
    match b_fails b with Some (n, _) => CB_FAIL_THRESHOLD cfg <=? n | None => false end) as (v & Hv & Hcmp).
  { destruct Hr1 as [Hf1 _ _]. cbn. destruct (b_fails b) as [[n d]|]; cbn in Hf1.
    - destruct Hf1 as (s & -> & Hs). exists (Some s). split; [done|]. unfold at_least. by rewrite Hs.
    - rewrite Hf1. by exists None. }
  eapply twp_breaker_cmd; [exact Hv| |set_solver|].
  { cbn. destruct (ks_of w1 !! failsKey ep) as [[[s|h] d]|] eqn:E; exact Hr1. }
  intros w2 Ht2 Hr2. rewrite Hcmp.
  destruct (b_fails b) as [[n d]|] eqn:Ef; [|by apply breaker_ret].
  destruct (CB_FAIL_THRESHOLD cfg <=? n); [|by apply breaker_ret].
  destruct (set_probe cfg (now_ms w2.1) (ks_of w2) ep b Hcfg Hr2) as [Hx3 Hb3].
  rewrite Ht2, Ht1, Ef, Eo in Hb3. rewrite Ht2, Ht1 in Hx3.
  rewrite <- Ht1, <- Ht2 in *.
  eapply twp_breaker_cmd; [exact Hx3|exact Hb3|set_solver|]. intros w3 Ht3 Hr3.
  destruct (b_probe b) as [dp|] eqn:Ep; apply breaker_ret; [|done].
  destruct b; cbn in *; by subst.
Qed.

Lemma onProbeResult_refines ok b (w : world) :
  b_rep (ks_of w) ep b ->
  twp calm (onProbeResult cfg ep ok) (breaker_post w tt (b_result cfg (now_ms w.1) ok b)) w.
Proof using RedisLaws0 Hcfg.
  intros Hb. unfold onProbeResult, b_result. destruct ok.
  - eapply twp_breaker_cmd; [reflexivity|exact (del_keys (ks_of w) ep b Hb true true)|set_solver|].
    intros w1 Ht1 Hr1. by apply breaker_ret.
  - destruct (set_open cfg (now_ms w.1) (ks_of w) ep b Hcfg Hb) as [Hx1 Hb1].
    eapply twp_breaker_cmd; [exact Hx1|exact Hb1|set_solver|]. intros w1 Ht1 Hr1.
    eapply twp_breaker_cmd; [reflexivity|exact (del_keys (ks_of w1) ep _ Hr1 false true)|set_solver|].
    intros w2 Ht2 Hr2. by apply breaker_ret.
Qed.
End Refine.

(** ** The life cycle of the abstract breaker *)

Inductive b_op := Check_ | Failure.

#[export] Instance b_op_eq_dec : EqDecision b_op.
Proof. solve_decision. Defined.

(** One operation by some worker at time [t]; the checks answer. *)
Definition b_do (cfg : Config) (t : Z) (op : b_op) (b : breaker) : option BreakerState * breaker :=
  match op with
  | Check_ => let '(s, b') := b_check cfg t (b_at t b) in (Some s, b')
  | Failure => (None, b_failure cfg t (b_at t b))
  end.

(** The answers of a history of operations, in order, and the breaker after it. *)
Fixpoint b_run (cfg : Config) (b : breaker) (h : list (Z * b_op)) : list (option BreakerState) * breaker :=
  match h with
  | [] => ([], b)
  | (t, op) :: h =>
      let '(r, b1) := b_do cfg t op b in
      let '(rs, b2) := b_run cfg b1 h in
      (r :: rs, b2)
  end.

Definition failures (h : list (Z * b_op)) : Z :=
  Z.of_nat (length (filter (fun to : Z * b_op => to.2 = Failure) h)).

Lemma failures_cons t op h :
  failures ((t, op) :: h) = (if decide (op = Failure) then 1 else 0) + failures h.
Proof. unfold failures. rewrite filter_cons. destruct op; cbn; repeat case_decide; cbn; try done; lia. Qed.

(** The answers of a history satisfy what a step answers while an invariant
    holds that the step keeps. *)
Lemma b_run_invariant cfg (I : breaker -> list (Z * b_op) -> Prop) (P : option BreakerState -> Prop) :
  (forall b t op h, I b ((t, op) :: h) -> P (b_do cfg t op b).1 /\ I (b_do cfg t op b).2 h) ->
  forall h b, I b h -> Forall P (b_run cfg b h).1 /\ I (b_run cfg b h).2 [].
Proof.
  intros Hstep h. induction h as [|[t op] h IH]; intros b Hb; cbn; [by split|].
  destruct (Hstep b t op h Hb) as [HP HI]. destruct (b_do cfg t op b) as [r b1]. cbn in HP, HI.
  destruct (IH b1 HI) as [HF HI']. destruct (b_run cfg b1 h) as [rs b2]. cbn in *. auto.
Qed.

(** The operations of a history all happen in [t0, t1). *)
Definition within (t0 t1 : Z) (h : list (Z * b_op)) : Prop := Forall (fun to => t0 <= to.1 < t1) h.

Lemma mark_alive (t d : Z) : t < d -> (if t <? d then Some d else None) = Some d.
Proof. by destruct (Z.ltb_spec t d); [|lia]. Qed.

(** An open mark, and a probe mark, last to their deadlines. *)
Lemma open_lasts cfg t0 b h :
  (exists d, b_open b = Some d /\ t0 + 1000 * CB_OPEN_SECONDS cfg <= d) ->
  within t0 (t0 + 1000 * CB_OPEN_SECONDS cfg) h ->
  Forall (fun r => r = None \/ r = Some open) (b_run cfg b h).1.
Proof.
  intros Hb Hh.
  eapply (b_run_invariant cfg (fun b h => (exists d, b_open b = Some d /\ t0 + 1000 * CB_OPEN_SECONDS cfg <= d) /\
    within t0 (t0 + 1000 * CB_OPEN_SECONDS cfg) h)); [|done].
  clear b Hb h Hh. intros b t op h [(d & Hd & Hle) Hh]. apply Forall_cons in Hh as [Ht Hh]. cbn in Ht.
  assert (b_open (b_at t b) = Some d) as Ha by (cbn; rewrite Hd; apply mark_alive; lia).
  destruct op; cbn -[b_at].
  - unfold b_check. rewrite Ha. cbn -[b_at]. split; [auto|]. eauto.
  - split; [auto|]. split; [|done]. rewrite Ha. destruct (_ <=? _); [|eauto].
    eexists. split; [reflexivity|lia].
Qed.

Lemma probe_lasts cfg d b h :
  b_probe b = Some d -> Forall (fun to => to.1 < d) h ->
  Forall (fun r => r <> Some probe) (b_run cfg b h).1.
Proof.
  intros Hb Hh.
  eapply (b_run_invariant cfg (fun b h => b_probe b = Some d /\ Forall (fun to => to.1 < d) h)); [|done].
  clear b Hb h Hh. intros b t op h [Hd Hh]. apply Forall_cons in Hh as [Ht Hh]. cbn in Ht.
  assert (b_probe (b_at t b) = Some d) as Ha by (cbn; rewrite Hd; by apply mark_alive).
  destruct op; cbn -[b_at]; [|done].
  unfold b_check. rewrite Ha. repeat case_match; by simplify_eq/=.
Qed.

Lemma fails_count_failure cfg t b : fails_count (b_failure cfg t b) = fails_count b + 1.
Proof. done. Qed.

(** Below the threshold the breaker stays closed. *)
Lemma fails_at_le t b : 0 <= fails_count b -> 0 <= fails_count (b_at t b) <= fails_count b.
Proof.
  unfold fails_count. cbn. destruct (b_fails b) as [[n [d|]]|]; cbn; try lia.
  destruct (t <? d); lia.
Qed.

Lemma closed_below cfg b h :
  b_open b = None -> 0 <= fails_count b -> fails_count b + failures h < CB_FAIL_THRESHOLD cfg ->
  Forall (fun r => r = None \/ r = Some closed) (b_run cfg b h).1.
Proof.
  intros Ho Hn Hlt.
  eapply (b_run_invariant cfg (fun b h => b_open b = None /\ 0 <= fails_count b /\
    fails_count b + failures h < CB_FAIL_THRESHOLD cfg)); [|done].
  clear b h Ho Hn Hlt. intros b t op h (Ho & Hn & Hlt). rewrite failures_cons in Hlt.
  assert (b_open (b_at t b) = None) as Ha by (cbn; by rewrite Ho).
  assert (0 <= failures h) by (unfold failures; lia).
  pose proof (fails_at_le t b Hn) as Hle.
  destruct op; cbn -[b_at b_failure]; [rewrite decide_False in Hlt by done|rewrite decide_True in Hlt by done].
  - unfold b_check. rewrite Ha. unfold fails_count in Hle, Hlt |- *.
    destruct (b_fails (b_at t b)) as [[n d]|] eqn:E.
    + destruct (Z.leb_spec (CB_FAIL_THRESHOLD cfg) n); [lia|]. cbn -[b_at]. rewrite E. split; [auto|].
      split; [done|]. lia.
    + cbn -[b_at]. rewrite E. split; [auto|]. split; [done|]. lia.
  - split; [auto|]. split; [|rewrite fails_count_failure; lia].
    cbn -[b_at]. by destruct (Z.leb_spec (CB_FAIL_THRESHOLD cfg) (fails_count (b_at t b) + 1)); [lia|].
Qed.

(** Failures at times that are less than a window apart all count. *)
Fixpoint spaced (w t : Z) (ts : list Z) : Prop :=
  match ts with
  | [] => True
  | t' :: ts => t <= t' < t + w /\ spaced w t' ts
  end.

Lemma spaced_failures cfg t ts b :
  b_fails b = Some (fails_count b, Some (t + 1000 * CB_WINDOW_SECONDS cfg)) ->
  spaced (1000 * CB_WINDOW_SECONDS cfg) t ts ->
  b_fails (b_run cfg b (map (fun t => (t, Failure)) ts)).2 = Some (fails_count b + Z.of_nat (length ts),
                     Some (List.last ts t + 1000 * CB_WINDOW_SECONDS cfg)).
Proof.
  revert t b. induction ts as [|t1 ts IH]; intros t b Hb Hs; cbn -[b_at b_failure last].
  { by rewrite Z.add_0_r. }
  destruct Hs as [Ht Hs].
  assert (b_fails (b_at t1 b) = b_fails b) as Ha by (cbn; rewrite Hb; by destruct (Z.ltb_spec t1 (t + 1000 * CB_WINDOW_SECONDS cfg)); [|lia]).
  assert (fails_count (b_at t1 b) = fails_count b) as Hc by (unfold fails_count; by rewrite Ha).
  specialize (IH t1 (b_failure cfg t1 (b_at t1 b))). rewrite (surjective_pairing (b_run _ _ _)). cbn -[b_at b_failure last] in IH |- *.
  rewrite IH; [|done|done]. rewrite fails_count_failure, Hc.
  f_equal. f_equal; [lia|].
  destruct ts as [|x ts]; [done|]. f_equal. f_equal. clear. revert x.
  induction ts as [|y ts IH]; intros x; [done|]. apply IH.
Qed.

Lemma b_run_app cfg b h1 h2 :
  b_run cfg b (h1 ++ h2) =
  ((b_run cfg b h1).1 ++ (b_run cfg (b_run cfg b h1).2 h2).1, (b_run cfg (b_run cfg b h1).2 h2).2).
Proof.
  revert b. induction h1 as [|[t op] h1 IH]; intros b; cbn.
  { by destruct (b_run cfg b h2). }
  destruct (b_do cfg t op b) as [r b1]. rewrite IH. by destruct (b_run cfg b1 h1).
Qed.

Abbreviation fail_at ts := (map (fun t => (t, Failure)) ts).

(** The failure that reaches the threshold opens the breaker. *)
Lemma last_failure_opens cfg b ts t :
  CB_FAIL_THRESHOLD cfg <= fails_count (b_run cfg b (fail_at (ts ++ [t]))).2 ->
  b_open (b_run cfg b (fail_at (ts ++ [t]))).2 = Some (t + 1000 * CB_OPEN_SECONDS cfg).
Proof.
  rewrite map_app, b_run_app. cbn -[b_at b_failure]. rewrite fails_count_failure. cbn -[b_at].
  intros H. by destruct (Z.leb_spec (CB_FAIL_THRESHOLD cfg) (fails_count (b_at t (b_run cfg b (fail_at ts)).2) + 1)); [|lia].
Qed.

(** ** Histories of the program *)

Section Histories.
Context {RS BS : Type} `{!RedisServer RS} `{!RedisLaws RS} `{!BullMQ BS}.
Abbreviation world := (world RS BS).
Context (cfg : Config) (ep : string).

(** The clock moves on to [t] ms. *)
Definition advanced (w : world) (t : Z) (w1 : world) : Prop :=
  now_ms w.1 <= t /\ exists n, ms_of_ts n = t /\ w1 = (with_now n w.1, w.2).

(** [ran w h rs w']: from [w], the calls of [h] on the endpoint's breaker,
    by any workers, each at its time; [rs] is what the checks answered. *)
Inductive ran : world -> list (Z * b_op) -> list (option BreakerState) -> world -> Prop :=
| ran_nil w : ran w [] [] w
| ran_check w t w1 s w2 h rs w' :
    advanced w t w1 -> exec calm (checkState cfg ep) w1 (Returned s) w2 ->
    ran w2 h rs w' -> ran w ((t, Check_) :: h) (Some s :: rs) w'
| ran_failure w t w1 w2 h rs w' :
    advanced w t w1 -> exec calm (recordFailure cfg ep) w1 (Returned tt) w2 ->
    ran w2 h rs w' -> ran w ((t, Failure) :: h) (None :: rs) w'.

Lemma b_rep_advanced w t w1 b :
  advanced w t w1 -> b_rep (ks_of w) ep b -> b_rep (ks_of w1) ep (b_at t b) /\ now_ms w1.1 = t.
Proof.
  intros (Ht & n & <- & ->) Hb. split; [|done]. unfold ks_of, now_ms in *. cbn in *.
  rewrite (rs_expiry _ _ _ Ht). by apply b_rep_live.
Qed.

Lemma ran_b_run (Hcfg : config_ok cfg) w h rs w' b :
  b_rep (ks_of w) ep b -> ran w h rs w' ->
  rs = (b_run cfg b h).1 /\ b_rep (ks_of w') ep (b_run cfg b h).2.
Proof.
  intros Hb Hran. revert b Hb.
  induction Hran as [w|w t w1 s w2 h rs w' Hadv Hx Hran IH|w t w1 w2 h rs w' Hadv Hx Hran IH]; intros b Hb.
  - done.
  - destruct (b_rep_advanced _ _ _ _ Hadv Hb) as [Hb1 Ht].
    destruct (proj2 (twp_exec _ _ _ _ (checkState_refines cfg ep Hcfg _ _ Hb1)) _ _ Hx) as (Ho & _ & Hb2 & _).
    injection Ho as ->. rewrite Ht in Hb2 |- *. destruct (IH _ Hb2) as [-> Hb'].
    cbn -[b_at]. destruct (b_check cfg t (b_at t b)) as [s b2]. cbn in *.
    by destruct (b_run cfg b2 h).
  - destruct (b_rep_advanced _ _ _ _ Hadv Hb) as [Hb1 Ht].
    destruct (proj2 (twp_exec _ _ _ _ (recordFailure_refines cfg ep Hcfg _ _ Hb1)) _ _ Hx) as (_ & _ & Hb2 & _).
    rewrite Ht in Hb2. destruct (IH _ Hb2) as [-> Hb'].
    cbn -[b_at b_failure]. by destruct (b_run cfg _ h).
Qed.

Fixpoint in_order (t : Z) (h : list (Z * b_op)) : Prop :=
  match h with [] => True | (t', _) :: h => t <= t' /\ in_order t' h end.

(** Every history whose times are in order has a run, with the answers of
    the abstract breaker. *)
Lemma ran_exists (Hcfg : config_ok cfg) h w b :
  b_rep (ks_of w) ep b -> in_order (now_ms w.1) h -> exists w', ran w h (b_run cfg b h).1 w'.
Proof.
  revert w b. induction h as [|[t op] h IH]; intros w b Hb Hh; [exists w; constructor|].
  destruct Hh as [Ht Hh].
  set (w1 := (with_now (ts_of_ms t) w.1, w.2)).
  assert (advanced w t w1) as Hadv.
  { split; [done|]. exists (ts_of_ms t). split; [|done]. unfold ms_of_ts, ts_of_ms.
    rewrite Z.mul_comm. by apply Z.div_mul. }
  destruct (b_rep_advanced _ _ _ _ Hadv Hb) as [Hb1 Ht1].
  destruct op.
  - destruct (proj1 (twp_exec _ _ _ _ (checkState_refines cfg ep Hcfg _ _ Hb1))) as (o & w2 & Hx & -> & Hs & Hb2 & _).
    rewrite Ht1 in Hb2, Hx. destruct (IH w2 _ Hb2) as [w' Hran]; [by rewrite (same_but_redis_clock _ _ Hs), Ht1|].
    exists w'. cbn -[b_at]. destruct (b_check cfg t (b_at t b)) as [s b2]. cbn in *.
    rewrite (surjective_pairing (b_run cfg b2 h)). by eapply ran_check.
  - destruct (proj1 (twp_exec _ _ _ _ (recordFailure_refines cfg ep Hcfg _ _ Hb1))) as (o & w2 & Hx & -> & Hs & Hb2 & _).
    rewrite Ht1 in Hb2. destruct (IH w2 _ Hb2) as [w' Hran]; [by rewrite (same_but_redis_clock _ _ Hs), Ht1|].
    exists w'. cbn -[b_at b_failure]. rewrite (surjective_pairing (b_run cfg _ h)). by eapply ran_failure.
Qed.
End Histories.

(** ** Properties *)

(** C25: the three functions of the breaker implement the abstract breaker: on
    keys that represent the breaker [b] each returns what the abstract
    operation returns, leaves keys that represent the abstract result, and
    changes no other key, table or job. *)
Theorem breaker_refines {RS BS : Type} `{!RedisServer RS} `{!RedisLaws RS} `{!BullMQ BS}
    (cfg : Config) (ep : string) (b : breaker) (w : world RS BS) :
  config_ok cfg -> b_rep (ks_of w) ep b ->
  twp calm (checkState cfg ep)
    (breaker_post ep w (b_check cfg (now_ms w.1) b).1 (b_check cfg (now_ms w.1) b).2) w /\
  twp calm (recordFailure cfg ep) (breaker_post ep w tt (b_failure cfg (now_ms w.1) b)) w /\
  forall ok, twp calm (onProbeResult cfg ep ok) (breaker_post ep w tt (b_result cfg (now_ms w.1) ok b)) w.
Proof.
  intros Hcfg Hb. split; [by apply checkState_refines|]. split; [by apply recordFailure_refines|].
  intros ok. by apply onProbeResult_refines.
Qed.

(** An endpoint with 20 failures on record and no open mark: half open. *)
Definition half_open_world : mem_world :=
  demo_world 1000 empty_tables {[failsKey "e1" := {| r_val := RStr "20"; r_deadline := Some 900000 |}]} ∅.

Definition half_open_breaker : breaker := {|
  b_fails := Some (20, Some 900000); b_open := None; b_probe := None |}.

Lemma half_open_rep : b_rep (ks_of half_open_world) "e1" half_open_breaker.
Proof. constructor; [exists "20"; split|..]; vm_compute; reflexivity. Qed.

Lemma breaker_refines_witness :
  exists o w', exec calm (checkState default_config "e1") half_open_world o w' /\ o = Returned probe.
Proof.
  destruct (breaker_refines default_config "e1" half_open_breaker half_open_world) as [H _].
  - exact default_config_ok.
  - exact half_open_rep.
  - apply twp_exec in H as [(o & w' & Hx & Hp & _) _]. exists o, w'. split; [exact Hx|exact Hp].
Defined.

(** At most one probe. Once a worker has been told to probe an endpoint,
    no other check of the endpoint is answered [probe] before
    [CB_PROBE_SECONDS] have passed, whatever checks and failures of other
    workers happen meanwhile. *)
Theorem single_probe {RS BS : Type} `{!RedisServer RS} `{!RedisLaws RS} `{!BullMQ BS}
    (cfg : Config) (ep : string) (b : breaker) (w w1 w2 : world RS BS) h rs :
  config_ok cfg -> b_rep (ks_of w) ep b ->
  exec calm (checkState cfg ep) w (Returned probe) w1 ->
  ran cfg ep w1 h rs w2 ->
  Forall (fun to => to.1 < now_ms w.1 + 1000 * CB_PROBE_SECONDS cfg) h ->
  Some probe ∉ rs.
Proof.
  intros Hcfg Hb Hx Hran Hh.
  destruct (proj2 (twp_exec _ _ _ _ (checkState_refines cfg ep Hcfg _ _ Hb)) _ _ Hx) as (Ho & _ & Hb1 & _).
  destruct (ran_b_run cfg ep Hcfg _ _ _ _ _ Hb1 Hran) as [-> _].
  assert (b_probe (b_check cfg (now_ms w.1) b).2 = Some (now_ms w.1 + 1000 * CB_PROBE_SECONDS cfg)) as Hp.
  { revert Ho. unfold b_check. repeat case_match; cbn; congruence. }
  pose proof (probe_lasts cfg _ _ h Hp Hh) as HF. intros Hin.
  rewrite Forall_forall in HF. by apply (HF _ Hin).
Qed.

Lemma single_probe_witness :
  exists w1 w2 rs, exec calm (checkState default_config "e1") half_open_world (Returned probe) w1 /\
    ran default_config "e1" w1 [(2000, Check_); (3000, Failure)] rs w2 /\ Some probe ∉ rs.
Proof.
  pose proof (checkState_refines default_config "e1" default_config_ok _ _ half_open_rep) as H.
  apply twp_exec in H as [(o & w1 & Hx & -> & Hs & Hb1 & _) _].
  destruct (ran_exists default_config "e1" default_config_ok [(2000, Check_); (3000, Failure)] w1 _ Hb1) as [w2 Hran].
  { rewrite (same_but_redis_clock _ _ Hs). vm_compute. repeat split; congruence. }
  eexists w1, w2, _. split; [exact Hx|]. split; [exact Hran|].
  apply (single_probe default_config "e1" half_open_breaker half_open_world w1 w2 _ _
    default_config_ok half_open_rep Hx Hran).
  repeat constructor.
Defined.

(** The result of the probe decides. A failed probe re-opens the breaker
    at once: every check in the next [CB_OPEN_SECONDS] fails fast. A
    successful one closes it with a zeroed count: every check is answered
    [closed] as long as fewer than [CB_FAIL_THRESHOLD] failures follow. *)
Theorem probe_result_decides {RS BS : Type} `{!RedisServer RS} `{!RedisLaws RS} `{!BullMQ BS}
    (cfg : Config) (ep : string) (ok : bool) (b : breaker) (w w1 w2 : world RS BS) h rs :
  config_ok cfg -> b_rep (ks_of w) ep b -> b_open b = None ->
  exec calm (onProbeResult cfg ep ok) w (Returned tt) w1 ->
  ran cfg ep w1 h rs w2 ->
  (if ok then failures h < CB_FAIL_THRESHOLD cfg
   else within (now_ms w.1) (now_ms w.1 + 1000 * CB_OPEN_SECONDS cfg) h) ->
  Forall (fun r => r = None \/ r = Some (if ok then closed else open)) rs.
Proof.
  intros Hcfg Hb Ho Hx Hran Hh.
  destruct (proj2 (twp_exec _ _ _ _ (onProbeResult_refines cfg ep Hcfg ok _ _ Hb)) _ _ Hx) as (_ & _ & Hb1 & _).
  destruct (ran_b_run cfg ep Hcfg _ _ _ _ _ Hb1 Hran) as [-> _].
  destruct ok; cbn in Hb1 |- *.
  - apply closed_below; [done|done|exact Hh].
  - eapply open_lasts; [|exact Hh]. eexists. split; [reflexivity|lia].
Qed.

Lemma probe_result_decides_witness :
  exists w1 w2 rs, exec calm (onProbeResult default_config "e1" false) half_open_world (Returned tt) w1 /\
    ran default_config "e1" w1 [(2000, Check_); (60000, Check_)] rs w2 /\
    Forall (fun r => r = None \/ r = Some open) rs.
Proof.
  pose proof (onProbeResult_refines default_config "e1" default_config_ok false _ _ half_open_rep) as H.
  apply twp_exec in H as [(o & w1 & Hx & -> & Hs & Hb1 & _) _].
  destruct (ran_exists default_config "e1" default_config_ok [(2000, Check_); (60000, Check_)] w1 _ Hb1) as [w2 Hran].
  { rewrite (same_but_redis_clock _ _ Hs). vm_compute. repeat split; congruence. }
  eexists w1, w2, _. split; [exact Hx|]. split; [exact Hran|].
  apply (probe_result_decides default_config "e1" false half_open_breaker half_open_world w1 w2 _ _
    default_config_ok half_open_rep eq_refl Hx Hran).
  repeat constructor; vm_compute; congruence.
Defined.

(** The failure window slides. Each failure restarts the window, so
    [CB_FAIL_THRESHOLD] failures open the breaker whenever no two consecutive
    ones are [CB_WINDOW_SECONDS] apart, however long they take together. *)
Theorem breaker_window_slides {RS BS : Type} `{!RedisServer RS} `{!RedisLaws RS} `{!BullMQ BS}
    (cfg : Config) (ep : string) (w w' : world RS BS) t1 ts tl t rs :
  config_ok cfg -> b_rep (ks_of w) ep fresh_breaker ->
  spaced (1000 * CB_WINDOW_SECONDS cfg) t1 (ts ++ [tl]) ->
  Z.of_nat (length ts) + 2 = CB_FAIL_THRESHOLD cfg ->
  tl <= t < tl + 1000 * CB_OPEN_SECONDS cfg ->
  ran cfg ep w (fail_at (t1 :: ts ++ [tl]) ++ [(t, Check_)]) rs w' ->
  last rs = Some (Some open).
Proof.
  intros Hcfg Hb Hsp Hlen Ht Hran.
  destruct (ran_b_run cfg ep Hcfg _ _ _ _ _ Hb Hran) as [-> _].
  rewrite b_run_app. cbn [fst]. rewrite last_app.
  set (b1 := (b_run cfg fresh_breaker (fail_at (t1 :: ts ++ [tl]))).2).
  assert (b_open b1 = Some (tl + 1000 * CB_OPEN_SECONDS cfg)) as Ho.
  { apply (last_failure_opens cfg fresh_breaker (t1 :: ts) tl).
    cbn -[b_at b_failure]. rewrite (surjective_pairing (b_run _ _ _)). cbn -[b_at b_failure].
    unfold fails_count. rewrite (spaced_failures cfg t1); [|reflexivity|exact Hsp].
    rewrite length_app, fails_count_failure. cbn. lia. }
  cbn -[b_at]. unfold b_check. assert (b_open (b_at t b1) = Some (tl + 1000 * CB_OPEN_SECONDS cfg)) as ->.
  { cbn. rewrite Ho. apply mark_alive. lia. }
  done.
Qed.

Lemma breaker_window_slides_witness :
  let w := demo_world 0 empty_tables ∅ ∅ in
  exists rs w', ran default_config "e1" w
    (fail_at (map (fun i => 299000 * Z.of_nat i) (seq 0 20)) ++ [(5681000, Check_)]) rs w' /\
    last rs = Some (Some open).
Proof.
  intros w.
  assert (b_rep (ks_of w) "e1" fresh_breaker) as Hb by (constructor; vm_compute; reflexivity).
  destruct (ran_exists default_config "e1" default_config_ok
    (fail_at (map (fun i => 299000 * Z.of_nat i) (seq 0 20)) ++ [(5681000, Check_)]) w _ Hb) as [w' Hran].
  { vm_compute. repeat split; congruence. }
  eexists _, w'. split; [exact Hran|].
  apply (breaker_window_slides default_config "e1" w w' 0
    (map (fun i => 299000 * Z.of_nat i) (seq 1 18)) 5681000 5681000 _ default_config_ok Hb).
  - vm_compute. repeat split; congruence.
  - vm_compute. reflexivity.
  - vm_compute. split; congruence.
  - exact Hran.
Defined.
