(* ===== verification/Repo.v ===== *)
(** * Transactions and the repositories

    [src/src/db/pool.ts] ([withTx]), [src/src/db/attempts.repo.ts], the
    operations of [src/src/db/deliveries.repo.ts] that the worker, the
    reconciler and the DLQ route use, and [src/src/queue/enqueue.ts]. *)

From S2P Require Import Prelude Async Json Config Tables Queries Schema Redis Services Concrete.
From Stdlib Require Import ZArith Lia String.
From stdpp Require Import prelude strings gmap.

Open Scope Z_scope.
Open Scope async_scope.

(** [withTx(fn)]. *)
Definition withTx {A} (fn : io A) : io A :=
  pg CONNECT ;;;
  try_finally
    (try_catch
      (pg BEGIN ;;;
       let* result := fn in
       pg COMMIT ;;;
       Ret result)
      (fun err => pg ROLLBACK ;;; Throw err))
    (pg CLIENT_RELEASE).

(** [DeliveryForWorker]; [receivedAt] is a [Date], in milliseconds. *)
Record DeliveryForWorker := {
  dw_id : string; dw_status : status; attemptCount : Z; endpointId : string;
  endpointUrl : string; signingSecret : string; endpointActive : bool;
  eventId : string; eventType : string; payload : json; receivedAt : Z
}.

Definition getForDelivery (deliveryId : string) : io (option DeliveryForWorker) :=
  let* rows := pool_query (SelectForWorker deliveryId) in
  match rows with
  | [] => Ret None
  | row :: _ => Ret (Some {|
      dw_id := w_id row; dw_status := w_status row; attemptCount := w_attempt_count row;
      endpointId := w_endpoint_id row; endpointUrl := w_endpoint_url row;
      signingSecret := w_signing_secret row; endpointActive := w_endpoint_active row;
      eventId := w_event_id row; eventType := w_event_type row;
      payload := w_payload row; receivedAt := ms_of_ts (w_received_at row) |})
  end.

Definition transition (deliveryId : string) (fromStatus toStatus : status) (actor_ : actor)
    (reason : string) : io unit :=
  withTx (
    client_query (UpdateStatus deliveryId toStatus) ;;;
    client_query (InsertTransition deliveryId (Some fromStatus) toStatus reason actor_) ;;;
    Ret tt).

(** attempts.repo.ts. The dates are in milliseconds; [nextAttemptAt] may be an
    invalid date. *)
Record RecordAttemptInput := {
  ra_deliveryId : string; ra_attemptNumber : Z; ra_outcome : AttemptOutcome;
  ra_httpStatus : option Z; ra_responseBody : option string; ra_errorMessage : option string;
  ra_latencyMs : Z; ra_startedAt : Z; ra_finishedAt : Z;
  ra_fromStatus : status; ra_toStatus : status; ra_reason : string;
  ra_nextAttemptAt : option jsnum
}.

Definition recordAttempt (input : RecordAttemptInput) : io unit :=
  withTx (
    client_query (InsertAttempt (ra_deliveryId input) (ra_attemptNumber input) (ra_outcome input)
      (ra_httpStatus input) (ra_responseBody input) (ra_errorMessage input)
      (ra_latencyMs input) (ra_startedAt input) (ra_finishedAt input)) ;;;
    client_query (UpdateAttempted (ra_deliveryId input) (ra_toStatus input) (ra_nextAttemptAt input)) ;;;
    client_query (InsertTransition (ra_deliveryId input) (Some (ra_fromStatus input))
      (ra_toStatus input) (ra_reason input) worker) ;;;
    Ret tt).

Definition claimUnenqueued (cfg : Config) (limit : Z) : io Z :=
  withTx (
    let* rows := client_query (SelectClaimable (RECONCILER_GRACE_SECONDS cfg) limit) in
    for_each (rows : list string) (fun id =>
      queue_add webhook_delivery "deliver" id id ;;;
      client_query (UpdateEnqueued id) ;;; Ret tt) ;;;
    Ret (Z.of_nat (length (rows : list string)))).

Inductive RetryFromDlqResult :=
| RetryOk
| NotFound
| NotInDlq (currentStatus : status).

Definition retryFromDlq (deliveryId : string) : io RetryFromDlqResult :=
  withTx (
    let* rows := client_query (SelectStatusForUpdate deliveryId) in
    match (rows : list status) with
    | [] => Ret NotFound
    | st :: _ =>
        if bool_decide (st <> DLQ) then Ret (NotInDlq st)
        else
          client_query (UpdateStatus deliveryId PENDING) ;;;
          client_query (InsertTransition deliveryId (Some DLQ) PENDING "manual_retry" manual_retry) ;;;
          Ret RetryOk
    end).

(** enqueue.ts. *)
Definition enqueueDelivery (deliveryId : string) : io unit :=
  queue_add webhook_delivery "deliver" deliveryId deliveryId ;;;
  pool_query (UpdateEnqueued deliveryId) ;;;
  Ret tt.

(** ** One session on the database *)

Section Session.
Context {RS BS : Type} `{!RedisServer RS} `{!BullMQ BS}.
Abbreviation world := (world RS BS).

Definition tables_of (w : world) : tables := pg_tables (s_pg w.1).

(** No transaction is open and no lock is held. *)
Definition idle (w : world) : Prop :=
  l_tx w.2 = None /\ forall k, (k, l_tid w.2) ∉ pg_locks (s_pg w.1).

(** A transaction started at [t0] is open on the committed tables [T], with
    the writes [ws] so far. *)
Definition in_tx (T : tables) (t0 : Z) (ws : list write) (w : world) : Prop :=
  l_tx w.2 = Some {| tx_start := t0; tx_writes := ws |} /\ tables_of w = T.

(** Everything but the clock and the database. *)
Definition same_rest (w w' : world) : Prop :=
  s_redis w'.1 = s_redis w.1 /\ s_bull w'.1 = s_bull w.1 /\ s_sent w'.1 = s_sent w.1 /\
  l_tid w'.2 = l_tid w.2 /\ l_sha w'.2 = l_sha w.2.

#[export] Instance same_rest_preorder : PreOrder same_rest.
Proof.
  split; [by repeat split|]. intros w1 w2 w3 (?&?&?&?&?) (?&?&?&?&?). repeat split; congruence.
Qed.

Lemma committed_idle (s : shared RS BS) l (p : pgstate) ws :
  idle (with_pg (committed p (l_tid l) ws) s, with_tx None l).
Proof.
  split; [done|]. intros k. cbn. unfold release_locks. rewrite list_elem_of_filter. by intros [? _].
Qed.

(** A command on the database: time passes, the server answers or fails. *)
Lemma wp_pg (c : pgcmd) Q (w : world) :
  (forall n, s_now w.1 <= n ->
    (forall r p' tx', pg_answers n (s_pg w.1) (l_tid w.2) (l_tx w.2) c r p' tx' ->
       Q (Returned r) (with_pg p' (with_now n w.1), with_tx tx' w.2)) /\
    (forall e p' tx', foreign e -> pg_fails n (s_pg w.1) (l_tid w.2) (l_tx w.2) c p' tx' ->
       Q (Threw e) (with_pg p' (with_now n w.1), with_tx tx' w.2))) ->
  wp env (pg c) Q w.
Proof.
  intros H. apply (wp_await env (Pg c)). intros r w1 (s1 & (n & Hn & ->) & Hw1).
  destruct (H n Hn) as [HR HT]. destruct r as [e|r]; cbn in Hw1 |- *.
  - destruct Hw1 as [_ (He & p' & tx' & Hp & ->)]. by apply HT.
  - destruct Hw1 as (p' & tx' & Hp & ->). by apply HR.
Qed.

Lemma wp_client_query q Q T t0 ws (w : world) :
  in_tx T t0 ws w ->
  (forall e w1, foreign e -> in_tx T t0 ws w1 -> same_rest w w1 -> Q (Threw e) w1) ->
  (forall r ws' w1, stmt_ok t0 (apply_writes T ws) (busy (s_pg w.1) (l_tid w.2)) q r ws' ->
     ~ stmt_violates (apply_writes T ws) q -> in_tx T t0 (ws ++ ws') w1 -> same_rest w w1 ->
     Q (Returned r) w1) ->
  wp env (client_query q) Q w.
Proof.
  intros [Htx HT] HQt HQr. apply wp_pg. intros n Hn. split.
  - intros r p' tx' (x & ws' & Hx & (Hok & Hv & _) & -> & ->). rewrite Htx in Hx. injection Hx as <-.
    cbn in Hok, Hv. unfold tx_view in Hok, Hv. cbn in Hok, Hv. unfold tables_of in HT. rewrite HT in Hok, Hv.
    by eapply HQr.
  - intros e p' tx' He [-> ->]. by apply HQt.
Qed.
End Session.

#[export] Hint Resolve committed_idle : webhook.

Section WithTx.
Context {RS BS : Type} `{!RedisServer RS} `{!BullMQ BS}.
Abbreviation world := (world RS BS).

Section Body.
Context {A : Type} (T : tables) (G : outcome exn A -> list write -> world -> Prop).
Context (HG : forall o ws w1 w2, G o ws w1 -> same_rest w1 w2 -> G o ws w2).

(** Nothing is committed, or all the writes of a body that returned. *)
Definition all_or_nothing (w : world) : Prop :=
  tables_of w = T \/ exists a ws, G (Returned a) ws w /\ tables_of w = apply_writes T ws.

(** What [withTx fn] may end in, when the body leaves the writes [ws] with
    outcome [o] in a state that satisfies [G o ws]: a value means the body
    returned it and its writes are committed; an exception means nothing
    is committed, or the reply of a performed COMMIT was lost. *)
Definition tx_outcome (o : outcome exn A) (w' : world) : Prop :=
  match o with
  | Returned a => idle w' /\ exists ws, G (Returned a) ws w' /\ tables_of w' = apply_writes T ws
  | Threw e => idle w' /\ all_or_nothing w'
  | Exited => exists ws, G Exited ws w'
  end.

Lemma all_or_nothing_rest w1 w2 :
  all_or_nothing w1 -> same_rest w1 w2 -> tables_of w2 = tables_of w1 -> all_or_nothing w2.
Proof using HG.
  intros [HT|(a & ws & Hg & HT)] Hr H; [left; congruence|]. right. exists a, ws.
  split; [by eapply HG|congruence].
Qed.

(** The handlers of [withTx] around a body. *)
Lemma wp_tx_handlers (body : io A) (w : world) :
  wp env body (fun o w1 => match o with Threw _ => all_or_nothing w1 | _ => tx_outcome o w1 end) w ->
  wp env (try_finally (try_catch body (fun err => pg ROLLBACK ;;; Throw err)) (pg CLIENT_RELEASE))
    tx_outcome w.
Proof using HG.
  intros Hbody. apply wp_try_finally, wp_try_catch.
  assert (forall o w1, tx_outcome o w1 ->
    match o with
    | Exited => tx_outcome Exited w1
    | _ => wp env (pg CLIENT_RELEASE) (fun fo w2 => match fo with
        | Returned _ => tx_outcome o w2
        | Threw e => tx_outcome (Threw e) w2
        | Exited => tx_outcome Exited w2 end) w1
    end) as Hrel.
  { intros [a|e|] w1 Ho; [| |done]; apply wp_pg; intros n1 Hn1; (split; [|by intros]);
      intros _ p1 tx1 [-> ->]; destruct Ho as [Hi Ho]; (split; [by destruct w1 as [[] []]|]).
    - destruct Ho as (ws & HGo & HT). exists ws. split; [|done]. by eapply HG.
    - by eapply all_or_nothing_rest. }
  eapply wp_mono; [exact Hbody|]. intros [a|e|] w1 Ho; [by apply Hrel in Ho| |by apply Hrel in Ho].
  apply wp_bind, wp_pg. intros n1 Hn1. split; cbn.
  - intros _ p1 tx1 [-> ->]. apply wp_throw. refine (Hrel (Threw e) _ _).
    split; [apply committed_idle|]. by eapply all_or_nothing_rest.
  - intros e' p1 tx1 _ [-> ->]. refine (Hrel (Threw e') _ _).
    split; [apply committed_idle|]. by eapply all_or_nothing_rest.
Qed.

Lemma wp_tx_body (fn : io A) (w : world) :
  tables_of w = T ->
  (forall t0 w1, s_now w.1 <= t0 -> same_rest w w1 -> s_pg w1.1 = s_pg w.1 -> in_tx T t0 [] w1 ->
     wp env fn (fun o w2 => exists ws, in_tx T t0 ws w2 /\ G o ws w2) w1) ->
  wp env (pg BEGIN ;;; let* result := fn in pg COMMIT ;;; Ret result)
    (fun o w1 => match o with Threw _ => all_or_nothing w1 | _ => tx_outcome o w1 end) w.
Proof using HG.
  intros HT Hfn. apply wp_bind, wp_pg. intros n Hn. split; cbn; [|intros e p' tx' _ [-> ->]; by left].
  intros _ p' tx' [-> ->]. apply wp_bind. eapply wp_mono; [by apply (Hfn n)|].
  intros [a|e|] w2 (ws & [Htx HT2] & Hg); cbn; [| by left | by exists ws].
  apply wp_bind, wp_pg. intros n2 Hn2. rewrite Htx. split; cbn.
  - intros _ p2 tx2 [-> ->]. apply wp_ret. split; [apply committed_idle|]. exists ws.
    split; [by eapply HG|]. cbn. unfold tables_of in *. cbn. by rewrite HT2.
  - intros e p2 tx2 _ [[-> | ->] ->]; [by left|]. right. exists a, ws.
    split; [by eapply HG|]. cbn. unfold tables_of in *. cbn. by rewrite HT2.
Qed.
End Body.

Lemma wp_withTx {A} (fn : io A) (G : outcome exn A -> list write -> world -> Prop) (w : world) :
  (forall o ws w1 w2, G o ws w1 -> same_rest w1 w2 -> G o ws w2) ->
  idle w ->
  (forall t0 w1, s_now w.1 <= t0 -> same_rest w w1 -> s_pg w1.1 = s_pg w.1 -> in_tx (tables_of w) t0 [] w1 ->
     wp env fn (fun o w2 => exists ws, in_tx (tables_of w) t0 ws w2 /\ G o ws w2) w1) ->
  wp env (withTx fn) (tx_outcome (tables_of w) G) w.
Proof.
  intros HG Hidle Hfn. unfold withTx. apply wp_bind, wp_pg. intros n Hn. split; cbn; last first.
  { intros e p' tx' _ [-> ->]. split; [|by left]. by destruct w as [[] []]. }
  intros _ p' tx' [-> ->]. apply wp_tx_handlers; [done|]. apply wp_tx_body; [done|done|].
  intros t0 w1 Ht0 Hr Hp Hin. apply Hfn; [cbn in *; lia|done|done|done].
Qed.
End WithTx.

(** What a transaction leaves outside the database and the clock is what its
    body leaves, however the transaction ends. *)
Section Rest.
Context {RS BS : Type} `{!RedisServer RS} `{!BullMQ BS}.
Abbreviation world := (world RS BS).
Context (J : world -> Prop) (HJ : forall w1 w2, J w1 -> same_rest w1 w2 -> J w2).

Lemma wp_pg_rest (c : pgcmd) (w : world) : J w -> wp env (pg c) (fun _ => J) w.
Proof using HJ.
  intros Hw. apply wp_pg. intros n Hn. split; intros; (eapply HJ; [exact Hw|]); by destruct w as [[] []].
Qed.

Lemma wp_withTx_rest {A} (fn : io A) (w : world) :
  J w -> (forall w1, J w1 -> wp env fn (fun _ => J) w1) -> wp env (withTx fn) (fun _ => J) w.
Proof using HJ.
  intros Hw Hfn.
  assert (forall c (B : Type) (f : pg_resp c -> io B) w1, J w1 ->
    (forall r w2, J w2 -> wp env (f r) (fun _ => J) w2) -> wp env (bind (pg c) f) (fun _ => J) w1) as Hb.
  { intros c B f w1 H1 Hf. apply wp_bind. eapply wp_mono; [by apply wp_pg_rest|].
    intros [r|e|] w2 H2; cbn; auto. }
  unfold withTx. apply Hb; [done|]. intros _ w1 H1.
  apply wp_try_finally, wp_try_catch.
  assert (forall w2, J w2 ->
    wp env (pg CLIENT_RELEASE) (fun fo w3 => match fo with
      | Returned _ => J w3 | Threw _ => J w3 | Exited => J w3 end) w2) as Hrel.
  { intros w2 H2. eapply wp_mono; [by apply wp_pg_rest|]. by intros []. }
  eapply (wp_mono _ _ (fun _ => J)).
  - apply Hb; [done|]. intros _ w2 H2. apply wp_bind. eapply wp_mono; [by apply Hfn|].
    intros [a|e|] w3 H3; cbn; [|done|done]. apply Hb; [done|]. intros _ w4 H4. by apply wp_ret.
  - intros [a|e|] w2 H2; [by apply Hrel| |done].
    eapply wp_mono; [apply Hb; [done|]; intros _ w3 H3; apply wp_throw; exact H3|].
    intros [a|e'|] w3 H3; [by apply Hrel|by apply Hrel|done].
Qed.
End Rest.

(** ** Transactions made of statements only *)

Definition is_query (c : cmd) : Prop := match c with Pg (CLIENT_QUERY _) => True | _ => False end.

Ltac queries := issues_tac ltac:(exact I).

Section SqlTx.
Context {RS BS : Type} `{!RedisServer RS} `{!BullMQ BS}.
Abbreviation world := (world RS BS).

Lemma query_rest (w : world) c r w1 : is_query c -> env w c r w1 -> same_rest w w1.
Proof.
  destruct c as [|[| | | | |q|] | | | | | | | | | | | | |]; cbn; try done. intros _.
  intros (s1 & (n & Hn & ->) & H). destruct w as [s l]. destruct r; cbn in H.
  - destruct H as (_ & _ & p' & tx' & _ & ->). by repeat split.
  - destruct H as (p' & tx' & _ & ->). by repeat split.
Qed.

(** How a transaction of statements ends, when a body that returns leaves
    writes that satisfy [H]. *)
Definition sql_outcome {A} (w : world) (H : Z -> A -> list write -> Prop)
    (o : outcome exn A) (w' : world) : Prop :=
  same_rest w w' /\ idle w' /\
  match o with
  | Returned a => exists t0 ws, s_now w.1 <= t0 /\ H t0 a ws /\ tables_of w' = apply_writes (tables_of w) ws
  | Threw _ => tables_of w' = tables_of w \/
      exists a t0 ws, s_now w.1 <= t0 /\ H t0 a ws /\ tables_of w' = apply_writes (tables_of w) ws
  | Exited => False
  end.

Lemma wp_withTx_sql {A} (fn : io A) (H : Z -> A -> list write -> Prop) (w : world) :
  idle w -> issues is_query fn ->
  (forall t0 w1, same_rest w w1 -> in_tx (tables_of w) t0 [] w1 ->
     wp env fn (fun o w2 => exists ws, in_tx (tables_of w) t0 ws w2 /\
                  match o with Returned a => H t0 a ws | _ => True end) w1) ->
  wp env (withTx fn) (sql_outcome w H) w.
Proof.
  intros Hidle Hq Hfn.
  set (G := fun (o : outcome exn A) (ws : list write) (_ : world) =>
    o <> Exited /\ match o with Returned a => exists t0, s_now w.1 <= t0 /\ H t0 a ws | _ => True end).
  assert (wp env (withTx fn) (fun _ w' => same_rest w w') w) as Hrest.
  { apply (wp_withTx_rest (fun w' => same_rest w w')); [by intros; etrans|done|].
    intros w1 H1. eapply wp_mono; [apply (wp_issues env is_query (fun w' => same_rest w w'))|]; [|done|done|by intros ? ? []].
    intros w2 c r w3 Hc H2 He. etrans; [done|by eapply query_rest]. }
  assert (wp env (withTx fn) (tx_outcome (tables_of w) G) w) as Htx.
  { apply wp_withTx; [by unfold G|done|]. intros t0 w1 Ht0 Hr _ Hin.
    pose proof (wp_issues env is_query (fun w' => same_rest w w') fn w1) as Hne.
    specialize (Hne (fun w2 c r w3 Hc H2 He => transitivity H2 (query_rest w2 c r w3 Hc He)) Hq Hr).
    eapply wp_mono; [apply (wp_and _ _ _ _ _ (Hfn t0 w1 Hr Hin) Hne)|].
    intros o w2 ((ws & Hin2 & Ho) & Hex & _). exists ws. split; [done|]. split; [done|].
    destruct o; eauto. }
  eapply wp_mono; [apply (wp_and _ _ _ _ _ Hrest Htx)|].
  intros [a|e|] w' [Hr Ho]; (split; [done|]).
  - destruct Ho as (Hi & ws & (_ & t0 & Ht0 & HH) & HT). split; [done|]. eauto 6.
  - destruct Ho as (Hi & [HT|(a & ws & (_ & t0 & Ht0 & HH) & HT)]); (split; [done|]); [by left|]. right. eauto 8.
  - by destruct Ho as (ws & Hne & _).
Qed.
End SqlTx.

(** One statement of a transaction body, then the rest of it. *)
Ltac query_step :=
  apply wp_bind; eapply wp_client_query; [eassumption| |];
  [ let e := fresh "e" in let w := fresh "w" in let Hin := fresh "Hin" in
    intros e w _ Hin _; eexists; split; [exact Hin|exact I]
  | cbn [after] ].

(** ** The repository operations *)

Section Operations.
Context {RS BS : Type} `{!RedisServer RS} `{!BullMQ BS}.
Abbreviation world := (world RS BS).

(** The rows [recordAttempt] writes. *)
Definition attempt_of_input (input : RecordAttemptInput) : attempt_row := {|
  a_delivery_id := ra_deliveryId input; a_attempt_number := ra_attemptNumber input;
  a_outcome := ra_outcome input; a_http_status := ra_httpStatus input;
  a_response_body := ra_responseBody input; a_error_message := ra_errorMessage input;
  a_latency_ms := ra_latencyMs input; a_started_at := ts_of_ms (ra_startedAt input);
  a_finished_at := ts_of_ms (ra_finishedAt input) |}.

Definition transition_at (t : Z) (id : string) (from : option status) (to : status) (reason : string)
    (by_ : actor) : transition_row := {|
  t_delivery_id := id; t_from_status := from; t_to_status := to; t_reason := reason;
  t_actor := by_; t_created_at := t |}.

Definition recordAttempt_writes (T : tables) (input : RecordAttemptInput) (t0 : Z) (_ : unit)
    (ws : list write) : Prop :=
  is_Some (deliveries T !! ra_deliveryId input) /\
  (forall a, a ∈ delivery_attempts T -> a_delivery_id a = ra_deliveryId input ->
     a_attempt_number a <> ra_attemptNumber input) /\
  exists next, opt_ts (ra_nextAttemptAt input) = Some next /\
  ws = [WAttempt (attempt_of_input input);
        WAttempted (ra_deliveryId input) (ra_toStatus input) next t0;
        WTransition (transition_at t0 (ra_deliveryId input) (Some (ra_fromStatus input))
          (ra_toStatus input) (ra_reason input) worker)].

Lemma wp_recordAttempt input (w : world) :
  idle w -> wp env (recordAttempt input) (sql_outcome w (recordAttempt_writes (tables_of w) input)) w.
Proof.
  intros Hidle. apply wp_withTx_sql; [done|queries|]. intros t0 w1 Hr Hin.
  query_step. intros [] ws1 w2 -> Hv1 Hin2 _. cbn in Hin2.
  query_step. intros [] ws2 w3 (next & Hnext & ->) Hv2 Hin3 _. cbn in Hin3.
  query_step. intros [] ws3 w4 -> Hv3 Hin4 _. cbn in Hin4.
  apply wp_ret. eexists. split; [exact Hin4|]. cbn in Hv1.
  split; [|split; [|by exists next]].
  - destruct (deliveries (tables_of w) !! _); [eauto|]. destruct Hv1. by left.
  - intros a Ha Hid Hnum. apply Hv1. right. by exists a.
Qed.

Definition transition_writes (id : string) (from to : status) (by_ : actor) (reason : string)
    (T : tables) (t0 : Z) (_ : unit) (ws : list write) : Prop :=
  is_Some (deliveries T !! id) /\
  ws = [WStatus id to t0; WTransition (transition_at t0 id (Some from) to reason by_)].

Lemma wp_transition id from to by_ reason (w : world) :
  idle w -> wp env (transition id from to by_ reason)
    (sql_outcome w (transition_writes id from to by_ reason (tables_of w))) w.
Proof.
  intros Hidle. apply wp_withTx_sql; [done|queries|]. intros t0 w1 Hr Hin.
  query_step. intros [] ws1 w2 -> Hv1 Hin2 _. cbn in Hin2.
  query_step. intros [] ws2 w3 -> Hv2 Hin3 _. cbn in Hin3.
  apply wp_ret. eexists. split; [exact Hin3|]. cbn in Hv2. split; [|done].
  rewrite lookup_alter in Hv2. destruct (deliveries (tables_of w) !! id) eqn:E; [eauto|].
  destruct Hv2. by rewrite decide_True.
Qed.

(** The result of [retryFromDlq], and what it writes, from the row it finds. *)
Definition retry_writes (id : string) (T : tables) (t0 : Z) (res : RetryFromDlqResult) (ws : list write) : Prop :=
  match d_status <$> deliveries T !! id with
  | None => res = NotFound /\ ws = []
  | Some DLQ => res = RetryOk /\
      ws = [WStatus id PENDING t0;
            WTransition (transition_at t0 id (Some DLQ) PENDING "manual_retry" manual_retry)]
  | Some st => res = NotInDlq st /\ ws = []
  end.

Lemma wp_retryFromDlq id (w : world) :
  idle w -> wp env (retryFromDlq id) (sql_outcome w (retry_writes id (tables_of w))) w.
Proof.
  intros Hidle. apply wp_withTx_sql; [done|queries|]. intros t0 w1 Hr Hin.
  query_step. intros rows ws1 w2 [-> ->] _ Hin2 _. cbn in Hin2 |- *. unfold retry_writes.
  destruct (deliveries (tables_of w) !! id) as [d|]; cbn; [|apply wp_ret; eauto].
  destruct (d_status d); cbn; try (apply wp_ret; eauto).
  query_step. intros [] ws2 w3 -> Hv2 Hin3 _. cbn in Hin3.
  query_step. intros [] ws3 w4 -> Hv3 Hin4 _. cbn in Hin4.
  apply wp_ret. eauto.
Qed.
End Operations.

Section Claim.
Context {RS BS : Type} `{!RedisServer RS} `{!BullMQ BS} `{!BullMQLaws BS}.
Abbreviation world := (world RS BS).

(** The deliveries a sweep at [t] may pick: pending or overdue, untouched for
    the grace period. *)
Definition stuck (cfg : Config) (T : tables) (t : Z) (id : string) : Prop :=
  exists d, deliveries T !! id = Some d /\ claimable t (RECONCILER_GRACE_SECONDS cfg) d = true.

Definition add_jobs (b : BS) (ids : list string) : BS :=
  foldl (fun b id => bq_add b webhook_delivery id id) b ids.

(** No session holds the delivery's row. *)
Definition unlocked (w : world) (id : string) : Prop := forall tid, (LDelivery id, tid) ∉ pg_locks (s_pg w.1).

(** What a sweep that returns [n] has done. *)
Definition claimed (cfg : Config) (limit : Z) (w w' : world) (n : Z) : Prop :=
  exists t0 ids, s_now w.1 <= t0 /\ NoDup ids /\ n = Z.of_nat (length ids) /\ n <= Z.max 0 limit /\
    Forall (stuck cfg (tables_of w) t0) ids /\
    (n < limit -> forall id, stuck cfg (tables_of w) t0 id -> unlocked w id -> id ∈ ids) /\
    tables_of w' = apply_writes (tables_of w) (map (fun id => WEnqueued id t0) ids) /\
    s_bull w'.1 = add_jobs (s_bull w.1) ids.

(** Every job the queues remember is kept as it is. *)
Definition jobs_kept (b b' : BS) : Prop :=
  forall q id j, bq_jobs b q !! id = Some j -> bq_jobs b' q !! id = Some j.

#[export] Instance jobs_kept_preorder : PreOrder jobs_kept.
Proof. split; [by intros b q id j|]. intros b1 b2 b3 H1 H2 q id j Hj. auto. Qed.

Lemma bq_add_kept b q id d : jobs_kept b (bq_add b q id d).
Proof.
  intros q' id' j Hj. rewrite bq_add_jobs. destruct (decide (q' = q)) as [->|]; [|done].
  destruct (bq_jobs b q !! id) eqn:E; [done|]. rewrite lookup_insert_ne; [done|congruence].
Qed.

Lemma bq_add_has b q id d : is_Some (bq_jobs (bq_add b q id d) q !! id).
Proof.
  rewrite bq_add_jobs, decide_True by done. destruct (bq_jobs b q !! id) eqn:E; [eauto|].
  rewrite lookup_insert_eq. eauto.
Qed.

Lemma add_jobs_has b ids id : id ∈ ids -> is_Some (bq_jobs (add_jobs b ids) webhook_delivery !! id).
Proof.
  intros Hin. unfold add_jobs. revert b. induction ids as [|x ids IH]; intros b; [by apply elem_of_nil in Hin|].
  cbn. assert (forall b b0 l, jobs_kept b b0 -> jobs_kept b (foldl (fun b id => bq_add b webhook_delivery id id) b0 l)) as Hkept.
  { clear -BullMQLaws0. intros b b0 l. revert b0. induction l as [|x l IH]; intros b0 H; cbn; [done|].
    apply IH. etrans; [done|]. apply bq_add_kept. }
  apply elem_of_cons in Hin as [->|Hin]; [|by apply IH].
  destruct (bq_add_has b webhook_delivery x x) as [j Hj].
  exists j. exact (Hkept (bq_add b webhook_delivery x x) _ ids (reflexivity _) webhook_delivery x j Hj).
Qed.

(** Adding a job: the queue grows by it, before or after the call fails. *)
Lemma wp_queue_add q name d id Q (w : world) :
  (forall n, s_now w.1 <= n ->
     Q (Returned tt) (with_bull (bq_add (s_bull w.1) q id d) (with_now n w.1), w.2) /\
     forall e, foreign e ->
       Q (Threw e) (with_now n w.1, w.2) /\
       Q (Threw e) (with_bull (bq_add (s_bull w.1) q id d) (with_now n w.1), w.2)) ->
  wp env (queue_add q name d id) Q w.
Proof.
  intros H. apply (wp_await env (QueueAdd q name d id)). intros r w1 (s1 & (n & Hn & ->) & Hw1).
  destruct (H n Hn) as [HR HT]. destruct r as [e|[]]; cbn in Hw1 |- *; [|by subst].
  destruct Hw1 as (_ & He & [->| ->]); by apply HT.
Qed.

(** The body of the sweep's loop, for one delivery. *)
Lemma wp_claim_one T t0 ws b id (w : world) :
  in_tx T t0 ws w -> s_bull w.1 = b ->
  wp env (queue_add webhook_delivery "deliver" id id ;;; client_query (UpdateEnqueued id) ;;; Ret tt)
    (fun o w' => match o with
     | Returned _ => in_tx T t0 (ws ++ [WEnqueued id t0]) w' /\ s_bull w'.1 = bq_add b webhook_delivery id id
     | _ => (exists ws', in_tx T t0 ws' w') /\ o <> Exited
     end) w.
Proof.
  intros Hin Hb. apply wp_bind, wp_queue_add. intros n Hn. split.
  - cbn. apply wp_bind. eapply wp_client_query; [exact Hin|..].
    + intros e w1 _ H1 _. split; [by exists ws|done].
    + intros [] ws1 w1 -> _ H1 (_ & Hb1 & _). cbn. apply wp_ret. split; [done|]. rewrite Hb1. cbn. by rewrite Hb.
  - intros e He. split; (split; [exists ws; exact Hin|done]).
Qed.

Lemma add_jobs_snoc b ids id : add_jobs b (ids ++ [id]) = bq_add (add_jobs b ids) webhook_delivery id id.
Proof. unfold add_jobs. by rewrite foldl_app. Qed.

Lemma wp_claimUnenqueued cfg limit (w : world) :
  idle w ->
  wp env (claimUnenqueued cfg limit) (fun o w' =>
    match o with
    | Returned n => idle w' /\ claimed cfg limit w w' n
    | Threw _ => idle w' /\ (tables_of w' = tables_of w \/ exists n, claimed cfg limit w w' n)
    | Exited => False
    end) w.
Proof.
  intros Hidle.
  set (G := fun (o : outcome exn Z) (ws : list write) (w' : world) =>
    o <> Exited /\ match o with
    | Returned n => exists t0 ids, s_now w.1 <= t0 /\ NoDup ids /\ n = Z.of_nat (length ids) /\ n <= Z.max 0 limit /\
        Forall (stuck cfg (tables_of w) t0) ids /\
        (n < limit -> forall id, stuck cfg (tables_of w) t0 id -> unlocked w id -> id ∈ ids) /\
        ws = map (fun id => WEnqueued id t0) ids /\
        s_bull w'.1 = add_jobs (s_bull w.1) ids
    | _ => True end).
  assert (wp env (claimUnenqueued cfg limit) (tx_outcome (tables_of w) G) w) as Htx.
  { apply wp_withTx; [|done|].
    - unfold G. intros o ws w1 w2 [Hne Ho] (_ & Hb & _). split; [done|]. destruct o; [|done..].
      by rewrite Hb.
    - intros t0 w1 Ht0 (_ & Hb1 & _ & Htid & _) Hp Hin.
      apply wp_bind. eapply wp_client_query; [exact Hin|..].
      { intros e w2 _ Hin2 _. exists []. by split. }
      intros ids ws1 w2 (-> & Hnd & Hlen & Hel & Hall) _ Hin2 (_ & Hb2 & _). cbn in Hin2, Hlen, Hel, Hall |- *.
      apply wp_bind.
      eapply wp_mono; [apply (wp_for_each_prefix env ids _
        (fun done w3 => in_tx (tables_of w) t0 (map (fun id => WEnqueued id t0) done) w3 /\
           s_bull w3.1 = add_jobs (s_bull w.1) done)
        (fun o w3 => (exists ws', in_tx (tables_of w) t0 ws' w3) /\ o <> Exited) [] ids)|].
      + done.
      + split; [done|]. cbn. congruence.
      + intros dn id rest w3 _ [Hin3 Hb3]. eapply wp_mono; [by apply wp_claim_one|].
        intros [[]|e|] w4; cbn; [|done|done]. intros [Hin4 Hb4]. rewrite map_app, add_jobs_snoc. by split.
      + intros [[]|e|] w3; cbn.
        * intros [Hin3 Hb3]. apply wp_ret. exists (map (fun id => WEnqueued id t0) ids). split; [done|]. split; [done|].
          exists t0, ids. repeat (split; [done|]). split; [|split; [|done]].
          -- apply Forall_forall. intros id Hid. rewrite Forall_forall in Hel.
             destruct (Hel id Hid) as (d & Hd & Hc & _). by exists d.
          -- intros Hlt id (d & Hd & Hc) Hu. apply (Hall Hlt). exists d. split; [done|]. split; [done|].
             rewrite Hp. intros (tid & Htid' & _). by apply (Hu tid).
        * intros [(ws' & Hin3) _]. by exists ws'.
        * by intros [_ []]. }
  eapply wp_mono; [exact Htx|]. intros [n|e|] w' Ho; cbn in Ho |- *.
  - destruct Ho as (Hi & ws & (_ & t0 & ids & H1 & H2 & H3 & H4 & H5 & H6 & -> & H7) & HT). split; [done|].
    exists t0, ids. auto 9.
  - destruct Ho as (Hi & [HT|(n & ws & (_ & t0 & ids & H1 & H2 & H3 & H4 & H5 & H6 & -> & H7) & HT)]); (split; [done|]);
      [by left|]. right. exists n, t0, ids. auto 9.
  - by destruct Ho as (ws & [] & _).
Qed.

(** How [enqueueDelivery] ends: the job is on the queue before the row is
    marked; a value means both. *)
Definition enqueued_post (id : string) (w : world) (o : outcome exn unit) (w' : world) : Prop :=
  idle w' /\ s_sent w'.1 = s_sent w.1 /\ s_redis w'.1 = s_redis w.1 /\ o <> Exited /\
  ((tables_of w' = tables_of w /\ o <> Returned tt /\
    (s_bull w'.1 = s_bull w.1 \/ s_bull w'.1 = bq_add (s_bull w.1) webhook_delivery id id)) \/
   exists t, s_now w.1 <= t /\ tables_of w' = apply_write (tables_of w) (WEnqueued id t) /\
     s_bull w'.1 = bq_add (s_bull w.1) webhook_delivery id id).

Lemma wp_enqueueDelivery id (w : world) : idle w -> wp env (enqueueDelivery id) (enqueued_post id w) w.
Proof.
  intros [Htx Hlk]. unfold enqueueDelivery. apply wp_bind, wp_queue_add. intros n Hn. split; cbn [after].
  - apply wp_bind, wp_pg. intros n1 Hn1. cbn in Hn1. split; cbn [after].
    + intros [] p' tx' (ws & (Hok & _) & -> & ->). cbn in Hok. subst ws. apply wp_ret.
      do 4 (split; [done|]). right. exists n1. split; [cbn in *; lia|done].
    + intros e p' tx' He [-> [->|([] & ws & (Hok & _) & -> & _)]].
      * do 4 (split; [done|]). left. split; [done|]. split; [done|]. by right.
      * cbn in Hok. subst ws. do 4 (split; [done|]). right. exists n1. split; [cbn in *; lia|done].
  - intros e He. split; (do 4 (split; [done|])); left; (split; [done|]); (split; [done|]); [by left|by right].
Qed.
End Claim.

(** ** Properties *)

(** A body for [withTx]: on the database it only sends statements. *)
Definition is_body (c : cmd) : Prop :=
  match c with Pg (CLIENT_QUERY _) => True | Pg _ => False | _ => True end.

Section Atomic.
Context {RS BS : Type} `{!RedisServer RS} `{!BullMQ BS}.
Abbreviation world := (world RS BS).

Lemma body_keeps_tx T t0 (w : world) c r w1 :
  is_body c -> (exists ws, in_tx T t0 ws w) -> env w c r w1 -> exists ws, in_tx T t0 ws w1.
Proof.
  intros Hc [ws [Htx HT]] (s1 & (n & Hn & ->) & H). destruct w as [s l]. cbn in *.
  unfold in_tx, tables_of in *. cbn in *.
  destruct c as [c|[| | | | |q|]|q nm d id|q ty|id ts tk| | |n'|rq| | | |sc|sc sha|lv m]; cbn in H; try done.
  2: { destruct r; cbn in H.
       - destruct H as (_ & _ & p' & tx' & [-> ->] & ->). by exists ws.
       - destruct H as (p' & tx' & (x & ws' & Hx & _ & -> & ->) & ->). rewrite Htx in Hx. injection Hx as <-.
         by exists (ws ++ ws'). }
  all: destruct r; cbn in H; repeat match goal with
    | H : _ /\ _ |- _ => destruct H
    | H : _ \/ _ |- _ => destruct H
    | H : exists _, _ |- _ => destruct H
    end; subst; try done; by exists ws.
Qed.

(** C12: transactions are all or nothing. When the body of [withTx] only
    sends statements, then however the call ends - a failing statement, an
    exception of the body, a connection lost at any point - no transaction
    and no row lock is left, and the tables are either untouched or carry
    all the writes of one complete run of the body; they carry them when
    the call returns, with the value of that run. *)
Theorem withTx_atomic {A} (fn : io A) (w w' : world) (o : outcome exn A) :
  issues is_body fn -> idle w -> exec env (withTx fn) w o w' ->
  idle w' /\ o <> Exited /\
  ((tables_of w' = tables_of w /\ forall a, o <> Returned a) \/
   exists a t0 w1 w2 ws,
     in_tx (tables_of w) t0 [] w1 /\ exec env fn w1 (Returned a) w2 /\ in_tx (tables_of w) t0 ws w2 /\
     tables_of w' = apply_writes (tables_of w) ws /\
     forall a', o = Returned a' -> a' = a).
Proof.
  intros Hb Hidle. revert o w'. apply wp_exec.
  set (G := fun (o : outcome exn A) (ws : list write) (_ : world) => o <> Exited /\ exists t0 w1 w2,
    in_tx (tables_of w) t0 [] w1 /\ exec env fn w1 o w2 /\ in_tx (tables_of w) t0 ws w2).
  assert (wp env (withTx fn) (tx_outcome (tables_of w) G) w) as H.
  { apply wp_withTx; [by unfold G|done|]. intros t0 w1 Ht0 Hr _ Hin. apply wp_exec. intros o w2 Hx.
    pose proof (wp_issues env is_body (fun w => exists ws, in_tx (tables_of w1) t0 ws w) fn w1) as Hi.
    destruct Hin as [Htx HT]. rewrite wp_exec in Hi.
    destruct (Hi (fun w c r w1' Hc Hj He => body_keeps_tx _ t0 w c r w1' Hc Hj He) Hb (ex_intro _ [] (conj Htx eq_refl)) o w2 Hx) as (Hne & ws & Hws).
    rewrite HT in Hws. exists ws. split; [done|]. split; [done|]. exists t0, w1, w2. split; [by split|]. by split. }
  eapply wp_mono; [exact H|]. intros [a|e|] w' Ho; cbn in Ho.
  - destruct Ho as (Hi & ws & (_ & t0 & w1 & w2 & H1 & H2 & H3) & HT). split; [done|]. split; [done|]. right.
    exists a, t0, w1, w2, ws. repeat (split; [done|]). congruence.
  - destruct Ho as (Hi & Ho). split; [done|]. split; [done|].
    destruct Ho as [HT|(a & ws & (_ & t0 & w1 & w2 & H1 & H2 & H3) & HT)]; [by left|]. right.
    exists a, t0, w1, w2, ws. repeat (split; [done|]). congruence.
  - by destruct Ho as (ws & [] & _).
Qed.
End Atomic.

Lemma demo_idle ms t ks jobs : idle (demo_world ms t ks jobs).
Proof. split; [done|]. intros k. apply not_elem_of_nil. Qed.

(** A database that loses the connection when a transition is inserted. *)
Definition lossy : oracle := {|
  o_random := 0; o_bytes := "token"; o_status := 200; o_body := "ok";
  o_fail := fun c => match c with
                     | Pg (CLIENT_QUERY (InsertTransition _ _ _ _ _)) => Some (JsError "Error" "Connection terminated")
                     | _ => None
                     end |}.

Lemma withTx_atomic_witness :
  let w := demo_world 1000 (demo_tables PENDING [] None) ∅ ∅ in
  let fn := client_query (UpdateStatus "d1" DELIVERING) ;;;
            client_query (InsertTransition "d1" (Some PENDING) DELIVERING "attempt_1" worker) ;;; Ret tt in
  let r := run_with (serve lossy) (withTx fn) w in
  r.1 = Threw (JsError "Error" "Connection terminated") /\ idle r.2.
Proof.
  intros w fn r. split; [vm_compute; reflexivity|].
  apply (withTx_atomic fn w r.2 r.1).
  - unfold fn. queries.
  - apply demo_idle.
  - exact (serve_exec lossy (withTx fn) w).
Defined.

(** The tables after a recorded attempt, and the tables before it. *)
Definition recorded (input : RecordAttemptInput) (t0 : Z) (T T' : tables) : Prop :=
  is_Some (deliveries T !! ra_deliveryId input) /\
  (forall a, a ∈ delivery_attempts T -> a_delivery_id a = ra_deliveryId input ->
     a_attempt_number a <> ra_attemptNumber input) /\
  exists next, opt_ts (ra_nextAttemptAt input) = Some next /\
  T' = {|
    endpoints := endpoints T; events := events T;
    deliveries := alter (set_attempted (ra_toStatus input) next t0) (ra_deliveryId input) (deliveries T);
    delivery_attempts := delivery_attempts T ++ [attempt_of_input input];
    delivery_transitions := delivery_transitions T ++
      [transition_at t0 (ra_deliveryId input) (Some (ra_fromStatus input)) (ra_toStatus input)
         (ra_reason input) worker] |}.

Lemma recordAttempt_writes_recorded T input t0 u ws :
  recordAttempt_writes T input t0 u ws -> recorded input t0 T (apply_writes T ws).
Proof. intros (H1 & H2 & next & Hn & ->). split; [done|]. split; [done|]. by exists next. Qed.

(** C11: an attempt is recorded atomically and at most once. Whatever fails,
    [recordAttempt] leaves the tables as they were, or with all three effects:
    the attempt row, the delivery's status, counter and next attempt, and the
    transition row; when it returns it is the latter. It never records a
    second attempt with a number the delivery already has, and touches
    nothing outside the database. *)
Theorem recordAttempt_atomic {RS BS : Type} `{!RedisServer RS} `{!BullMQ BS}
    (input : RecordAttemptInput) (w w' : world RS BS) (o : outcome exn unit) :
  idle w -> exec env (recordAttempt input) w o w' ->
  same_rest w w' /\ idle w' /\ o <> Exited /\
  ((tables_of w' = tables_of w /\ o <> Returned tt) \/
   exists t0, s_now w.1 <= t0 /\ recorded input t0 (tables_of w) (tables_of w')).
Proof.
  intros Hidle. revert o w'. apply wp_exec. eapply wp_mono; [by apply wp_recordAttempt|].
  intros [[]|e|] w' (Hr & Hi & Ho); [| |done]; (split; [done|]; split; [done|]; split; [done|]).
  - destruct Ho as (t0 & ws & Ht & Hw & ->). right. exists t0. split; [done|].
    by eapply recordAttempt_writes_recorded.
  - destruct Ho as [HT|(u & t0 & ws & Ht & Hw & ->)]; [by left|]. right. exists t0. split; [done|].
    by eapply recordAttempt_writes_recorded.
Qed.

Definition demo_input : RecordAttemptInput := {|
  ra_deliveryId := "d1"; ra_attemptNumber := 1; ra_outcome := SUCCESS; ra_httpStatus := Some 200;
  ra_responseBody := Some "ok"; ra_errorMessage := None; ra_latencyMs := 12; ra_startedAt := 1000;
  ra_finishedAt := 1012; ra_fromStatus := DELIVERING; ra_toStatus := DELIVERED; ra_reason := "http_200";
  ra_nextAttemptAt := None |}.

Lemma recordAttempt_atomic_witness :
  let w := demo_world 1000 (demo_tables DELIVERING [] None) ∅ ∅ in
  let r := run_with (serve reliable) (recordAttempt demo_input) w in
  r.1 = Returned tt /\ exists t0, recorded demo_input t0 (tables_of w) (tables_of r.2).
Proof.
  intros w r. assert (r.1 = Returned tt) as Ho by (vm_compute; reflexivity).
  split; [exact Ho|].
  destruct (recordAttempt_atomic demo_input w r.2 r.1 (demo_idle _ _ _ _)
    (serve_exec reliable (recordAttempt demo_input) w)) as (_ & _ & _ & [[_ H]|(t0 & _ & H)]).
  - destruct (H Ho).
  - exists t0. exact H.
Defined.

(** The tables after a manual retry of a delivery in the DLQ. *)
Definition requeued (id : string) (t0 : Z) (T : tables) : tables := {|
  endpoints := endpoints T; events := events T;
  deliveries := alter (set_status PENDING t0) id (deliveries T);
  delivery_attempts := delivery_attempts T;
  delivery_transitions := delivery_transitions T ++
    [transition_at t0 id (Some DLQ) PENDING "manual_retry" manual_retry] |}.

Definition retry_post {RS BS : Type} `{!RedisServer RS} `{!BullMQ BS} (id : string) (w : world RS BS)
    (o : outcome exn RetryFromDlqResult) (w' : world RS BS) : Prop :=
  idle w' /\
  match d_status <$> deliveries (tables_of w) !! id with
  | None => tables_of w' = tables_of w /\ (o = Returned NotFound \/ exists e, o = Threw e)
  | Some DLQ =>
      (exists t0, s_now w.1 <= t0 /\ tables_of w' = requeued id t0 (tables_of w) /\
         (o = Returned RetryOk \/ exists e, o = Threw e)) \/
      (tables_of w' = tables_of w /\ exists e, o = Threw e)
  | Some st => tables_of w' = tables_of w /\ (o = Returned (NotInDlq st) \/ exists e, o = Threw e)
  end.

Lemma wp_retry_post {RS BS : Type} `{!RedisServer RS} `{!BullMQ BS} (id : string) (w : world RS BS) :
  idle w -> wp env (retryFromDlq id) (fun o w' => same_rest w w' /\ retry_post id w o w') w.
Proof.
  intros Hidle. eapply wp_mono; [by apply wp_retryFromDlq|].
  intros [r|e|] w' (Hr & Hi & Ho); [| |done]; (split; [done|split; [done|]]); unfold retry_writes in Ho.
  - destruct Ho as (t0 & ws & Ht & Hw & HT).
    destruct (d_status <$> deliveries (tables_of w) !! id) as [[]|]; destruct Hw as [-> ->]; cbn in HT; eauto 6.
  - destruct (d_status <$> deliveries (tables_of w) !! id) as [[]|];
      destruct Ho as [HT|(r & t0 & ws & Ht & [-> ->] & HT)]; cbn in HT; eauto 6.
    left. exists t0. eauto.
Qed.

(** A manual retry answers by the delivery's status and acts only on the
    DLQ: an unknown id is reported as such, any other status is reported
    unchanged, and a delivery in the DLQ becomes PENDING with its transition
    in the same transaction, its attempts and its counter untouched. A call
    that throws has done nothing, or exactly that. *)
Theorem retryFromDlq_spec {RS BS : Type} `{!RedisServer RS} `{!BullMQ BS}
    (id : string) (w w' : world RS BS) (o : outcome exn RetryFromDlqResult) :
  idle w -> exec env (retryFromDlq id) w o w' -> retry_post id w o w'.
Proof.
  intros Hidle Hx. pose proof (wp_retry_post id w Hidle) as H. rewrite wp_exec in H. apply (H _ _ Hx).
Qed.

Lemma retryFromDlq_spec_witness :
  let w := demo_world 1000 (demo_tables DLQ [demo_attempt 1] None) ∅ ∅ in
  let r := run_with (serve reliable) (retryFromDlq "d1") w in
  r.1 = Returned RetryOk /\ exists t0, tables_of r.2 = requeued "d1" t0 (tables_of w).
Proof.
  intros w r. assert (r.1 = Returned RetryOk) as Ho by (vm_compute; reflexivity).
  split; [exact Ho|].
  destruct (retryFromDlq_spec "d1" w r.2 r.1 (demo_idle _ _ _ _)
    (serve_exec reliable (retryFromDlq "d1") w)) as [_ [(t0 & _ & H & _)|[_ [e He]]]].
  - exists t0. exact H.
  - rewrite He in Ho. discriminate Ho.
Defined.

Section ClaimSpec.
Context {RS BS : Type} `{!RedisServer RS} `{!BullMQ BS} `{!BullMQLaws BS}.
Abbreviation world := (world RS BS).

Lemma add_jobs_kept (b : BS) ids : jobs_kept b (add_jobs b ids).
Proof.
  unfold add_jobs. revert b. induction ids as [|x ids IH]; intros b; cbn; [done|].
  etrans; [apply bq_add_kept|apply IH].
Qed.

(** A sweep of ids the queue already remembers changes no job. *)
Lemma add_jobs_remembered (b : BS) ids :
  (forall id, id ∈ ids -> is_Some (bq_jobs b webhook_delivery !! id)) ->
  forall q, bq_jobs (add_jobs b ids) q = bq_jobs b q.
Proof.
  unfold add_jobs. revert b. induction ids as [|x ids IH]; intros b Hids q; cbn; [done|].
  assert (forall q', bq_jobs (bq_add b webhook_delivery x x) q' = bq_jobs b q') as Hx.
  { intros q'. rewrite bq_add_jobs. destruct (decide (q' = webhook_delivery)) as [->|]; [|done].
    destruct (Hids x) as [j Hj]; [left|]. by rewrite Hj. }
  rewrite IH; [apply Hx|]. intros id Hid. rewrite Hx. apply Hids. by right.
Qed.
End ClaimSpec.

(** C26: a sweep of the reconciler is safe and effective. It picks at most
    [limit] distinct deliveries, each pending or overdue and untouched for the
    grace period (never one that is being delivered, delivered or in the DLQ);
    when it picks fewer than [limit] it leaves none out but those whose row
    another session holds; on the tables it only marks them enqueued; every one of them then has a
    job on the delivery queue, and no job the queues remembered is changed. *)
Theorem claimUnenqueued_spec {RS BS : Type} `{!RedisServer RS} `{!BullMQ BS} `{!BullMQLaws BS}
    (cfg : Config) (limit n : Z) (w w' : world RS BS) :
  idle w -> exec env (claimUnenqueued cfg limit) w (Returned n) w' ->
  idle w' /\ exists t0 ids, s_now w.1 <= t0 /\ NoDup ids /\ n = Z.of_nat (length ids) /\ n <= Z.max 0 limit /\
    (forall id, id ∈ ids -> exists d, deliveries (tables_of w) !! id = Some d /\
       (d_status d = PENDING \/ d_status d = FAILED /\ exists next, d_next_attempt_at d = Some next /\ next < t0) /\
       d_updated_at d + 1000000 * RECONCILER_GRACE_SECONDS cfg < t0) /\
    (n < limit -> forall id, stuck cfg (tables_of w) t0 id -> unlocked w id -> id ∈ ids) /\
    tables_of w' = apply_writes (tables_of w) (map (fun id => WEnqueued id t0) ids) /\
    (forall id, id ∈ ids -> is_Some (bq_jobs (s_bull w'.1) webhook_delivery !! id)) /\
    jobs_kept (s_bull w.1) (s_bull w'.1).
Proof.
  intros Hidle Hx. pose proof (wp_claimUnenqueued cfg limit w Hidle) as H. rewrite wp_exec in H.
  destruct (H _ _ Hx) as (Hi & t0 & ids & H1 & H2 & H3 & H4 & H5 & H5' & H6 & H7). split; [done|].
  exists t0, ids. repeat (split; [done|]). split; [|split; [done|split; [done|split]]].
  - intros id Hid. rewrite Forall_forall in H5. destruct (H5 id Hid) as (d & Hd & Hc). exists d. split; [done|].
    unfold claimable in Hc. apply andb_true_iff in Hc as [Hc Hg]. split; [|lia].
    apply orb_true_iff in Hc as [Hc|Hc]; [left; by apply bool_decide_eq_true in Hc|].
    apply andb_true_iff in Hc as [Hs Hn]. right. split; [by apply bool_decide_eq_true in Hs|].
    destruct (d_next_attempt_at d) as [next|]; [|done]. exists next. split; [done|lia].
  - intros id Hid. rewrite H7. by apply add_jobs_has.
  - rewrite H7. apply add_jobs_kept.
Qed.

Definition overdue_world : mem_world :=
  demo_world 100000 (demo_tables FAILED [demo_attempt 1] (Some 5000)) ∅ ∅.

Lemma claimUnenqueued_spec_witness :
  let r := run_with (serve reliable) (claimUnenqueued default_config 500) overdue_world in
  r.1 = Returned 1 /\ idle r.2.
Proof.
  intros r. assert (r.1 = Returned 1) as Ho by (vm_compute; reflexivity). split; [exact Ho|].
  pose proof (serve_exec reliable (claimUnenqueued default_config 500) overdue_world) as Hx.
  change (exec env (claimUnenqueued default_config 500) overdue_world r.1 r.2) in Hx. rewrite Ho in Hx.
  exact (proj1 (claimUnenqueued_spec default_config 500 1 overdue_world r.2 (demo_idle _ _ _ _) Hx)).
Defined.
