(* ===== verification/Frames.v ===== *)
(** * What a call leaves unchanged

    The frame relation [db_same] between two worlds, and its rules: calls that
    touch neither the database nor the wire ([quiet]), and the queries of the
    read API ([wp_select]). *)

From S2P Require Import Prelude Async Config Json Tables Queries Schema Redis Services Concrete Scripts Repo.
From Stdlib Require Import ZArith Lia String.
From stdpp Require Import prelude strings gmap.

Open Scope Z_scope.
Open Scope async_scope.

(** A command that is neither on the database nor the sending of a request. *)
Definition quiet (c : cmd) : Prop :=
  match c with Pg _ | HttpSend _ => False | _ => True end.

Ltac quiet_tac := issues_tac ltac:(exact I).

Section Quiet.
Context {RS BS : Type} `{!RedisServer RS} `{!RedisLaws RS} `{!BullMQ BS}.
Abbreviation world := (world RS BS).

(** The same database, session and requests, at the same time or later. *)
Definition db_same (w w' : world) : Prop :=
  s_pg w'.1 = s_pg w.1 /\ s_sent w'.1 = s_sent w.1 /\ l_tx w'.2 = l_tx w.2 /\ l_tid w'.2 = l_tid w.2 /\
  s_now w.1 <= s_now w'.1.

#[export] Instance db_same_preorder : PreOrder db_same.
Proof.
  split; [by repeat split|]. intros w1 w2 w3 (?&?&?&?&?) (?&?&?&?&?).
  split; [congruence|]. split; [congruence|]. split; [congruence|]. split; [congruence|]. lia.
Qed.

Lemma quiet_db_same (w : world) c r w1 : quiet c -> env w c r w1 -> db_same w w1.
Proof.
  intros Hc (s1 & (n & Hn & ->) & H). destruct w as [s l]. cbn [fst snd] in *.
  destruct c as [c|c|q nm d id|q ty|id ts tk| | |n'|rq| | | |sc|sc sha|lv m]; try done;
  destruct r; cbn in H; repeat match goal with
    | H : _ /\ _ |- _ => destruct H
    | H : _ \/ _ |- _ => destruct H
    | H : exists _, _ |- _ => destruct H
    end; subst; try done; by repeat split.
Qed.

Lemma wp_quiet {A} (p : io A) (w : world) :
  issues quiet p -> wp env p (fun o w' => o <> Exited /\ db_same w w') w.
Proof.
  intros Hp. apply (wp_issues env quiet (fun w' => db_same w w')); [|done|done].
  intros w1 c r w2 Hc H1 He. etrans; [done|by eapply quiet_db_same].
Qed.

(** A quiet call, then the rest, from a world that looks the same. *)
Lemma wp_quiet_bind {A B} (p : io A) (f : A -> io B) Q (w : world) :
  issues quiet p ->
  (forall w1 e, db_same w w1 -> Q (Threw e) w1) ->
  (forall w1 a, db_same w w1 -> wp env (f a) Q w1) ->
  wp env (bind p f) Q w.
Proof.
  intros Hp He Hf. apply wp_bind. eapply wp_mono; [by apply wp_quiet|].
  intros [a|e|] w1 [Hne Hd]; cbn; [by apply Hf|by apply He|done].
Qed.

Lemma db_same_idle (w w' : world) : db_same w w' -> idle w -> idle w'.
Proof. intros (Hp & _ & Htx & Htid & _) [H1 H2]. split; [congruence|]. intros k. rewrite Hp, Htid. apply H2. Qed.

Lemma db_same_tables (w w' : world) : db_same w w' -> tables_of w' = tables_of w.
Proof. intros (Hp & _). unfold tables_of. by rewrite Hp. Qed.

Lemma db_same_sent (w w' : world) : db_same w w' -> s_sent w'.1 = s_sent w.1.
Proof. by intros (_ & H & _). Qed.

(** A query of the read API changes nothing, and answers on the tables as they
    are when it runs. *)
Lemma wp_select (q : query) Q (w : world) :
  (forall r w1, db_same w w1 -> query_ok (s_now w1.1) (tables_of w) q r -> query_violates q = false -> Q (Returned r) w1) ->
  (forall e w1, db_same w w1 -> foreign e -> Q (Threw e) w1) ->
  wp env (pool_query (Select q)) Q w.
Proof.
  intros HR HT. apply wp_pg. intros n Hn. destruct w as [s l]. cbn [fst snd] in *. split.
  - intros r p' tx' (ws & ((-> & Hq) & Hv & _) & -> & ->). apply HR; [|done|].
    + repeat split; try (cbn in *; lia); cbn; by destruct (s_pg s).
    + cbn in Hv. by destruct (query_violates q).
  - intros e p' tx' He Hf. apply HT; [|done].
    destruct Hf as [-> [->|(r & (ws & ((-> & _) & _ & _) & -> & _))]];
      repeat split; try (cbn in *; lia); cbn; by destruct (s_pg s).
Qed.

(** [w'] is [w] with the writes [ws] committed, now or later. *)
Definition wrote (ws : list write) (w w' : world) : Prop :=
  tables_of w' = apply_writes (tables_of w) ws /\ pg_locks (s_pg w'.1) = pg_locks (s_pg w.1) /\
  s_sent w'.1 = s_sent w.1 /\ l_tx w'.2 = l_tx w.2 /\ l_tid w'.2 = l_tid w.2 /\ s_now w.1 <= s_now w'.1.

Lemma db_same_wrote (w w' : world) : db_same w w' -> wrote [] w w'.
Proof. intros (Hp & Hs & H1 & H2 & H3). unfold wrote, tables_of. by rewrite Hp. Qed.

Lemma wrote_after ws (w w1 w' : world) : db_same w w1 -> wrote ws w1 w' -> wrote ws w w'.
Proof.
  intros H (H1 & H2 & H3 & H4 & H5 & H6). pose proof (db_same_tables _ _ H) as HT. destruct H as (Hp & Hs & Htx & Htid & Hn).
  unfold wrote. rewrite H1, HT. split; [done|]. split; [congruence|]. split; [congruence|]. split; [congruence|].
  split; [congruence|lia].
Qed.

Lemma wrote_idle ws (w w' : world) : wrote ws w w' -> idle w -> idle w'.
Proof. intros (_ & Hl & _ & Htx & Htid & _) [H1 H2]. split; [congruence|]. intros k. rewrite Hl, Htid. apply H2. Qed.

(** A statement on its own: it answers and writes; a call that throws has done
    the same or nothing. *)
Lemma wp_pool_write (q : stmt) Q (w : world) :
  (forall r ws t w1, s_now w.1 <= t -> stmt_ok t (tables_of w) (busy (s_pg w.1) (l_tid w.2)) q r ws ->
     wrote ws w w1 -> Q (Returned r) w1) ->
  (forall e ws w1, foreign e -> wrote ws w w1 -> ws = [] \/ (exists r t, s_now w.1 <= t /\
     stmt_ok t (tables_of w) (busy (s_pg w.1) (l_tid w.2)) q r ws) -> Q (Threw e) w1) ->
  wp env (pool_query q) Q w.
Proof.
  intros HR HT. apply wp_pg. intros n Hn. destruct w as [s l]. cbn [fst snd] in *. split.
  - intros r p' tx' (ws & (Hok & _) & -> & ->). eapply HR; [exact Hn|exact Hok|].
    repeat split; try (cbn in *; lia).
  - intros e p' tx' He [-> [->|(r & (ws & (Hok & _) & -> & _))]].
    + apply (HT e []); [done| |by left]. repeat split; cbn in *; lia.
    + apply (HT e ws); [done| |right; eauto]. repeat split; cbn in *; lia.
Qed.
(** What a call does to the clock, the database and the transaction. *)
Lemma env_pg (s s' : shared RS BS) l l' c r :
  env (s, l) c r (s', l') ->
  l_tid l' = l_tid l /\
  match c return exn + resp c -> Prop with
  | Pg c => fun r => exists n p' tx', s_now s <= n /\ s_pg s' = p' /\ l_tx l' = tx' /\
      match r with
      | inr r => pg_answers n (s_pg s) (l_tid l) (l_tx l) c r p' tx'
      | inl _ => pg_fails n (s_pg s) (l_tid l) (l_tx l) c p' tx'
      end
  | _ => fun _ => s_pg s' = s_pg s /\ l_tx l' = l_tx l
  end r.
Proof.
  intros (s1 & (n & Hn & ->) & He). cbn in Hn.
  destruct c as [c|c|q nm d i|q ty|i ts tk| | |m|rq| | | |sc|sc sha|lv m].
  2: { destruct r as [e|r]; cbn in He.
    - destruct He as [_ (_ & p' & tx' & Hp & [= -> ->])]. split; [done|]. by exists n, p', tx'.
    - destruct He as (p' & tx' & Hp & [= -> ->]). split; [done|]. by exists n, p', tx'. }
  all: destruct r as [e|r]; cbn in He;
    repeat match goal with
    | H : _ /\ _ |- _ => destruct H
    | H : _ \/ _ |- _ => destruct H
    | H : exists _, _ |- _ => destruct H
    | H : (_, _) = (_, _) |- _ => injection H as -> ->
    end; done.
Qed.
End Quiet.
