(* ===== verification/Crash.v ===== *)
(** * A process that dies in the middle of a run

    [cut p w w']: a run of [p] from [w] that ends after some of its calls,
    because its process dies; the server rolls its transaction back. What such
    a run leaves on the tables and on the wire is what a whole run leaves whose
    later calls all fail ([cut_exec]), so that the theorems about whole runs
    say what a dead process has done. *)

From S2P Require Import Prelude Async Config Json Tables Queries Schema Redis Services Repo Frames.
From Stdlib Require Import ZArith Lia String.
From stdpp Require Import prelude strings gmap.

Open Scope Z_scope.

Section Crash.
Context {RS BS : Type} `{!RedisServer RS} `{!BullMQ BS}.
Abbreviation world := (world RS BS).

Definition killed (w : world) : world := (with_pg (committed (s_pg w.1) (l_tid w.2) []) w.1, with_tx None w.2).

Lemma killed_idle w : idle (killed w).
Proof.
  split; [done|]. intros k. cbn. unfold release_locks. rewrite list_elem_of_filter. by intros [H _].
Qed.

Fixpoint cut {A} (p : io A) (w w' : world) : Prop :=
  w' = killed w \/
  match p with
  | Vis c k => exists r w1, env w c r w1 /\ cut (k r) w1 w'
  | _ => False
  end.

(** The run of an interpreter, cut after [n] calls. *)
Fixpoint cut_after (h : world -> forall c : cmd, (exn + resp c) * world) {A} (n : nat) (p : io A) (w : world) : world :=
  match n, p with
  | S n, Vis c k => let x := h w c in cut_after h n (k x.1) x.2
  | _, _ => killed w
  end.

Lemma cut_after_cut h {A} n (p : io A) w : handles env h -> cut p w (cut_after h n p w).
Proof.
  intros Hh. revert p w. induction n as [|n IH]; intros p w; [destruct p; by left|].
  destruct p as [a|e| |c k]; [by left..|]. right. specialize (Hh w c). cbn. destruct (h w c) as [r w1].
  exists r, w1. split; [exact Hh|apply IH].
Qed.

(** A call on a service can fail and leave the tables and the wire alone; the
    others can be answered and leave the tables alone. *)
Lemma call_of_the_dead (w : world) (c : cmd) :
  exists r w1, env w c r w1 /\ tables_of w1 = tables_of w /\ s_sent w.1 `prefix_of` s_sent w1.1.
Proof.
  destruct w as [s l]. assert (elapse s s) as Hs by (exists (s_now s); split; [lia|by destruct s]).
  set (e := JsError "Error" "Connection is closed").
  assert (forall w1 r, match r with inl e => env_throws (s, l) c e w1 | inr x => env_answers (s, l) c x w1 end ->
    tables_of w1 = tables_of (s, l) -> s_sent s `prefix_of` s_sent w1.1 ->
    exists r w1, env (s, l) c r w1 /\ tables_of w1 = tables_of (s, l) /\ s_sent (s, l).1 `prefix_of` s_sent w1.1) as Hc.
  { intros w1 r H1 H2 H3. exists r, w1. split; [exists s; split; [exact Hs|exact H1]|done]. }
  destruct c as [c|c|q nm d i|q ty|i t tk| |n|m|rq| | | |sc|sc sha|lv m].
  - by apply (Hc (s, l) (inl e)); [split; [done|right]; split; [done|]; split; [done|by left]|..].
  - assert (forall p' tx', pg_tables p' = pg_tables (s_pg s) -> pg_fails (s_now s) (s_pg s) (l_tid l) (l_tx l) c p' tx' ->
      infallible (Pg c) = false -> exists r w1, env (s, l) (Pg c) r w1 /\ tables_of w1 = tables_of (s, l) /\ s_sent (s, l).1 `prefix_of` s_sent w1.1) as Hp.
    { intros p' tx' HT Hf Hi. apply (Hc (with_pg p' s, with_tx tx' l) (inl e)); [|exact HT|done].
      split; [exact Hi|]. split; [done|]. by exists p', tx'. }
    destruct c as [| | | | |q|q].
    + by apply (Hp (s_pg s) (l_tx l)).
    + apply (Hc (s, l) (inr tt)); [|done|done]. exists (s_pg s), (l_tx l). split; [done|]. by destruct s, l.
    + by apply (Hp (s_pg s) None).
    + apply (Hp (committed (s_pg s) (l_tid l) []) None); [done| |done]. split; [by left|done].
    + by apply (Hp (committed (s_pg s) (l_tid l) []) None).
    + by apply (Hp (s_pg s) (l_tx l)).
    + apply (Hp (s_pg s) (l_tx l)); [done| |done]. split; [done|by left].
  - apply (Hc (s, l) (inl e)); [split; [done|]; split; [done|by left]|done|done].
  - by apply (Hc (s, l) (inl e)).
  - apply (Hc (s, l) (inl e)); [split; [done|]; split; [done|by left]|done|done].
  - by apply (Hc (s, l) (inr (now_ms s))).
  - by apply (Hc (s, l) (inr 0)).
  - by apply (Hc (s, l) (inr "")).
  - apply (Hc (with_sent (s_sent s ++ [rq]) s, l) (inr tt)); [done|done|]. by apply prefix_app_r.
  - by apply (Hc (s, l) (inl e)).
  - by apply (Hc (s, l) (inl e)).
  - by apply (Hc (s, l) (inr tt)).
  - by apply (Hc (s, l) (inr (l_sha l sc))).
  - by apply (Hc (s, with_sha sc sha l) (inr tt)).
  - by apply (Hc (s, l) (inr tt)).
Qed.

Lemma dead_run {A} (p : io A) (w : world) :
  exists o w', exec env p w o w' /\ tables_of w' = tables_of w /\ s_sent w.1 `prefix_of` s_sent w'.1.
Proof.
  revert w. induction p as [a|e| |c k IH]; intros w; [by eexists _, w..|].
  destruct (call_of_the_dead w c) as (r & w1 & He & HT & Hs). destruct (IH r w1) as (o & w' & Hx & HT' & Hs').
  exists o, w'. split; [by exists r, w1|]. split; [congruence|by etrans].
Qed.

(** What has been sent stays sent. *)
Lemma env_sent (w : world) c r w' : env w c r w' -> s_sent w.1 `prefix_of` s_sent w'.1.
Proof.
  destruct w as [s l]. intros (s1 & (n & _ & ->) & H). destruct r as [e|x]; cbn in H.
  - destruct H as [_ H]. destruct c; cbn in H; naive_solver.
  - destruct c; cbn in H; try (destruct H as (? & ? & _ & ->)); naive_solver (eauto using prefix_app_r).
Qed.

Lemma cut_grows {A} (p : io A) (w w' : world) : cut p w w' -> s_sent w.1 `prefix_of` s_sent w'.1.
Proof.
  revert w. induction p as [a|e| |c k IH]; intros w; cbn [cut].
  1-3: by intros [-> |[]].
  intros [-> |(r & w1 & He & Hc)]; [done|]. etrans; [by eapply env_sent|]. by eapply IH.
Qed.

(** A run that is cut has done to the tables what a whole run may do, and sent
    no more. *)
Lemma cut_exec {A} (p : io A) (w w' : world) :
  cut p w w' -> idle w' /\ exists o w1, exec env p w o w1 /\ tables_of w1 = tables_of w' /\ s_sent w'.1 `prefix_of` s_sent w1.1.
Proof.
  revert w. induction p as [a|e| |c k IH]; intros w; cbn [cut].
  1-3: intros [-> |[]]; split; [apply killed_idle|]; by eexists _, w.
  intros [-> |(r & w1 & He & Hc)].
  - split; [apply killed_idle|]. destruct (dead_run (Vis c k) w) as (o & w1 & Hx & HT & Hs). by exists o, w1.
  - destruct (IH r w1 Hc) as (Hi & o & w2 & Hx & H2). split; [done|]. exists o, w2. split; [by exists r, w1|done].
Qed.
End Crash.
