(* ===== verification/Ingest.v ===== *)
(** * Ingestion

    [src/src/db/ingest.ts]: an event is stored once per client and
    idempotency key, together with its delivery, in one transaction behind a
    Redis cache of the keys already seen. *)

From S2P Require Import Prelude Async Json Config Tables Queries Schema Redis Services Concrete Scripts Repo.
From Stdlib Require Import ZArith Lia String.
From stdpp Require Import prelude strings gmap.

Open Scope Z_scope.
Open Scope async_scope.

Record IngestParams := {
  client_id : string; idempotency_key : string; event_type : string;
  payload : json; endpoint_id : string
}.

Record IngestResult := {
  event_id : string; delivery_id : string; delivery_status : status; is_new : bool
}.

Definition idemRedisKey (client_id idempotency_key : string) : string :=
  "wh:idem:" ++s client_id ++s ":" ++s idempotency_key.

(** The access [row.id] on [undefined]. *)
Definition TypeError : exn := JsError "TypeError" "Cannot read properties of undefined (reading 'id')".

(** [if (cachedEventId)] and the read behind it. *)
Definition cached_result (cachedEventId : option string) : io (option IngestResult) :=
  match cachedEventId with
  | None | Some "" => Ret None
  | Some ev =>
      let* rows := pool_query (SelectDeliveryOfEvent ev) in
      match (rows : list (string * status)) with
      | [] => Ret None
      | (d, st) :: _ => Ret (Some {| event_id := ev; delivery_id := d; delivery_status := st; is_new := false |})
      end
  end.

(** The statements between BEGIN and COMMIT. *)
Definition ingest_statements (p : IngestParams) : io IngestResult :=
  let* inserted := client_query (InsertEvent (client_id p) (idempotency_key p) (event_type p) (payload p)) in
  match (inserted : list string) with
  | eventId :: _ =>
      let* deliveryInsert := client_query (InsertDelivery eventId (endpoint_id p)) in
      match (deliveryInsert : list string) with
      | [] => Throw TypeError
      | deliveryId :: _ =>
          client_query (InsertTransition deliveryId None PENDING "created" api) ;;;
          Ret {| event_id := eventId; delivery_id := deliveryId; delivery_status := PENDING; is_new := true |}
      end
  | [] =>
      let* existing := client_query (SelectEvent (client_id p) (idempotency_key p)) in
      match (existing : list string) with
      | [] => Throw TypeError
      | eventId :: _ =>
          let* existingDelivery := client_query (SelectDeliveryOfEvent eventId) in
          match (existingDelivery : list (string * status)) with
          | [] => Throw TypeError
          | (d, st) :: _ =>
              Ret {| event_id := eventId; delivery_id := d; delivery_status := st; is_new := false |}
          end
      end
  end.

Definition ingestEvent (cfg : Config) (p : IngestParams) : io IngestResult :=
  let key := idemRedisKey (client_id p) (idempotency_key p) in
  let* cachedEventId := redis (GET key) in
  let* hit := cached_result cachedEventId in
  match hit with
  | Some r => Ret r
  | None =>
      pg CONNECT ;;;
      try_finally
        (try_catch
          (pg BEGIN ;;;
           let* r := ingest_statements p in
           pg COMMIT ;;;
           detach (redis (SET key (event_id r) (Some (EX (IDEM_TTL_SECONDS cfg))) false)) ;;;
           Ret r)
          (fun err => pg ROLLBACK ;;; Throw err))
        (pg CLIENT_RELEASE)
  end.

(** ** What an ingestion does to the tables *)

Definition new_event (p : IngestParams) (t0 : Z) : event_row := {|
  ev_client_id := client_id p; ev_idempotency_key := idempotency_key p;
  ev_event_type := event_type p; ev_payload := payload p; ev_received_at := t0 |}.

(** The client has used the key for the event [ev]. *)
Definition event_known (T : tables) (client key ev : string) : Prop :=
  exists e, events T !! ev = Some e /\ same_event_key client key e = true.

(** [d] is a delivery of the event, in the state [st]. *)
Definition delivery_of (T : tables) (ev d : string) (st : status) : Prop :=
  exists row, deliveries T !! d = Some row /\ d_event_id row = ev /\ d_status row = st.

(** A new event, its delivery and its transition. *)
Definition created (T : tables) (p : IngestParams) (r : IngestResult) (ws : list write) : Prop :=
  is_new r = true /\ delivery_status r = PENDING /\
  (forall ev, ~ event_known T (client_id p) (idempotency_key p) ev) /\
  events T !! event_id r = None /\ deliveries T !! delivery_id r = None /\
  is_Some (endpoints T !! endpoint_id p) /\
  exists t0, ws = [WEvent (event_id r) (new_event p t0);
                   WDelivery (delivery_id r) (new_delivery (event_id r) (endpoint_id p) t0);
                   WTransition (transition_at t0 (delivery_id r) None PENDING "created" api)].

(** The event and the delivery of an earlier request with the same key. *)
Definition duplicate (T : tables) (p : IngestParams) (r : IngestResult) : Prop :=
  is_new r = false /\ event_known T (client_id p) (idempotency_key p) (event_id r) /\
  delivery_of T (event_id r) (delivery_id r) (delivery_status r).

Definition ingest_writes (T : tables) (p : IngestParams) (r : IngestResult) (ws : list write) : Prop :=
  created T p r ws \/ (duplicate T p r /\ ws = []).

Section Wp.
Context {RS BS : Type} `{!RedisServer RS} `{!RedisLaws RS} `{!BullMQ BS}.
Abbreviation world := (world RS BS).

Definition ingest_G (T : tables) (p : IngestParams) (o : outcome exn IngestResult) (ws : list write)
    (_ : world) : Prop :=
  match o with Returned r => ingest_writes T p r ws | Threw _ => True | Exited => False end.

Lemma wp_ingest_statements p T t0 (w : world) :
  in_tx T t0 [] w ->
  wp env (ingest_statements p) (fun o w2 => exists ws, in_tx T t0 ws w2 /\ ingest_G T p o ws w2) w.
Proof.
  intros Hin. unfold ingest_statements.
  query_step. intros ids ws1 w1 Hok _ Hin1 _. cbn in Hok.
  destruct Hok as [(Hknown & -> & ->)|(Hnone & ev & Hev & -> & ->)]; cbn in Hin1 |- *.
  - query_step. intros evs ws2 w2 (-> & _ & Hevs) _ Hin2 _. cbn in Hin2, Hevs |- *.
    destruct evs as [|ev evs]; [apply wp_throw; by exists []|].
    destruct (Hevs ev) as [Hev _]. specialize (Hev ltac:(by left)).
    query_step. intros ds ws3 w3 (-> & Hds) _ Hin3 _. cbn in Hin3, Hds |- *.
    destruct Hds as [[-> _]|(d & row & -> & Hd & He)]; [apply wp_throw; by exists []|].
    apply wp_ret. exists []. split; [done|]. right. split; [|done]. split; [done|]. split; [done|]. by exists row.
  - query_step. intros ds ws2 w2 (d & Hd & -> & ->) Hv2 Hin2 _. cbn in Hin2, Hd, Hv2 |- *.
    query_step. intros [] ws3 w3 -> _ Hin3 _. cbn in Hin3. apply wp_ret. eexists. split; [exact Hin3|].
    left. split; [done|]. split; [done|]. split; [|split; [done|split; [done|split; [|by exists t0]]]].
    + intros ev' (e & He & Hs). rewrite (Hnone _ _ He) in Hs. done.
    + destruct (endpoints T !! endpoint_id p); [eauto|]. destruct Hv2. auto.
Qed.

(** A detached call on Redis: nothing but Redis and the clock changes. *)
Lemma wp_detach_redis c (w : world) :
  wp env (detach (redis c)) (fun o w' => o = Returned tt /\
    exists n st, s_now w.1 <= n /\ w' = (with_redis st (with_now n w.1), w.2)) w.
Proof.
  unfold detach. apply wp_try_catch, wp_bind, wp_redis_env. intros n st Hn t ks w'. split.
  - intros r _ _. apply wp_ret. eauto.
  - intros e _ _. apply wp_ret. eauto.
Qed.

(** The transaction of an ingestion. *)
Lemma wp_ingest_tx cfg p T (w : world) :
  idle w -> tables_of w = T ->
  wp env (pg CONNECT ;;;
    try_finally
      (try_catch
        (pg BEGIN ;;;
         let* r := ingest_statements p in
         pg COMMIT ;;;
         detach (redis (SET (idemRedisKey (client_id p) (idempotency_key p)) (event_id r)
                   (Some (EX (IDEM_TTL_SECONDS cfg))) false)) ;;;
         Ret r)
        (fun err => pg ROLLBACK ;;; Throw err))
      (pg CLIENT_RELEASE)) (tx_outcome T (ingest_G T p)) w.
Proof.
  intros Hidle HT. apply wp_bind, wp_pg. intros n Hn. split; cbn; last first.
  { intros e p' tx' _ [-> ->]. split; [|by left]. by destruct w as [[] []]. }
  intros _ p' tx' [-> ->]. apply wp_tx_handlers; [done|].
  apply wp_bind, wp_pg. intros n1 Hn1. split; cbn; [|intros e p' tx' _ [-> ->]; by left].
  intros _ p' tx' [-> ->]. apply wp_bind. eapply wp_mono; [by apply (wp_ingest_statements p T n1)|].
  intros [r|e|] w2 (ws & [Htx HT2] & Hg); cbn; [|by left|done].
  apply wp_bind, wp_pg. intros n2 Hn2. rewrite Htx. split; cbn; last first.
  { intros e p2 tx2 _ [[-> | ->] ->]; [by left|]. right. exists r, ws. split; [done|].
    unfold tables_of in *. cbn. by rewrite HT2. }
  intros _ p2 tx2 [-> ->]. apply wp_bind.
  eapply wp_mono; [apply wp_detach_redis|]. intros o w3 (-> & n3 & st & Hn3 & ->). cbn. apply wp_ret.
  split; [apply committed_idle|]. exists ws. split; [done|]. unfold tables_of in *. cbn. by rewrite HT2.
Qed.

(** The cache answers [ev] for the key at some moment from now on. *)
Definition cached (w : world) (key ev : string) : Prop :=
  exists n, s_now w.1 <= n /\ exists d, rs_keys (s_redis w.1) (ms_of_ts n) !! key = Some {| r_val := RStr ev; r_deadline := d |}.

Lemma wp_cached_result c (w : world) :
  idle w ->
  wp env (cached_result c) (fun o w' => idle w' /\ tables_of w' = tables_of w /\
    match o with
    | Returned (Some r) => c = Some (event_id r) /\ is_new r = false /\
        delivery_of (tables_of w) (event_id r) (delivery_id r) (delivery_status r)
    | Exited => False
    | _ => True
    end) w.
Proof.
  intros Hi. unfold cached_result. destruct c as [[|a s]|]; [by apply wp_ret| |by apply wp_ret].
  apply wp_bind, wp_pg. intros n Hn. split.
  - intros rows p' tx' (ws & ((-> & Hr) & _ & _) & -> & ->). cbn in Hr |- *.
    destruct Hr as [[-> _]|(d & row & -> & Hd & He)]; apply wp_ret; (split; [by destruct w as [[] []]|split; [done|]]); [done|].
    cbn. split; [done|]. split; [done|]. by exists row.
  - intros e p' tx' He [-> [->|(rows & (ws & ((-> & Hr) & _ & _) & -> & _))]]; cbn;
      (split; [by destruct w as [[] []]|by split]).
Qed.

(** How an ingestion ends. *)
Definition ingest_post (p : IngestParams) (w : world) (o : outcome exn IngestResult) (w' : world) : Prop :=
  idle w' /\ o <> Exited /\
  ((tables_of w' = tables_of w /\
    match o with
    | Returned r => duplicate (tables_of w) p r \/
        (is_new r = false /\ cached w (idemRedisKey (client_id p) (idempotency_key p)) (event_id r) /\
         delivery_of (tables_of w) (event_id r) (delivery_id r) (delivery_status r))
    | _ => True
    end) \/
   exists r ws, created (tables_of w) p r ws /\ tables_of w' = apply_writes (tables_of w) ws /\
     forall r', o = Returned r' -> r' = r).

Lemma wp_ingestEvent cfg p (w : world) : idle w -> wp env (ingestEvent cfg p) (ingest_post p w) w.
Proof.
  intros Hidle. unfold ingestEvent. apply wp_bind, wp_redis_env. intros n st Hn t ks w1.
  assert (idle w1 /\ tables_of w1 = tables_of w) as [Hi1 HT1] by (by destruct w as [[] []]).
  split; cbn; [|intros e _ _; split; [done|]; split; [done|]; left; by split].
  intros c Hc _. apply wp_bind. eapply wp_mono; [by apply wp_cached_result|].
  intros [[r|]|e|] w2 (Hi2 & HT2 & Ho); cbn; [| |split; [done|]; split; [done|]; left; split; [congruence|done]|done].
  - destruct Ho as (-> & Hnew & Hd). apply wp_ret. split; [done|]. split; [done|]. left. split; [congruence|].
    right. split; [done|]. split; [|by rewrite <- HT1]. exists n. split; [done|].
    fold t ks. cbn in Hc. destruct (ks !! _) as [[[v|h] d]|]; [injection Hc as <-; by exists d|done|done].
  - eapply wp_mono; [apply (wp_ingest_tx cfg p (tables_of w)); [done|congruence]|].
    intros [r|e|] w3 Ho3; cbn in Ho3; [| |by destruct Ho3].
    + destruct Ho3 as (Hi3 & ws & [Hw|[Hw ->]] & HT3); (split; [done|]; split; [done|]).
      * right. exists r, ws. repeat (split; [done|]). congruence.
      * left. split; [done|]. by left.
    + destruct Ho3 as (Hi3 & [HT3|(r & ws & [Hw|[Hw ->]] & HT3)]); (split; [done|]; split; [done|]).
      * left. by split.
      * right. exists r, ws. repeat (split; [done|]). congruence.
      * left. by split.
Qed.
End Wp.

(** ** Properties *)

(** C7: how an ingestion ends. The tables are untouched, or they gain
    exactly one new event, its PENDING delivery to the endpoint and the
    transition, all together and only when the client had not used the key. A
    value reported as new describes what was created; one reported as a
    duplicate names an existing delivery of the event found under the client's
    key, or of the event the cache names. No transaction or row lock is left,
    whatever fails. *)
Theorem ingest_spec {RS BS : Type} `{!RedisServer RS} `{!RedisLaws RS} `{!BullMQ BS}
    (cfg : Config) (p : IngestParams) (w w' : world RS BS) (o : outcome exn IngestResult) :
  idle w -> exec env (ingestEvent cfg p) w o w' -> ingest_post p w o w'.
Proof. intros Hi. revert o w'. apply wp_exec. by apply wp_ingestEvent. Qed.

Definition demo_params (key : string) : IngestParams := {|
  client_id := "c1"; idempotency_key := key; event_type := "order.created";
  payload := JObj []; endpoint_id := "e1" |}.

Lemma ingest_spec_witness :
  let w := demo_world 1000 (demo_tables PENDING [] None) ∅ ∅ in
  let r := run_with (serve reliable) (ingestEvent default_config (demo_params "k2")) w in
  (exists x, r.1 = Returned x /\ is_new x = true) /\ ingest_post (demo_params "k2") w r.1 r.2.
Proof.
  intros w r. split; [eexists; vm_compute; split; reflexivity|].
  exact (ingest_spec default_config (demo_params "k2") w r.2 r.1 (demo_idle _ _ _ _)
    (serve_exec reliable (ingestEvent default_config (demo_params "k2")) w)).
Defined.

(** [uq_events_client_idem]. *)
Definition keys_unique (T : tables) : Prop :=
  forall client key ev1 ev2, event_known T client key ev1 -> event_known T client key ev2 -> ev1 = ev2.

(** Ingestion is idempotent. Once a client's key has an event, and as
    long as the cache names no other event for it, posting the key again
    creates nothing, and every answer is that event, reported as a
    duplicate. *)
Theorem ingest_idempotent {RS BS : Type} `{!RedisServer RS} `{!RedisLaws RS} `{!BullMQ BS}
    (cfg : Config) (p : IngestParams) (ev : string) (w w' : world RS BS) (o : outcome exn IngestResult) :
  idle w -> keys_unique (tables_of w) ->
  event_known (tables_of w) (client_id p) (idempotency_key p) ev ->
  (forall ev', cached w (idemRedisKey (client_id p) (idempotency_key p)) ev' -> ev' = ev) ->
  exec env (ingestEvent cfg p) w o w' ->
  tables_of w' = tables_of w /\ forall r, o = Returned r -> is_new r = false /\ event_id r = ev.
Proof.
  intros Hi Hu Hk Hc Hx. pose proof (wp_ingestEvent cfg p w Hi) as H. rewrite wp_exec in H.
  destruct (H _ _ Hx) as (_ & _ & [[HT Ho]|(r & ws & (_ & _ & Hnone & _) & _)]).
  - split; [done|]. intros r ->. destruct Ho as [(Hn & Hr & _)|(Hn & Hr & _)]; (split; [done|]); [|by apply Hc].
    by eapply Hu.
  - by destruct (Hnone ev).
Qed.

Lemma demo_keys_unique st l next : keys_unique (demo_tables st l next).
Proof.
  intros c k ev1 ev2 (e1 & H1 & _) (e2 & H2 & _). cbn in H1, H2.
  apply lookup_singleton_Some in H1 as [<- _]. apply lookup_singleton_Some in H2 as [<- _]. done.
Qed.

Lemma ingest_idempotent_witness :
  let w := demo_world 1000 (demo_tables PENDING [] None) ∅ ∅ in
  let r := run_with (serve reliable) (ingestEvent default_config (demo_params "k1")) w in
  r.1 = Returned {| event_id := "v1"; delivery_id := "d1"; delivery_status := PENDING; is_new := false |} /\
  tables_of r.2 = tables_of w.
Proof.
  intros w r. split; [vm_compute; reflexivity|].
  refine (proj1 (ingest_idempotent default_config (demo_params "k1") "v1" w r.2 r.1 (demo_idle _ _ _ _)
    (demo_keys_unique _ _ _) _ _ (serve_exec reliable (ingestEvent default_config (demo_params "k1")) w))).
  - eexists. split; [reflexivity|]. vm_compute. reflexivity.
  - intros ev' (n & _ & d & Hd). unfold w in Hd. cbn in Hd. unfold live in Hd. rewrite map_filter_empty in Hd. discriminate Hd.
Defined.

(** An outage of Redis: the environment, with every Redis call failing. *)
Definition redis_down {RS BS : Type} `{!RedisServer RS} `{!BullMQ BS}
    (w : world RS BS) (c : cmd) (r : exn + resp c) (w' : world RS BS) : Prop :=
  env w c r w' /\ match c with Redis _ => exists e, r = inl e | _ => True end.

(** Without Redis there is no ingestion. During an outage of Redis every
    ingestion throws and leaves the database exactly as it was: the event is
    not persisted. *)
Theorem ingest_needs_redis {RS BS : Type} `{!RedisServer RS} `{!RedisLaws RS} `{!BullMQ BS}
    (cfg : Config) (p : IngestParams) (w w' : world RS BS) (o : outcome exn IngestResult) :
  exec redis_down (ingestEvent cfg p) w o w' ->
  (exists e, o = Threw e) /\ s_pg w'.1 = s_pg w.1.
Proof.
  revert o w'. apply wp_exec. unfold ingestEvent. apply wp_bind.
  apply (wp_await redis_down (Redis (RCmd (GET (idemRedisKey (client_id p) (idempotency_key p)))))).
  intros r w1 [(s1 & (n & Hn & ->) & He) [e ->]]. cbn. split; [by exists e|].
  destruct He as [_ [(msg & _ & _ & ->)|(_ & _ & [->| ->])]]; done.
Qed.

Definition redis_outage : oracle := {|
  o_random := 0; o_bytes := "token"; o_status := 200; o_body := "ok";
  o_fail := fun c => match c with Redis _ => Some (JsError "Error" "Connection is closed.") | _ => None end |}.

Lemma redis_outage_down : handles redis_down (serve redis_outage).
Proof.
  intros w c. split; [apply serve_env|]. destruct c; try exact I. by eexists.
Qed.

Lemma ingest_needs_redis_witness :
  let w := demo_world 1000 (demo_tables PENDING [] None) ∅ ∅ in
  let r := run_with (serve redis_outage) (ingestEvent default_config (demo_params "k2")) w in
  (exists e, r.1 = Threw e) /\ s_pg r.2.1 = s_pg w.1.
Proof.
  intros w r.
  exact (ingest_needs_redis default_config (demo_params "k2") w r.2 r.1
    (run_with_exec redis_down (serve redis_outage) _ w redis_outage_down)).
Defined.

(** The key of the cache does not keep the client and its key apart. *)
Lemma idemRedisKey_ambiguous (c k1 k2 : string) :
  idemRedisKey (c ++s ":" ++s k1) k2 = idemRedisKey c (k1 ++s ":" ++s k2).
Proof. unfold idemRedisKey. by rewrite !str_app_assoc. Qed.

(** An ingestion can be answered with another client's event. When the
    client [c:k1] has cached an event under its key [k2], the client [c] that
    posts under the key [k1:k2] is told its event is a duplicate of that one,
    and nothing is stored. *)
Theorem ingest_cross_client {RS BS : Type} `{!RedisServer RS} `{!RedisLaws RS} `{!BullMQ BS}
    (cfg : Config) (p : IngestParams) (c k1 k2 ev d : string) (row : delivery_row) (dl : option Z) (w : world RS BS) :
  client_id p = c -> idempotency_key p = k1 ++s ":" ++s k2 -> ev <> "" ->
  ks_of w !! idemRedisKey (c ++s ":" ++s k1) k2 = Some {| r_val := RStr ev; r_deadline := dl |} ->
  deliveries (tables_of w) !! d = Some row -> d_event_id row = ev ->
  twp calm (ingestEvent cfg p) (fun o w' =>
    (exists r, o = Returned r /\ is_new r = false /\ event_id r = ev) /\ tables_of w' = tables_of w) w.
Proof.
  intros Hc Hk Hev Hcache Hd He. unfold ingestEvent. rewrite Hc, Hk.
  rewrite idemRedisKey_ambiguous in Hcache. apply twp_bind, twp_redis. intros w1 [st ->] _ _.
  cbn. rewrite Hcache. cbn. apply twp_bind. unfold cached_result.
  destruct ev as [|a ev]; [done|]. apply twp_bind.
  apply (twp_await calm (Pg (POOL_QUERY (SelectDeliveryOfEvent (String a ev))))).
  - exists (inr [(d, d_status row)] : exn + resp (Pg (POOL_QUERY (SelectDeliveryOfEvent (String a ev))))).
    exists (with_pg (s_pg w.1) (with_redis st w.1), w.2). exists (s_pg w.1), (l_tx w.2). cbn.
    split; [|by destruct w as [? []]]. exists []. split; [split; [|split]|split; [by destruct (s_pg w.1)|done]].
    + split; [done|]. right. exists d, row. done.
    + by intros [].
    + constructor.
  - intros [e|rows] w2; cbn; [by intros (rc & msg & [=] & _)|].
    intros (p' & tx' & (ws & ((-> & Hr) & _ & _) & -> & ->) & ->).
    destruct Hr as [[-> Hnone]|(d' & row' & -> & Hd' & He')]; [by destruct (Hnone d row Hd)|].
    apply twp_ret. apply twp_ret. split; [eexists; split; [reflexivity|done]|done].
Qed.

Lemma ingest_cross_client_witness :
  let w := demo_world 1000 (demo_tables PENDING [] None)
    {[idemRedisKey "a:b" "c" := {| r_val := RStr "v1"; r_deadline := Some 9000 |}]} ∅ in
  let p := {| client_id := "a"; idempotency_key := "b:c"; event_type := "t"; payload := JNull; endpoint_id := "e1" |} in
  exists r w', exec calm (ingestEvent default_config p) w (Returned r) w' /\ event_id r = "v1".
Proof.
  intros w p.
  pose proof (ingest_cross_client default_config p "a" "b" "c" "v1" "d1" (demo_delivery PENDING 0 None) (Some 9000) w
    eq_refl eq_refl ltac:(discriminate) ltac:(vm_compute; reflexivity) ltac:(vm_compute; reflexivity) eq_refl) as H.
  apply twp_exec in H as [(o & w' & Hx & (r & -> & _ & Hr) & _) _]. exists r, w'. split; [exact Hx|exact Hr].
Defined.
