(* ===== verification/Signature.v ===== *)
(** * Signatures and headers of a webhook request

    [src/src/worker/signature.ts] and [src/src/shared/headers.ts]. The HMAC of
    node:crypto is a parameter; the hexadecimal codecs of [Buffer] are
    modelled. *)

From S2P Require Import Prelude Json Config.
From Stdlib Require Import ZArith Lia String Ascii DecimalString.
From stdpp Require Import prelude strings.

(** ** Hexadecimal *)

(** The value of a hexadecimal digit, upper or lower case. *)
Definition unhex (c : ascii) : option nat :=
  let n := nat_of_ascii c in
  if (48 <=? n) && (n <=? 57) then Some (n - 48)
  else if (97 <=? n) && (n <=? 102) then Some (n - 87)
  else if (65 <=? n) && (n <=? 70) then Some (n - 55)
  else None.

(** [Buffer.from(s, 'hex')]: decoding stops at the first pair that is no byte. *)
Fixpoint from_hex (s : string) : string :=
  match s with
  | String a (String b s) =>
      match unhex a, unhex b with
      | Some x, Some y => String (ascii_of_nat (16 * x + y)) (from_hex s)
      | _, _ => ""
      end
  | _ => ""
  end.

Definition digit_check (n : nat) : bool := bool_decide (unhex (hex_digit n) = Some n).

Lemma unhex_digit n : n < 16 -> unhex (hex_digit n) = Some n.
Proof.
  intros Hn. assert (forallb digit_check (seq 0 16) = true) as H by (vm_compute; reflexivity).
  rewrite forallb_forall in H. specialize (H n). apply (bool_decide_eq_true_1 _). apply H. apply (proj2 (in_seq 16 0 n)). lia.
Qed.

Lemma from_to_hex (b : string) : from_hex (to_hex b) = b.
Proof.
  induction b as [|c b IH]; [done|]. cbn [to_hex from_hex].
  pose proof (nat_ascii_bounded c) as Hc.
  rewrite !unhex_digit; [|apply Nat.mod_upper_bound; lia|apply Nat.Div0.div_lt_upper_bound; lia].
  rewrite IH, <- Nat.div_mod by lia. by rewrite ascii_nat_embedding.
Qed.

Lemma from_hex_app (b s : string) : from_hex (to_hex b ++s s) = b ++s from_hex s.
Proof.
  induction b as [|c b IH]; [done|]. cbn [to_hex]. rewrite !str_app_cons. cbn [from_hex].
  pose proof (nat_ascii_bounded c) as Hc.
  rewrite !unhex_digit; [|apply Nat.mod_upper_bound; lia|apply Nat.Div0.div_lt_upper_bound; lia].
  rewrite IH, <- Nat.div_mod by lia. by rewrite ascii_nat_embedding.
Qed.

(** ** The signed payload *)

(** A number in a template literal. *)
Definition num_text (n : jsnum) : string := match n with Num z => show_Z z | NaN => "NaN" end.

(** [`${timestampSeconds}.${rawBody}`]. *)
Definition signed_payload (timestampSeconds : jsnum) (rawBody : string) : string :=
  num_text timestampSeconds ++s "." ++s rawBody.

(** A text without a dot. *)
Fixpoint no_dot (s : string) : bool :=
  match s with EmptyString => true | String c s => negb (Ascii.eqb c ".") && no_dot s end.

Lemma no_dot_uint u : no_dot (NilEmpty.string_of_uint u) = true.
Proof. induction u; cbn; done. Qed.

Lemma no_dot_show z : no_dot (show_Z z) = true.
Proof.
  unfold show_Z, NilZero.string_of_int, NilZero.string_of_uint.
  destruct (Z.to_int z) as [u|u]; destruct u; cbn; try done; apply no_dot_uint.
Qed.

Lemma no_dot_split a b x y :
  no_dot a = true -> no_dot b = true -> a ++s "." ++s x = b ++s "." ++s y -> a = b /\ x = y.
Proof.
  revert b. induction a as [|c a IH]; intros [|c' b] Ha Hb H; cbn in *.
  - by injection H.
  - injection H as <- H. cbn in Hb. done.
  - injection H as -> H. cbn in Ha. done.
  - injection H as -> H. apply andb_true_iff in Ha as [_ Ha]. apply andb_true_iff in Hb as [_ Hb].
    by destruct (IH b Ha Hb H) as [-> ->].
Qed.

Lemma no_dot_num n : no_dot (num_text n) = true.
Proof. destruct n; [done|apply no_dot_show]. Qed.

Lemma num_text_inj a b : num_text a = num_text b -> a = b.
Proof.
  destruct a as [|x], b as [|y]; cbn; intros H; [done|..].
  - apply (f_equal read_Z) in H. by rewrite read_show_Z in H.
  - apply (f_equal read_Z) in H. by rewrite read_show_Z in H.
  - f_equal. by apply show_Z_inj.
Qed.

Lemma signed_payload_inj t1 b1 t2 b2 :
  signed_payload t1 b1 = signed_payload t2 b2 -> t1 = t2 /\ b1 = b2.
Proof.
  intros H. destruct (no_dot_split _ _ _ _ (no_dot_num t1) (no_dot_num t2) H) as [Ht Hb].
  split; [by apply num_text_inj|done].
Qed.

Section Hmac.
(** [createHmac('sha256', secret).update(data).digest()], as bytes. *)
Context (hmac_sha256 : string -> string -> string).

Definition sign (secret : string) (timestampSeconds : jsnum) (rawBody : string) : string :=
  to_hex (hmac_sha256 secret (signed_payload timestampSeconds rawBody)).

Definition verify (secret : string) (timestampSeconds : jsnum) (rawBody signatureHex : string) : bool :=
  let expectedHex := sign secret timestampSeconds rawBody in
  let expected := from_hex expectedHex in
  let actual := from_hex signatureHex in
  if negb (Nat.eqb (String.length expected) (String.length actual)) then false
  else String.eqb expected actual.

Lemma verify_true secret t body sig :
  verify secret t body sig = true <-> from_hex sig = hmac_sha256 secret (signed_payload t body).
Proof.
  unfold verify, sign. rewrite from_to_hex. split.
  - destruct (negb _); [done|]. intros H. apply String.eqb_eq in H. by symmetry.
  - intros ->. by rewrite Nat.eqb_refl, String.eqb_refl.
Qed.
End Hmac.

(** [buildWebhookHeaders]: the record's fields in order. *)
Definition buildWebhookHeaders (deliveryId : string) (attempt timestampSeconds : Z) (signatureHex : string) :
    list (string * string) :=
  [("content-type", "application/json");
   ("x-webhook-id", deliveryId);
   ("x-webhook-attempt", show_Z attempt);
   ("x-webhook-timestamp", show_Z timestampSeconds);
   ("x-webhook-signature", "sha256=" ++s signatureHex)].

(** The value of a header of a request. *)
Definition header (name : string) (hs : list (string * string)) : option string :=
  snd <$> find (fun h => String.eqb h.1 name) hs.

(** The check of test-receiver/index.ts, [logRequest], on the headers and the
    body of a request; [Number] is the conversion of the language. *)
Definition validSignature (Number : string -> jsnum) (hmac : string -> string -> string)
    (secret : string) (hs : list (string * string)) (rawBody : string) : bool :=
  let sigHeader := default "" (header "x-webhook-signature" hs) in
  let sigHex := if str_startsWith "sha256=" sigHeader then str_drop 7 sigHeader else sigHeader in
  match header "x-webhook-id" hs, header "x-webhook-timestamp" hs with
  | Some idHeader, Some tsHeader =>
      negb (String.eqb idHeader "") && negb (String.eqb tsHeader "") && negb (String.eqb sigHex "") &&
      verify hmac secret (Number tsHeader) rawBody sigHex
  | _, _ => false
  end.

(** ** Properties *)

(** A request with the worker's headers passes the receiver's check. *)
Lemma signed_accepted (Number : string -> jsnum) (hmac : string -> string -> string)
    (secret deliveryId body : string) (attempt ts : Z) :
  (forall z, Number (show_Z z) = Num z) -> deliveryId <> "" -> hmac secret (signed_payload (Num ts) body) <> "" ->
  validSignature Number hmac secret
    (buildWebhookHeaders deliveryId attempt ts (sign hmac secret (Num ts) body)) body = true.
Proof.
  intros HN Hid Hh.
  assert (verify hmac secret (Num ts) body (sign hmac secret (Num ts) body) = true) as H.
  { apply verify_true, from_to_hex. }
  unfold validSignature. cbn [header find buildWebhookHeaders fst snd].
  assert (sign hmac secret (Num ts) body <> "") as Hs.
  { unfold sign. destruct (hmac _ _); [done|]. discriminate. }
  set (sg := sign hmac secret (Num ts) body) in *.
  change (negb (String.eqb deliveryId "") && negb (String.eqb (show_Z ts) "") &&
    negb (String.eqb (if str_startsWith "sha256=" ("sha256=" ++s sg) then str_drop 7 ("sha256=" ++s sg) else "sha256=" ++s sg) "") &&
    verify hmac secret (Number (show_Z ts)) body
      (if str_startsWith "sha256=" ("sha256=" ++s sg) then str_drop 7 ("sha256=" ++s sg) else "sha256=" ++s sg) = true).
  unfold str_startsWith. rewrite str_prefix_app, (str_drop_app "sha256="), HN, H.
  rewrite !andb_true_iff, !negb_true_iff. repeat split; apply String.eqb_neq; [done| |done].
  intros E. pose proof (read_show_Z ts) as Hr. by rewrite E in Hr.
Qed.

(** Signing and verifying agree, for any HMAC. A signature is accepted
    for the secret, timestamp and body it was made for; and a request with the
    worker's headers and body is accepted by a receiver that holds the secret
    and checks it as test-receiver does. *)
Theorem verify_sign (Number : string -> jsnum) (hmac : string -> string -> string)
    (secret deliveryId body : string) (attempt ts : Z) :
  (forall z, Number (show_Z z) = Num z) -> deliveryId <> "" -> hmac secret (signed_payload (Num ts) body) <> "" ->
  verify hmac secret (Num ts) body (sign hmac secret (Num ts) body) = true /\
  validSignature Number hmac secret
    (buildWebhookHeaders deliveryId attempt ts (sign hmac secret (Num ts) body)) body = true.
Proof.
  intros HN Hid Hh. split; [apply verify_true, from_to_hex|by apply signed_accepted].
Qed.

(** A stand-in HMAC, for the witnesses: no two inputs collide. *)
Definition toy_hmac (secret data : string) : string := secret ++s data.

Lemma verify_sign_witness :
  verify toy_hmac "k" (Num 5) "{}" (sign toy_hmac "k" (Num 5) "{}") = true /\
  validSignature decimal_Number toy_hmac "k"
    (buildWebhookHeaders "d1" 2 5 (sign toy_hmac "k" (Num 5) "{}")) "{}" = true.
Proof.
  apply (verify_sign decimal_Number toy_hmac "k" "d1" "{}" 2 5).
  - intros z. unfold decimal_Number. rewrite read_show_Z. reflexivity.
  - discriminate.
  - discriminate.
Defined.

(** The signature authenticates the timestamp and the body together. A
    signature made for one timestamp and body that is accepted for another is
    a collision of the HMAC on two different inputs. *)
Theorem verify_binds (hmac : string -> string -> string) (secret body body' : string) (ts ts' : jsnum) :
  verify hmac secret ts' body' (sign hmac secret ts body) = true ->
  (ts' = ts /\ body' = body) \/
  exists p p', p <> p' /\ hmac secret p = hmac secret p'.
Proof.
  rewrite verify_true. unfold sign. rewrite from_to_hex. intros H.
  destruct (decide (signed_payload ts body = signed_payload ts' body')) as [E|E].
  - left. apply signed_payload_inj in E as [-> ->]. done.
  - right. eauto.
Qed.

Lemma verify_binds_witness :
  verify toy_hmac "k" (Num 5) "b" (sign toy_hmac "k" (Num 5) "b") = true /\ (Num 5 = Num 5 /\ "b" = "b").
Proof.
  assert (verify toy_hmac "k" (Num 5) "b" (sign toy_hmac "k" (Num 5) "b") = true) as H by (vm_compute; reflexivity).
  split; [exact H|]. destruct (verify_binds toy_hmac "k" "b" "b" (Num 5) (Num 5) H) as [E|(p & p' & Hne & Hc)]; [exact E|].
  exact (False_ind _ (Hne (str_app_inj_l _ _ _ Hc))).
Defined.

(** What the verifier compares is the decoded prefix, so the text of a
    signature is not unique: any text after a valid signature that does not
    start with a hexadecimal byte is ignored. *)
Theorem verify_ignores_suffix (hmac : string -> string -> string) (secret body suffix : string) (ts : jsnum) :
  from_hex suffix = "" -> verify hmac secret ts body (sign hmac secret ts body ++s suffix) = true.
Proof.
  intros H. apply verify_true. unfold sign. rewrite from_hex_app, H. apply str_app_nil_r.
Qed.

Lemma verify_ignores_suffix_witness :
  from_hex "!junk" = "" /\ verify toy_hmac "k" (Num 5) "b" (sign toy_hmac "k" (Num 5) "b" ++s "!junk") = true.
Proof. split; [reflexivity|]. apply (verify_ignores_suffix toy_hmac "k" "b" "!junk" (Num 5)). reflexivity. Defined.
