(* ===== verification/Worker.v ===== *)
(** * The delivery worker

    [src/src/worker/]: the HTTP client and its error classes, the lock
    heartbeat, the processor of a delivery job and the handler of exhausted
    jobs; [src/src/shared/alerts.ts]. Console output for debugging is left
    out. *)

From S2P Require Import Prelude Async Config Json Dates Tables Queries Schema Redis Services Concrete Scripts.
From S2P Require Lock TokenBucket.
From S2P Require Import CircuitBreaker Repo Signature.
From Stdlib Require Import ZArith QArith Lia String Ascii.
From stdpp Require Import prelude strings gmap.

Open Scope Z_scope.
Open Scope async_scope.

(** ** httpClient.ts *)

Record DeliverResult := { dr_status : Z; dr_body : string; dr_latencyMs : Z }.

(** [err.name]. *)
Definition exn_name (e : exn) : string :=
  match e with
  | JsError n _ => n
  | JsOther _ => ""
  | DelayedError => "DelayedError"
  | DeliverError _ _ => "Error"
  | AppError _ _ _ _ => "AppError"
  end.

Definition classify (err : exn) : DeliverErrorKind :=
  match err with
  | JsOther _ => KIND_CONN_ERROR
  | _ =>
      let msg := exn_message err in
      if String.eqb (exn_name err) "AbortError" ||
         str_includes "UND_ERR_HEADERS_TIMEOUT" msg ||
         str_includes "UND_ERR_BODY_TIMEOUT" msg ||
         str_includes "UND_ERR_CONNECT_TIMEOUT" msg
      then KIND_TIMEOUT else KIND_CONN_ERROR
  end.

Definition http_send (r : http_request) : io unit := await (HttpSend r).
Definition http_head : io Z := await HttpHead.
Definition http_body : io string := await HttpBody.

Definition delivery_request (cfg : Config) (url body : string) (headers : list (string * string)) : http_request := {|
  h_url := url; h_method := "POST"; h_headers := headers; h_body := body;
  h_headersTimeout := Some (HTTP_TIMEOUT_MS cfg); h_bodyTimeout := Some (HTTP_TIMEOUT_MS cfg);
  h_maxRedirections := Some 0 |}.

(** [deliver]: the request leaves, its head arrives or the call fails, then
    its body arrives or the read fails. *)
Definition deliver (cfg : Config) (url body : string) (headers : list (string * string)) : io DeliverResult :=
  let* startedAt := date_now in
  try_catch
    (http_send (delivery_request cfg url body headers) ;;;
     let* statusCode := http_head in
     let* raw := http_body in
     let* now := date_now in
     Ret {| dr_status := statusCode;
            dr_body := str_take (Z.to_nat (MAX_RESPONSE_BODY_BYTES cfg)) raw;
            dr_latencyMs := now - startedAt |})
    (fun err => Throw (DeliverError (classify err) (exn_message err))).

(** ** heartbeat.ts *)

(** One tick of the interval: [extend], and when the lock is gone
    [onLockLost()] and [controller.abort()]. The answer is whether this tick
    declared the lock lost. A rejected [extend] is an unhandled rejection,
    which ends the process. *)
Definition beat (cfg : Config) (deliveryId token : string) : io bool :=
  try_catch
    (let* stillHeld := Lock.extend cfg deliveryId token in
     if (stillHeld : bool) then Ret false
     else await AbortSignal ;;; Ret true)
    (fun _ => Exit).

(** [n] ticks. *)
Fixpoint beats (cfg : Config) (deliveryId token : string) (n : nat) : io bool :=
  match n with
  | O => Ret false
  | S n =>
      let* lost := beat cfg deliveryId token in
      let* lost' := beats cfg deliveryId token n in
      Ret (lost || lost')
  end.

(** [fn] runs while the interval ticks: before its [i]-th call is answered
    there are as many ticks as the [i]-th entry of the schedule says. The
    result is the flag that [onLockLost] sets, and how [fn] settled. *)
Fixpoint alongside {A} (cfg : Config) (deliveryId token : string) (lost : bool) (sched : list nat)
    (fn : io A) : io (bool * (exn + A)) :=
  match fn with
  | Ret a => Ret (lost, inr a)
  | Throw e => Ret (lost, inl e)
  | Exit => Exit
  | Vis c k =>
      let* l := beats cfg deliveryId token (hd 0%nat sched) in
      Vis c (fun r => alongside cfg deliveryId token (lost || l) (tl sched) (k r))
  end.

(** The ticks of one call: [during] it, in time to be seen, and [late], under
    way when it settles. *)
Record schedule := { during : list nat; late : nat }.

Definition withLockHeartbeat {A} (cfg : Config) (deliveryId token : string) (sched : schedule)
    (fn : io A) : io (bool * (exn + A)) :=
  let* r := alongside cfg deliveryId token false (during sched) fn in
  beats cfg deliveryId token (late sched) ;;;
  Ret r.

(** ** processor.ts *)

Definition INACTIVE_ENDPOINT_DELAY_MS : Z := 60000.
Definition RATE_LIMIT_DELAY_MS : Z := 5000.
Definition RATE_LIMIT_JITTER_MS : Z := 2000.
Definition LOCK_CONTENTION_DELAY_MS : Z := 5000.

Definition isRealFailureOutcome (o : AttemptOutcome) : bool :=
  match o with HTTP_ERROR | TIMEOUT | CONN_ERROR => true | _ => false end.

(** The job, as the processor uses it. *)
Record Job := { job_id : string; job_deliveryId : string }.

Definition moveToDelayed (j : Job) (timestamp : Q) (token : option string) : io unit :=
  await (MoveToDelayed (job_id j) timestamp token).

(** [n / 1000] in a template literal. *)
Fixpoint strip_zeros (s : string) : string :=
  match s with
  | EmptyString => ""
  | String c s => let r := strip_zeros s in
                  if Ascii.eqb c "0" && String.eqb r "" then "" else String c r
  end.

Definition thousandths (n : Z) : string :=
  if n mod 1000 =? 0 then show_Z (n / 1000)
  else show_Z (n / 1000) ++s "." ++s strip_zeros (pad 3 (n mod 1000)).

(** What the processor concludes from a settled call. *)
Record verdict := {
  v_outcome : AttemptOutcome; v_httpStatus : option Z; v_responseBody : option string;
  v_errorMessage : option string; v_reason : string
}.

Definition lock_lost_verdict : verdict := {|
  v_outcome := LOCK_LOST; v_httpStatus := None; v_responseBody := None;
  v_errorMessage := Some "lock_lost"; v_reason := "lock_lost" |}.

Definition judge (cfg : Config) (lockLost : bool) (r : exn + DeliverResult) : verdict :=
  if lockLost then lock_lost_verdict
  else
    match r with
    | inr result =>
        let ok := (200 <=? dr_status result) && (dr_status result <? 300) in {|
        v_outcome := if ok then SUCCESS else HTTP_ERROR;
        v_httpStatus := Some (dr_status result);
        v_responseBody := Some (dr_body result);
        v_errorMessage := if ok then None else Some ("HTTP " ++s show_Z (dr_status result));
        v_reason := "http_" ++s show_Z (dr_status result) |}
    | inl (DeliverError KIND_TIMEOUT m) => {|
        v_outcome := TIMEOUT; v_httpStatus := None; v_responseBody := None; v_errorMessage := Some m;
        v_reason := "timeout_" ++s thousandths (HTTP_TIMEOUT_MS cfg) ++s "s" |}
    | inl (DeliverError KIND_CONN_ERROR m) => {|
        v_outcome := CONN_ERROR; v_httpStatus := None; v_responseBody := None; v_errorMessage := Some m;
        v_reason := "conn_error" |}
    | inl err => {|
        v_outcome := CONN_ERROR; v_httpStatus := None; v_responseBody := None;
        v_errorMessage := Some (exn_message err); v_reason := "conn_error" |}
    end.

(** [new Date(Date.now() + webhookBackoff(attemptNumber))]. *)
Definition next_attempt_at (cfg : Config) (attemptNumber : Z) : io jsnum :=
  let* now := date_now in
  let* u := math_random in
  Ret (match webhookBackoff cfg u attemptNumber with Num d => Num (now + d) | NaN => NaN end).

(** [JSON.stringify({ event_id, event_type, created_at, data })]. *)
Definition outboundBody (d : DeliveryForWorker) : string :=
  stringify (JObj [("event_id", JStr (eventId d)); ("event_type", JStr (eventType d));
                   ("created_at", JStr (toISOString (receivedAt d))); ("data", payload d)]).

Section Processor.
(** The configuration, and the HMAC of node:crypto. *)
Context (cfg : Config) (hmac_sha256 : string -> string -> string).

Definition is_success (o : AttemptOutcome) : bool := bool_decide (o = SUCCESS).

Definition attemptNumber (d : DeliveryForWorker) : Z := attemptCount d + 1.

(** The first part of the [try] block: everything before the endpoint's
    token is held. [None] is an early [return]; a value means
    [bucketAcquired], with the delivery and the breaker's state. *)
Definition pickup (j : Job) (token : option string) : io (option (DeliveryForWorker * BreakerState)) :=
  let* delivery := getForDelivery (job_deliveryId j) in
  match delivery with
  | None => Ret None
  | Some d =>
      if bool_decide (dw_status d = DELIVERED) || bool_decide (dw_status d = DLQ) then Ret None
      else if negb (endpointActive d) then
        let* now := date_now in
        moveToDelayed j (inject_Z (now + INACTIVE_ENDPOINT_DELAY_MS)) token ;;;
        Throw DelayedError
      else
        let* breakerState := checkState cfg (endpointId d) in
        if bool_decide (breakerState = open) then
          let* now := date_now in
          let* next := next_attempt_at cfg (attemptNumber d) in
          recordAttempt {|
            ra_deliveryId := job_deliveryId j; ra_attemptNumber := attemptNumber d;
            ra_outcome := CIRCUIT_OPEN; ra_httpStatus := None; ra_responseBody := None;
            ra_errorMessage := Some "circuit_open"; ra_latencyMs := 0; ra_startedAt := now;
            ra_finishedAt := now; ra_fromStatus := dw_status d; ra_toStatus := FAILED;
            ra_reason := "circuit_open"; ra_nextAttemptAt := Some next |} ;;;
          Throw (NewError "circuit_open")
        else
          let* bucketAcquired := TokenBucket.tryAcquire cfg (endpointId d) in
          if (bucketAcquired : bool) then Ret (Some (d, breakerState))
          else
            let* u := math_random in
            let* now := date_now in
            let jitterMs := ((u # 2 ^ 53) * inject_Z (RATE_LIMIT_JITTER_MS * 2) - inject_Z RATE_LIMIT_JITTER_MS)%Q in
            moveToDelayed j (inject_Z (now + RATE_LIMIT_DELAY_MS)%Z + jitterMs)%Q token ;;;
            Throw DelayedError
  end.

(** The request of an attempt, signed at [now]. *)
Definition attempt_request (deliveryId : string) (d : DeliveryForWorker) (now : Z) : http_request :=
  let body := outboundBody d in
  let ts := now / 1000 in
  delivery_request cfg (endpointUrl d) body
    (buildWebhookHeaders deliveryId (attemptNumber d) ts
      (sign hmac_sha256 (signingSecret d) (Num ts) body)).

(** The breaker's share in the result. *)
Definition feed_breaker (breakerState : BreakerState) (endpointId : string) (o : AttemptOutcome) : io unit :=
  if bool_decide (breakerState = probe) then onProbeResult cfg endpointId (is_success o)
  else if isRealFailureOutcome o then recordFailure cfg endpointId
  else Ret tt.

(** The row of the attempt. *)
Definition attempt_input (deliveryId : string) (d : DeliveryForWorker) (v : verdict)
    (startedAt finishedAt : Z) (next : option jsnum) : RecordAttemptInput := {|
  ra_deliveryId := deliveryId; ra_attemptNumber := attemptNumber d; ra_outcome := v_outcome v;
  ra_httpStatus := v_httpStatus v; ra_responseBody := v_responseBody v;
  ra_errorMessage := v_errorMessage v; ra_latencyMs := finishedAt - startedAt;
  ra_startedAt := startedAt; ra_finishedAt := finishedAt; ra_fromStatus := DELIVERING;
  ra_toStatus := if is_success (v_outcome v) then DELIVERED else FAILED;
  ra_reason := v_reason v; ra_nextAttemptAt := next |}.

(** The rest of the [try] block: one attempt, holding the lock and a token. *)
Definition attempt (deliveryId lock_token : string) (sched : schedule) (d : DeliveryForWorker)
    (breakerState : BreakerState) : io unit :=
  transition deliveryId (dw_status d) DELIVERING worker ("attempt_" ++s show_Z (attemptNumber d)) ;;;
  let* now := date_now in
  let r := attempt_request deliveryId d now in
  let* startedAt := date_now in
  let* result := withLockHeartbeat cfg deliveryId lock_token sched
                   (deliver cfg (h_url r) (h_body r) (h_headers r)) in
  let* finishedAt := date_now in
  let v := judge cfg (fst result) (snd result) in
  feed_breaker breakerState (endpointId d) (v_outcome v) ;;;
  let* next := (if is_success (v_outcome v) then Ret None
                else let* n := next_attempt_at cfg (attemptNumber d) in Ret (Some n)) in
  recordAttempt (attempt_input deliveryId d v startedAt finishedAt next) ;;;
  if is_success (v_outcome v) then Ret tt else Throw (NewError (v_reason v)).

(** The [finally] block; [bucket] is [endpointId] when [bucketAcquired]. *)
Definition cleanup (deliveryId lock_token : string) (bucket : option string) : io unit :=
  (match bucket with
   | Some endpointId => if String.eqb endpointId "" then Ret tt else TokenBucket.release cfg endpointId
   | None => Ret tt
   end) ;;;
  let* _ := Lock.release deliveryId lock_token in
  Ret tt.

(** [processDelivery(job, token)], under a schedule of heartbeats. *)
Definition processDelivery (sched : schedule) (j : Job) (token : option string) : io unit :=
  let deliveryId := job_deliveryId j in
  let* lock := Lock.acquire cfg deliveryId in
  if negb (Lock.acquired lock) then
    let* now := date_now in
    moveToDelayed j (inject_Z (now + LOCK_CONTENTION_DELAY_MS)) token ;;;
    Throw DelayedError
  else
    let* s := settle (pickup j token) in
    match s with
    | inl e => cleanup deliveryId (Lock.token lock) None ;;; Throw e
    | inr None => cleanup deliveryId (Lock.token lock) None
    | inr (Some (d, breakerState)) =>
        try_finally (attempt deliveryId (Lock.token lock) sched d breakerState)
          (cleanup deliveryId (Lock.token lock) (Some (endpointId d)))
    end.
End Processor.

(** ** dlqHandler.ts and alerts.ts *)

(** The row of [LastAttemptSummary] as JSON. *)
Definition summary_json (a : LastAttemptSummary) : json :=
  JObj [("attempt_number", JNum (show_Z (la_attempt_number a))); ("outcome", JStr (outcome_text (la_outcome a)));
        ("http_status", opt_json (fun z => JNum (show_Z z)) (la_http_status a));
        ("error_message", opt_json JStr (la_error_message a))].

Definition alert_request (url : string) (d : DeliveryForWorker) (lastAttempt : option LastAttemptSummary) : http_request := {|
  h_url := url; h_method := "POST"; h_headers := [("content-type", "application/json")];
  h_body := stringify (JObj [("event", JStr "delivery.dlq"); ("delivery_id", JStr (dw_id d));
                             ("endpoint_url", JStr (endpointUrl d));
                             ("last_attempt", opt_json summary_json lastAttempt)]);
  h_headersTimeout := None; h_bodyTimeout := None; h_maxRedirections := None |}.

(** [fireDlqAlert]: the log line, then a request nobody waits for, whose
    failure is logged. *)
Definition fireDlqAlert (cfg : Config) (d : DeliveryForWorker) (lastAttempt : option LastAttemptSummary) : io unit :=
  log "error" "delivery exhausted all attempts — moved to DLQ" ;;;
  match ALERT_WEBHOOK_URL cfg with
  | None | Some "" => Ret tt
  | Some url =>
      detach (try_catch (http_send (alert_request url d lastAttempt) ;;; let* _ := http_head in Ret tt)
        (fun err => log "error" "DLQ alert webhook failed to send"))
  end.

(** The job of a 'failed' event. *)
Record FailedJob := { fj_attemptsMade : Z; fj_deliveryId : string }.

Definition handleFailed (cfg : Config) (job : option FailedJob) : io unit :=
  match job with
  | None => Ret tt
  | Some job =>
      let maxAttempts := Z.of_nat (length (BACKOFF_BASE_MS cfg)) in
      if fj_attemptsMade job <? maxAttempts then Ret tt
      else
        let deliveryId := fj_deliveryId job in
        try_catch
          (let* delivery := getForDelivery deliveryId in
           match delivery with
           | None => Ret tt
           | Some d =>
               if bool_decide (dw_status d = DLQ) then Ret tt
               else
                 transition deliveryId (dw_status d) DLQ worker "attempts_exhausted" ;;;
                 queue_add webhook_dlq "dlq" deliveryId deliveryId ;;;
                 let* rows := pool_query (SelectLastAttempt deliveryId) in
                 fireDlqAlert cfg d (head (rows : list LastAttemptSummary))
           end)
          (fun err => log "error" "dlqHandler failed to process an exhausted delivery")
  end.
