(* ===== verification/WorkerSpec.v ===== *)
(** * What the worker does

    The effects of [processDelivery] (worker/processor.ts, modelled in
    Worker.v) on the database and the network, whatever the services answer:
    section [Effects] has one lemma per part of the processor, [Properties] the
    theorems about the whole. *)

From S2P Require Import Prelude Async Config Json Dates Tables Queries Schema Redis Services Concrete Scripts.
From S2P Require Lock TokenBucket.
From S2P Require Import CircuitBreaker Repo Frames Signature Worker.
From Stdlib Require Import ZArith QArith Lia String.
From stdpp Require Import prelude strings gmap.

Open Scope Z_scope.
Open Scope async_scope.

Section Quiet.
Context {RS BS : Type} `{!RedisServer RS} `{!RedisLaws RS} `{!BullMQ BS}.
Abbreviation world := (world RS BS).

(** The heartbeat is quiet, though it may end the process. *)
Lemma wp_beats cfg id tok n (w : world) : wp env (beats cfg id tok n) (fun _ w' => db_same w w') w.
Proof.
  revert w. induction n as [|n IH]; intros w; cbn [beats]; [by apply wp_ret|].
  apply wp_bind. unfold beat.
  eapply (wp_mono _ _ (fun _ w' => db_same w w')).
  - apply wp_try_catch. eapply wp_mono; [apply wp_quiet; quiet_tac|]. by intros [] w1 [_ H].
  - intros [l|e|] w1 H1; cbn; [|done|done]. apply wp_bind. eapply wp_mono; [apply IH|].
    intros [l'|e|] w2 H2; cbn; try apply wp_ret; by etrans.
Qed.

Lemma wp_alongside_step {A} cfg id tok lost sched c (k : exn + resp c -> io A) Q (w : world) :
  (forall w1, db_same w w1 -> Q Exited w1) ->
  (forall w1 e, db_same w w1 -> Q (Threw e) w1) ->
  (forall w1 l r w2, db_same w w1 -> env w1 c r w2 ->
     wp env (alongside cfg id tok (lost || l) (tl sched) (k r)) Q w2) ->
  wp env (alongside cfg id tok lost sched (Vis c k)) Q w.
Proof.
  intros Hx Ht Hk. cbn [alongside]. apply wp_bind. eapply wp_mono; [apply wp_beats|].
  intros [l|e|] w1 H1; cbn; [|by apply Ht|by apply Hx]. intros r w2 He. by eapply Hk.
Qed.
End Quiet.

(** ** The delivery as the worker reads it *)

Definition dw_of_row (row : for_worker_row) : DeliveryForWorker := {|
  dw_id := w_id row; dw_status := w_status row; attemptCount := w_attempt_count row;
  endpointId := w_endpoint_id row; endpointUrl := w_endpoint_url row;
  signingSecret := w_signing_secret row; endpointActive := w_endpoint_active row;
  eventId := w_event_id row; eventType := w_event_type row;
  payload := w_payload row; receivedAt := ms_of_ts (w_received_at row) |}.

Definition for_worker (T : tables) (id : string) : option DeliveryForWorker :=
  dw_of_row <$> worker_row T id.

(** A delivery nothing is left to do for. *)
Definition settled (d : DeliveryForWorker) : bool :=
  bool_decide (dw_status d = DELIVERED) || bool_decide (dw_status d = DLQ).

(** The tables once the attempt is announced: DELIVERING, with the transition. *)
Definition announced (id : string) (d : DeliveryForWorker) (t0 : Z) (T : tables) : tables :=
  apply_writes T [WStatus id DELIVERING t0;
    WTransition (transition_at t0 id (Some (dw_status d)) DELIVERING ("attempt_" ++s show_Z (attemptNumber d)) worker)].

Definition circuit_input (id : string) (d : DeliveryForWorker) (now : Z) (next : jsnum) : RecordAttemptInput := {|
  ra_deliveryId := id; ra_attemptNumber := attemptNumber d;
  ra_outcome := CIRCUIT_OPEN; ra_httpStatus := None; ra_responseBody := None;
  ra_errorMessage := Some "circuit_open"; ra_latencyMs := 0; ra_startedAt := now;
  ra_finishedAt := now; ra_fromStatus := dw_status d; ra_toStatus := FAILED;
  ra_reason := "circuit_open"; ra_nextAttemptAt := Some next |}.

Section Effects.
Context {RS BS : Type} `{!RedisServer RS} `{!RedisLaws RS} `{!BullMQ BS}.
Abbreviation world := (world RS BS).
Context (cfg : Config) (hmac : string -> string -> string).

Lemma wp_getForDelivery id (w : world) :
  wp env (getForDelivery id) (fun o w' => db_same w w' /\
    match o with Returned r => r = for_worker (tables_of w) id | Threw _ => True | Exited => False end) w.
Proof.
  unfold getForDelivery. apply wp_bind, wp_pg. intros n Hn. destruct w as [s l]. split; cbn.
  - intros rows p' tx' (ws & ((-> & ->) & _ & _) & -> & ->). unfold for_worker, tables_of. cbn.
    destruct (worker_row _ id) as [row|]; apply wp_ret; (split; [|done]); repeat split; try (cbn in *; lia); cbn; by destruct (s_pg s).
  - intros e p' tx' _ [-> [->|(rows & (ws & ((-> & ->) & _ & _) & -> & _))]]; (split; [|done]);
      repeat split; try (cbn in *; lia); cbn; by destruct (s_pg s).
Qed.

(** [delivery_effect T id T' sent fin]: what a run of the processor on the
    tables [T] may leave: the tables [T'] and the requests [sent]. [fin] is
    whether the delivery was found or made final. *)
Inductive delivery_effect (T : tables) (id : string) : tables -> list http_request -> bool -> Prop :=
| eff_nothing : delivery_effect T id T [] false
| eff_settled : for_worker T id = None \/ (exists d, for_worker T id = Some d /\ settled d = true) ->
    delivery_effect T id T [] true
| eff_circuit_open d now next t0 T' :
    for_worker T id = Some d -> settled d = false -> endpointActive d = true ->
    recorded (circuit_input id d now next) t0 T T' ->
    delivery_effect T id T' [] false
| eff_announced d t0 :
    for_worker T id = Some d -> settled d = false -> endpointActive d = true ->
    delivery_effect T id (announced id d t0 T) [] false
| eff_sent d t0 now :
    for_worker T id = Some d -> settled d = false -> endpointActive d = true ->
    delivery_effect T id (announced id d t0 T) [attempt_request cfg hmac id d now] false
| eff_attempted d t0 now lost r startedAt finishedAt next t1 T' :
    for_worker T id = Some d -> settled d = false -> endpointActive d = true ->
    recorded (attempt_input id d (judge cfg lost r) startedAt finishedAt next) t1 (announced id d t0 T) T' ->
    delivery_effect T id T' [attempt_request cfg hmac id d now] (is_success (v_outcome (judge cfg lost r))).

(** The post-condition of the processor and its parts, from [w]. *)
Definition worker_post (w : world) (id : string) {A} (o : outcome exn A) (w' : world) : Prop :=
  idle w' /\ exists sent fin, s_sent w'.1 = s_sent w.1 ++ sent /\
    delivery_effect (tables_of w) id (tables_of w') sent fin /\
    match o with Returned _ => fin = true | _ => True end.

Lemma worker_post_same (w w1 w2 : world) id {A B} (o1 : outcome exn A) (o2 : outcome exn B) :
  worker_post w id o1 w1 -> db_same w1 w2 ->
  (match o2 with Returned _ => exists a, o1 = Returned a | _ => True end) ->
  worker_post w id o2 w2.
Proof.
  intros (Hi & sent & fin & Hs & He & Ho) Hd H2. split; [by eapply db_same_idle|].
  exists sent, fin. split; [by rewrite (db_same_sent _ _ Hd)|]. rewrite (db_same_tables _ _ Hd). split; [done|].
  destruct o2; [|done..]. by destruct H2 as [x ->].
Qed.

Lemma worker_post_nothing (w w1 : world) id {A} (o : outcome exn A) :
  idle w -> db_same w w1 -> (forall a, o <> Returned a) -> worker_post w id o w1.
Proof.
  intros Hi Hd Hne. split; [by eapply db_same_idle|]. exists [], false.
  rewrite (db_same_sent _ _ Hd), (db_same_tables _ _ Hd), app_nil_r. split; [done|]. split; [constructor|].
  destruct o as [x|e|]; [by destruct (Hne x)|done..].
Qed.

(** A transaction of the worker that throws or returns leaves, when it left
    its writes, tables of a known effect. *)
Lemma worker_post_sql (w w1 w2 : world) id {A B} (H : Z -> A -> list write -> Prop) (o : outcome exn A)
    (o2 : outcome exn B) sent fin1 fin2 :
  sql_outcome w1 H o w2 ->
  s_sent w1.1 = s_sent w.1 ++ sent ->
  delivery_effect (tables_of w) id (tables_of w1) sent fin1 ->
  (forall a t0 ws, H t0 a ws ->
     delivery_effect (tables_of w) id (apply_writes (tables_of w1) ws) sent fin2) ->
  (forall x, o2 = Returned x -> fin2 = true /\ exists a, o = Returned a) ->
  worker_post w id o2 w2.
Proof.
  intros ((_ & _ & Hs & _) & Hi & Ho) Hsent He1 He2 Ho2. split; [done|].
  destruct o as [a|e|]; [| |done].
  - destruct Ho as (t0 & ws & _ & HH & HT). exists sent, fin2. split; [congruence|]. rewrite HT.
    split; [by eapply He2|]. destruct o2; [|done..]. by destruct (Ho2 a0 eq_refl).
  - assert (match o2 with Returned _ => False | _ => True end) as Hn.
    { destruct o2; [|done..]. by destruct (Ho2 a eq_refl) as [_ [? ?]]. }
    destruct Ho as [HT|(a & t0 & ws & _ & HH & HT)].
    + exists sent, fin1. split; [congruence|]. rewrite HT. split; [done|]. by destruct o2.
    + exists sent, fin2. split; [congruence|]. rewrite HT. split; [by eapply He2|]. by destruct o2.
Qed.

Definition pickup_post (w : world) (id : string) (o : outcome exn (option (DeliveryForWorker * BreakerState)))
    (w' : world) : Prop :=
  match o with
  | Returned None => db_same w w' /\
      (for_worker (tables_of w) id = None \/ exists d, for_worker (tables_of w) id = Some d /\ settled d = true)
  | Returned (Some (d, br)) => db_same w w' /\
      for_worker (tables_of w) id = Some d /\ settled d = false /\ endpointActive d = true
  | Threw _ => worker_post w id o w'
  | Exited => False
  end.

Lemma wp_pickup j token (w : world) :
  idle w -> wp env (pickup cfg j token) (pickup_post w (job_deliveryId j)) w.
Proof using RedisLaws0.
  intros Hidle. unfold pickup. apply wp_bind. eapply wp_mono; [apply wp_getForDelivery|].
  intros [r|e|] w1 [Hd1 Hr]; cbn [after]; [| |done]; last first.
  { apply worker_post_nothing; [done|done|by intros]. }
  destruct r as [d|]; [|apply wp_ret; split; [done|by left]].
  destruct (settled d) eqn:Hst; unfold settled in Hst; rewrite Hst.
  { apply wp_ret. split; [done|]. right. eauto. }
  assert (forall A (o : outcome exn A) w2, db_same w1 w2 -> (forall a, o <> Returned a) -> worker_post w (job_deliveryId j) o w2) as Hnone.
  { intros A o w2 H2 Hne. apply worker_post_nothing; [done|by etrans|done]. }
  destruct (endpointActive d) eqn:Hact; cbn [negb]; last first.
  { apply wp_quiet_bind; [quiet_tac|intros; by apply Hnone|]. intros w2 now H2.
    apply wp_quiet_bind; [quiet_tac|intros; apply Hnone; [by etrans|done]|]. intros w3 u H3.
    apply wp_throw. apply Hnone; [by etrans|done]. }
  apply wp_quiet_bind; [quiet_tac|intros; by apply Hnone|]. intros w2 br H2.
  destruct (bool_decide (br = open)).
  - apply wp_quiet_bind; [quiet_tac|intros; apply Hnone; [by etrans|done]|]. intros w3 now H3.
    apply wp_quiet_bind; [quiet_tac|intros; apply Hnone; [by etrans; [|etrans]|done]|]. intros w4 next H4.
    assert (db_same w w4) as H by (by etrans; [|etrans; [|etrans]]).
    apply wp_bind. eapply wp_mono; [apply wp_recordAttempt; by eapply db_same_idle|].
    assert (forall o w5 e, sql_outcome w4 (recordAttempt_writes (tables_of w4) (circuit_input (job_deliveryId j) d now next)) o w5 ->
      worker_post w (job_deliveryId j) (Threw e : outcome exn (option (DeliveryForWorker * BreakerState))) w5) as Hrec.
    { intros o w5 e Ho. eapply worker_post_sql; [exact Ho| | |..].
      - by rewrite (db_same_sent _ _ H), app_nil_r.
      - rewrite (db_same_tables _ _ H). constructor.
      - intros a t0 ws Hws. rewrite (db_same_tables _ _ H) in *. eapply eff_circuit_open; [done|done|done|].
        by eapply recordAttempt_writes_recorded.
      - done. }
    intros [[]|e|] w5 Ho; cbn; [apply wp_throw|..]; [by eapply Hrec|by eapply Hrec|by destruct Ho as (_ & _ & [])].
  - apply wp_quiet_bind; [quiet_tac|intros; apply Hnone; [by etrans|done]|]. intros w3 acq H3.
    destruct acq; [apply wp_ret; split; [by etrans; [|etrans]|]; done|].
    apply wp_quiet_bind; [quiet_tac|intros; apply Hnone; [by etrans; [|etrans]|done]|]. intros w4 u H4.
    apply wp_quiet_bind; [quiet_tac|intros; apply Hnone; [by etrans; [|etrans; [|etrans]]|done]|]. intros w5 now H5.
    apply wp_quiet_bind; [quiet_tac|intros; apply Hnone; [by etrans; [|etrans; [|etrans; [|etrans]]]|done]|]. intros w6 x H6.
    apply wp_throw, Hnone; [by etrans; [|etrans; [|etrans; [|etrans]]]|done].
Qed.

(** The same database and session, with some more requests sent. *)
Definition net (w w' : world) (sent : list http_request) : Prop :=
  s_pg w'.1 = s_pg w.1 /\ s_sent w'.1 = s_sent w.1 ++ sent /\ l_tx w'.2 = l_tx w.2 /\ l_tid w'.2 = l_tid w.2.

Lemma net_db_same (w w1 w2 : world) sent : net w w1 sent -> db_same w1 w2 -> net w w2 sent.
Proof. intros (?&?&?&?) (?&?&?&?&?). repeat split; congruence. Qed.

Lemma net_start (w w1 : world) : db_same w w1 -> net w w1 [].
Proof. intros (?&?&?&?&?). repeat split; rewrite ?app_nil_r; congruence. Qed.

Lemma net_send (w w1 : world) sent r : net w w1 sent ->
  net w (with_sent (s_sent w1.1 ++ [r]) w1.1, w1.2) (sent ++ [r]).
Proof. intros (?&H&?&?). repeat split; cbn; try done. by rewrite H, app_assoc. Qed.

Lemma wp_alongside_quiet {A} id tok (fn : io A) (w w1 : world) sent : forall lost sched,
  issues quiet fn -> net w w1 sent ->
  wp env (alongside cfg id tok lost sched fn) (fun _ w' => net w w' sent) w1.
Proof.
  revert w1. induction fn as [a|e| |c k IH]; intros w1 lost sched Hq Hn; cbn [alongside]; [done..|].
  destruct Hq as [Hc Hk]. apply wp_alongside_step; intros; [by eapply net_db_same..|].
  apply IH; [done|]. eapply net_db_same; [by eapply net_db_same|]. by eapply quiet_db_same.
Qed.

Lemma wp_heartbeat_deliver id tok sched url body hs (w : world) :
  wp env (withLockHeartbeat cfg id tok sched (deliver cfg url body hs)) (fun o w' =>
    exists sent, net w w' sent /\
      match o with
      | Returned _ => sent = [delivery_request cfg url body hs]
      | _ => sent = [] \/ sent = [delivery_request cfg url body hs]
      end) w.
Proof.
  unfold withLockHeartbeat. apply wp_bind.
  eapply (wp_mono _ _ (fun o w' => exists sent, net w w' sent /\
      match o with
      | Returned _ => sent = [delivery_request cfg url body hs]
      | _ => sent = [] \/ sent = [delivery_request cfg url body hs]
      end)); last first.
  { intros [r|e|] w1 (sent & Hn & Hs); cbn; [|by exists sent..].
    apply wp_bind. eapply wp_mono; [apply wp_beats|].
    intros [l|e|] w2 H2; cbn; [apply wp_ret|..]; exists sent; (split; [by eapply net_db_same|auto]). }
  set (handler := fun err : exn => Throw (DeliverError (classify err) (exn_message err)) : io DeliverResult).
  set (rest := fun startedAt : Z => let* statusCode := http_head in
              let* raw := http_body in
              let* now := date_now in
              Ret {| dr_status := statusCode;
                     dr_body := str_take (Z.to_nat (MAX_RESPONSE_BODY_BYTES cfg)) raw;
                     dr_latencyMs := now - startedAt |} : io DeliverResult).
  change (deliver cfg url body hs) with
    (Vis DateNow (fun r => bind (match r with inl e => Throw e | inr x => Ret x end) (fun startedAt =>
       Vis (HttpSend (delivery_request cfg url body hs)) (fun r =>
         try_catch (bind (match r with inl e => Throw e | inr x => Ret x end) (fun _ => rest startedAt)) handler)))
     : io DeliverResult).
  apply wp_alongside_step; [intros; exists []; split; [by apply net_start|by left]..|].
  intros w1 l r w2 H1 (s2 & (n & Hn & ->) & He). destruct r as [e|startedAt]; [by destruct He|].
  destruct He as [-> ->].
  assert (net w (with_now n w1.1, w1.2) []) as H2 by (eapply net_db_same; [by apply net_start|]; by repeat split).
  change (bind (Ret ?x) ?f) with (f x).
  apply wp_alongside_step; [intros; exists []; split; [by eapply net_db_same|by left]..|].
  intros w3 l3 r w4 H3 (s4 & (n4 & Hn4 & ->) & He). destruct r as [e|[]]; [by destruct He|]. cbn in He. subst w4.
  eapply wp_mono; [apply (wp_alongside_quiet _ _ _ w _ [delivery_request cfg url body hs])|].
  - unfold rest, handler. change (bind (Ret ?x) ?f) with (f x). quiet_tac.
  - apply (net_send _ (with_now n4 w3.1, w3.2) []).
    eapply net_db_same; [by eapply net_db_same|]. by repeat split.
  - intros o w5 H5. exists [delivery_request cfg url body hs]. split; [done|]. destruct o; auto.
Qed.

Lemma net_tables (w w1 : world) sent : net w w1 sent -> tables_of w1 = tables_of w.
Proof. intros (Hp & _). unfold tables_of. by rewrite Hp. Qed.

Lemma net_idle (w w1 : world) sent : net w w1 sent -> idle w -> idle w1.
Proof. intros (Hp & _ & Htx & Htid) [H1 H2]. split; [congruence|]. intros k. rewrite Hp, Htid. apply H2. Qed.

(** The attempt proper, in the tables it has announced itself in. *)
Lemma wp_attempt id tok sched d br (w : world) :
  idle w -> for_worker (tables_of w) id = Some d -> settled d = false -> endpointActive d = true ->
  wp env (attempt cfg hmac id tok sched d br) (worker_post w id) w.
Proof using RedisLaws0.
  intros Hidle Hd Hst Hact. unfold attempt. apply wp_bind.
  eapply wp_mono; [by apply wp_transition|].
  assert (forall a t0 ws, transition_writes id (dw_status d) DELIVERING worker ("attempt_" ++s show_Z (attemptNumber d)) (tables_of w) t0 a ws ->
    delivery_effect (tables_of w) id (apply_writes (tables_of w) ws) [] false) as Hann.
  { intros [] t0 ws [_ ->]. by apply (eff_announced _ _ d t0). }
  intros [[]|e|] w1 Ho; cbn; [| |by destruct Ho as (_ & _ & [])]; last first.
  { eapply (worker_post_sql _ w); [exact Ho|by rewrite app_nil_r|constructor|done|done]. }
  destruct Ho as ((_ & _ & Hs1 & _) & Hi1 & t0 & ws & _ & [_ ->] & HT1).
  change (tables_of w1 = announced id d t0 (tables_of w)) in HT1.
  assert (forall A (o : outcome exn A) w2 sent fin, net w1 w2 sent -> (forall a, o <> Returned a) ->
    delivery_effect (tables_of w) id (announced id d t0 (tables_of w)) sent fin -> worker_post w id o w2) as Hpost.
  { intros A o w2 sent fin Hn Hne He. split; [by eapply net_idle|]. exists sent, fin.
    split; [destruct Hn as (_ & -> & _); congruence|]. rewrite (net_tables _ _ _ Hn), HT1. split; [done|].
    destruct o as [a|e|]; [by destruct (Hne a)|done..]. }
  assert (delivery_effect (tables_of w) id (announced id d t0 (tables_of w)) [] false) as He0 by (by apply (eff_announced _ _ d t0)).
  apply wp_quiet_bind; [quiet_tac|intros; eapply Hpost; [by apply net_start|done|exact He0]|]. intros w2 now H2.
  apply wp_quiet_bind; [quiet_tac|intros; eapply Hpost; [eapply net_start; by etrans|done|exact He0]|]. intros w3 startedAt H3.
  assert (db_same w1 w3) as H13 by (by etrans).
  set (req := attempt_request cfg hmac id d now).
  assert (delivery_effect (tables_of w) id (announced id d t0 (tables_of w)) [req] false) as He1 by (by apply (eff_sent _ _ d t0 now)).
  assert (forall w0 sent, net w3 w0 sent -> net w1 w0 sent) as H31.
  { intros w0 sent (Hn1 & Hn2 & Hn3 & Hn4). destruct H13 as (?&?&?&?&?). repeat split; congruence. }
  apply wp_bind. eapply wp_mono; [apply wp_heartbeat_deliver|].
  change (delivery_request cfg (h_url req) (h_body req) (h_headers req)) with req.
  intros [[lost r]|e|] w4 (sent & Hn & Hs); cbn [after fst snd];
    [|destruct Hs as [-> | ->]; (eapply Hpost; [by apply H31|done|done])..].
  subst sent. apply H31 in Hn.
  assert (forall A (o : outcome exn A) w', db_same w4 w' -> (forall a, o <> Returned a) -> worker_post w id o w') as Hfail.
  { intros A o w' H Hne. eapply Hpost; [by eapply net_db_same|done|done]. }
  apply wp_quiet_bind; [quiet_tac|intros; by apply Hfail|]. intros w5 finishedAt H5.
  apply wp_quiet_bind; [quiet_tac|intros; apply Hfail; [by etrans|done]|]. intros w6 _ H6.
  apply wp_quiet_bind; [quiet_tac|intros; apply Hfail; [by etrans; [|etrans]|done]|]. intros w7 next H7.
  assert (net w1 w7 [req]) as Hn7 by (eapply net_db_same; [exact Hn|by etrans; [|etrans]]).
  apply wp_bind. eapply wp_mono; [apply wp_recordAttempt; by eapply net_idle|].
  set (v := judge cfg lost r).
  assert (forall B o w8 (o2 : outcome exn B),
    sql_outcome w7 (recordAttempt_writes (tables_of w7) (attempt_input id d v startedAt finishedAt next)) o w8 ->
    (forall x, o2 = Returned x -> is_success (v_outcome v) = true /\ exists a, o = Returned a) ->
    worker_post w id o2 w8) as Hrec.
  { intros B o w8 o2 Ho Ho2. eapply (worker_post_sql w w7 w8 id _ o o2 [req]); [exact Ho|..|exact Ho2].
    - destruct Hn7 as (_ & -> & _). congruence.
    - rewrite (net_tables _ _ _ Hn7), HT1. exact He1.
    - intros a t1 ws Hws. rewrite (net_tables _ _ _ Hn7), HT1 in *.
      by eapply eff_attempted; [..|eapply recordAttempt_writes_recorded]. }
  intros [[]|e|] w8 Ho; cbn; [|by eapply Hrec|by destruct Ho as (_ & _ & [])].
  fold v. destruct (is_success (v_outcome v)) eqn:Hok; [apply wp_ret|apply wp_throw]; eapply Hrec; eauto; done.
Qed.

Lemma quiet_cleanup id tok bucket : issues quiet (cleanup cfg id tok bucket).
Proof. unfold cleanup. quiet_tac. Qed.

Lemma wp_processDelivery sched j token (w : world) :
  idle w -> wp env (processDelivery cfg hmac sched j token) (worker_post w (job_deliveryId j)) w.
Proof using RedisLaws0.
  intros Hidle. unfold processDelivery.
  assert (forall A (o : outcome exn A) w2, db_same w w2 -> (forall a, o <> Returned a) -> worker_post w (job_deliveryId j) o w2) as Hnone
    by (intros; by apply worker_post_nothing).
  apply wp_quiet_bind; [quiet_tac|intros; by apply Hnone|]. intros w1 lock H1.
  destruct (Lock.acquired lock); cbn [negb]; last first.
  { apply wp_quiet_bind; [quiet_tac|intros; apply Hnone; [by etrans|done]|]. intros w2 now H2.
    apply wp_quiet_bind; [quiet_tac|intros; apply Hnone; [by etrans; [|etrans]|done]|]. intros w3 _ H3.
    apply wp_throw, Hnone; [by etrans; [|etrans]|done]. }
  assert (forall w2 id b (Q : outcome exn unit -> world -> Prop),
    (forall fo w3, fo <> Exited -> db_same w2 w3 -> Q fo w3) -> wp env (cleanup cfg id (Lock.token lock) b) Q w2) as Hclean.
  { intros w2 id b Q HQ. eapply wp_mono; [apply wp_quiet, quiet_cleanup|]. intros fo w3 [Hne Hd]. by apply HQ. }
  assert (idle w1) as Hi1 by (by eapply db_same_idle).
  assert (forall A (o : outcome exn A) w2, worker_post w1 (job_deliveryId j) o w2 -> worker_post w (job_deliveryId j) o w2) as Hw1.
  { intros A o w2. unfold worker_post. by rewrite (db_same_tables _ _ H1), (db_same_sent _ _ H1). }
  apply wp_bind. unfold settle. apply wp_try_catch, wp_bind. eapply wp_mono; [by apply wp_pickup|].
  intros [[[d br]|]|e|] w2 Hp; cbn [after pickup_post] in *; [| | |done]; apply wp_ret.
  - destruct Hp as (H2 & Hd & Hst & Hact).
    assert (worker_post w (job_deliveryId j) = worker_post w2 (job_deliveryId j) (A := unit)) as ->.
    { assert (db_same w w2) as H by (by etrans). unfold worker_post. by rewrite (db_same_tables _ _ H), (db_same_sent _ _ H). }
    apply wp_try_finally. eapply wp_mono; [apply wp_attempt; [by eapply db_same_idle| |done|done]|].
    { by rewrite (db_same_tables _ _ H2). }
    intros [[]|e|] w3 Ho; [| |done]; apply Hclean; intros fo w4 Hne H4;
      destruct fo; try done; (eapply worker_post_same; [exact Ho|exact H4|eauto; done]).
  - destruct Hp as [H2 Hfin]. apply Hclean. intros fo w3 Hne H3.
    assert (db_same w w3) as H by (by etrans; [|etrans]). split; [by eapply db_same_idle|].
    exists [], true. rewrite (db_same_sent _ _ H), (db_same_tables _ _ H), app_nil_r. split; [done|].
    rewrite (db_same_tables _ _ H1) in Hfin. split; [by constructor|]. by destruct fo.
  - apply wp_bind. apply Hclean. intros fo w3 Hne H3.
    destruct fo; cbn; try done; [apply wp_throw|]; apply Hw1; (eapply worker_post_same; [exact Hp|exact H3|done]).
Qed.

Lemma processDelivery_idle sched j token (w w' : world) o :
  idle w -> exec env (processDelivery cfg hmac sched j token) w o w' -> idle w'.
Proof using RedisLaws0.
  intros Hi Hx. pose proof (wp_processDelivery sched j token w Hi) as H. rewrite wp_exec in H. apply (H _ _ Hx).
Qed.
End Effects.

(** ** Properties *)

Section Properties.
Context {RS BS : Type} `{!RedisServer RS} `{!RedisLaws RS} `{!BullMQ BS}.
Abbreviation world := (world RS BS).
Context (cfg : Config) (hmac : string -> string -> string).

(** C1: everything a run of the processor may leave behind, whatever the
    services answer, whatever fails and however the heartbeats fall: nothing;
    nothing because the delivery is missing or final; one recorded
    CIRCUIT_OPEN attempt and no request; the delivery announced DELIVERING
    with no request, or with one; or that one request and one recorded
    attempt whose outcome, status and texts are those [judge] derives from
    the answer. The request is the one signed for the stored delivery. No
    transaction or row lock is left, and the call returns normally only when
    the delivery was final already or has just been delivered. *)
Theorem processDelivery_effects (sched : schedule) (j : Job) (token : option string)
    (w w' : world) (o : outcome exn unit) :
  idle w -> exec env (processDelivery cfg hmac sched j token) w o w' ->
  idle w' /\ exists sent fin, s_sent w'.1 = s_sent w.1 ++ sent /\
    delivery_effect cfg hmac (tables_of w) (job_deliveryId j) (tables_of w') sent fin /\
    (o = Returned tt -> fin = true).
Proof.
  intros Hi. revert o w'. apply wp_exec. eapply wp_mono; [by apply wp_processDelivery|].
  intros o w' (Hi' & sent & fin & Hs & He & Ho). split; [done|]. exists sent, fin.
  split; [done|]. split; [done|]. by intros ->.
Qed.

(** C4: retrying a finished delivery does nothing. A job for a delivery
    that is DELIVERED or in the DLQ changes no table and sends no request. *)
Theorem processDelivery_idempotent (sched : schedule) (j : Job) (token : option string)
    (d : DeliveryForWorker) (w w' : world) (o : outcome exn unit) :
  idle w -> for_worker (tables_of w) (job_deliveryId j) = Some d ->
  dw_status d = DELIVERED \/ dw_status d = DLQ ->
  exec env (processDelivery cfg hmac sched j token) w o w' ->
  tables_of w' = tables_of w /\ s_sent w'.1 = s_sent w.1.
Proof.
  intros Hi Hd Hst Hx. pose proof (wp_processDelivery cfg hmac sched j token w Hi) as H. rewrite wp_exec in H.
  destruct (H _ _ Hx) as (_ & sent & fin & Hs & He & _). rewrite Hs.
  assert (settled d = true) as Hset.
  { unfold settled. by destruct Hst as [-> | ->]. }
  inversion He; try (split; [done|by rewrite app_nil_r]); congruence.
Qed.

Lemma announced_lookup T id d t0 row :
  deliveries T !! id = Some row ->
  deliveries (announced id d t0 T) !! id = Some (set_status DELIVERING t0 row).
Proof. intros H. cbn. rewrite lookup_alter, decide_True, H by done. done. Qed.

Lemma recorded_lookup input t0 T T' row :
  recorded input t0 T T' -> deliveries T !! ra_deliveryId input = Some row ->
  exists next, opt_ts (ra_nextAttemptAt input) = Some next /\
  deliveries T' !! ra_deliveryId input = Some (set_attempted (ra_toStatus input) next t0 row).
Proof.
  intros (_ & _ & next & Hn & ->) H. exists next. split; [done|]. cbn.
  rewrite lookup_alter, decide_True, H by done. done.
Qed.

Lemma judge_success lost r :
  v_outcome (judge cfg lost r) = SUCCESS ->
  lost = false /\ exists res, r = inr res /\ 200 <= dr_status res < 300.
Proof.
  unfold judge. destruct lost; [done|]. destruct r as [[| | |[]|]|res]; try done. cbn.
  destruct ((200 <=? dr_status res) && (dr_status res <? 300)) eqn:E; [|done]. intros _.
  split; [done|]. exists res. split; [done|]. lia.
Qed.

Lemma for_worker_count T id d row :
  for_worker T id = Some d -> deliveries T !! id = Some row ->
  attemptCount d = d_attempt_count row /\ dw_status d = d_status row.
Proof.
  unfold for_worker, worker_row. intros H Hrow. rewrite Hrow in H. cbn in H.
  destruct (endpoints T !! d_endpoint_id row); [|done]. cbn in H.
  destruct (events T !! d_event_id row); [|done]. by injection H as <-.
Qed.

Lemma for_worker_row T id d :
  for_worker T id = Some d -> exists row, deliveries T !! id = Some row /\
    attemptCount d = d_attempt_count row /\ dw_status d = d_status row.
Proof.
  intros H. pose proof H as H'. unfold for_worker, worker_row in H'.
  destruct (deliveries T !! id) as [row|] eqn:Hrow; [|done]. exists row. split; [done|].
  by eapply for_worker_count.
Qed.

(** When a run turns a delivery that was not DELIVERED into one that is, it
    sent exactly its signed request and recorded one SUCCESS attempt with a
    2xx answer. *)
Lemma delivered_effect (sched : schedule) (j : Job) (token : option string)
    (row row' : delivery_row) (w w' : world) (o : outcome exn unit) :
  idle w -> deliveries (tables_of w) !! job_deliveryId j = Some row -> d_status row <> DELIVERED ->
  exec env (processDelivery cfg hmac sched j token) w o w' ->
  deliveries (tables_of w') !! job_deliveryId j = Some row' -> d_status row' = DELIVERED ->
  exists d now res startedAt finishedAt next,
    for_worker (tables_of w) (job_deliveryId j) = Some d /\ attemptNumber d = d_attempt_count row + 1 /\
    200 <= dr_status res < 300 /\
    s_sent w'.1 = s_sent w.1 ++ [attempt_request cfg hmac (job_deliveryId j) d now] /\
    delivery_attempts (tables_of w') = delivery_attempts (tables_of w) ++
      [attempt_of_input (attempt_input (job_deliveryId j) d (judge cfg false (inr res)) startedAt finishedAt next)].
Proof.
  intros Hi Hrow Hnd Hx Hrow' Hdel. pose proof (wp_processDelivery cfg hmac sched j token w Hi) as H. rewrite wp_exec in H.
  destruct (H _ _ Hx) as (_ & sent & fin & Hs & He & _).
  inversion He as [E1 E2 E3|Hf E1 E2 E3|d now next t0 T' Hd Hst Hact Hrec E1 E2 E3|d t0 Hd Hst Hact E1 E2 E3
    |d t0 now Hd Hst Hact E1 E2 E3|d t0 now lost r st fi next t1 T' Hd Hst Hact Hrec E1 E2 E3].
  1,2: rewrite <- E1, Hrow in Hrow'; congruence.
  - destruct (recorded_lookup _ _ _ _ _ Hrec Hrow) as (nx & _ & Hl). cbn in Hl. rewrite Hl in Hrow'.
    injection Hrow' as <-. done.
  - rewrite <- E1, (announced_lookup _ _ _ _ _ Hrow) in Hrow'. by injection Hrow' as <-.
  - rewrite <- E1, (announced_lookup _ _ _ _ _ Hrow) in Hrow'. by injection Hrow' as <-.
  - destruct (recorded_lookup _ _ _ _ _ Hrec (announced_lookup _ _ _ _ _ Hrow)) as (nx & _ & Hl). cbn in Hl.
    rewrite Hl in Hrow'. injection Hrow' as <-. cbn in Hdel.
    destruct (is_success (v_outcome (judge cfg lost r))) eqn:Hok; [|done].
    apply bool_decide_eq_true in Hok. destruct (judge_success _ _ Hok) as (-> & res & -> & Hres).
    exists d, now, res, st, fi, next. destruct (for_worker_count _ _ _ _ Hd Hrow) as [Hc _].
    split; [done|]. split; [unfold attemptNumber; lia|]. split; [done|]. split; [congruence|].
    by destruct Hrec as (_ & _ & nx' & _ & ->).
Qed.
End Properties.

(** ** Witnesses *)

Definition demo_job : Job := {| job_id := "d1"; job_deliveryId := "d1" |}.
Definition demo_schedule : schedule := {| during := [0; 0; 1]%nat; late := 1 |}.

(** The endpoint answers [n]. *)
Definition answering (n : Z) : oracle := {|
  o_random := 0; o_bytes := "token"; o_status := n; o_body := "body"; o_fail := fun _ => None |}.

Definition pending_world : mem_world := demo_world 1000 (demo_tables PENDING [] None) ∅ ∅.

Definition demo_run (o : oracle) (w : mem_world) : outcome exn unit * mem_world :=
  run_with (serve o) (processDelivery default_config toy_hmac demo_schedule demo_job None) w.

Lemma demo_run_exec o w :
  exec env (processDelivery default_config toy_hmac demo_schedule demo_job None) w (demo_run o w).1 (demo_run o w).2.
Proof. apply serve_exec. Qed.

Lemma processDelivery_effects_witness :
  (demo_run (answering 503) pending_world).1 = Threw (NewError "http_503") /\
  idle (demo_run (answering 503) pending_world).2.
Proof.
  split; [vm_compute; reflexivity|].
  exact (proj1 (processDelivery_effects default_config toy_hmac demo_schedule demo_job None pending_world _ _
    (demo_idle _ _ _ _) (demo_run_exec (answering 503) pending_world))).
Defined.

Definition delivered_world : mem_world := demo_world 1000 (demo_tables DELIVERED [demo_attempt 1] None) ∅ ∅.

Definition the_delivery (st : status) (n : Z) : DeliveryForWorker := {|
  dw_id := "d1"; dw_status := st; attemptCount := n; endpointId := "e1"; endpointUrl := "http://receiver/hook";
  signingSecret := "secret"; endpointActive := true; eventId := "v1"; eventType := "order.created";
  payload := JObj [("id", JNum "1")]; receivedAt := 0 |}.

Lemma processDelivery_idempotent_witness :
  (demo_run reliable delivered_world).1 = Returned tt /\
  tables_of (demo_run reliable delivered_world).2 = tables_of delivered_world.
Proof.
  split; [vm_compute; reflexivity|].
  refine (proj1 (processDelivery_idempotent default_config toy_hmac demo_schedule demo_job None (the_delivery DELIVERED 1)
    delivered_world _ _ (demo_idle _ _ _ _) _ (or_introl eq_refl) (demo_run_exec reliable delivered_world))).
  vm_compute. reflexivity.
Defined.
