(* ===== verification/WorkerProtocol.v ===== *)
(** * The protocol of the worker

    An automaton over the calls of [processDelivery] and their answers: what
    may be done before the lock is held, while it is held, and after it is
    given back; when the request may leave; and when a success may be
    written. [processDelivery] follows it whatever the services answer. *)

From S2P Require Import Prelude Async Config Json Dates Tables Queries Schema Redis Services Concrete Scripts.
From S2P Require Lock TokenBucket.
From S2P Require Import CircuitBreaker Repo Frames Signature Worker WorkerSpec.
From Stdlib Require Import ZArith QArith Lia String.
From stdpp Require Import prelude strings gmap.

Open Scope Z_scope.
Open Scope async_scope.

(** Where the attempt stands: nothing announced; DELIVERING written, then
    committed; the request sent; its head received; its body received; the
    call over, with its status; the call failed. *)
Inductive stage :=
| Fresh | Announcing | Announced | InCall
| Head (st : Z) | Body (st : Z) | Settled (st : Z) | Broken.

(** Where the job stands: before the lock (with the token it has drawn), turned
    away, holding it under a token (with the lock reported lost, or not, before
    the call was over), or having given it back. *)
Inductive phase :=
| Idle (drawn : option string) | Refused
| Held (tok : string) (g : stage) (lost : bool)
| Releasing (tok : string).

(** A 2xx answer, and the lock not reported lost. *)
Definition proven (g : stage) (lost : bool) : bool :=
  match g with Settled st => (200 <=? st) && (st <? 300) && negb lost | _ => false end.

(** The status that an attempt is recorded with is the one that was answered. *)
Definition answered_with (g : stage) (http : option Z) : bool :=
  match g with Settled st => bool_decide (http = Some st) | _ => false end.

(** A heartbeat is possible from the announcement on. *)
Definition beating (g : stage) : bool := match g with Fresh | Announcing => false | _ => true end.

(** What an answered [extend] says of the lock, before the call is over. *)
Definition saw_lost (g : stage) (lost : bool) (r : exn + Z) : bool :=
  match g, r with
  | Settled _, _ => lost
  | _, inr n => lost || negb (n =? 1)
  | _, inl _ => lost
  end.

(** The calls allowed while the lock of [id] is held under [tok]. *)
Definition hstep (id tok : string) (g : stage) (lost : bool) (c : cmd) : exn + resp c -> option phase :=
  let same := Some (Held tok g lost) in
  let only (b : bool) := if b then same else None in
  match c return exn + resp c -> option phase with
  | Redis (RCmd rc) => fun _ => only (negb (bool_decide (Lock.lockKey id ∈ rcmd_keys rc)))
  | Redis (EVALSHA _ keys args) => fun r =>
      if bool_decide (keys = [Lock.lockKey id]) then
        match args with
        | [t] => if String.eqb t tok then Some (Releasing tok) else None
        | [t; _] => if String.eqb t tok && beating g then Some (Held tok g (saw_lost g lost r)) else None
        | _ => None
        end
      else only (negb (bool_decide (Lock.lockKey id ∈ keys)))
  | Redis (SCRIPT_LOAD _) | ShaGet _ | ShaSet _ _ | MathRandom | AbortSignal | MoveToDelayed _ _ _ => fun _ => same
  | Pg (CLIENT_QUERY (UpdateStatus i st)) => fun _ =>
      match g with
      | Fresh => if String.eqb i id && bool_decide (st = DELIVERING) then Some (Held tok Announcing lost) else None
      | _ => None
      end
  | Pg (CLIENT_QUERY (InsertAttempt i _ o http _ _ _ _ _)) => fun _ =>
      only (String.eqb i id && (bool_decide (o <> SUCCESS) || proven g lost && answered_with g http))
  | Pg (CLIENT_QUERY (UpdateAttempted i st _)) => fun _ =>
      only (String.eqb i id && (bool_decide (st <> DELIVERED) || proven g lost))
  | Pg (CLIENT_QUERY (InsertTransition i _ st _ _)) => fun _ =>
      only (String.eqb i id && (bool_decide (st <> DELIVERED) || proven g lost))
  | Pg (CLIENT_QUERY _) => fun _ => None
  | Pg (POOL_QUERY (SelectForWorker i)) => fun _ => only (String.eqb i id)
  | Pg (POOL_QUERY _) => fun _ => None
  | Pg COMMIT => fun r =>
      match g, r with
      | Announcing, inr _ => Some (Held tok Announced lost)
      | _, _ => same
      end
  | Pg _ => fun _ => same
  | HttpSend _ => fun _ => match g with Announced => Some (Held tok InCall lost) | _ => None end
  | HttpHead => fun r =>
      match g with
      | InCall => Some (Held tok (match r with inr st => Head st | inl _ => Broken end) lost)
      | _ => None
      end
  | HttpBody => fun r =>
      match g with
      | Head st => Some (Held tok (match r with inr _ => Body st | inl _ => Broken end) lost)
      | _ => None
      end
  | DateNow => fun _ => match g with Body st => Some (Held tok (Settled st) lost) | _ => same end
  | Redis PING | RandomBytes _ | QueueAdd _ _ _ _ | JobCounts _ _ | Log _ _ => fun _ => None
  end.

Definition pstep (id : string) (s : phase) (e : event resp exn) : option phase :=
  let '(Ev c r) := e in
  match s with
  | Idle drawn =>
      match c return exn + resp c -> option phase with
      | RandomBytes _ => fun r => Some (Idle (match r with inr bytes => Some (to_hex bytes) | inl _ => None end))
      | Redis (RCmd (SET k v (Some (PX _)) true)) => fun r =>
          if String.eqb k (Lock.lockKey id) && bool_decide (drawn = Some v)
          then Some (match r with inr true => Held v Fresh false | _ => Refused end) else None
      | _ => fun _ => None
      end r
  | Refused =>
      match c with
      | DateNow | MoveToDelayed _ _ _ => Some Refused
      | _ => None
      end
  | Held tok g lost => hstep id tok g lost c r
  | Releasing tok =>
      match c with
      | Redis (EVALSHA _ keys args) =>
          if bool_decide (keys = [Lock.lockKey id] /\ args = [tok]) then Some (Releasing tok) else None
      | Redis (SCRIPT_LOAD _) | ShaSet _ _ => Some (Releasing tok)
      | _ => None
      end
  end.

(** ** Calls that leave the automaton where it is *)

Definition neutral (id : string) (c : cmd) : Prop :=
  match c with
  | Redis (RCmd rc) => Lock.lockKey id ∉ rcmd_keys rc
  | Redis (EVALSHA _ keys _) => Lock.lockKey id ∉ keys
  | Redis (SCRIPT_LOAD _) | ShaGet _ | ShaSet _ _ | MathRandom | AbortSignal | MoveToDelayed _ _ _ => True
  | Pg CONNECT | Pg BEGIN | Pg ROLLBACK | Pg CLIENT_RELEASE => True
  | DateNow => True
  | _ => False
  end.

Definition not_body (g : stage) : Prop := match g with Body _ => False | _ => True end.

Lemma neutral_held id tok g lost c r :
  not_body g -> neutral id c -> pstep id (Held tok g lost) (Ev c r) = Some (Held tok g lost).
Proof.
  intros Hg Hc.
  destruct c as [[rc|sha keys args|sc|]|[| | | | |q|q]|q nm d i|q ty|i ts tk| | |n'|rq| | | |sc|sc sha|lv m];
    cbn in Hc |- *; try done.
  - by rewrite bool_decide_false.
  - rewrite !bool_decide_false; [done|done|]. intros ->. set_solver.
  - by destruct g.
Qed.

Ltac lock_key_ne :=
  cbn [neutral rcmd_keys]; rewrite ?not_elem_of_cons;
  repeat split; first [apply not_elem_of_nil | discriminate].

Ltac neutral_tac := issues_tac ltac:(first [exact I | lock_key_ne]).

Lemma neutral_checkState id cfg ep : issues (neutral id) (checkState cfg ep).
Proof. neutral_tac. Qed.

Lemma neutral_feed_breaker id cfg br ep o : issues (neutral id) (feed_breaker cfg br ep o).
Proof. unfold feed_breaker. neutral_tac. Qed.

Lemma neutral_tryAcquire id cfg ep : issues (neutral id) (TokenBucket.tryAcquire cfg ep).
Proof. neutral_tac. Qed.

Lemma neutral_bucket_release id cfg ep : issues (neutral id) (TokenBucket.release cfg ep).
Proof. neutral_tac. Qed.

(** ** The programs follow the automaton *)

Section Conform.
Context (id : string).
Abbreviation conforms := (conforms (pstep id)).

Lemma conforms_neutral {A B} (p : io A) (f : A -> io B) Q tok g lost :
  issues (neutral id) p -> not_body g ->
  (forall e, Q (Threw e) (Held tok g lost)) ->
  (forall a, conforms (f a) Q (Held tok g lost)) ->
  conforms (bind p f) Q (Held tok g lost).
Proof.
  intros Hp Hg He Hf. apply conforms_bind. eapply conforms_mono.
  { apply (conforms_issues (pstep id) (neutral id)); [|exact Hp]. intros c r Hc. by apply neutral_held. }
  intros [a|e|] s' [Hne ->]; [apply Hf|apply He|done].
Qed.

(** One call, with the state it leads to for every answer. *)
Lemma conforms_call {B} (c : cmd) (f : resp c -> io B) Q s (next : exn + resp c -> phase) :
  (forall r, pstep id s (Ev c r) = Some (next r)) ->
  (forall e, Q (Threw e) (next (inl e))) ->
  (forall x, conforms (f x) Q (next (inr x))) ->
  conforms (bind (await c) f) Q s.
Proof.
  intros Hs He Hf. apply conforms_bind, conforms_perform. intros r. exists (next r). split; [apply Hs|].
  destruct r; [apply He|apply Hf].
Qed.

(** A failed or finished stage in which the program may still clean up. *)
Definition held (tok : string) (s : phase) : Prop := exists g lost, s = Held tok g lost /\ not_body g.

Lemma held_intro tok g lost : not_body g -> held tok (Held tok g lost).
Proof. intros H. by exists g, lost. Qed.

Definition commit_stage (g : stage) : stage := match g with Announcing => Announced | g => g end.

Lemma conforms_withTx {A} (fn : io A) (R : A -> stage -> Prop) tok g lost :
  not_body g ->
  conforms fn (fun o s => match o with
    | Returned a => exists g', s = Held tok g' lost /\ not_body g' /\ R a g'
    | Threw _ => held tok s
    | Exited => False end) (Held tok g lost) ->
  conforms (withTx fn) (fun o s => match o with
    | Returned a => exists g', R a g' /\ not_body g' /\ s = Held tok (commit_stage g') lost
    | Threw _ => held tok s
    | Exited => False end) (Held tok g lost).
Proof.
  intros Hg Hfn. unfold withTx. apply conforms_neutral; [neutral_tac|done|intros; by apply held_intro|].
  intros _. apply conforms_try_finally, conforms_try_catch.
  assert (forall (o : outcome exn A) s g' lost', s = Held tok g' lost' -> not_body g' ->
    match o with Returned a => exists g0, R a g0 /\ not_body g0 /\ s = Held tok (commit_stage g0) lost
               | Threw _ => True | Exited => False end ->
    conforms (pg CLIENT_RELEASE) (fun fo s' => match fo with
      | Returned _ => match o with
          | Returned a => exists g0, R a g0 /\ not_body g0 /\ s' = Held tok (commit_stage g0) lost
          | Threw _ => held tok s' | Exited => False end
      | Threw _ => held tok s'
      | Exited => False end) s) as Hrel.
  { intros o s g' lost' -> Hg' Ho. eapply conforms_mono.
    { apply (conforms_issues (pstep id) (neutral id)); [|neutral_tac]. intros c r Hc. by apply neutral_held. }
    intros [[]|e|] s' [Hne ->]; [|by apply held_intro|done]. destruct o; [done|by apply held_intro|done]. }
  assert (forall e s, held tok s -> conforms (pg ROLLBACK ;;; Throw e : io A) (fun o s' =>
    match o with
    | Returned _ => False
    | Threw _ => held tok s'
    | Exited => False end) s) as Hrb.
  { intros e s (g' & lost' & -> & Hg'). apply conforms_neutral; [neutral_tac|done|intros; by apply held_intro|].
    intros _. by apply held_intro. }
  eapply (conforms_mono _ _ (fun o s => match o with
    | Returned a => exists g', R a g' /\ not_body g' /\ s = Held tok (commit_stage g') lost
    | Threw _ => held tok s
    | Exited => False end)).
  - apply conforms_neutral; [neutral_tac|done|intros; by apply held_intro|]. intros _.
    apply conforms_bind. eapply conforms_mono; [exact Hfn|].
    intros [a|e|] s Ho; [|done|done]. destruct Ho as (g' & -> & Hg' & HR).
    apply (conforms_call (Pg COMMIT) _ _ _ (fun r => match r with
      | inr _ => Held tok (commit_stage g') lost | inl _ => Held tok g' lost end)).
    + intros [e|[]]; by destruct g'.
    + intros e. by apply held_intro.
    + intros _. by exists g'.
  - intros [a|e|] s Ho; [|clear Hrel|done].
    + destruct Ho as (g' & HR & Hg' & ->). eapply conforms_mono; [apply (Hrel (Returned a) _ (commit_stage g') lost eq_refl)|].
      * by destruct g'.
      * by exists g'.
      * intros [] s'; done.
    + eapply conforms_mono; [by apply Hrb|]. intros [a|e'|] s' Ho'; [done| |done].
      destruct Ho' as (g' & lost' & -> & Hg').
      eapply conforms_mono.
      { apply (conforms_issues (pstep id) (neutral id)); [|neutral_tac]. intros c r Hc. by apply neutral_held. }
      intros [[]|e2|] s2 [Hne ->]; [by apply held_intro|by apply held_intro|done].
Qed.

Lemma conforms_transition from reason tok lost :
  conforms (transition id from DELIVERING worker reason) (fun o s => match o with
    | Returned _ => s = Held tok Announced lost
    | Threw _ => held tok s
    | Exited => False end) (Held tok Fresh lost).
Proof.
  eapply conforms_mono; [apply (conforms_withTx _ (fun _ g => g = Announcing) tok Fresh lost I)|].
  - apply (conforms_call (Pg (CLIENT_QUERY (UpdateStatus id DELIVERING))) _ _ _ (fun _ => Held tok Announcing lost)).
    + intros r. cbn. by rewrite String.eqb_refl.
    + intros e. by apply held_intro.
    + intros _. apply (conforms_call (Pg (CLIENT_QUERY (InsertTransition id (Some from) DELIVERING reason worker))) _ _ _
        (fun _ => Held tok Announcing lost)).
      * intros r. cbn. by rewrite String.eqb_refl.
      * intros e. by apply held_intro.
      * intros _. by exists Announcing.
  - intros [u|e|] s Ho; [|done|done]. by destruct Ho as (g & -> & _ & ->).
Qed.

(** An attempt may be recorded when it is no success, or a proven one. *)
Lemma conforms_recordAttempt input tok g lost :
  not_body g -> g <> Announcing -> ra_deliveryId input = id ->
  (ra_outcome input <> SUCCESS /\ ra_toStatus input <> DELIVERED) \/
    proven g lost = true /\ answered_with g (ra_httpStatus input) = true ->
  conforms (recordAttempt input) (fun o s => match o with
    | Returned _ => s = Held tok g lost
    | Threw _ => held tok s
    | Exited => False end) (Held tok g lost).
Proof.
  intros Hg Hna Hid Hok.
  eapply conforms_mono; [apply (conforms_withTx _ (fun _ g' => g' = g) tok g lost Hg)|].
  - rewrite Hid.
    assert (bool_decide (ra_outcome input <> SUCCESS) || proven g lost && answered_with g (ra_httpStatus input) = true) as H1.
    { destruct Hok as [[H _]|[-> ->]]; [by rewrite bool_decide_true|by rewrite orb_true_r]. }
    assert (bool_decide (ra_toStatus input <> DELIVERED) || proven g lost = true) as H2.
    { destruct Hok as [[_ H]|[-> _]]; [by rewrite bool_decide_true|by rewrite orb_true_r]. }
    apply (conforms_call (Pg (CLIENT_QUERY (InsertAttempt id (ra_attemptNumber input) (ra_outcome input)
      (ra_httpStatus input) (ra_responseBody input) (ra_errorMessage input) (ra_latencyMs input)
      (ra_startedAt input) (ra_finishedAt input)))) _ _ _ (fun _ => Held tok g lost)).
    { intros r. cbn. by rewrite String.eqb_refl, H1. }
    { intros e. by apply held_intro. }
    intros _. apply (conforms_call (Pg (CLIENT_QUERY (UpdateAttempted id (ra_toStatus input) (ra_nextAttemptAt input)))) _ _ _
      (fun _ => Held tok g lost)).
    { intros r. cbn. by rewrite String.eqb_refl, H2. }
    { intros e. by apply held_intro. }
    intros _. apply (conforms_call (Pg (CLIENT_QUERY (InsertTransition id (Some (ra_fromStatus input))
      (ra_toStatus input) (ra_reason input) worker))) _ _ _ (fun _ => Held tok g lost)).
    { intros r. cbn. by rewrite String.eqb_refl, H2. }
    { intros e. by apply held_intro. }
    intros _. by exists g.
  - intros [u|e|] s Ho; [|done|done]. destruct Ho as (g' & -> & _ & ->). by destruct g.
Qed.

(** The heartbeat, in time or late. *)
Definition lost_after (g : stage) (lost l : bool) : bool :=
  match g with Settled _ => lost | _ => lost || l end.

Lemma saw_lost_answer g lost n : saw_lost g lost (inr n) = lost_after g lost (negb (n =? 1)).
Proof. by destruct g. Qed.

Lemma lost_after_twice g lost l1 l2 : lost_after g (lost_after g lost l1) l2 = lost_after g lost (l1 || l2).
Proof. destruct g; cbn; try done; by rewrite orb_assoc. Qed.

Lemma conforms_extend cfg tok g lost :
  beating g = true ->
  conforms (Lock.extend cfg id tok) (fun o s => match o with
    | Returned b => s = Held tok g (lost_after g lost (negb b))
    | Threw _ => s = Held tok g lost
    | Exited => False end) (Held tok g lost).
Proof.
  intros Hg. unfold Lock.extend, evalExtendLock, eval_script.
  assert (forall sha, conforms (evalsha sha [Lock.lockKey id] [tok; show_Z (LOCK_TTL_MS cfg)]) (fun o s => match o with
    | Returned n => s = Held tok g (lost_after g lost (negb (n =? 1)))
    | Threw _ => s = Held tok g lost
    | Exited => False end) (Held tok g lost)) as Hsha.
  { intros sha. apply (conforms_perform (pstep id) (Redis (EVALSHA sha [Lock.lockKey id] [tok; show_Z (LOCK_TTL_MS cfg)]))). intros r. exists (Held tok g (saw_lost g lost r)). split.
    - cbn. by rewrite bool_decide_true, String.eqb_refl, Hg.
    - destruct r as [e|n]; [by destruct g|]. by rewrite saw_lost_answer. }
  apply conforms_bind. apply (conforms_call (ShaGet extend_lock_lua) _ _ _ (fun _ => Held tok g lost)); [done|done|].
  intros [sha|]; [|done]. apply conforms_try_catch. eapply conforms_mono; [apply Hsha|].
  intros [n|e|] s Ho; [by subst|subst s|done]. destruct (isNoScriptError e); [|done].
  apply (conforms_call (Redis (SCRIPT_LOAD extend_lock_lua)) _ _ _ (fun _ => Held tok g lost)); [done|done|].
  intros sha'. apply (conforms_call (ShaSet extend_lock_lua sha') _ _ _ (fun _ => Held tok g lost)); [done|done|].
  intros _. eapply conforms_mono; [apply Hsha|]. intros [n|e2|] s Ho; [by subst|done|done].
Qed.

Lemma conforms_beats cfg tok g n lost :
  beating g = true ->
  conforms (beats cfg id tok n) (fun o s => match o with
    | Returned l => s = Held tok g (lost_after g lost l)
    | Threw _ => False
    | Exited => True end) (Held tok g lost).
Proof.
  intros Hg. revert lost. induction n as [|n IH]; intros lost; cbn [beats].
  { change (Held tok g lost = Held tok g (lost_after g lost false)). destruct g; cbn; by rewrite ?orb_false_r. }
  apply conforms_bind. unfold beat. apply conforms_try_catch, conforms_bind.
  eapply conforms_mono; [by apply conforms_extend|]. intros [b|e|] s Ho; [subst s|done|done].
  assert (forall l, conforms (let* lost' := beats cfg id tok n in Ret (l || lost'))
    (fun o s => match o with Returned l => s = Held tok g (lost_after g lost l) | Threw _ => False | Exited => True end)
    (Held tok g (lost_after g lost l))) as Hrest.
  { intros l. apply conforms_bind. eapply conforms_mono; [apply IH|].
    intros [l'|e|] s Ho; [subst s|done|done]. apply (f_equal (Held tok g)), lost_after_twice. }
  destruct b; [apply Hrest|].
  apply (conforms_call AbortSignal _ _ _ (fun _ => Held tok g (lost_after g lost true))); [done|done|].
  intros _. apply Hrest.
Qed.

Lemma conforms_alongside_step {A} cfg tok lost sched c (k : exn + resp c -> io A) Q g :
  beating g = true -> (forall lost l, lost_after g lost l = lost || l) ->
  (forall s, Q Exited s) ->
  (forall lost r, exists s', pstep id (Held tok g lost) (Ev c r) = Some s' /\
     forall sched, conforms (alongside cfg id tok lost sched (k r)) Q s') ->
  conforms (alongside cfg id tok lost sched (Vis c k)) Q (Held tok g lost).
Proof.
  intros Hg Hl Hx Hk. cbn [alongside]. apply conforms_bind.
  eapply conforms_mono; [by apply conforms_beats|]. intros [l|e|] s Ho; [subst s|done|by apply Hx].
  rewrite Hl. intros r. destruct (Hk (lost || l) r) as (s' & -> & Hs'). apply Hs'.
Qed.

(** How a call under the heartbeat ends, and where that leaves the stage. *)
Definition call_over (tok : string) (o : outcome exn (bool * (exn + DeliverResult))) (s : phase) : Prop :=
  match o with
  | Returned (lost, inr res) => s = Held tok (Settled (dr_status res)) lost
  | Returned (_, inl _) => exists g lost, s = Held tok g lost /\ not_body g /\ beating g = true /\ g <> Announcing
  | Threw _ => False
  | Exited => True
  end.

Lemma call_failed tok g lost l e :
  not_body g -> beating g = true -> call_over tok (Returned (l, inl e)) (Held tok g lost).
Proof. intros H1 H2. exists g, lost. repeat split; try done. by intros ->. Qed.

Lemma conforms_deliver cfg tok sched url body hs lost :
  conforms (alongside cfg id tok lost sched (deliver cfg url body hs)) (call_over tok) (Held tok Announced lost).
Proof.
  set (handler := fun err : exn => Throw (DeliverError (classify err) (exn_message err)) : io DeliverResult).
  change (deliver cfg url body hs) with
    (Vis DateNow (fun r => bind (match r with inl e => Throw e | inr x => Ret x end) (fun startedAt =>
     Vis (HttpSend (delivery_request cfg url body hs)) (fun r =>
     try_catch (bind (match r with inl e => Throw e | inr x => Ret x end) (fun _ =>
     Vis HttpHead (fun r => bind (match r with inl e => Throw e | inr x => Ret x end) (fun statusCode =>
     Vis HttpBody (fun r => bind (match r with inl e => Throw e | inr x => Ret x end) (fun raw =>
     Vis DateNow (fun r => bind (match r with inl e => Throw e | inr x => Ret x end) (fun now =>
     Ret {| dr_status := statusCode;
            dr_body := str_take (Z.to_nat (MAX_RESPONSE_BODY_BYTES cfg)) raw;
            dr_latencyMs := now - startedAt |})))))))) handler)))
     : io DeliverResult).
  apply conforms_alongside_step; [done|done|done|]. intros l1 r. exists (Held tok Announced l1). split; [done|].
  intros sched1. destruct r as [e|startedAt]; [by apply call_failed|].
  apply conforms_alongside_step; [done|done|done|]. intros l2 r. exists (Held tok InCall l2). split; [done|].
  intros sched2. destruct r as [e|[]]; [by apply call_failed|].
  apply conforms_alongside_step; [done|done|done|]. intros l3 r.
  exists (Held tok (match r with inr st => Head st | inl _ => Broken end) l3). split; [by destruct r|].
  intros sched3. destruct r as [e|st]; [by apply call_failed|].
  apply conforms_alongside_step; [done|done|done|]. intros l4 r.
  exists (Held tok (match r with inr _ => Body st | inl _ => Broken end) l4). split; [by destruct r|].
  intros sched4. destruct r as [e|raw]; [by apply call_failed|].
  apply conforms_alongside_step; [done|done|done|]. intros l5 r.
  exists (Held tok (Settled st) l5). split; [done|].
  intros sched5. destruct r as [e|now]; [by apply call_failed|]. reflexivity.
Qed.

Lemma conforms_heartbeat cfg tok sched url body hs :
  conforms (withLockHeartbeat cfg id tok sched (deliver cfg url body hs)) (call_over tok) (Held tok Announced false).
Proof.
  unfold withLockHeartbeat. apply conforms_bind. eapply conforms_mono; [apply conforms_deliver|].
  intros [[l [e|res]]|e|] s Ho; [| |done|done]; cbn in Ho.
  - destruct Ho as (g & lost & -> & Hb & Hg & Hna). apply conforms_bind.
    eapply conforms_mono; [by apply conforms_beats|]. intros [l'|e'|] s Ho; [subst s|done|done].
    exists g, (lost_after g lost l'). by repeat split.
  - subst s. apply conforms_bind. eapply conforms_mono; [by apply conforms_beats|].
    intros [l'|e'|] s Ho; [subst s|done|done]. reflexivity.
Qed.

Lemma conforms_attempt cfg hmac tok sched d br :
  conforms (attempt cfg hmac id tok sched d br) (fun o s => match o with
    | Exited => True
    | _ => held tok s end) (Held tok Fresh false).
Proof.
  unfold attempt. apply conforms_bind. eapply conforms_mono; [apply conforms_transition|].
  intros [[]|e|] s Ho; [subst s|done|done].
  apply conforms_neutral; [neutral_tac|done|intros; by apply held_intro|]. intros now.
  apply conforms_neutral; [neutral_tac|done|intros; by apply held_intro|]. intros startedAt.
  apply conforms_bind. eapply conforms_mono; [apply conforms_heartbeat|].
  intros [[lost r]|e|] s Ho; [|done|done]. cbn [fst snd].
  assert (exists g l, s = Held tok g l /\ not_body g /\ g <> Announcing /\
    (is_success (v_outcome (judge cfg lost r)) = true ->
       proven g l = true /\ answered_with g (v_httpStatus (judge cfg lost r)) = true)) as (g & l & -> & Hg & Hna & Hok).
  { destruct r as [e|res]; cbn in Ho.
    - destruct Ho as (g & l & -> & Hb & _ & Hna). exists g, l. do 3 (split; [done|]). intros Hs.
      apply bool_decide_eq_true in Hs. apply judge_success in Hs as (_ & res & [=] & _).
    - exists (Settled (dr_status res)), lost. do 3 (split; [done|]). intros Hs.
      apply bool_decide_eq_true in Hs. apply judge_success in Hs as (-> & res' & [= <-] & Hr).
      cbn. rewrite (proj2 (Z.leb_le _ _)), (proj2 (Z.ltb_lt _ _)) by lia. by rewrite bool_decide_true. }
  apply conforms_neutral; [neutral_tac|done|intros; by apply held_intro|]. intros finishedAt.
  apply conforms_neutral; [apply neutral_feed_breaker|done|intros; by apply held_intro|]. intros _.
  apply conforms_neutral; [neutral_tac|done|intros; by apply held_intro|]. intros next.
  apply conforms_bind. eapply conforms_mono; [apply (conforms_recordAttempt _ tok g l)|]; [done|done|done|..].
  - cbn. destruct (is_success (v_outcome (judge cfg lost r))) eqn:E; [right; by apply Hok|left].
    split; [|done]. intros Hs. rewrite Hs in E. done.
  - intros [[]|e|] s Ho'; [subst s|done|done]. destruct (is_success _); by apply held_intro.
Qed.

Lemma conforms_getForDelivery tok g lost :
  conforms (getForDelivery id) (fun o s => o <> Exited /\ s = Held tok g lost) (Held tok g lost).
Proof.
  apply (conforms_call (Pg (POOL_QUERY (SelectForWorker id))) _ _ _ (fun _ => Held tok g lost)).
  - intros r. cbn. by rewrite String.eqb_refl.
  - done.
  - intros [|row rows]; done.
Qed.

Lemma conforms_pickup cfg j token tok :
  job_deliveryId j = id ->
  conforms (pickup cfg j token) (fun o s => match o with
    | Returned _ => s = Held tok Fresh false
    | Threw _ => held tok s
    | Exited => False end) (Held tok Fresh false).
Proof.
  intros Hid. unfold pickup. rewrite Hid. apply conforms_bind.
  eapply conforms_mono; [apply conforms_getForDelivery|].
  intros [[d|]|e|] s [Hne ->]; [|done|by apply held_intro|done].
  destruct (_ || _); [done|]. destruct (negb _).
  { apply conforms_neutral; [neutral_tac|done|intros; by apply held_intro|]. intros now.
    apply conforms_neutral; [neutral_tac|done|intros; by apply held_intro|]. intros _. by apply held_intro. }
  apply conforms_neutral; [apply neutral_checkState|done|intros; by apply held_intro|]. intros br.
  destruct (bool_decide _).
  - apply conforms_neutral; [neutral_tac|done|intros; by apply held_intro|]. intros now.
    apply conforms_neutral; [neutral_tac|done|intros; by apply held_intro|]. intros next.
    apply conforms_bind. eapply conforms_mono; [apply (conforms_recordAttempt _ tok Fresh false); [done..|by left]|].
    intros [[]|e|] s Ho; [subst s; by apply held_intro|done|done].
  - apply conforms_neutral; [apply neutral_tryAcquire|done|intros; by apply held_intro|]. intros acq.
    destruct acq; [done|].
    apply conforms_neutral; [neutral_tac|done|intros; by apply held_intro|]. intros u.
    apply conforms_neutral; [neutral_tac|done|intros; by apply held_intro|]. intros now.
    apply conforms_neutral; [neutral_tac|done|intros; by apply held_intro|]. intros _. by apply held_intro.
Qed.

(** Giving the lock back, under the token it was taken with. *)
Lemma conforms_release tok s :
  held tok s ->
  conforms (Lock.release id tok) (fun o s' => match o with
    | Returned _ => s' = Releasing tok
    | Threw _ => True
    | Exited => False end) s.
Proof.
  intros (g & lost & -> & Hg). unfold Lock.release, evalReleaseLock, eval_script.
  apply conforms_bind. apply (conforms_call (ShaGet release_lock_lua) _ _ _ (fun _ => Held tok g lost)); [done|done|].
  intros [sha|]; [|done]. apply conforms_try_catch.
  assert (forall sha s, (s = Held tok g lost \/ s = Releasing tok) ->
    conforms (evalsha sha [Lock.lockKey id] [tok]) (fun o s' => o <> Exited /\ s' = Releasing tok) s) as Hsha.
  { intros sha' s Hs. apply (conforms_perform (pstep id) (Redis (EVALSHA sha' [Lock.lockKey id] [tok]))). intros r.
    exists (Releasing tok). split; [|by destruct r].
    destruct Hs as [-> | ->]; cbn; rewrite bool_decide_true by done; [by rewrite String.eqb_refl|done]. }
  eapply conforms_mono; [apply Hsha; by left|]. intros [n|e|] s [Hne ->]; [done| |done].
  destruct (isNoScriptError e); [|done].
  apply (conforms_call (Redis (SCRIPT_LOAD release_lock_lua)) _ _ _ (fun _ => Releasing tok)); [done|done|].
  intros sha'. apply (conforms_call (ShaSet release_lock_lua sha') _ _ _ (fun _ => Releasing tok)); [done|done|].
  intros _. eapply conforms_mono; [apply Hsha; by right|]. intros [n|e2|] s [Hne2 ->]; done.
Qed.

Lemma conforms_cleanup cfg tok bucket s :
  held tok s ->
  conforms (cleanup cfg id tok bucket) (fun o s' => match o with
    | Returned _ => s' = Releasing tok
    | Threw _ => True
    | Exited => False end) s.
Proof.
  intros (g & lost & -> & Hg). unfold cleanup.
  apply conforms_neutral; [|done|done|].
  - destruct bucket as [ep|]; [destruct (String.eqb ep "")|]; [exact I|apply neutral_bucket_release|exact I].
  - intros _. apply conforms_bind. eapply conforms_mono; [apply conforms_release; by apply held_intro|].
    intros [b|e|] s Ho; done.
Qed.

Lemma conforms_processDelivery cfg hmac sched j token :
  job_deliveryId j = id ->
  conforms (processDelivery cfg hmac sched j token) (fun o s => match o with
    | Returned _ => exists tok, s = Releasing tok
    | _ => True end) (Idle None).
Proof.
  intros Hid. unfold processDelivery, Lock.acquire. rewrite Hid.
  apply conforms_bind.
  apply conforms_bind, (conforms_call (RandomBytes 16) _ _ _
    (fun r => Idle (match r with inr bytes => Some (to_hex bytes) | inl _ => None end))); [done|done|]. intros bytes.
  set (tok := to_hex bytes).
  apply (conforms_call (Redis (RCmd (Lock.acquire_cmd cfg id tok))) _ _ _
    (fun r => match r with inr true => Held tok Fresh false | _ => Refused end)).
  { intros r. cbn. by rewrite String.eqb_refl, bool_decide_true. }
  { done. }
  intros [|]; cbn [Lock.acquired Lock.token negb].
  - apply conforms_bind. unfold settle. apply conforms_try_catch, conforms_bind.
    eapply conforms_mono; [by apply conforms_pickup|].
    assert (forall bucket s, held tok s -> conforms (cleanup cfg id tok bucket) (fun o s' => match o with
      | Returned _ => exists tok, s' = Releasing tok | _ => True end) s) as Hclean.
    { intros bucket s Hs. eapply conforms_mono; [by apply conforms_cleanup|]. intros [] s'; [by exists tok|done..]. }
    intros [[[d br]|]|e|] s Ho; [subst s|subst s| |done].
    + apply conforms_try_finally. eapply conforms_mono; [apply conforms_attempt|].
      intros [[]|e|] s Ho; [|eapply conforms_mono; [by apply Hclean|]; by intros []|done].
      eapply conforms_mono; [by apply Hclean|]. by intros [].
    + apply Hclean. by apply held_intro.
    + apply conforms_bind. eapply conforms_mono; [by apply Hclean|]. by intros [].
  - apply (conforms_call DateNow _ _ _ (fun _ => Refused)); [done|done|]. intros now.
    apply (conforms_call (MoveToDelayed (job_id j) (inject_Z (now + LOCK_CONTENTION_DELAY_MS)) token) _ _ _
      (fun _ => Refused)); [done|done|]. done.
Qed.
End Conform.

(** ** What the trace says of an attempt that is recorded *)

(** The row an INSERT of an attempt writes. *)
Definition inserts (a : attempt_row) (e : event resp exn) : Prop :=
  exists n body err lat st fi r,
    e = Ev (Pg (CLIENT_QUERY (InsertAttempt (a_delivery_id a) n (a_outcome a) (a_http_status a) body err lat st fi))) r \/
    e = Ev (Pg (POOL_QUERY (InsertAttempt (a_delivery_id a) n (a_outcome a) (a_http_status a) body err lat st fi))) r.

Definition attempts_in (ws : list write) : list attempt_row :=
  omap (fun w => match w with WAttempt a => Some a | _ => None end) ws.

Lemma apply_writes_attempts T ws : delivery_attempts (apply_writes T ws) = delivery_attempts T ++ attempts_in ws.
Proof.
  revert T. induction ws as [|w ws IH]; intros T; [by rewrite app_nil_r|].
  change (apply_writes T (w :: ws)) with (apply_writes (apply_write T w) ws). rewrite IH.
  destruct w; cbn; try done. by rewrite <- app_assoc.
Qed.

Section Record.
Context {RS BS : Type} `{!RedisServer RS} `{!RedisLaws RS} `{!BullMQ BS}.
Abbreviation world := (world RS BS).

Definition pending (w : world) : list attempt_row := attempts_in (default [] (tx_writes <$> l_tx w.2)).

(** The attempts beyond [old], stored or about to be, were inserted by calls of
    the trace. *)
Definition sourced (old : list attempt_row) (w : world) (tr : list (event resp exn)) : Prop :=
  exists new, delivery_attempts (tables_of w) = old ++ new /\
    Forall (fun a => Exists (inserts a) tr) (new ++ pending w).

Lemma stmt_inserts now T b q r ws (ev : event resp exn) :
  (exists x, ev = Ev (Pg (CLIENT_QUERY q)) x) \/ (exists x, ev = Ev (Pg (POOL_QUERY q)) x) ->
  stmt_ok now T b q r ws -> Forall (fun a => inserts a ev) (attempts_in ws).
Proof.
  intros Hev Hq. destruct q; cbn in Hq; repeat match goal with
    | H : _ /\ _ |- _ => destruct H
    | H : _ \/ (_ : Prop) |- _ => match type of H with (exists x, ev = _) \/ _ => fail 1 | _ => destruct H end
    | H : exists x : Z, _ |- _ => destruct H
    | H : exists x : string, _ |- _ => destruct H
    | H : exists x : option _, _ |- _ => destruct H
    | H : match ?x with _ => _ end |- _ => destruct x
    end; subst; cbn; repeat constructor.
  unfold inserts. cbn. destruct Hev as [[x ->]|[x ->]]; eauto 12.
Qed.

Lemma sourced_step old (w : world) tr c r w1 :
  sourced old w tr -> env w c r w1 -> sourced old w1 (tr ++ [Ev c r]).
Proof.
  intros (new & Ht & Hf) He. destruct w as [s l], w1 as [s1 l1]. pose proof (env_pg _ _ _ _ _ _ He) as [_ Hp]. clear He.
  assert (forall l0 : list attempt_row, Forall (fun a => Exists (inserts a) tr) l0 -> Forall (fun a => Exists (inserts a) (tr ++ [Ev c r])) l0) as Hmore.
  { intros l0 H. eapply Forall_impl; [exact H|]. intros a. rewrite Exists_app. auto. }
  assert (forall l0, Forall (fun a => inserts a (Ev c r)) l0 -> Forall (fun a => Exists (inserts a) (tr ++ [Ev c r])) l0) as Hlast.
  { intros l0 H. eapply Forall_impl; [exact H|]. intros a Ha. rewrite Exists_app. right. by constructor. }
  pose proof Hf as [Hn Hpd]%Forall_app. apply Hmore in Hf, Hn, Hpd.
  unfold sourced, tables_of, pending in *. cbn [fst snd] in *.
  destruct c as [|c| | | | | | | | | | | | |]; try (destruct Hp as [-> ->]; by exists new).
  destruct Hp as (n & p' & tx' & _ & -> & -> & Hp).
  destruct c as [| | | | |q|q]; destruct r as [e|x]; cbn in Hp.
  1-4: destruct Hp as [-> ->] || done; by exists new.
  - destruct Hp as [-> ->]. exists new. split; [done|]. by rewrite app_nil_r.
  - destruct Hp as [-> ->]. exists new. split; [done|]. by rewrite app_nil_r.
  - destruct Hp as [[->| ->] ->]; cbn; [exists new; split; [done|by rewrite app_nil_r]|].
    exists (new ++ attempts_in (default [] (tx_writes <$> l_tx l))).
    rewrite apply_writes_attempts, Ht, <- app_assoc, app_nil_r. by split.
  - destruct Hp as [-> ->]; cbn. exists (new ++ attempts_in (default [] (tx_writes <$> l_tx l))).
    rewrite apply_writes_attempts, Ht, <- app_assoc, app_nil_r. by split.
  - destruct Hp as [-> ->]. exists new. split; [done|by rewrite app_nil_r].
  - destruct Hp as [-> ->]. exists new. split; [done|by rewrite app_nil_r].
  - destruct Hp as [-> ->]. by exists new.
  - destruct Hp as (y & ws & Hy & [Hq _] & -> & ->). cbn. exists new. split; [done|]. rewrite Hy in Hpd. cbn in Hpd.
    unfold attempts_in in *. rewrite omap_app. apply Forall_app. split; [done|]. apply Forall_app. split; [done|].
    apply Hlast. eapply stmt_inserts; [|exact Hq]. left. by eexists.
  - destruct Hp as [-> [->|(x & ws & [Hq _] & -> & _)]]; [by exists new|]. cbn.
    exists (new ++ attempts_in ws). rewrite apply_writes_attempts, Ht, <- app_assoc. split; [done|].
    apply Forall_app. split; [|done]. apply Forall_app. split; [done|].
    apply Hlast. eapply stmt_inserts; [|exact Hq]. right. by eexists.
  - destruct Hp as (ws & [Hq _] & -> & ->). cbn.
    exists (new ++ attempts_in ws). rewrite apply_writes_attempts, Ht, <- app_assoc. split; [done|].
    apply Forall_app. split; [|done]. apply Forall_app. split; [done|].
    apply Hlast. eapply stmt_inserts; [|exact Hq]. right. by eexists.
Qed.
End Record.

(** ** What the automaton has seen *)

(** No report of a lost lock: an extension of the lock of [id] is answered 1. *)
Definition still_held (id : string) (e : event resp exn) : Prop :=
  match e with
  | Ev (Redis (EVALSHA _ keys [_; _])) (inr n) => keys = [Lock.lockKey id] -> n = 1
  | _ => True
  end.

(** The call was answered with the status [st] and a body, and it was over
    before anything was reported of the lock. *)
Definition answered_under_lock (id : string) (st : Z) (tr : list (event resp exn)) : Prop :=
  exists tr1 now tr2 body, tr = tr1 ++ Ev DateNow now :: tr2 /\
    Ev HttpHead (inr st) ∈ tr1 /\ Ev HttpBody (inr body) ∈ tr1 /\ Forall (still_held id) tr1.

Definition seen_so_far (id : string) (s : phase) (tr : list (event resp exn)) : Prop :=
  match s with
  | Idle _ => Forall (still_held id) tr
  | Held _ g lost =>
      match g with
      | Settled st => lost = false -> answered_under_lock id st tr
      | Head st => Ev HttpHead (inr st) ∈ tr /\ (lost = false -> Forall (still_held id) tr)
      | Body st => Ev HttpHead (inr st) ∈ tr /\ (exists body, Ev HttpBody (inr body) ∈ tr) /\
          (lost = false -> Forall (still_held id) tr)
      | _ => lost = false -> Forall (still_held id) tr
      end
  | _ => True
  end.

Lemma under_lock_more id st tr e : answered_under_lock id st tr -> answered_under_lock id st (tr ++ [e]).
Proof.
  intros (tr1 & now & tr2 & body & -> & H). exists tr1, now, (tr2 ++ [e]), body. by rewrite <- app_assoc.
Qed.

(** A call that leaves the automaton where it is. *)
Lemma seen_same id tok g lost tr e :
  still_held id e -> seen_so_far id (Held tok g lost) tr -> seen_so_far id (Held tok g lost) (tr ++ [e]).
Proof.
  intros He. assert ((lost = false -> Forall (still_held id) tr) -> lost = false -> Forall (still_held id) (tr ++ [e])) as Hf.
  { intros H Hl. apply Forall_app. auto. }
  destruct g; cbn; rewrite ?elem_of_app; [auto..| | | |auto].
  - intros [H1 H2]. auto.
  - intros (H1 & (body & H2) & H3). split; [by left|]. split; [|auto]. exists body. apply elem_of_app. by left.
  - intros H Hl. by apply under_lock_more, H.
Qed.

Lemma seen_extend id tok g lost tr sha t ttl (r : exn + Z) :
  seen_so_far id (Held tok g lost) tr ->
  seen_so_far id (Held tok g (saw_lost g lost r)) (tr ++ [Ev (Redis (EVALSHA sha [Lock.lockKey id] [t; ttl])) r]).
Proof.
  intros H. destruct r as [e|n].
  - replace (saw_lost g lost (inl e)) with lost by (by destruct g). by apply seen_same.
  - destruct (Z.eqb_spec n 1) as [->|Hn].
    + replace (saw_lost g lost (inr 1)) with lost by (by destruct g; cbn; rewrite ?orb_false_r). by apply seen_same.
    + assert ((exists st, g = Settled st) \/ saw_lost g lost (inr n) = true) as [[st ->]|Hl].
      { destruct g; [right|right|right|right|right|right|left; eauto|right]; cbn; apply Z.eqb_neq in Hn; by rewrite Hn, orb_true_r. }
      * cbn in *. intros Hl. by apply under_lock_more, H.
      * rewrite Hl. destruct g; cbn in *; try done; rewrite ?elem_of_app.
        -- destruct H as [H _]. by split; [left|].
        -- destruct H as (H1 & (body & H2) & _). split; [by left|]. split; [|done]. exists body. apply elem_of_app. by left.
Qed.

Lemma seen_step id s e s' tr :
  pstep id s e = Some s' -> seen_so_far id s tr -> seen_so_far id s' (tr ++ [e]).
Proof.
  destruct e as [c r]. destruct s as [drawn| |tok g lost|tok]; intros Hs H.
  - cbn in Hs. destruct c as [[[|k v [[|ttl]|] []| | | | | | | |]|sha keys args|sc|]| | | | | | | | | | | | | |]; try done.
    + destruct (_ && _); [|done]. destruct r as [e|[]]; injection Hs as <-; try done. cbn in *. intros _.
      apply Forall_app. by repeat constructor.
    + injection Hs as <-. cbn in *. apply Forall_app. by repeat constructor.
  - cbn in Hs. destruct c; try done; by injection Hs as <-.
  - cbn in Hs. destruct c as [[rc|sha keys args|sc|]|q| | | | | | |rq| | | | | |]; cbn [hstep] in Hs; try done;
      try (injection Hs as <-; by apply seen_same).
    + destruct (negb _); [|done]. injection Hs as <-. by apply seen_same.
    + destruct (bool_decide_reflect (keys = [Lock.lockKey id])) as [->|Hk].
      * destruct args as [|t [|ttl [|]]]; try done; destruct (String.eqb t tok); try done; cbn [andb] in Hs.
        -- by injection Hs as <-.
        -- destruct (beating g); [|done]. injection Hs as <-. by apply seen_extend.
      * destruct (negb _); [|done]. injection Hs as <-. apply seen_same; [|done].
        destruct args as [|t [|ttl [|]]], r; try exact I; by intros ?%Hk.
    + assert (forall g', seen_so_far id (Held tok g' lost) tr -> seen_so_far id (Held tok g' lost) (tr ++ [Ev (Pg q) r])) as Hsame
        by (intros g'; by apply seen_same).
      assert (s' = Held tok g lost \/ g = Fresh /\ s' = Held tok Announcing lost \/
              g = Announcing /\ s' = Held tok Announced lost) as [->|[[-> ->]|[-> ->]]].
      { destruct q as [| | | | |q|q]; try destruct q; try done; repeat case_match; try done; injection Hs as <-; auto. }
      * by apply Hsame.
      * by apply (Hsame Fresh).
      * by apply (Hsame Announcing).
    + assert ((exists st, g = Body st) \/ s' = Held tok g lost) as [[st ->]| ->].
      { destruct g; injection Hs as <-; eauto. }
      * injection Hs as <-. cbn in *. destruct H as (H1 & [body H2] & H3). intros Hl.
        exists tr, r, [], body. auto.
      * by apply seen_same.
    + destruct g; try done. injection Hs as <-. exact (seen_same id tok Announced lost tr (Ev (HttpSend rq) r) I H).
    + destruct g; try done. injection Hs as <-. pose proof (seen_same id tok InCall lost tr (Ev HttpHead r) I H) as H'.
      destruct r as [e|st]; [exact H'|]. cbn. split; [|exact H']. apply elem_of_app. right. by constructor.
    + destruct g; try done. injection Hs as <-. pose proof (seen_same id tok (Head st) lost tr (Ev HttpBody r) I H) as [H1 H2].
      destruct r as [e|body]; [exact H2|]. cbn. split; [exact H1|]. split; [|exact H2]. exists body.
      apply elem_of_app. right. by constructor.
  - cbn in Hs. destruct c as [[| | |]| | | | | | | | | | | | | |]; try done; repeat case_match; try done; by injection Hs as <-.
Qed.

Lemma seen_all id s tr s' tr0 :
  accepts (pstep id) s tr = Some s' -> seen_so_far id s tr0 -> seen_so_far id s' (tr0 ++ tr).
Proof.
  revert s tr0. induction tr as [|e tr IH]; intros s tr0; cbn.
  - intros [= <-] H. by rewrite app_nil_r.
  - destruct (pstep id s e) as [s1|] eqn:E; [|done]. intros Ha H.
    change (e :: tr) with ([e] ++ tr). rewrite app_assoc. by apply (IH s1); [|eapply seen_step].
Qed.

(** A SUCCESS that the automaton lets through was answered, under the lock. *)
Lemma success_answered id tr s a :
  accepts (pstep id) (Idle None) tr = Some s -> a_outcome a = SUCCESS -> Exists (inserts a) tr ->
  exists st, a_http_status a = Some st /\ 200 <= st < 300 /\ answered_under_lock id st tr.
Proof.
  intros Ha Hok (e & He & Hin)%Exists_exists. apply list_elem_of_split in He as (tr1 & tr2 & ->).
  rewrite accepts_app in Ha. destruct (accepts (pstep id) (Idle None) tr1) as [s1|] eqn:E1; [|done]. cbn in Ha.
  destruct (pstep id s1 e) as [s2|] eqn:E2; [|done].
  pose proof (seen_all id _ _ _ [] E1 (Forall_nil_2 _)) as Hseen. cbn [app] in Hseen.
  destruct Hin as (n & body & err & lat & st & fi & r & [->| ->]); destruct s1 as [drawn| |tok g lost|tok]; try done.
  cbn in E2. rewrite Hok in E2. rewrite bool_decide_false in E2 by (by intros []). cbn [orb] in E2.
  destruct (String.eqb _ id && (proven g lost && answered_with g (a_http_status a))) eqn:Hg; [|done].
  apply andb_true_iff in Hg as [_ [Hp Hh]%andb_true_iff]. destruct g as [| | | | | |z|]; try done. cbn in Hp, Hh.
  apply andb_true_iff in Hp as [[H1%Z.leb_le H2%Z.ltb_lt]%andb_true_iff Hl%negb_true_iff].
  apply bool_decide_eq_true in Hh. exists z. split; [done|]. split; [lia|].
  destruct (Hseen Hl) as (tr3 & now & tr4 & b & -> & H). eexists tr3, now, (tr4 ++ _), b. by rewrite <- app_assoc.
Qed.

(** ** Properties *)

(** C2: the worker follows its protocol, whatever the services answer and
    however the heartbeats fall. It touches nothing but the lock, under a
    random token it has just drawn, before the lock's SET NX is answered OK; turned away, it only delays the job. While
    it holds the lock every call on the lock carries the token it was taken
    with; the one request leaves only after the COMMIT of the DELIVERING
    transition was answered; a SUCCESS attempt, with the status that was
    answered, or a DELIVERED status is sent only after a 2xx answer whose body
    arrived, and only if no heartbeat had reported the lock lost by then; after the release of the lock it does
    nothing more; and it returns normally only once the release was sent. *)
Theorem processDelivery_protocol (cfg : Config) (hmac : string -> string -> string) (sched : schedule)
    (j : Job) (token : option string) (tr : list (event resp exn)) (o : outcome exn unit) :
  behaves (processDelivery cfg hmac sched j token) tr o ->
  exists s : phase, (accepts (pstep (job_deliveryId j)) (Idle None) tr = Some s) /\
    match o with Returned _ => exists tok, s = Releasing tok | _ => True end.
Proof.
  intros H. destruct (conforms_sound (pstep (job_deliveryId j)) _ _ _ _ _
    (conforms_processDelivery _ cfg hmac sched j token eq_refl) H) as (s & Hs & Ho). by exists s.
Qed.

Lemma processDelivery_protocol_witness :
  let p := processDelivery default_config toy_hmac demo_schedule demo_job None in
  let r := run_with (traced reliable) p (pending_world, []) in
  r.1 = Returned tt /\ exists s : phase, (accepts (pstep "d1") (Idle None) r.2.2 = Some s) /\ exists tok, s = Releasing tok.
Proof.
  intros p r. assert (r.1 = Returned tt) as Ho by (vm_compute; reflexivity). split; [exact Ho|].
  pose proof (processDelivery_protocol default_config toy_hmac demo_schedule demo_job None r.2.2 r.1
    (traced_exec reliable p pending_world [])) as H.
  rewrite Ho in H. exact H.
Defined.

(** C3: a delivery becomes DELIVERED only on a 2xx answer, under a lock not
    reported lost. When a run turns a delivery that was not DELIVERED into one
    that is, it sent exactly the signed request of the delivery, and recorded
    one SUCCESS attempt, with the next attempt number, judged on the answer to
    the request. Of the calls of the run, [tr]: the recorded status, between
    200 and 299, is the one the request was answered with, its body had
    arrived, and no extension of the lock that was answered before the call was
    over said that the lock is lost (one that failed says nothing). *)
Theorem processDelivery_delivered {RS BS : Type} `{!RedisServer RS} `{!RedisLaws RS} `{!BullMQ BS} `{!BullMQLaws BS}
    (cfg : Config) (hmac : string -> string -> string) (sched : schedule) (j : Job) (token : option string)
    (row row' : delivery_row) (w w' : world RS BS) (tr : list (event resp exn)) (o : outcome exn unit) :
  idle w -> deliveries (tables_of w) !! job_deliveryId j = Some row -> d_status row <> DELIVERED ->
  exec (witnessed env) (processDelivery cfg hmac sched j token) (w, []) o (w', tr) ->
  deliveries (tables_of w') !! job_deliveryId j = Some row' -> d_status row' = DELIVERED ->
  exists d now res startedAt finishedAt next,
    for_worker (tables_of w) (job_deliveryId j) = Some d /\ attemptNumber d = d_attempt_count row + 1 /\
    200 <= dr_status res < 300 /\
    s_sent w'.1 = s_sent w.1 ++ [attempt_request cfg hmac (job_deliveryId j) d now] /\
    delivery_attempts (tables_of w') = delivery_attempts (tables_of w) ++
      [attempt_of_input (attempt_input (job_deliveryId j) d (judge cfg false (inr res)) startedAt finishedAt next)] /\
    answered_under_lock (job_deliveryId j) (dr_status res) tr.
Proof.
  intros Hi Hrow Hnd Hx Hrow' Hdel. pose proof (witnessed_exec _ _ _ _ _ Hx) as [Hrun Htr]. cbn in Hrun, Htr.
  destruct (delivered_effect cfg hmac sched j token row row' w w' o Hi Hrow Hnd Hrun Hrow' Hdel)
    as (d & now & res & st & fi & next & Hd & Hn & H2 & Hs & Ha).
  exists d, now, res, st, fi, next. do 5 (split; [done|]).
  destruct (conforms_sound (pstep (job_deliveryId j)) _ _ _ _ _
    (conforms_processDelivery _ cfg hmac sched j token eq_refl) Htr) as (s & Hacc & _).
  assert (sourced (delivery_attempts (tables_of w)) w' tr) as (new & Hnew & Hfrom).
  { refine (witnessed_keeps env (sourced (delivery_attempts (tables_of w))) _ _ _ _ _ Hx _).
    - intros w1 tr1 c r w2. apply sourced_step.
    - exists []. rewrite app_nil_r. split; [done|]. unfold pending. cbn [fst snd app]. destruct Hi as [-> _]. constructor. }
  rewrite Ha in Hnew. apply app_inv_head in Hnew as <-. apply Forall_app in Hfrom as [Hfrom _].
  apply Forall_cons in Hfrom as [Hfrom _].
  assert (v_outcome (judge cfg false (inr res)) = SUCCESS) as Hok.
  { cbn. by rewrite (proj2 (Z.leb_le _ _)), (proj2 (Z.ltb_lt _ _)) by lia. }
  eapply success_answered in Hfrom as (z & Hz & _ & Hu); [|exact Hacc|exact Hok]. cbn in Hz. injection Hz as <-. exact Hu.
Qed.

Lemma processDelivery_delivered_witness :
  let r := run_with (traced reliable) (processDelivery default_config toy_hmac demo_schedule demo_job None) (pending_world, []) in
  r.1 = Returned tt /\ (exists a, delivery_attempts (tables_of r.2.1) = [a]) /\
  exists res, answered_under_lock "d1" (dr_status res) r.2.2.
Proof.
  intros r. split; [vm_compute; reflexivity|].
  destruct (processDelivery_delivered default_config toy_hmac demo_schedule demo_job None
    (demo_delivery PENDING 0 None) (set_attempted DELIVERED None 1000000 (set_status DELIVERING 1000000 (demo_delivery PENDING 0 None)))
    pending_world r.2.1 r.2.2 r.1 (demo_idle _ _ _ _))
    as (d & now & res & st & fi & next & _ & _ & _ & _ & Ha & Hu).
  - vm_compute. reflexivity.
  - discriminate.
  - exact (traced_witnessed reliable _ pending_world []).
  - vm_compute. reflexivity.
  - reflexivity.
  - split; [eexists; exact Ha|]. exists res. exact Hu.
Defined.
