(* ===== verification/DeadLetter.v ===== *)
(** * What the handler of exhausted jobs does

    The effects of [handleFailed] (worker/dlqHandler.ts) and [fireDlqAlert]
    (shared/alerts.ts), modelled in Worker.v, on the database, the queues and
    the network, whatever the services answer. *)

From S2P Require Import Prelude Async Config Json Dates Tables Queries Schema Redis Services Concrete Scripts.
From S2P Require Lock TokenBucket.
From S2P Require Import CircuitBreaker Repo Frames Signature Worker WorkerSpec.
From Stdlib Require Import ZArith QArith Lia String.
From stdpp Require Import prelude strings gmap.

Open Scope Z_scope.
Open Scope async_scope.

(** The tables once a delivery has been moved to the DLQ. *)
Definition dead_lettered (id : string) (d : DeliveryForWorker) (t0 : Z) (T : tables) : tables :=
  apply_writes T [WStatus id DLQ t0;
    WTransition (transition_at t0 id (Some (dw_status d)) DLQ "attempts_exhausted" worker)].

(** [last] is the summary of an attempt of [id] with the greatest number, or
    [None] when there is none. *)
Definition last_attempt (T : tables) (id : string) (last : option LastAttemptSummary) : Prop :=
  match last with
  | None => forall a, a ∈ delivery_attempts T -> a_delivery_id a <> id
  | Some s => exists a, s = attempt_summary a /\ a ∈ delivery_attempts T /\ a_delivery_id a = id /\
      forall a', a' ∈ delivery_attempts T -> a_delivery_id a' = id -> a_attempt_number a' <= a_attempt_number a
  end.

(** The job has used up its attempts. *)
Definition exhausted (cfg : Config) (job : FailedJob) : bool :=
  Z.of_nat (length (BACKOFF_BASE_MS cfg)) <=? fj_attemptsMade job.

Section DeadLetter.
Context {RS BS : Type} `{!RedisServer RS} `{!RedisLaws RS} `{!BullMQ BS} `{!BullMQLaws BS}.
Abbreviation world := (world RS BS).
Context (cfg : Config).

(** Same everything, at the same time or later. *)
Definition later (w w' : world) : Prop := exists n, s_now w.1 <= n /\ w' = (with_now n w.1, w.2).

Lemma wp_log level message (w : world) :
  wp env (log level message) (fun o w' => o = Returned tt /\ later w w') w.
Proof.
  apply (wp_await env (Log level message)). intros r w1 (s1 & (n & Hn & ->) & He).
  destruct r as [e|[]]; cbn in He; [by destruct He|]. subst w1. split; [done|by exists n].
Qed.

(** The requests an alert sends. *)
Definition alert_sent (d : DeliveryForWorker) (last : option LastAttemptSummary) : list http_request :=
  match ALERT_WEBHOOK_URL cfg with
  | None | Some "" => []
  | Some url => [alert_request url d last]
  end.

(** Same database, queues and session, with some more requests sent. *)
Definition alerted (w w' : world) (sent : list http_request) : Prop :=
  s_pg w'.1 = s_pg w.1 /\ s_bull w'.1 = s_bull w.1 /\ s_sent w'.1 = s_sent w.1 ++ sent /\
  l_tx w'.2 = l_tx w.2 /\ l_tid w'.2 = l_tid w.2.

Lemma alerted_later w w1 w2 sent : alerted w w1 sent -> later w1 w2 -> alerted w w2 sent.
Proof. intros (?&?&?&?&?) (n & Hn & ->). by repeat split. Qed.

Lemma alerted_start w w1 : later w w1 -> alerted w w1 [].
Proof. intros (n & Hn & ->). by repeat split; rewrite ?app_nil_r. Qed.

(** An alert never throws: the log line, then at most one request. *)
Lemma wp_fireDlqAlert d last (w : world) :
  wp env (fireDlqAlert cfg d last) (fun o w' => o = Returned tt /\ alerted w w' (alert_sent d last)) w.
Proof.
  unfold fireDlqAlert, alert_sent. apply wp_bind. eapply wp_mono; [apply wp_log|].
  intros o w1 [-> H1]. cbn [after].
  assert (alerted w w1 []) as H0 by (by apply alerted_start).
  destruct (ALERT_WEBHOOK_URL cfg) as [[|c url]|]; [by apply wp_ret| |by apply wp_ret].
  unfold detach. apply wp_try_catch, wp_bind, wp_try_catch, wp_bind.
  apply (wp_await env (HttpSend _)). intros r w2 (s2 & (n & Hn & ->) & He).
  destruct r as [e|[]]; cbn in He; [by destruct He|]. subst w2. cbn [answer after].
  assert (alerted w (with_sent (s_sent w1.1 ++ [alert_request (String c url) d last]) (with_now n w1.1), w1.2)
    [alert_request (String c url) d last]) as H2.
  { destruct H0 as (?&?&Hs&?&?). repeat split; cbn; try done. by rewrite Hs, app_nil_r. }
  apply wp_bind. apply (wp_await env HttpHead). intros r w3 (s3 & (n3 & Hn3 & ->) & He).
  destruct r as [e|z]; cbn in He |- *.
  - destruct He as (_ & _ & ->). eapply wp_mono; [apply wp_log|]. intros o w4 [-> H4]. cbn. apply wp_ret.
    split; [done|]. eapply alerted_later; [|exact H4]. destruct H2 as (?&?&?&?&?). by repeat split.
  - subst w3. apply wp_ret. cbn. apply wp_ret. split; [done|].
    destruct H2 as (?&?&?&?&?). by repeat split.
Qed.

(** What a run of [handleFailed] on [w] may leave. *)
Definition dlq_post (job : FailedJob) (w w' : world) : Prop :=
  idle w' /\ jobs_kept (s_bull w.1) (s_bull w'.1) /\
  ((tables_of w' = tables_of w /\ s_sent w'.1 = s_sent w.1) \/
   exists d t0 sent, exhausted cfg job = true /\ s_now w.1 <= t0 /\
     for_worker (tables_of w) (fj_deliveryId job) = Some d /\ dw_status d <> DLQ /\
     tables_of w' = dead_lettered (fj_deliveryId job) d t0 (tables_of w) /\
     s_sent w'.1 = s_sent w.1 ++ sent /\
     (sent = [] \/
      is_Some (bq_jobs (s_bull w'.1) webhook_dlq !! fj_deliveryId job) /\
      exists last, last_attempt (tables_of w) (fj_deliveryId job) last /\ sent = alert_sent d last)).

Lemma dlq_post_later job w w1 w2 : dlq_post job w w1 -> later w1 w2 -> dlq_post job w w2.
Proof. intros H (n & Hn & ->). by destruct w1 as [[] []]. Qed.

(** Calls on the database leave the queues alone. *)
Definition on_pg (c : cmd) : Prop := match c with Pg _ => True | _ => False end.

Lemma wp_on_pg_bull {A} (p : io A) (w : world) :
  issues on_pg p -> wp env p (fun _ w' => s_bull w'.1 = s_bull w.1) w.
Proof.
  intros Hp. eapply wp_mono; [apply (wp_issues env on_pg (fun w' => s_bull w'.1 = s_bull w.1)); [|done|done]|by intros ? ? []].
  intros w1 c r w2 Hc H1 (s2 & (n & Hn & ->) & He). destruct c as [|c| | | | | | | | | | | | |]; try done.
  destruct w1 as [s l]. destruct r; cbn in He.
  - by destruct He as (_ & _ & p' & tx' & _ & ->).
  - by destruct He as (p' & tx' & _ & ->).
Qed.

(** The read of the last attempt. *)
Lemma wp_select_last id (w : world) :
  wp env (pool_query (SelectLastAttempt id)) (fun o w' => alerted w w' [] /\
    match o with
    | Returned rows => last_attempt (tables_of w) id (head (rows : list LastAttemptSummary))
    | Threw _ => True
    | Exited => False
    end) w.
Proof.
  apply wp_pg. intros n Hn. destruct w as [s l]. split.
  - intros rows p' tx' (ws & ((-> & Hr) & _ & _) & -> & ->). cbn in Hr.
    split; [repeat split; cbn; rewrite ?app_nil_r; try done; by destruct (s_pg s)|].
    destruct Hr as [[-> Hnone]|(a & -> & Ha & Hid & Hmax)]; cbn; [done|]. by exists a.
  - intros e p' tx' _ [-> [->|(rows & (ws & ((-> & _) & _ & _) & -> & _))]];
      (split; [repeat split; cbn; rewrite ?app_nil_r; try done; by destruct (s_pg s)|done]).
Qed.

(** From the committed transition on. *)
Lemma dlq_post_moved job d t0 (w w1 w2 : world) sent :
  exhausted cfg job = true -> s_now w.1 <= t0 -> for_worker (tables_of w) (fj_deliveryId job) = Some d ->
  dw_status d <> DLQ -> tables_of w1 = dead_lettered (fj_deliveryId job) d t0 (tables_of w) -> idle w1 ->
  s_sent w1.1 = s_sent w.1 -> jobs_kept (s_bull w.1) (s_bull w1.1) -> alerted w1 w2 sent ->
  (sent = [] \/ is_Some (bq_jobs (s_bull w1.1) webhook_dlq !! fj_deliveryId job) /\
      exists last, last_attempt (tables_of w) (fj_deliveryId job) last /\ sent = alert_sent d last) ->
  dlq_post job w w2.
Proof.
  intros Hex Ht Hd Hst HT [Htx Hlk] Hs Hk (Hp2 & Hb2 & Hs2 & Htx2 & Htid2) Hsent. split.
  { split; [congruence|]. intros k. rewrite Hp2, Htid2. apply Hlk. }
  rewrite Hb2. split; [done|]. right. exists d, t0, sent. do 4 (split; [done|]).
  split; [unfold tables_of in *; by rewrite Hp2|]. split; [congruence|]. done.
Qed.

(** The attempt list does not change when a delivery is moved. *)
Lemma last_attempt_moved T id d t0 last :
  last_attempt (dead_lettered id d t0 T) id last <-> last_attempt T id last.
Proof. by destruct last. Qed.

(** After the transition: the DLQ job, the read, the alert. *)
Lemma wp_dead_letter_rest job d t0 (w w1 : world) :
  exhausted cfg job = true -> s_now w.1 <= t0 -> for_worker (tables_of w) (fj_deliveryId job) = Some d ->
  dw_status d <> DLQ -> tables_of w1 = dead_lettered (fj_deliveryId job) d t0 (tables_of w) -> idle w1 ->
  s_sent w1.1 = s_sent w.1 -> s_bull w1.1 = s_bull w.1 ->
  wp env (queue_add webhook_dlq "dlq" (fj_deliveryId job) (fj_deliveryId job) ;;;
          let* rows := pool_query (SelectLastAttempt (fj_deliveryId job)) in
          fireDlqAlert cfg d (head (rows : list LastAttemptSummary)))
    (fun o w' => o <> Exited /\ dlq_post job w w') w1.
Proof.
  intros Hex Ht Hd Hst HT Hi Hs Hb. set (id := fj_deliveryId job) in *.
  apply wp_bind, wp_queue_add. intros n Hn.
  set (w2 := (with_bull (bq_add (s_bull w1.1) webhook_dlq id id) (with_now n w1.1), w1.2)).
  assert (forall w3, later w1 w3 -> dlq_post job w w3) as Hearly.
  { intros w3 H3. eapply (dlq_post_moved job d t0 w w1 w3 []); eauto; [by rewrite Hb|by apply alerted_start]. }
  assert (forall w3 sent, alerted w2 w3 sent -> (sent = [] \/ exists last, last_attempt (tables_of w) id last /\ sent = alert_sent d last) ->
    dlq_post job w w3) as Hlate.
  { intros w3 sent H3 Hsent. eapply (dlq_post_moved job d t0 w w2 w3 sent); eauto.
    - rewrite <- Hb. apply bq_add_kept.
    - destruct Hsent as [->|Hl]; [by left|]. right. split; [apply bq_add_has|done]. }
  split; cbn [after].
  - apply wp_bind. eapply wp_mono; [apply wp_select_last|]. intros [rows|e|] w3 [H3 Hl]; cbn [after]; [| |done].
    + eapply wp_mono; [apply wp_fireDlqAlert|]. intros o w4 [-> H4]. split; [done|].
      eapply (Hlate w4 (alert_sent d (head rows))).
      * destruct H3 as (?&?&Hs3&?&?), H4 as (?&?&?&?&?). rewrite app_nil_r in Hs3. repeat split; congruence.
      * right. exists (head rows). split; [|done]. apply (last_attempt_moved _ _ d t0).
        change (tables_of w2) with (tables_of w1) in Hl. by rewrite HT in Hl.
    + split; [done|]. eapply Hlate; [exact H3|by left].
  - intros e He. split; (split; [done|]).
    + apply Hearly. by exists n.
    + eapply (Hlate w2 []); [by repeat split; rewrite ?app_nil_r|by left].
Qed.

Lemma wp_handleFailed job (w : world) :
  idle w -> wp env (handleFailed cfg (Some job)) (fun o w' => o = Returned tt /\ dlq_post job w w') w.
Proof.
  intros Hidle. unfold handleFailed.
  assert (forall w1, db_same w w1 -> s_bull w1.1 = s_bull w.1 -> dlq_post job w w1) as Hnone.
  { intros w1 H1 Hb. split; [by eapply db_same_idle|]. rewrite Hb. split; [done|]. left.
    split; [by apply db_same_tables|by apply db_same_sent]. }
  destruct (fj_attemptsMade job <? _) eqn:Hex; [apply wp_ret; split; [done|by apply Hnone]|].
  assert (exhausted cfg job = true) as Hexh by (unfold exhausted; lia).
  apply wp_try_catch.
  eapply (wp_mono _ _ (fun o w1 => o <> Exited /\ dlq_post job w w1)); last first.
  { intros [[]|e|] w1 [Hne Hp]; [done| |done]. eapply wp_mono; [apply wp_log|]. intros o w2 [-> H2].
    split; [done|by eapply dlq_post_later]. }
  apply wp_bind. eapply wp_mono.
  { apply wp_and; [apply wp_getForDelivery|apply (wp_on_pg_bull (getForDelivery (fj_deliveryId job)))].
    issues_tac ltac:(exact I). }
  intros [r|e|] w1 [[H1 Hr] Hb1]; cbn [after]; [|split; [done|by apply Hnone]|done]. subst r.
  destruct (for_worker (tables_of w) (fj_deliveryId job)) as [d|] eqn:Hd; [|apply wp_ret; split; [done|by apply Hnone]].
  destruct (bool_decide (dw_status d = DLQ)) eqn:Hst; [apply wp_ret; split; [done|by apply Hnone]|].
  apply bool_decide_eq_false in Hst.
  apply wp_bind. eapply wp_mono; [apply wp_transition; by eapply db_same_idle|].
  assert (s_now w.1 <= s_now w1.1) as Hn1 by apply H1.
  assert (forall t0 w2, s_now w1.1 <= t0 -> same_rest w1 w2 -> idle w2 ->
    tables_of w2 = dead_lettered (fj_deliveryId job) d t0 (tables_of w) ->
    s_sent w2.1 = s_sent w.1 /\ s_bull w2.1 = s_bull w.1 /\ dlq_post job w w2) as Hmoved.
  { intros t0 w2 Ht (_ & Hb & Hs & _) Hi HT. rewrite (db_same_sent _ _ H1) in Hs.
    split; [done|]. split; [congruence|].
    eapply (dlq_post_moved job d t0 w w2 w2 []); eauto; [lia|by rewrite Hb, Hb1|by repeat split; rewrite ?app_nil_r]. }
  intros [[]|e|] w2 (Hr & Hi2 & Ho); cbn [after]; rewrite ?(db_same_tables _ _ H1) in Ho; [| |done].
  - destruct Ho as (t0 & ws & Ht & [_ ->] & HT). destruct (Hmoved t0 w2 Ht Hr Hi2 HT) as (Hs & Hb & _).
    apply (wp_dead_letter_rest job d t0); eauto. lia.
  - split; [done|]. destruct Ho as [HT|([] & t0 & ws & Ht & [_ ->] & HT)]; [|by eapply Hmoved].
    destruct Hr as (_ & Hb & Hs & _). split; [done|]. rewrite Hb, Hb1. split; [done|]. left.
    split; [done|]. by rewrite Hs, (db_same_sent _ _ H1).
Qed.
End DeadLetter.

(** On services that do not fail, the move to the DLQ goes through. *)
Section Steady.
Context {RS BS : Type} `{!RedisServer RS} `{!RedisLaws RS} `{!BullMQ BS} `{!BullMQLaws BS}.
Abbreviation world := (world RS BS).

Lemma smooth_fireDlqAlert cfg d last : smooth (fireDlqAlert cfg d last).
Proof. unfold fireDlqAlert. smooth_tac. Qed.

Lemma wp_handleFailed_steady cfg job d (w : world) :
  idle w -> exhausted cfg job = true -> for_worker (tables_of w) (fj_deliveryId job) = Some d ->
  dw_status d <> DLQ ->
  wp steady (handleFailed cfg (Some job)) (fun o w' => exists t0 last, s_now w.1 <= t0 /\
    tables_of w' = dead_lettered (fj_deliveryId job) d t0 (tables_of w) /\
    is_Some (bq_jobs (s_bull w'.1) webhook_dlq !! fj_deliveryId job) /\
    last_attempt (tables_of w) (fj_deliveryId job) last /\
    s_sent w'.1 = s_sent w.1 ++ alert_sent cfg d last) w.
Proof.
  intros Hi Hex Hd Hst. unfold handleFailed. unfold exhausted in Hex.
  destruct (fj_attemptsMade job <? _) eqn:Hlt; [lia|]. apply wp_try_catch.
  set (id := fj_deliveryId job) in *.
  eapply wp_steady_bind; [smooth_tac|apply wp_getForDelivery|]. intros r w1 [H1 ->]. cbn beta iota.
  rewrite Hd, bool_decide_eq_false_2 by done.
  eapply wp_steady_bind; [smooth_tac|apply wp_transition; by eapply db_same_idle|].
  intros [] w2 ((_ & _ & Hs2 & _) & Hi2 & t0 & ws & Ht & [_ ->] & HT2).
  rewrite (db_same_tables _ _ H1) in HT2.
  change (tables_of w2 = dead_lettered id d t0 (tables_of w)) in HT2. rewrite (db_same_sent _ _ H1) in Hs2.
  eapply (wp_steady_bind (queue_add _ _ _ _) _ (fun o w3 => o = Returned tt -> exists n, w3 =
    (with_bull (bq_add (s_bull w2.1) webhook_dlq id id) (with_now n w2.1), w2.2))); [smooth_tac| |].
  { apply wp_queue_add. intros n Hn. split; [by exists n|done]. }
  intros [] w3 H3. destruct (H3 eq_refl) as [n ->].
  eapply wp_steady_bind; [smooth_tac|apply wp_select_last|]. intros rows w4 [H4 Hl].
  eapply wp_mono; [apply wp_steady; [apply smooth_fireDlqAlert|apply wp_fireDlqAlert]|].
  intros o w5 (_ & _ & -> & H5). cbn beta iota.
  destruct H4 as (Hp4 & Hb4 & Hs4 & _), H5 as (Hp5 & Hb5 & Hs5 & _). cbn in Hp4, Hb4, Hs4.
  exists t0, (head rows). destruct H1 as (_ & _ & _ & _ & Hn1). split; [lia|].
  split; [rewrite <- HT2; unfold tables_of; congruence|]. split; [rewrite Hb5, Hb4; apply bq_add_has|].
  split; [|by rewrite Hs5, Hs4, app_nil_r, Hs2].
  apply (last_attempt_moved _ _ d t0). unfold tables_of in Hl, HT2. cbn in Hl. by rewrite HT2 in Hl.
Qed.
End Steady.

(** ** Properties *)

(** C16: what the handler of a failed job does. It never throws; a job with
    attempts left does nothing at all; otherwise either nothing changed, or
    the delivery, which was not in the DLQ, is in it, with one transition from
    the status it had, and then at most one alert went out, with the
    delivery's last attempt, after the DLQ job was added. No job the queues
    remembered is changed and no transaction is left open, whatever fails. *)
Theorem handleFailed_spec {RS BS : Type} `{!RedisServer RS} `{!RedisLaws RS} `{!BullMQ BS} `{!BullMQLaws BS}
    (cfg : Config) (job : FailedJob) (w w' : world RS BS) (o : outcome exn unit) :
  idle w -> exec env (handleFailed cfg (Some job)) w o w' ->
  o = Returned tt /\ dlq_post cfg job w w' /\ (exhausted cfg job = false -> w' = w).
Proof.
  intros Hi Hx. pose proof (wp_handleFailed cfg job w Hi) as H. rewrite wp_exec in H.
  destruct (H _ _ Hx) as [-> Hp]. split; [done|]. split; [done|]. intros Hex.
  unfold handleFailed in Hx. unfold exhausted in Hex. rewrite (proj2 (Z.ltb_lt _ _)) in Hx by lia.
  by destruct Hx.
Qed.

(** The job of [d1] after its fifth failure. *)
Definition last_failure : FailedJob := {| fj_attemptsMade := 5; fj_deliveryId := "d1" |}.

Definition failed_world : mem_world := demo_world 1000 (demo_tables FAILED [demo_attempt 1] None) ∅ ∅.

Lemma handleFailed_spec_witness :
  let r := run_with (serve reliable) (handleFailed default_config (Some last_failure)) failed_world in
  r.1 = Returned tt /\ dlq_post default_config last_failure failed_world r.2 /\
  d_status <$> deliveries (tables_of r.2) !! "d1" = Some DLQ.
Proof.
  intros r.
  destruct (handleFailed_spec default_config last_failure failed_world r.2 r.1 (demo_idle _ _ _ _)
    (serve_exec reliable (handleFailed default_config (Some last_failure)) failed_world)) as (Ho & Hp & _).
  split; [exact Ho|]. split; [exact Hp|]. vm_compute. reflexivity.
Defined.

(** An exhausted job always ends in the DLQ. On services that do not
    fail, the delivery of an exhausted job that is not in the DLQ is moved to
    it, whatever its status, DELIVERED included; it gets a job on the DLQ
    queue, and the alert, when one is configured, is sent. *)
Theorem handleFailed_dead_letters {RS BS : Type} `{!RedisServer RS} `{!RedisLaws RS} `{!BullMQ BS} `{!BullMQLaws BS}
    (cfg : Config) (job : FailedJob) (d : DeliveryForWorker) (w w' : world RS BS) (o : outcome exn unit) :
  idle w -> exhausted cfg job = true -> for_worker (tables_of w) (fj_deliveryId job) = Some d ->
  dw_status d <> DLQ ->
  exec steady (handleFailed cfg (Some job)) w o w' ->
  exists t0 last, s_now w.1 <= t0 /\
    tables_of w' = dead_lettered (fj_deliveryId job) d t0 (tables_of w) /\
    is_Some (bq_jobs (s_bull w'.1) webhook_dlq !! fj_deliveryId job) /\
    last_attempt (tables_of w) (fj_deliveryId job) last /\
    s_sent w'.1 = s_sent w.1 ++ alert_sent cfg d last.
Proof.
  intros Hi Hex Hd Hst Hx. pose proof (wp_handleFailed_steady cfg job d w Hi Hex Hd Hst) as H.
  rewrite wp_exec in H. exact (H _ _ Hx).
Qed.

(** The fifth attempt succeeds, but Redis is lost before the lock is released. *)
Definition lock_stuck : oracle := {|
  o_random := 0; o_bytes := "token"; o_status := 200; o_body := "ok";
  o_fail := fun c => match c with
    | Redis (EVALSHA "sha-release" _ _) => Some (JsError "Error" "Connection is closed.")
    | _ => None end |}.

Definition fifth_world : mem_world :=
  demo_world 1000 (demo_tables FAILED (map demo_attempt [1; 2; 3; 4]) None) ∅ ∅.

Lemma handleFailed_dead_letters_witness :
  let r1 := demo_run lock_stuck fifth_world in
  let r2 := run_with (serve reliable) (handleFailed default_config (Some last_failure)) r1.2 in
  (exists e, r1.1 = Threw e) /\ d_status <$> deliveries (tables_of r1.2) !! "d1" = Some DELIVERED /\
  exists t0 d, tables_of r2.2 = dead_lettered "d1" d t0 (tables_of r1.2) /\ dw_status d = DELIVERED.
Proof.
  intros r1 r2. split; [eexists; vm_compute; reflexivity|]. split; [vm_compute; reflexivity|].
  destruct (handleFailed_dead_letters default_config last_failure (the_delivery DELIVERED 5) r1.2 r2.2 r2.1)
    as (t0 & last & _ & HT & _).
  - exact (processDelivery_idle default_config toy_hmac demo_schedule demo_job None fifth_world _ _
      (demo_idle _ _ _ _) (demo_run_exec lock_stuck fifth_world)).
  - vm_compute. reflexivity.
  - vm_compute. reflexivity.
  - discriminate.
  - refine (serve_steady reliable (handleFailed default_config (Some last_failure)) r1.2 _).
    vm_compute. reflexivity.
  - exists t0, (the_delivery DELIVERED 5). split; [exact HT|reflexivity].
Defined.
