(* ===== verification/Jobs.v ===== *)
(** * The life of a delivery job

    src/src/worker/index.ts and src/src/queue/queues.ts: the retry delays the
    worker hands to BullMQ, and what becomes of a job over all its runs.
    BullMQ runs a job until it returns or has thrown as many times as its
    option [attempts] says; [DelayedError] does not count; every other throw
    brings a 'failed' event with the number of attempts made; between two runs
    the delay of the backoff strategy passes. A run whose worker dies stalls:
    BullMQ hands the job to another worker as often as [maxStalledCount] says,
    and then fails it for good. [life] is that contract, with the processor,
    cut short or not, and the handler of Worker.v as its steps. *)

From S2P Require Import Prelude Async Config Json Dates Tables Queries Schema Redis Services Concrete Scripts.
From S2P Require Lock TokenBucket.
From S2P Require Import CircuitBreaker Repo Frames Crash Signature Worker WorkerSpec DeadLetter.
From Stdlib Require Import ZArith QArith Lia String.
From stdpp Require Import prelude strings gmap.

Open Scope Z_scope.
Open Scope async_scope.

(** ** worker/index.ts and queues.ts *)

(** [settings.backoffStrategy], on the draw [u]. *)
Definition backoffStrategy (cfg : Config) (u attemptsMade : Z) (type : string) : jsnum :=
  if String.eqb type "webhook-backoff" then webhookBackoff cfg u attemptsMade else Num 1000.

(** The options of the worker. *)
Record WorkerOptions := {
  wo_concurrency : Z; wo_lockDuration : Z; wo_stalledInterval : Z; wo_maxStalledCount : Z
}.

Definition workerOptions (cfg : Config) : WorkerOptions := {|
  wo_concurrency := WORKER_CONCURRENCY cfg; wo_lockDuration := BULLMQ_LOCK_DURATION_MS cfg;
  wo_stalledInterval := BULLMQ_STALLED_INTERVAL_MS cfg; wo_maxStalledCount := 1 |}.

(** The options of every job of the delivery queue. *)
Record JobOptions := { jo_attempts : Z; jo_backoff : string; jo_age : Z; jo_count : Z; jo_removeOnFail : bool }.

Definition defaultJobOptions (cfg : Config) : JobOptions := {|
  jo_attempts := Z.of_nat (length (BACKOFF_BASE_MS cfg)); jo_backoff := "webhook-backoff";
  jo_age := REMOVE_ON_COMPLETE_AGE_S cfg; jo_count := REMOVE_ON_COMPLETE_COUNT cfg; jo_removeOnFail := false |}.

Record connection := { cn_host : string; cn_port : jsnum }.

(** [makeBullConnection], less its two constants; [new_URL] gives the host and
    the text of the port. *)
Definition makeBullConnection (new_URL : string -> string * string) (Number : string -> jsnum) (cfg : Config) : connection :=
  let '(hostname, port) := new_URL (REDIS_URL cfg) in
  {| cn_host := hostname; cn_port := match port with "" => Num 6379 | p => Number p end |}.

(** ** A run that is put off *)

Definition not_delayed (e : exn) : Prop := e <> DelayedError.

Lemma foreign_not_delayed e : foreign e -> not_delayed e.
Proof. by intros Hf ->. Qed.

Section Delayed.
Context {RS BS : Type} `{!RedisServer RS} `{!RedisLaws RS} `{!BullMQ BS} `{!BullMQLaws BS}.
Abbreviation world := (world RS BS).
Context (cfg : Config) (hmac : string -> string -> string).

(** A put-off run leaves everything as it was. *)
Definition put_off (w : world) {A} (o : outcome exn A) (w' : world) : Prop := o = Threw DelayedError -> db_same w w'.

Lemma wp_not_delayed {A} (p : io A) (w w0 : world) : raises not_delayed p -> wp env p (put_off w0) w.
Proof.
  intros Hp. eapply wp_mono; [apply (wp_raises env not_delayed)|].
  - intros w1 c e w2 He. by eapply foreign_not_delayed, env_foreign.
  - exact Hp.
  - intros [a|e|] w1 He H; try discriminate H. injection H as ->. by destruct (He eq_refl).
Qed.

Lemma wp_quiet_put_off {A} (p : io A) (w0 w : world) : db_same w0 w -> issues quiet p -> wp env p (put_off w0) w.
Proof. intros H0 Hp. eapply wp_mono; [by apply wp_quiet|]. intros o w1 [_ H1] _. by etrans. Qed.

(** After a quiet call, whatever it answers. *)
Lemma wp_put_off_bind {A B} (p : io A) (f : A -> io B) (w0 w : world) :
  db_same w0 w -> issues quiet p -> (forall a w1, db_same w0 w1 -> wp env (f a) (put_off w0) w1) ->
  wp env (bind p f) (put_off w0) w.
Proof.
  intros H0 Hp Hf. apply wp_quiet_bind; [done| |].
  - intros w1 e H1 _. by etrans.
  - intros w1 a H1. apply Hf. by etrans.
Qed.

Ltac not_delayed_tac := raises_tac ltac:(first [discriminate | assumption]).

Lemma raises_beats id tok n : raises not_delayed (beats cfg id tok n).
Proof.
  induction n as [|n IH]; cbn [beats]; [exact I|]. apply raises_bind; [not_delayed_tac|]. intros lost.
  apply raises_bind; [exact IH|]. by intros lost'.
Qed.

Lemma raises_alongside {A} id tok lost sched (fn : io A) : raises not_delayed (alongside cfg id tok lost sched fn).
Proof.
  revert lost sched. induction fn as [a|e| |c k IH]; intros lost sched; cbn [alongside]; try exact I.
  apply raises_bind; [apply raises_beats|]. intros l r Hr. apply IH.
Qed.

Lemma raises_cleanup id tok bucket : raises not_delayed (cleanup cfg id tok bucket).
Proof. not_delayed_tac. Qed.

Lemma raises_attempt id tok sched d br : raises not_delayed (attempt cfg hmac id tok sched d br).
Proof.
  unfold attempt, withLockHeartbeat. apply raises_bind; [not_delayed_tac|]. intros _.
  apply raises_bind; [not_delayed_tac|]. intros now. apply raises_bind; [not_delayed_tac|]. intros startedAt.
  apply raises_bind; [|intros result; not_delayed_tac].
  apply raises_bind; [apply raises_alongside|]. intros r. apply raises_bind; [apply raises_beats|]. by intros _.
Qed.

Lemma wp_pickup_put_off j token (w : world) : wp env (pickup cfg j token) (put_off w) w.
Proof.
  unfold pickup. apply wp_bind. eapply wp_mono.
  { apply wp_and; [apply wp_getForDelivery|apply (wp_not_delayed _ _ w); not_delayed_tac]. }
  intros [r|e|] w1 [[H1 _] Hp]; cbn [after]; [|intros [= ->]; by apply Hp|by intros].
  destruct r as [d|]; [|by apply wp_ret]. destruct (_ || _); [by apply wp_ret|]. destruct (endpointActive d); cbn [negb]; last first.
  { apply wp_quiet_put_off; [done|quiet_tac]. }
  apply wp_put_off_bind; [done|quiet_tac|]. intros br w2 H2. destruct (bool_decide (br = open)).
  { apply wp_not_delayed. not_delayed_tac. }
  apply wp_quiet_put_off; [done|quiet_tac].
Qed.

Lemma wp_processDelivery_put_off sched j token (w : world) :
  wp env (processDelivery cfg hmac sched j token) (put_off w) w.
Proof.
  unfold processDelivery. apply wp_put_off_bind; [done|quiet_tac|]. intros lock w1 H1.
  destruct (Lock.acquired lock); cbn [negb]; last first.
  { apply wp_quiet_put_off; [done|quiet_tac]. }
  apply wp_bind. unfold settle. apply wp_try_catch, wp_bind. eapply wp_mono; [apply wp_pickup_put_off|].
  intros [[[d br]|]|e|] w2 Hp; cbn [after]; [apply wp_ret..|by intros].
  - apply wp_not_delayed. apply raises_try_finally; [apply raises_attempt|apply raises_cleanup].
  - apply wp_not_delayed, raises_cleanup.
  - apply wp_bind. eapply wp_mono.
    { apply wp_and; [apply (wp_quiet (cleanup cfg _ _ None)), quiet_cleanup|apply (wp_not_delayed _ _ w), raises_cleanup]. }
    intros [u|e'|] w3 [[_ H3] Hno]; cbn [after]; [|intros [= ->]; by destruct (Hno eq_refl)|by intros]. apply wp_throw. intros [= ->].
    etrans; [exact H1|]. etrans; [by apply Hp|exact H3].
Qed.
End Delayed.

(** ** All the runs of a job *)

Section Life.
Context {RS BS : Type} `{!RedisServer RS} `{!RedisLaws RS} `{!BullMQ BS} `{!BullMQLaws BS}.
Abbreviation world := (world RS BS).
Context (cfg : Config) (hmac : string -> string -> string) (j : Job).

Abbreviation id := (job_deliveryId j).
Abbreviation attempts := (jo_attempts (defaultJobOptions cfg)).

(** Between two runs, in another session: time passes, and nothing else
    touches the tables or the wire. *)
Definition passes (w w' : world) : Prop :=
  tables_of w' = tables_of w /\ s_sent w'.1 = s_sent w.1 /\ s_now w.1 <= s_now w'.1 /\ idle w'.

(** A job ends completed, or with its attempts used up, or failed by BullMQ
    with [made] attempts made because its workers died. *)
Inductive fate := Completed | Exhausted | Stalled (made : Z).

Abbreviation maxStalledCount := (wo_maxStalledCount (workerOptions cfg)).

Definition failed_event (made : Z) : option FailedJob :=
  Some {| fj_attemptsMade := made; fj_deliveryId := id |}.

(** [life made stalls w f w']: a job that has been attempted [made] times and
    has stalled [stalls] times comes from [w] to its last run's end [w']. *)
Inductive life : Z -> Z -> world -> fate -> world -> Prop :=
| life_completed made stalls sched token w w1 :
    exec env (processDelivery cfg hmac sched j token) w (Returned tt) w1 -> life made stalls w Completed w1
| life_put_off made stalls sched token w w1 w2 f w3 :
    exec env (processDelivery cfg hmac sched j token) w (Threw DelayedError) w1 ->
    passes w1 w2 -> life made stalls w2 f w3 -> life made stalls w f w3
| life_stalled made stalls sched token w w1 w2 f w3 :
    cut (processDelivery cfg hmac sched j token) w w1 -> stalls + 1 <= maxStalledCount ->
    passes w1 w2 -> life made (stalls + 1) w2 f w3 -> life made stalls w f w3
| life_stalled_out made stalls sched token w w1 :
    cut (processDelivery cfg hmac sched j token) w w1 -> maxStalledCount < stalls + 1 -> life made stalls w (Stalled made) w1
| life_retried made stalls sched token e u d o w w1 w2 w3 w4 f w5 :
    exec env (processDelivery cfg hmac sched j token) w (Threw e) w1 -> e <> DelayedError ->
    made + 1 < attempts ->
    passes w1 w2 -> exec env (handleFailed cfg (failed_event (made + 1))) w2 o w3 ->
    0 <= u < 2 ^ 53 -> backoffStrategy cfg u (made + 1) (jo_backoff (defaultJobOptions cfg)) = Num d ->
    passes w3 w4 -> s_now w3.1 + 1000 * d <= s_now w4.1 ->
    life (made + 1) stalls w4 f w5 -> life made stalls w f w5
| life_exhausted made stalls sched token e w w1 :
    exec env (processDelivery cfg hmac sched j token) w (Threw e) w1 -> e <> DelayedError ->
    attempts <= made + 1 -> life made stalls w Exhausted w1.

(** Nothing is left to do for the delivery. *)
Definition finished (T : tables) : Prop := forall d, for_worker T id = Some d -> settled d = true.

Definition is_attempt (r : http_request) : Prop := exists d now, r = attempt_request cfg hmac id d now.

Lemma effect_sent T T' sent fin :
  delivery_effect cfg hmac T id T' sent fin -> (length sent <= 1)%nat /\ Forall is_attempt sent.
Proof. destruct 1; (split; [cbn; lia|]); repeat constructor; by eexists _, _. Qed.

Lemma effect_finished T T' sent : delivery_effect cfg hmac T id T' sent true -> finished T'.
Proof.
  remember true as fin eqn:E. destruct 1 as [|Hf| | | |d t0 now lost r st fi next t1 T' Hd Hst Hact Hrec]; try done; intros d' Hd'.
  - destruct Hf as [Hn|(d & Hd & Hs)]; congruence.
  - destruct (for_worker_row _ _ _ Hd) as (row & Hrow & _), (for_worker_row _ _ _ Hd') as (row' & Hrow' & _ & Hs').
    destruct (recorded_lookup _ _ _ _ _ Hrec (announced_lookup _ _ d t0 _ Hrow)) as (nx & _ & Hl).
    cbn in Hl. rewrite E in Hl. change (deliveries T' !! id = Some (set_attempted DELIVERED nx t1 (set_status DELIVERING t0 row))) in Hl.
    rewrite Hl in Hrow'. injection Hrow' as <-. unfold settled. by rewrite Hs'.
Qed.

(** One run: at most one request, and when it returns the delivery is
    finished. *)
Lemma run_post sched token (w w1 : world) o :
  idle w -> exec env (processDelivery cfg hmac sched j token) w o w1 ->
  idle w1 /\ (exists sent, s_sent w1.1 = s_sent w.1 ++ sent /\ (length sent <= 1)%nat /\ Forall is_attempt sent) /\
  (o = Returned tt -> finished (tables_of w1)).
Proof.
  intros Hi Hx. pose proof (wp_processDelivery cfg hmac sched j token w Hi) as H. rewrite wp_exec in H.
  destruct (H _ _ Hx) as (Hi1 & sent & fin & Hs & He & Ho). split; [done|]. split.
  - exists sent. split; [done|]. by eapply effect_sent.
  - intros ->. subst fin. by eapply effect_finished.
Qed.

(** A run that is cut: at most one request. *)
Lemma cut_post sched token (w w1 : world) :
  idle w -> cut (processDelivery cfg hmac sched j token) w w1 ->
  idle w1 /\ exists sent, s_sent w1.1 = s_sent w.1 ++ sent /\ (length sent <= 1)%nat /\ Forall is_attempt sent.
Proof.
  intros Hi Hc. destruct (cut_exec _ _ _ Hc) as (Hi1 & o & w2 & Hx & _ & [rest Hrest]). split; [done|].
  destruct (run_post _ _ _ _ _ Hi Hx) as (_ & (sent & Hs & Hlen & Hat) & _).
  assert (s_sent w.1 `prefix_of` s_sent w1.1) as [mine Hmine] by by eapply cut_grows.
  rewrite Hmine in Hrest. rewrite Hs, <- app_assoc in Hrest. apply app_inv_head in Hrest as ->.
  exists mine. split; [done|]. rewrite length_app in Hlen. apply Forall_app in Hat as [Hat _]. split; [lia|done].
Qed.

(** A run that is put off sends nothing. *)
Lemma put_off_sent sched token (w w1 : world) :
  exec env (processDelivery cfg hmac sched j token) w (Threw DelayedError) w1 -> db_same w w1.
Proof.
  intros Hx. pose proof (wp_processDelivery_put_off cfg hmac sched j token w) as H. rewrite wp_exec in H.
  by apply (H _ _ Hx).
Qed.

(** A 'failed' event before the last leaves all as it was. *)
Lemma early_failed made (w w1 : world) o :
  idle w -> made < attempts -> exec env (handleFailed cfg (failed_event made)) w o w1 ->
  idle w1 /\ tables_of w1 = tables_of w /\ s_sent w1.1 = s_sent w.1.
Proof.
  intros Hi Hm Hx. pose proof (wp_handleFailed cfg {| fj_attemptsMade := made; fj_deliveryId := id |} w Hi) as H.
  rewrite wp_exec in H. destruct (H _ _ Hx) as (_ & Hi1 & _ & [[HT Hs]|(d & t0 & sent & Hex & _)]); [done|].
  unfold exhausted in Hex. cbn in Hex, Hm. lia.
Qed.

Lemma life_post made stalls (w w' : world) f :
  life made stalls w f w' -> idle w -> made < attempts -> stalls <= maxStalledCount ->
  idle w' /\ (exists sent, s_sent w'.1 = s_sent w.1 ++ sent /\
    Z.of_nat (length sent) <= (attempts - made) + (maxStalledCount - stalls) /\ Forall is_attempt sent) /\
  match f with Completed => finished (tables_of w') | Exhausted => True | Stalled m => m < attempts end.
Proof.
  assert (forall (w0 w1 : world), s_sent w1.1 = s_sent w0.1 -> forall (w2 : world) n,
    (exists sent, s_sent w2.1 = s_sent w1.1 ++ sent /\ Z.of_nat (length sent) <= n /\ Forall is_attempt sent) ->
    exists sent, s_sent w2.1 = s_sent w0.1 ++ sent /\ Z.of_nat (length sent) <= n /\ Forall is_attempt sent) as Hsame
    by (intros w0 w1 ->; done).
  assert (forall (w0 w1 w2 w3 : world) n,
    (exists sent, s_sent w1.1 = s_sent w0.1 ++ sent /\ (length sent <= 1)%nat /\ Forall is_attempt sent) ->
    s_sent w2.1 = s_sent w1.1 ->
    (exists sent, s_sent w3.1 = s_sent w2.1 ++ sent /\ Z.of_nat (length sent) <= n /\ Forall is_attempt sent) ->
    exists sent, s_sent w3.1 = s_sent w0.1 ++ sent /\ Z.of_nat (length sent) <= n + 1 /\ Forall is_attempt sent) as Htwo.
  { intros w0 w1 w2 w3 n (s1 & E1 & L1 & A1) E2 (s2 & E3 & L2 & A2). exists (s1 ++ s2).
    rewrite E3, E2, E1, app_assoc, length_app. split; [done|]. split; [lia|by apply Forall_app]. }
  assert (forall (w0 w1 : world) n, 1 <= n ->
    (exists sent, s_sent w1.1 = s_sent w0.1 ++ sent /\ (length sent <= 1)%nat /\ Forall is_attempt sent) ->
    exists sent, s_sent w1.1 = s_sent w0.1 ++ sent /\ Z.of_nat (length sent) <= n /\ Forall is_attempt sent) as Hone.
  { intros w0 w1 n Hn (s1 & E1 & L1 & A1). exists s1. split; [done|]. split; [lia|done]. }
  induction 1 as [made stalls sched token w w1 Hx|made stalls sched token w w1 w2 f w3 Hx (HT & Hs & _ & Hi2) Hl IH
    |made stalls sched token w w1 w2 f w3 Hx Hm (HT & Hs & _ & Hi2) Hl IH|made stalls sched token w w1 Hx Hm
    |made stalls sched token e u d o w w1 w2 w3 w4 f w5 Hx He Hm (HT & Hs & _ & Hi2) Hf Hu Hd (HT4 & Hs4 & _ & Hi4) Ht Hl IH
    |made stalls sched token e w w1 Hx He Hm]; intros Hi Hlt Hst.
  - destruct (run_post _ _ _ _ _ Hi Hx) as (Hi1 & Hsent & Hfin). split; [done|]. split; [|by apply Hfin]. apply Hone; [lia|done].
  - destruct (IH Hi2 Hlt Hst) as (Hi3 & Hsent & Hfin). split; [done|]. split; [|done].
    eapply Hsame; [|exact Hsent]. by rewrite Hs, (db_same_sent _ _ (put_off_sent _ _ _ _ Hx)).
  - destruct (cut_post _ _ _ _ Hi Hx) as (_ & Hsent1). destruct (IH Hi2 Hlt Hm) as (Hi3 & Hsent & Hfin).
    split; [done|]. split; [|done]. destruct (Htwo _ _ _ _ _ Hsent1 Hs Hsent) as (sent & E & L & A). exists sent. split; [done|]. split; [lia|done].
  - destruct (cut_post _ _ _ _ Hi Hx) as (Hi1 & Hsent). split; [done|]. split; [|done]. apply Hone; [lia|done].
  - destruct (run_post _ _ _ _ _ Hi Hx) as (_ & Hsent1 & _).
    destruct (early_failed _ _ _ _ Hi2 Hm Hf) as (_ & _ & Hs3).
    destruct (IH Hi4 Hm Hst) as (Hi5 & Hsent2 & Hfin). split; [done|]. split; [|done].
    destruct (Htwo w w1 w4 w5 _ Hsent1 ltac:(by rewrite Hs4, Hs3, Hs) Hsent2) as (sent & E & L & A). exists sent. split; [done|]. split; [lia|done].
  - destruct (run_post _ _ _ _ _ Hi Hx) as (Hi1 & Hsent & _). split; [done|]. split; [|done]. apply Hone; [lia|done].
Qed.

Lemma steady_env (w : world) c r w' : steady w c r w' -> env w c r w'.
Proof. by intros []. Qed.

(** The last 'failed' event, on services that do not fail. *)
Lemma last_failed made (w w1 : world) o :
  idle w -> attempts <= made -> exec steady (handleFailed cfg (failed_event made)) w o w1 -> finished (tables_of w1).
Proof.
  intros Hi Hm Hx d1 Hd1. set (job := {| fj_attemptsMade := made; fj_deliveryId := id |}) in *.
  pose proof (wp_handleFailed cfg job w Hi) as Henv. apply (wp_env_mono steady env) in Henv; [|apply steady_env].
  rewrite wp_exec in Henv. destruct (Henv _ _ Hx) as (_ & _ & _ & Ho).
  destruct (for_worker (tables_of w) id) as [d|] eqn:Hd.
  2:{ destruct Ho as [[HT _]|(d & t0 & sent & _ & _ & Hd' & _)]; [rewrite HT in Hd1|]; cbn in *; congruence. }
  destruct (decide (dw_status d = DLQ)) as [Hq|Hq].
  - destruct Ho as [[HT _]|(d' & t0 & sent & _ & _ & Hd' & Hn & _)]; cbn in *; [|congruence].
    rewrite HT, Hd in Hd1. injection Hd1 as <-. unfold settled. by rewrite Hq.
  - pose proof (wp_handleFailed_steady cfg job d w Hi) as H.
    rewrite wp_exec in H. destruct (H ltac:(unfold exhausted; cbn in *; lia) Hd Hq _ _ Hx) as (t0 & last & _ & HT & _).
    destruct (for_worker_row _ _ _ Hd1) as (row1 & Hrow1 & _ & Hs1), (for_worker_row _ _ _ Hd) as (row & Hrow & _).
    rewrite HT in Hrow1. cbn in Hrow1. rewrite lookup_alter, decide_True, Hrow in Hrow1 by done. injection Hrow1 as <-.
    unfold settled. by rewrite Hs1.
Qed.
End Life.

(** C6: the life of a job. Whatever the endpoint answers, whatever fails, how
    ever often the job is put off and wherever its workers die, over all its
    runs at most as many requests leave as the backoff table has entries, and
    one more for each run that may stall, all of them signed attempts of that
    delivery. A job that completes leaves the delivery delivered, or in the
    DLQ, or there was none; when its attempts are used up, the last 'failed'
    event, once the services answer, puts it in the DLQ. But when its workers
    have died too often, the 'failed' event leaves the delivery as it is. *)
Theorem job_life {RS BS : Type} `{!RedisServer RS} `{!RedisLaws RS} `{!BullMQ BS} `{!BullMQLaws BS}
    (cfg : Config) (hmac : string -> string -> string) (j : Job) (f : fate) (w w' : world RS BS) :
  BACKOFF_BASE_MS cfg <> [] -> idle w -> life cfg hmac j 0 0 w f w' ->
  (exists sent, s_sent w'.1 = s_sent w.1 ++ sent /\ (length sent <= length (BACKOFF_BASE_MS cfg) + 1)%nat /\
     Forall (is_attempt cfg hmac j) sent) /\
  match f with
  | Completed => finished j (tables_of w')
  | Exhausted => forall w1 w2 o, passes w' w1 ->
      exec steady (handleFailed cfg (failed_event j (jo_attempts (defaultJobOptions cfg)))) w1 o w2 ->
      finished j (tables_of w2)
  | Stalled made => forall w1 w2 o, passes w' w1 ->
      exec env (handleFailed cfg (failed_event j made)) w1 o w2 -> tables_of w2 = tables_of w'
  end.
Proof.
  intros Hne Hi Hl.
  destruct (life_post cfg hmac j 0 0 w w' f Hl Hi) as (_ & (sent & Hs & Hlen & Hat) & Hfin); [|done|].
  { cbn. destruct (BACKOFF_BASE_MS cfg); [done|]. cbn. lia. }
  split; [exists sent; split; [done|]; split; [cbn in Hlen; lia|done]|].
  destruct f as [| |made]; [done|..]; intros w1 w2 o (HT & _ & _ & Hi1) Hx; [by eapply last_failed|].
  destruct (early_failed cfg j made w1 w2 o Hi1 Hfin Hx) as (_ & H & _). congruence.
Qed.

(** A configuration with a single attempt. *)
Definition one_attempt : Config :=
  default default_config (load_config (fun k => if String.eqb k "BACKOFF_BASE_MS" then Some "1000" else bare_env k)
    decimal_Number (fun _ => true)).

Definition refused_run : outcome exn unit * mem_world :=
  run_with (serve (answering 503)) (processDelivery one_attempt toy_hmac demo_schedule demo_job None) pending_world.

Lemma refused_life : life one_attempt toy_hmac demo_job 0 0 pending_world Exhausted refused_run.2.
Proof.
  apply (life_exhausted one_attempt toy_hmac demo_job 0 0 demo_schedule None (NewError "http_503") pending_world refused_run.2).
  - pose proof (serve_exec (answering 503) (processDelivery one_attempt toy_hmac demo_schedule demo_job None) pending_world) as H.
    assert (refused_run.1 = Threw (NewError "http_503")) as E by (vm_compute; reflexivity).
    unfold refused_run in E. rewrite E in H. exact H.
  - discriminate.
  - vm_compute. discriminate.
Qed.

Lemma job_life_witness :
  let r := run_with (serve reliable) (handleFailed one_attempt (failed_event demo_job 1)) refused_run.2 in
  finished demo_job (tables_of r.2) /\ d_status <$> deliveries (tables_of r.2) !! "d1" = Some DLQ.
Proof.
  intros r. split; [|vm_compute; reflexivity].
  destruct (job_life one_attempt toy_hmac demo_job Exhausted pending_world refused_run.2) as [_ H].
  - vm_compute. discriminate.
  - apply demo_idle.
  - exact refused_life.
  - refine (H refused_run.2 r.2 r.1 _ (serve_steady reliable (handleFailed one_attempt (failed_event demo_job 1)) refused_run.2 _)).
    + split; [reflexivity|]. split; [reflexivity|]. split; [apply Z.le_refl|].
      exact (processDelivery_idle one_attempt toy_hmac demo_schedule demo_job None pending_world _ _ (demo_idle _ _ _ _)
        (serve_exec (answering 503) (processDelivery one_attempt toy_hmac demo_schedule demo_job None) pending_world)).
    + vm_compute. reflexivity.
Defined.

(** ** Two dead workers

    The first dies when it has announced its attempt, the second at once. *)

Definition dead_worker : mem_world :=
  cut_after (serve reliable) 13 (processDelivery default_config toy_hmac demo_schedule demo_job None) pending_world.

(** BullMQ has failed the job with its attempts unused; the handler ignores
    the event ([job_life]), and the delivery is left DELIVERING. *)
Theorem stalled_left : exists w,
  life default_config toy_hmac demo_job 0 0 pending_world (Stalled 0) w /\
  d_status <$> deliveries (tables_of w) !! "d1" = Some DELIVERING /\
  forall w1 w2 o, passes w w1 ->
    exec env (handleFailed default_config (failed_event demo_job 0)) w1 o w2 -> tables_of w2 = tables_of w.
Proof.
  set (p := processDelivery default_config toy_hmac demo_schedule demo_job None).
  assert (cut p pending_world dead_worker) as Hc by apply cut_after_cut, serve_env.
  assert (life default_config toy_hmac demo_job 0 0 pending_world (Stalled 0) (killed dead_worker)) as Hl.
  { apply (life_stalled _ _ _ 0 0 demo_schedule None _ dead_worker dead_worker); [exact Hc|done| |].
    - split; [done|]. split; [done|]. split; [done|]. apply (cut_exec _ _ _ Hc).
    - apply (life_stalled_out _ _ _ 0 1 demo_schedule None); [|done]. apply (cut_after_cut (serve reliable) 0), serve_env. }
  exists (killed dead_worker). split; [exact Hl|]. split; [vm_compute; reflexivity|].
  intros w1 w2 o (HT & _ & _ & Hi) Hx. rewrite <- HT. by eapply early_failed; [exact Hi| |exact Hx].
Qed.
