(* ===== verification/Cursor.v ===== *)
(** * Cursors of the keyset listings

    [src/src/api/cursor.ts]: a cursor is the JSON of a time and an id, in
    URL-safe Base64. The Base64 and UTF-8 codecs of [Buffer] are modelled on
    the texts they are defined for; what they make of other characters and of
    broken UTF-8 is left open ([platform]). *)

From S2P Require Import Prelude Async Json Parse Config Tables Queries Schema Redis Services.
From Stdlib Require Import ZArith Lia String Ascii.
From stdpp Require Import prelude strings.

(** ** Base64, URL alphabet *)

Definition b64_digit (n : nat) : ascii :=
  if n <? 26 then ascii_of_nat (65 + n)
  else if n <? 52 then ascii_of_nat (71 + n)
  else if n <? 62 then ascii_of_nat (n - 4)
  else if n =? 62 then "-"%char else "_"%char.

(** Decoding accepts the digits of both alphabets. *)
Definition b64_value (c : ascii) : option nat :=
  let n := nat_of_ascii c in
  if (65 <=? n) && (n <=? 90) then Some (n - 65)
  else if (97 <=? n) && (n <=? 122) then Some (n - 71)
  else if (48 <=? n) && (n <=? 57) then Some (n + 4)
  else if Ascii.eqb c "-" || Ascii.eqb c "+" then Some 62
  else if Ascii.eqb c "_" || Ascii.eqb c "/" then Some 63
  else None.

(** [buffer.toString('base64url')]: no padding. *)
Fixpoint base64url (bytes : string) : string :=
  match bytes with
  | String a (String b (String c r)) =>
      let x := nat_of_ascii a in let y := nat_of_ascii b in let z := nat_of_ascii c in
      String (b64_digit (x / 4)) (String (b64_digit (16 * (x mod 4) + y / 16))
        (String (b64_digit (4 * (y mod 16) + z / 64)) (String (b64_digit (z mod 64)) (base64url r))))
  | String a (String b EmptyString) =>
      let x := nat_of_ascii a in let y := nat_of_ascii b in
      String (b64_digit (x / 4)) (String (b64_digit (16 * (x mod 4) + y / 16)) (String (b64_digit (4 * (y mod 16))) ""))
  | String a EmptyString =>
      let x := nat_of_ascii a in
      String (b64_digit (x / 4)) (String (b64_digit (16 * (x mod 4))) "")
  | EmptyString => ""
  end.

(** The bytes of a text of digits; a last digit alone carries none. *)
Fixpoint from_base64 (s : string) : option string :=
  match s with
  | String a (String b (String c (String d r))) =>
      x ← b64_value a; y ← b64_value b; z ← b64_value c; w ← b64_value d;
      rest ← from_base64 r;
      Some (String (ascii_of_nat (4 * x + y / 16)) (String (ascii_of_nat (16 * (y mod 16) + z / 4))
        (String (ascii_of_nat (64 * (z mod 4) + w)) rest)))
  | String a (String b (String c EmptyString)) =>
      x ← b64_value a; y ← b64_value b; z ← b64_value c;
      Some (String (ascii_of_nat (4 * x + y / 16)) (String (ascii_of_nat (16 * (y mod 16) + z / 4)) ""))
  | String a (String b EmptyString) =>
      x ← b64_value a; y ← b64_value b;
      Some (String (ascii_of_nat (4 * x + y / 16)) "")
  | String a EmptyString => x ← b64_value a; Some ""
  | EmptyString => Some ""
  end.

Lemma b64_value_digit n : n < 64 -> b64_value (b64_digit n) = Some n.
Proof.
  intros Hn. assert (forallb (fun n => bool_decide (b64_value (b64_digit n) = Some n)) (seq 0 64) = true) as H
    by (vm_compute; reflexivity).
  rewrite forallb_forall in H. apply (bool_decide_eq_true_1 _), H, in_seq. lia.
Qed.

(** Three bytes as four digits and back: [k * a + b] with [b < k] is the pair
    of its quotient and its remainder. *)
Lemma pair_div k a b : b < k -> (k * a + b) / k = a.
Proof. intros Hb. rewrite Nat.mul_comm, Nat.div_add_l by lia. rewrite Nat.div_small; lia. Qed.

Lemma pair_mod k a b : b < k -> (k * a + b) mod k = b.
Proof. intros Hb. rewrite Nat.add_comm, Nat.mul_comm, Nat.Div0.mod_add. by apply Nat.mod_small. Qed.

Lemma high_part c k m : 256 = k * m -> nat_of_ascii c / k < m.
Proof. intros H. pose proof (nat_ascii_bounded c). apply Nat.Div0.div_lt_upper_bound. lia. Qed.

Lemma low_part c k : 0 < k -> nat_of_ascii c mod k < k.
Proof. intros H. apply Nat.mod_upper_bound. lia. Qed.

Lemma whole c k : ascii_of_nat (k * (nat_of_ascii c / k) + nat_of_ascii c mod k) = c.
Proof. rewrite <- Nat.div_mod_eq. apply ascii_nat_embedding. Qed.

(** The bounds of the digits of the bytes [a], [b] and [c]. *)
Ltac digit_bounds a b c :=
  pose proof (high_part a 4 64 eq_refl); pose proof (low_part a 4 ltac:(lia));
  pose proof (high_part b 16 16 eq_refl); pose proof (low_part b 16 ltac:(lia));
  pose proof (high_part c 64 4 eq_refl); pose proof (low_part c 64 ltac:(lia)).

Lemma from_base64url bytes : from_base64 (base64url bytes) = Some bytes.
Proof.
  induction bytes as [bytes IH] using (induction_ltof1 _ String.length).
  destruct bytes as [|a [|b [|c r]]]; [done|..]; cbn [base64url from_base64].
  - digit_bounds a a a. rewrite !b64_value_digit by lia. cbn [mbind option_bind].
    rewrite <- (Nat.add_0_r (16 * _)), pair_div by lia. by rewrite whole.
  - digit_bounds a b a. rewrite !b64_value_digit by lia. cbn [mbind option_bind].
    rewrite <- (Nat.add_0_r (4 * (_ mod 16))), !pair_div, pair_mod by lia. by rewrite !whole.
  - digit_bounds a b c. rewrite !b64_value_digit by lia. cbn [mbind option_bind].
    rewrite IH by (unfold ltof; cbn; lia). cbn [mbind option_bind].
    rewrite !pair_div, !pair_mod by lia. by rewrite !whole.
Qed.

(** ** UTF-8 *)

(** Which continuation bytes a lead byte asks for. *)
Definition utf8_lead (n : nat) : option (list (nat * nat)) :=
  let tail := (128, 191) in
  if n <? 128 then Some []
  else if (194 <=? n) && (n <=? 223) then Some [tail]
  else if n =? 224 then Some [(160, 191); tail]
  else if n =? 237 then Some [(128, 159); tail]
  else if (225 <=? n) && (n <=? 239) then Some [tail; tail]
  else if n =? 240 then Some [(144, 191); tail; tail]
  else if (241 <=? n) && (n <=? 243) then Some [tail; tail; tail]
  else if n =? 244 then Some [(128, 143); tail; tail]
  else None.

(** Reads bytes; the state is the continuation bytes still due. *)
Fixpoint utf8_run (due : list (nat * nat)) (s : string) : option (list (nat * nat)) :=
  match s with
  | EmptyString => Some due
  | String c r =>
      let n := nat_of_ascii c in
      match due with
      | [] => due ← utf8_lead n; utf8_run due r
      | (lo, hi) :: due => if (lo <=? n) && (n <=? hi) then utf8_run due r else None
      end
  end.

Definition utf8_valid (s : string) : bool := bool_decide (utf8_run [] s = Some []).

Lemma utf8_run_app due a b : utf8_run due (a ++s b) = due ← utf8_run due a; utf8_run due b.
Proof.
  revert due. induction a as [|c a IH]; intros due; [done|]. rewrite str_app_cons. cbn [utf8_run].
  destruct due as [|[lo hi] due].
  - destruct (utf8_lead _); cbn [mbind option_bind]; [apply IH|done].
  - destruct (_ && _); [apply IH|done].
Qed.

(** Escaping replaces ASCII by ASCII and leaves the other bytes alone. *)
Lemma utf8_escape c due :
  due = [] \/ 128 <= nat_of_ascii c -> utf8_run due (json_escape c) = utf8_run due (String c "").
Proof.
  intros [-> |H]; destruct c as [[] [] [] [] [] [] [] []]; try reflexivity; apply Nat.leb_le in H; discriminate H.
Qed.

(** Only a byte above 127 continues a character. *)
Definition high_due (due : list (nat * nat)) : Prop := Forall (fun r => 128 <= r.1) due.

Lemma utf8_lead_high n due : utf8_lead n = Some due -> high_due due.
Proof.
  unfold utf8_lead. intros H. repeat (case_match; [injection H as <-; repeat constructor; cbn; lia|]). done.
Qed.

Lemma utf8_run_escape due s d : high_due due ->
  utf8_run due s = Some d -> utf8_run due (json_escape_all s) = Some d.
Proof.
  revert due. induction s as [|c s IH]; intros due Hd H; [done|]. cbn [json_escape_all].
  rewrite utf8_run_app. cbn [utf8_run] in H. destruct due as [|[lo hi] due].
  - rewrite utf8_escape by by left. cbn [utf8_run]. destruct (utf8_lead _) as [due|] eqn:E; [|done].
    cbn [mbind option_bind] in *. apply IH; [by eapply utf8_lead_high|done].
  - apply Forall_cons in Hd as [Hlo Hd]. cbn [fst] in Hlo.
    destruct ((lo <=? nat_of_ascii c) && (nat_of_ascii c <=? hi)) eqn:E; [|done].
    rewrite utf8_escape by (right; apply andb_true_iff in E as [E _]; apply Nat.leb_le in E; lia).
    cbn [utf8_run]. rewrite E. cbn [mbind option_bind]. by apply IH.
Qed.

Lemma utf8_valid_run s : utf8_valid s = true <-> utf8_run [] s = Some [].
Proof. unfold utf8_valid. by rewrite bool_decide_eq_true. Qed.

Lemma utf8_valid_app a b : utf8_valid a = true -> utf8_valid b = true -> utf8_valid (a ++s b) = true.
Proof. rewrite !utf8_valid_run, utf8_run_app. intros -> H. exact H. Qed.

Lemma utf8_valid_quote s : utf8_valid s = true -> utf8_valid (json_quote s) = true.
Proof.
  intros H. unfold json_quote. change (String dquote ?x) with (String dquote "" ++s x)%string.
  apply utf8_valid_app; [done|]. apply utf8_valid_app; [|done].
  apply utf8_valid_run, utf8_run_escape; [constructor|by apply utf8_valid_run].
Qed.

(** A text assembled from valid texts is valid. *)
Ltac utf8_tac lem :=
  repeat lazymatch goal with
  | |- utf8_valid (_ ++s _) = true => apply utf8_valid_app
  | |- utf8_valid _ = true => first [done | apply lem; try done]
  end.

(** ** cursor.ts *)

Record Cursor := { c_updatedAt : string; c_id : string }.

(** The corners of the platform the model leaves open: what Base64 decoding
    makes of characters that are no digits, what UTF-8 decoding makes of bytes
    that are no UTF-8, how a number prints, and zod's list of issues. *)
Record platform := {
  pf_base64 : string -> string;
  pf_repair : string -> string;
  pf_number : string -> string;
  pf_issues : json -> json
}.

Section Codec.
Context (pf : platform).

(** [Buffer.from(value, 'base64url')]. *)
Definition buffer_base64url (value : string) : string := default (pf_base64 pf value) (from_base64 value).

(** [buffer.toString('utf8')]. *)
Definition buffer_utf8 (bytes : string) : string := if utf8_valid bytes then bytes else pf_repair pf bytes.

Definition cursor_json (c : Cursor) : json := JObj [("updatedAt", JStr (c_updatedAt c)); ("id", JStr (c_id c))].

Definition encodeCursor (c : Cursor) : string := base64url (stringify (cursor_json c)).

(** [cursorSchema.safeParse]. *)
Definition cursorSchema (v : json) : option Cursor :=
  match v with
  | JObj fs =>
      match field "updatedAt" fs, field "id" fs with
      | Some (JStr u), Some (JStr i) => Some {| c_updatedAt := u; c_id := i |}
      | _, _ => None
      end
  | _ => None
  end.

Definition INVALID_CURSOR (message : string) (details : json) : exn := AppError 400 "INVALID_CURSOR" message details.

Definition decodeCursor (value : string) : exn + Cursor :=
  match JSON_parse (pf_number pf) (buffer_utf8 (buffer_base64url value)) with
  | None => inl (INVALID_CURSOR "cursor is not valid base64/JSON" (JObj []))
  | Some parsed =>
      match cursorSchema parsed with
      | None => inl (INVALID_CURSOR "cursor failed validation" (JObj [("issues", pf_issues pf parsed)]))
      | Some c => inr c
      end
  end.

Lemma buffer_base64url_encoded bytes : buffer_base64url (base64url bytes) = bytes.
Proof. unfold buffer_base64url. by rewrite from_base64url. Qed.

Lemma buffer_utf8_valid bytes : utf8_valid bytes = true -> buffer_utf8 bytes = bytes.
Proof. unfold buffer_utf8. by intros ->. Qed.

(** A printed value, encoded, reaches the schema as it was. *)
Lemma decodeCursor_printed v c :
  printable (pf_number pf) v -> utf8_valid (stringify v) = true -> cursorSchema v = Some c ->
  decodeCursor (base64url (stringify v)) = inr c.
Proof.
  intros Hp Hu Hc. unfold decodeCursor.
  by rewrite buffer_base64url_encoded, buffer_utf8_valid, parse_stringify, Hc.
Qed.

Lemma cursor_json_valid c :
  utf8_valid (c_updatedAt c) = true -> utf8_valid (c_id c) = true -> utf8_valid (stringify (cursor_json c)) = true.
Proof. intros Hu Hi. cbn [cursor_json stringify map str_join]. utf8_tac utf8_valid_quote. Qed.

(** A cursor that does not decode is a 400 INVALID_CURSOR. *)
Lemma decodeCursor_error value e :
  decodeCursor value = inl e -> exists m d, e = INVALID_CURSOR m d.
Proof. unfold decodeCursor. repeat case_match; naive_solver. Qed.

(** ** Properties *)

(** C32: a cursor survives the round trip through the client. Whatever texts it
    holds, quotes, control characters and characters beyond ASCII included,
    decoding what was encoded gives the same cursor, on every platform. *)
Theorem cursor_roundtrip (c : Cursor) :
  utf8_valid (c_updatedAt c) = true -> utf8_valid (c_id c) = true ->
  decodeCursor (encodeCursor c) = inr c.
Proof.
  intros Hu Hi. apply decodeCursor_printed; [done|by apply cursor_json_valid|by destruct c].
Qed.
End Codec.

Definition demo_platform : platform := {|
  pf_base64 := fun s => s; pf_repair := fun _ => "?"; pf_number := fun t => t; pf_issues := fun _ => JArr [] |}.

Definition demo_cursor : Cursor := {|
  c_updatedAt := "2026-06-26T00:00:00.000Z"; c_id := "é" ++s String dquote (String "010" "") |}.

Example encode_example :
  encodeCursor {| c_updatedAt := "2026-06-26T00:00:00.000Z"; c_id := "7f6e" |} =
  "eyJ1cGRhdGVkQXQiOiIyMDI2LTA2LTI2VDAwOjAwOjAwLjAwMFoiLCJpZCI6IjdmNmUifQ".
Proof. vm_compute. reflexivity. Qed.

Lemma cursor_roundtrip_witness :
  utf8_valid (c_id demo_cursor) = true /\
  decodeCursor demo_platform (encodeCursor demo_cursor) = inr demo_cursor.
Proof. split; [vm_compute; reflexivity|]. apply cursor_roundtrip; vm_compute; reflexivity. Defined.
