(* ===== verification/Listing.v ===== *)
(** * The read functions of the delivery repository

    [list], [listDlq] and [getDetail] of src/src/db/deliveries.repo.ts. [list]
    assembles its WHERE clause condition by condition, each naming its
    parameters by their position at that moment; the section [Reference] says
    what the assembled query means. *)

From S2P Require Import Prelude Async Config Json Dates Tables Queries Schema Redis Services Concrete Repo Frames Cursor.
From Stdlib Require Import ZArith Lia String.
From stdpp Require Import prelude strings gmap sorting.

Open Scope Z_scope.
Open Scope async_scope.

(** ** The functions *)

(** A [Date] is its time in milliseconds, [NaN] when it is invalid. *)
Record DeliveryListFilters := {
  f_statuses : option (list string); f_endpointId : option string;
  f_from : option jsnum; f_to : option jsnum
}.

(** [date.toISOString()]. *)
Definition iso_of (d : jsnum) : exn + string :=
  match d with
  | Num ms => inr (toISOString ms)
  | NaN => inl (JsError "RangeError" "Invalid time value")
  end.

(** The conditions and the parameters pushed so far. *)
Definition clause : Type := list condition * list param.

(** [params.push(p); conditions.push(c($n))]. *)
Definition push (p : param) (c : nat -> condition) (acc : clause) : clause :=
  let params := acc.2 ++ [p] in (acc.1 ++ [c (length params)], params).

Definition push_status (filters : DeliveryListFilters) (acc : clause) : clause :=
  match f_statuses filters with
  | Some (s :: ss) => push (PTexts (s :: ss)) StatusIsAny acc
  | _ => acc
  end.

Definition push_endpoint (filters : DeliveryListFilters) (acc : clause) : clause :=
  match f_endpointId filters with
  | None | Some "" => acc
  | Some e => push (PText e) EndpointIs acc
  end.

Definition push_date (d : option jsnum) (c : nat -> condition) (acc : clause) : exn + clause :=
  match d with
  | None => inr acc
  | Some d => match iso_of d with inl e => inl e | inr s => inr (push (PText s) c acc) end
  end.

Definition push_cursor (cursor : option Cursor) (acc : clause) : clause :=
  match cursor with
  | None => acc
  | Some c =>
      let params := acc.2 ++ [PText (c_updatedAt c); PText (c_id c)] in
      (acc.1 ++ [KeyBefore (length params - 1) (length params)], params)
  end.

Definition list_clause (filters : DeliveryListFilters) (cursor : option Cursor) : exn + clause :=
  match push_date (f_from filters) CreatedFrom (push_endpoint filters (push_status filters ([], []))) with
  | inl e => inl e
  | inr acc =>
      match push_date (f_to filters) CreatedTo acc with
      | inl e => inl e
      | inr acc => inr (push_cursor cursor acc)
      end
  end.

Definition list_deliveries (filters : DeliveryListFilters) (cursor : option Cursor) (limit : Z) :
    io (list DeliveryListRow * bool) :=
  match list_clause filters cursor with
  | inl e => Throw e
  | inr (conditions, params) =>
      let params := params ++ [PNumber (limit + 1)] in
      let* rows := pool_query (Select (SelectDeliveries conditions (length params) params)) in
      let rows : list DeliveryListRow := rows in
      Ret (take (Z.to_nat limit) rows, limit <? Z.of_nat (length rows))
  end.

(** [listDlq]; the cursor's time is a [Date]. *)
Definition listDlq (cursor : option (jsnum * string)) (limit : Z) : io (list DlqRow * bool) :=
  let* rows := pool_query (Select (SelectDlq cursor (limit + 1))) in
  let rows : list DlqRow := rows in
  Ret (take (Z.to_nat limit) rows, limit <? Z.of_nat (length rows)).

Record DeliveryDetail := {
  dd_row : detail_row; dd_attempts : list AttemptDetail; dd_transitions : list TransitionDetail
}.

(** [Promise.all([p, q])]: both are started; the first failure is the result.
    (When both fail, the first of the array: which one settles first is the
    scheduler's.) *)
Definition promise_all {A B} (p : io A) (q : io B) : io (A * B) :=
  let* a := settle p in
  let* b := settle q in
  match a, b with
  | inl e, _ => Throw e
  | _, inl e => Throw e
  | inr a, inr b => Ret (a, b)
  end.

Definition getDetail (id : string) : io (option DeliveryDetail) :=
  let* rows := pool_query (Select (SelectDetail id)) in
  match (rows : list detail_row) with
  | [] => Ret None
  | row :: _ =>
      let* results := promise_all (pool_query (Select (SelectAttempts id)))
                                  (pool_query (Select (SelectTransitions id))) in
      let '(attempts, transitions) := (results : list AttemptDetail * list TransitionDetail) in
      Ret (Some {| dd_row := row; dd_attempts := attempts; dd_transitions := transitions |})
  end.

(** ** What the listing means *)

Section Reference.
(** The reading of the cursor's time. *)
Context (read : string -> Z).

Definition on_or_after (d : option jsnum) (ts : Z) : bool :=
  match d with Some (Num ms) => ts_of_ms ms <=? ts | Some NaN => false | None => true end.
Definition on_or_before (d : option jsnum) (ts : Z) : bool :=
  match d with Some (Num ms) => ts <=? ts_of_ms ms | Some NaN => false | None => true end.

(** The filters: no status is every status, so is no endpoint. *)
Definition selected (filters : DeliveryListFilters) (r : DeliveryListRow) : bool :=
  match f_statuses filters with
  | Some (s :: ss) => bool_decide (status_text (lr_status r) ∈ s :: ss)
  | _ => true
  end &&
  match f_endpointId filters with None | Some "" => true | Some e => String.eqb (lr_endpoint_id r) e end &&
  on_or_after (f_from filters) (lr_created_at r) &&
  on_or_before (f_to filters) (lr_created_at r).

Definition beyond (cursor : option Cursor) (r : DeliveryListRow) : bool :=
  match cursor with
  | Some c => bool_decide (key_lt (row_key r) (read (c_updatedAt c), c_id c))
  | None => true
  end.

(** All the rows of the listing from the cursor on, in its order. *)
Definition remaining (t : tables) (filters : DeliveryListFilters) (cursor : option Cursor) : list DeliveryListRow :=
  newest_first row_key (filter (fun r => selected filters r && beyond cursor r) (list_rows t)).
End Reference.

(** ** The assembled clause *)

Lemma param_at_last ps p extra : param_at ((ps ++ [p]) ++ extra) (length (ps ++ [p])) = Some p.
Proof.
  rewrite length_app. cbn [length]. rewrite Nat.add_1_r. cbn [param_at].
  rewrite lookup_app_l by (rewrite length_app; cbn; lia). by rewrite lookup_app_r, Nat.sub_diag by lia.
Qed.

Section Clause.
Context (read : string -> Z) (Hread : reads_iso read).

(** The clause, whatever parameters come after its own, selects [P]. *)
Definition means (acc : clause) (P : DeliveryListRow -> bool) : Prop :=
  forall extra r, all_hold read (acc.2 ++ extra) acc.1 r = P r.

Lemma means_nil : means ([], []) (fun _ => true).
Proof. done. Qed.

Lemma all_hold_app ps cs cs' r : all_hold read ps (cs ++ cs') r = all_hold read ps cs r && all_hold read ps cs' r.
Proof. unfold all_hold. apply forallb_app. Qed.

Lemma means_push acc P p c (Q : DeliveryListRow -> bool) :
  means acc P -> (forall ps n r, param_at ps n = Some p -> holds read ps (c n) r = Some (Q r)) ->
  means (push p c acc) (fun r => P r && Q r).
Proof.
  intros HP HQ extra r. unfold push. cbn [fst snd]. rewrite all_hold_app. f_equal.
  - rewrite <- app_assoc. apply HP.
  - cbn. by rewrite (HQ _ _ _ (param_at_last acc.2 p extra)), andb_true_r.
Qed.

Lemma means_ext acc P Q : means acc P -> (forall r, P r = Q r) -> means acc Q.
Proof. intros HP H extra r. by rewrite HP. Qed.

Lemma text_at_some ps n s : param_at ps n = Some (PText s) -> text_at ps n = Some s.
Proof. unfold text_at. by intros ->. Qed.

(** A date the format can hold. *)
Definition date_ok (d : option jsnum) : Prop :=
  match d with Some (Num ms) => four_digit_years (ms / 86400000) | _ => True end.

Lemma read_toISOString ms : four_digit_years (ms / 86400000) -> read (toISOString ms) = ts_of_ms ms.
Proof. intros H. by apply Hread, parse_toISOString. Qed.

Lemma means_cursor acc P cursor :
  means acc P -> means (push_cursor cursor acc) (fun r => P r && beyond read cursor r).
Proof.
  intros HP. destruct cursor as [c|]; cbn; [|eapply means_ext; [exact HP|intros r; by rewrite andb_true_r]].
  intros extra r. cbn [fst snd]. rewrite all_hold_app. f_equal; [rewrite <- app_assoc; apply HP|].
  cbn. rewrite length_app. cbn [length]. replace (length acc.2 + 2 - 1)%nat with (length (acc.2 ++ [PText (c_updatedAt c)]))
    by (rewrite length_app; cbn; lia).
  replace (length acc.2 + 2)%nat with (length ((acc.2 ++ [PText (c_updatedAt c)]) ++ [PText (c_id c)]))
    by (rewrite !length_app; cbn; lia).
  rewrite (text_at_some _ (length (acc.2 ++ [PText (c_updatedAt c)])) (c_updatedAt c)),
    (text_at_some _ (length ((acc.2 ++ [PText (c_updatedAt c)]) ++ [PText (c_id c)])) (c_id c)).
  - cbn. by rewrite andb_true_r.
  - rewrite <- (param_at_last (acc.2 ++ [PText (c_updatedAt c)]) (PText (c_id c)) extra). by rewrite <- !app_assoc.
  - rewrite <- (param_at_last acc.2 (PText (c_updatedAt c)) (PText (c_id c) :: extra)). by rewrite <- !app_assoc.
Qed.

Lemma means_date acc P d c acc' (Q : option jsnum -> DeliveryListRow -> bool) :
  means acc P -> date_ok d -> push_date d c acc = inr acc' ->
  (forall r, Q None r = true) ->
  (forall ms ps n r, four_digit_years (ms / 86400000) -> text_at ps n = Some (toISOString ms) ->
     holds read ps (c n) r = Some (Q (Some (Num ms)) r)) ->
  means acc' (fun r => P r && Q d r).
Proof.
  intros HP Hd H Hn HQ. unfold push_date in H. destruct d as [[|ms]|]; cbn in H; [done| |].
  - injection H as <-. apply means_push; [done|]. intros ps n r Hp. by apply HQ, text_at_some.
  - injection H as <-. eapply means_ext; [done|]. intros r. by rewrite Hn, andb_true_r.
Qed.

Lemma list_clause_means filters cursor acc :
  date_ok (f_from filters) -> date_ok (f_to filters) -> list_clause filters cursor = inr acc ->
  means acc (fun r => selected filters r && beyond read cursor r).
Proof using Hread.
  intros Hf Ht H. unfold list_clause in H.
  destruct (push_date (f_from filters) _ _) as [e|acc1] eqn:E1; [done|].
  destruct (push_date (f_to filters) _ _) as [e|acc2] eqn:E2; [done|]. injection H as <-.
  apply means_cursor. eapply means_ext.
  - eapply (means_date _ _ _ _ _ (fun d r => on_or_before d (lr_created_at r))); [|exact Ht|exact E2|done|].
    + eapply (means_date _ _ _ _ _ (fun d r => on_or_after d (lr_created_at r))); [|exact Hf|exact E1|done|].
      * instantiate (1 := fun r => match f_statuses filters with
          | Some (s :: ss) => bool_decide (status_text (lr_status r) ∈ s :: ss)
          | _ => true
          end && match f_endpointId filters with None | Some "" => true | Some e => String.eqb (lr_endpoint_id r) e end).
        assert (means (push_status filters ([], [])) (fun r => match f_statuses filters with
          | Some (s :: ss) => bool_decide (status_text (lr_status r) ∈ s :: ss) | _ => true end)) as Hs.
        { unfold push_status. destruct (f_statuses filters) as [[|s ss]|]; try apply means_nil.
          apply (means_push _ (fun _ => true)); [apply means_nil|]. intros ps n r Hp. cbn. by rewrite Hp. }
        unfold push_endpoint. destruct (f_endpointId filters) as [[|ch e]|];
          try (eapply means_ext; [done|intros; by rewrite andb_true_r]).
        apply means_push; [done|]. intros ps n r Hp. cbn. by rewrite (text_at_some _ _ _ Hp).
      * intros ms ps n r Hms Hp. cbn [holds]. rewrite Hp. cbn [mbind option_bind]. by rewrite read_toISOString.
    + intros ms ps n r Hms Hp. cbn [holds]. rewrite Hp. cbn [mbind option_bind]. by rewrite read_toISOString.
  - intros r. unfold selected. by rewrite <- !andb_assoc.
Qed.
End Clause.

(** ** Runs of the functions *)

Section Runs.
Context {RS BS : Type} `{!RedisServer RS} `{!RedisLaws RS} `{!BullMQ BS}.
Abbreviation world := (world RS BS).

(** [rows.slice(0, limit)] and [rows.length > limit], of one row more than
    [limit]. *)
Lemma page_of {A} (l : list A) (limit : Z) : 0 <= limit ->
  take (Z.to_nat limit) (take (Z.to_nat (limit + 1)) l) = take (Z.to_nat limit) l /\
  (limit <? Z.of_nat (length (take (Z.to_nat (limit + 1)) l))) = (limit <? Z.of_nat (length l)).
Proof.
  intros Hl. split; [rewrite take_take; f_equal; lia|]. rewrite length_take.
  destruct (Z.ltb_spec limit (Z.of_nat (length l))); [apply Z.ltb_lt|apply Z.ltb_ge]; lia.
Qed.

(** An invalid [Date] makes [toISOString] throw. *)
Lemma push_date_throws d c acc e : push_date d c acc = inl e -> foreign e.
Proof. destruct d as [[|ms]|]; cbn; naive_solver. Qed.

Lemma list_clause_throws filters cursor e : list_clause filters cursor = inl e -> foreign e.
Proof.
  unfold list_clause. destruct (push_date _ CreatedFrom _) as [e1|acc1] eqn:E1.
  { intros [= <-]. by eapply push_date_throws. }
  destruct (push_date _ CreatedTo _) as [e2|acc2] eqn:E2; [|done]. intros [= <-]. by eapply push_date_throws.
Qed.

Lemma wp_list_deliveries filters cursor limit (w : world) :
  0 <= limit -> date_ok (f_from filters) -> date_ok (f_to filters) ->
  wp env (list_deliveries filters cursor limit) (fun o w1 => db_same w w1 /\
    match o with
    | Returned (rows, more) => exists read, reads_iso read /\
        let l := remaining read (tables_of w) filters cursor in
        rows = take (Z.to_nat limit) l /\ more = (limit <? Z.of_nat (length l))
    | Threw e => foreign e
    | Exited => False
    end) w.
Proof.
  intros Hl Hf Ht. unfold list_deliveries. destruct (list_clause filters cursor) as [e|[cs ps]] eqn:E.
  { apply wp_throw. split; [done|]. by eapply list_clause_throws. }
  apply wp_bind, wp_select.
  - intros r w1 H1 (read & n & Hread & Hn & Hr) _. apply wp_ret. split; [done|]. exists read. split; [done|].
    assert (n = Z.to_nat (limit + 1)) as ->.
    { unfold limit_at in Hn. pose proof (param_at_last ps (PNumber (limit + 1)) []) as Hp. rewrite app_nil_r in Hp.
      rewrite Hp in Hn. replace (0 <=? limit + 1) with true in Hn by (symmetry; apply Z.leb_le; lia). by injection Hn as <-. }
    subst r.
    assert (filter (all_hold read (ps ++ [PNumber (limit + 1)]) cs) (list_rows (tables_of w)) =
      filter (fun r => selected filters r && beyond read cursor r) (list_rows (tables_of w))) as ->.
    { apply list_filter_iff. intros r. pose proof (list_clause_means read Hread _ _ _ Hf Ht E [PNumber (limit + 1)] r) as Hm.
      cbn [fst snd] in Hm. by rewrite Hm. }
    by apply page_of.
  - intros e w1 H1 He. split; done.
Qed.

Definition dlq_remaining (t : tables) (cursor : option (jsnum * string)) : list DlqRow :=
  newest_first (fun r => row_key (dlq_row r)) (filter (dlq_before cursor) (dlq_rows t)).

Lemma wp_listDlq cursor limit (w : world) :
  0 <= limit ->
  wp env (listDlq cursor limit) (fun o w1 => db_same w w1 /\
    match o with
    | Returned (rows, more) => let l := dlq_remaining (tables_of w) cursor in
        rows = take (Z.to_nat limit) l /\ more = (limit <? Z.of_nat (length l))
    | Threw e => foreign e
    | Exited => False
    end) w.
Proof.
  intros Hl. unfold listDlq. apply wp_bind, wp_select.
  - intros r w1 H1 Hr _. apply wp_ret. split; [done|]. cbn in Hr. subst r.
    by apply page_of.
  - intros e w1 H1 He. split; done.
Qed.

(** The detail of a delivery, from its rows. *)
Definition detail_of (t : tables) (id : string) : option DeliveryDetail :=
  row ← find_detail t id;
  Some {| dd_row := row; dd_attempts := attempt_details t id; dd_transitions := transition_details t id |}.

Lemma wp_settle {A} (p : io A) Q (w : world) :
  wp env p (fun o w1 => match o with Returned a => Q (Returned (inr a)) w1
                                   | Threw e => Q (Returned (inl e)) w1
                                   | Exited => Q Exited w1 end) w ->
  wp env (settle p) Q w.
Proof.
  intros H. unfold settle. apply wp_try_catch, wp_bind. eapply wp_mono; [exact H|].
  intros [a|e|] w1 Ho; cbn; done.
Qed.

(** Both calls run; what they answer, in the order of the array. *)
Definition both {A B} (Q : outcome exn (A * B) -> world -> Prop) (a : exn + A) (o : outcome exn B) (w : world) : Prop :=
  match a, o with
  | _, Exited => Q Exited w
  | inl e, _ => Q (Threw e) w
  | inr _, Threw e => Q (Threw e) w
  | inr a, Returned b => Q (Returned (a, b)) w
  end.

Lemma wp_promise_all {A B} (p : io A) (q : io B) Q (w : world) :
  wp env p (fun o w1 => match o with
                        | Returned a => wp env q (both Q (inr a)) w1
                        | Threw e => wp env q (both Q (inl e)) w1
                        | Exited => Q Exited w1
                        end) w ->
  wp env (promise_all p q) Q w.
Proof.
  intros H. unfold promise_all. apply wp_bind, wp_settle. eapply wp_mono; [exact H|].
  assert (forall a w1, wp env q (both Q a) w1 ->
    wp env (let* b := settle q in match a, b with
      | inl e, _ => Throw e | _, inl e => Throw e | inr a, inr b => Ret (a, b) end) Q w1) as Hq.
  { intros a w1 H1. apply wp_bind, wp_settle. eapply wp_mono; [exact H1|].
    intros [b|e|] w2 H2; destruct a; exact H2. }
  intros [a|e|] w1 H1; cbn [after]; [exact (Hq (inr a) w1 H1)|exact (Hq (inl e) w1 H1)|exact H1].
Qed.

Lemma wp_getDetail id (w : world) :
  wp env (getDetail id) (fun o w1 => db_same w w1 /\
    match o with Returned r => r = detail_of (tables_of w) id | Threw e => foreign e | Exited => False end) w.
Proof.
  unfold getDetail. apply wp_bind, wp_select; [|by intros e w1 H1 He].
  intros rows w1 H1 Hr _. cbn in Hr. subst rows. unfold detail_of.
  destruct (find_detail (tables_of w) id) as [row|]; cbn; [|by apply wp_ret].
  apply wp_bind, wp_promise_all, wp_select.
  - intros r w2 H2 Hr _. apply wp_select.
    + intros r' w3 H3 Hr' _. apply wp_ret. split; [by do 2 (etrans; [done|])|]. cbn in Hr, Hr'.
      rewrite (db_same_tables _ _ H2), (db_same_tables _ _ H1) in Hr'. rewrite (db_same_tables _ _ H1) in Hr. by subst.
    + intros e w3 H3 He. split; [by do 2 (etrans; [done|])|done].
  - intros e w2 H2 He. apply wp_select; intros x w3 H3 **; (split; [by do 2 (etrans; [done|])|done]).
Qed.
End Runs.
