(* ===== verification/Api.v ===== *)
(** * The HTTP API

    [src/src/api/]: the errors and the error handler, backpressure, the route
    that accepts events and the route that retries a dead-lettered delivery.
    Fastify calls a handler with the parsed request and turns what it returns
    or throws into the reply. *)

From S2P Require Import Prelude Async Config Json Parse Dates Tables Queries Schema Redis Services Concrete Scripts Repo Frames Ingest WorkerSpec DeadLetter.
From Stdlib Require Import ZArith Lia String Ascii.
From stdpp Require Import prelude strings gmap.

Open Scope Z_scope.
Open Scope async_scope.

(** ** errors.ts *)

Module Errors.
Definition idempotencyKeyMissing : exn :=
  AppError 400 "IDEMPOTENCY_KEY_MISSING" "Idempotency-Key header is required" (JObj []).
Definition idempotencyKeyTooLong : exn :=
  AppError 400 "IDEMPOTENCY_KEY_TOO_LONG" "Idempotency-Key must be ≤ 255 characters" (JObj []).
Definition payloadTooLarge : exn :=
  AppError 413 "PAYLOAD_TOO_LARGE" "Payload exceeds 256 KB limit" (JObj []).
Definition endpointNotFound (id : string) : exn :=
  AppError 404 "ENDPOINT_NOT_FOUND" ("Endpoint " ++s id ++s " not found") (JObj []).
Definition endpointInactive (id : string) : exn :=
  AppError 409 "ENDPOINT_INACTIVE" ("Endpoint " ++s id ++s " is not active") (JObj []).
Definition backpressure : exn :=
  AppError 429 "BACKPRESSURE" "Queue depth exceeds threshold; retry after 5 seconds" (JObj []).
Definition storageUnavailable : exn :=
  AppError 503 "STORAGE_UNAVAILABLE" "Database unavailable" (JObj []).
Definition deliveryNotFound (id : string) : exn :=
  AppError 404 "DELIVERY_NOT_FOUND" ("Delivery " ++s id ++s " not found") (JObj []).
Definition notInDlq (currentStatus : string) : exn :=
  AppError 409 "NOT_IN_DLQ" ("Delivery is not in DLQ (current status: " ++s currentStatus ++s ")")
    (JObj [("current_status", JStr currentStatus)]).
Definition validationError (issues : json) : exn :=
  AppError 400 "VALIDATION_ERROR" "Request validation failed" (JObj [("issues", issues)]).
End Errors.

(** ** app.ts: the error handler *)

Record reply := { rp_code : Z; rp_headers : list (string * string); rp_body : json }.

Definition error_body (code message : string) (details : json) : json :=
  JObj [("error", JObj [("code", JStr code); ("message", JStr message); ("details", details)])].

(** A [Date], as Fastify serialises it; a [timestamptz] is read as a [Date],
    which drops its microseconds. *)
Definition date_json (ts : Z) : json := JStr (toISOString (ms_of_ts ts)).
Definition num_json (n : Z) : json := JNum (show_Z n).

(** The reply for a thrown error: [code] and [validation] are the properties
    of that name an error of Fastify may carry. *)
Definition error_reply (error : exn) (code : option string) (validation : option json) : reply :=
  match error with
  | AppError statusCode c m details => {|
      rp_code := statusCode;
      rp_headers := if statusCode =? 429 then [("Retry-After", "5")] else [];
      rp_body := error_body c m details |}
  | _ =>
      if bool_decide (code = Some "FST_ERR_CTP_BODY_TOO_LARGE") then {|
        rp_code := 413; rp_headers := [];
        rp_body := error_body "PAYLOAD_TOO_LARGE" "Payload exceeds 256 KB limit" (JObj []) |}
      else
        match validation with
        | Some v => {|
            rp_code := 400; rp_headers := [];
            rp_body := error_body "VALIDATION_ERROR" "Request validation failed" (JObj [("issues", v)]) |}
        | None => {|
            rp_code := 500; rp_headers := [];
            rp_body := error_body "INTERNAL_ERROR" "An unexpected error occurred" (JObj []) |}
        end
  end.

(** ** backpressure.ts *)

(** [getCounts()]. [hit] is the value the memo of Memo.v answers at once;
    otherwise the caller waits for a call in flight, its own or another's. *)
Definition getCounts (hit : option (gmap string Z)) : io (gmap string Z) :=
  match hit with
  | Some counts => Ret counts
  | None => await (JobCounts webhook_delivery ["wait"; "delayed"])
  end.

Definition overloaded (cfg : Config) (counts : gmap string Z) : bool :=
  let depth := default 0 (counts !! "wait") + default 0 (counts !! "delayed") in
  BACKPRESSURE_QUEUE_LIMIT cfg <? depth.

Definition isOverloaded (cfg : Config) (hit : option (gmap string Z)) : io bool :=
  let* counts := getCounts hit in
  Ret (overloaded cfg counts).

(** ** routes/events.ts *)

(** A request header as Node presents it. *)
Inductive http_header := Absent | One (value : string) | Many (values : list string).

Record event_request := {
  rq_idempotency_key : http_header; rq_content_length : option string; rq_body : json
}.

(** [parseInt(s, 10)]: white space, a sign, the longest run of digits. *)
Fixpoint skip_spaces (s : string) : string :=
  match s with
  | String c r => if (Ascii.eqb c " " || Ascii.eqb c "009" || Ascii.eqb c "010" || Ascii.eqb c "013")%char
                  then skip_spaces r else s
  | EmptyString => s
  end.

Fixpoint digits (s : string) : string :=
  match s with
  | String c r => let n := nat_of_ascii c in
                  if ((48 <=? n) && (n <=? 57))%nat then String c (digits r) else ""
  | EmptyString => ""
  end.

Definition parseInt (s : string) : jsnum :=
  let of_digits (sign : Z) (r : string) :=
    match digits r with "" => NaN | ds => match read_Z ds with Some z => Num (sign * z) | None => NaN end end in
  match skip_spaces s with
  | String c r => if Ascii.eqb c "-" then of_digits (-1) r
                  else if Ascii.eqb c "+" then of_digits 1 r else of_digits 1 (String c r)
  | EmptyString => NaN
  end.

(** [a > b] on a number that may be NaN. *)
Definition js_gt (a : jsnum) (b : Z) : bool := match a with Num z => b <? z | NaN => false end.

(** [Buffer.byteLength(s, 'utf8')]: the units of a string are below 256. *)
Fixpoint byteLength (s : string) : Z :=
  match s with
  | EmptyString => 0
  | String c r => (if (nat_of_ascii c <? 128)%nat then 1 else 2) + byteLength r
  end.

Section Events.
(** The UUID format of zod, and the issues it reports for a body. *)
Context (is_uuid : string -> bool) (issues_of : json -> json).
Context (cfg : Config).

(** [eventBodySchema.safeParse]: endpoint_id, event_type and payload. *)
Definition parse_event_body (body : json) : option (string * string * json) :=
  match body with
  | JObj fs =>
      match field "endpoint_id" fs, field "event_type" fs, field "payload" fs with
      | Some (JStr endpoint_id), Some (JStr event_type), Some (JObj payload) =>
          if is_uuid endpoint_id && (1 <=? String.length event_type)%nat && (String.length event_type <=? 255)%nat
          then Some (endpoint_id, event_type, JObj payload) else None
      | _, _, _ => None
      end
  | _ => None
  end.

(** The checks between the backpressure check and the first query: the
    idempotency key, the endpoint, the type and the payload, or the error. *)
Definition check_request (rq : event_request) : exn + (string * string * string * json) :=
  match rq_idempotency_key rq with
  | One idemKey =>
      if String.eqb idemKey "" then inl Errors.idempotencyKeyMissing
      else if (255 <? String.length idemKey)%nat then inl Errors.idempotencyKeyTooLong
      else if js_gt (parseInt (default "0" (rq_content_length rq))) (MAX_PAYLOAD_BYTES cfg) then
        inl Errors.payloadTooLarge
      else
        match parse_event_body (rq_body rq) with
        | None => inl (AppError 400 "VALIDATION_ERROR" "Validation failed" (JObj [("issues", issues_of (rq_body rq))]))
        | Some (endpoint_id, event_type, payload) =>
            if MAX_PAYLOAD_BYTES cfg <? byteLength (stringify payload) then inl Errors.payloadTooLarge
            else inr (idemKey, endpoint_id, event_type, payload)
        end
  | _ => inl Errors.idempotencyKeyMissing
  end.

(** The read of the endpoint, with its [catch]. *)
Definition read_endpoint (endpoint_id : string) : io (string * string * bool) :=
  try_catch
    (let* rows := pool_query (SelectEndpoint endpoint_id) in
     match (rows : list (string * string * bool)) with
     | [] => Throw (Errors.endpointNotFound endpoint_id)
     | row :: _ => Ret row
     end)
    (fun err => match err with
                | AppError _ _ _ _ => Throw err
                | _ => Throw Errors.storageUnavailable
                end).

Definition event_reply (r : IngestResult) : reply := {|
  rp_code := if is_new r then 202 else 200; rp_headers := [];
  rp_body := JObj [("event_id", JStr (event_id r)); ("delivery_id", JStr (delivery_id r));
                   ("status", JStr (status_text (delivery_status r))); ("duplicate", JBool (negb (is_new r)))] |}.

(** POST /v1/events; [crash] is the test switch CRASH_AFTER_COMMIT. *)
Definition postEvents (crash : bool) (hit : option (gmap string Z)) (rq : event_request) : io reply :=
  let* over := isOverloaded cfg hit in
  if (over : bool) then Throw Errors.backpressure
  else
    match check_request rq with
    | inl e => Throw e
    | inr (idemKey, endpoint_id, event_type, payload) =>
        let* endpoint := read_endpoint endpoint_id in
        let '(_, client_id, is_active) := (endpoint : string * string * bool) in
        if negb is_active then Throw (Errors.endpointInactive endpoint_id)
        else
          let* result := ingestEvent cfg {|
            client_id := client_id; idempotency_key := idemKey; event_type := event_type;
            payload := payload; endpoint_id := endpoint_id |} in
          (if is_new result then
             if crash then Exit
             else try_catch (enqueueDelivery (delivery_id result))
                    (fun err => log "error" "enqueue failed — reconciler will recover")
           else Ret tt) ;;;
          Ret (event_reply result)
    end.
End Events.

(** ** routes/dlq.ts: POST /v1/dlq/:deliveryId/retry *)

Definition retry_reply (cfg : Config) (deliveryId retryJobId : string) : reply := {|
  rp_code := 202; rp_headers := [];
  rp_body := JObj [("delivery_id", JStr deliveryId); ("status", JStr "PENDING");
                   ("retry_job_id", JStr retryJobId);
                   ("attempt_budget", JNum (show_Z (Z.of_nat (length (BACKOFF_BASE_MS cfg)))))] |}.

Definition postRetry (cfg : Config) (deliveryId : string) : io reply :=
  let* result := retryFromDlq deliveryId in
  match result with
  | NotFound => Throw (Errors.deliveryNotFound deliveryId)
  | NotInDlq currentStatus => Throw (Errors.notInDlq (status_text currentStatus))
  | RetryOk =>
      let* now := date_now in
      let retryJobId := deliveryId ++s ":retry:" ++s show_Z now in
      queue_add webhook_delivery "deliver" deliveryId retryJobId ;;;
      Ret (retry_reply cfg deliveryId retryJobId)
  end.
