(* ===== verification/Endpoints.v ===== *)
(** * The endpoint routes

    src/src/api/routes/endpoints.ts: registering an endpoint, listing the
    endpoints, and the PATCH that builds its [SET] clause from the columns it
    is given. *)

From S2P Require Import Prelude Async Config Json Parse Dates Tables Queries Schema Redis Services Concrete Repo Frames.
From S2P Require Import Api.
From Stdlib Require Import ZArith Lia String Ascii.
From stdpp Require Import prelude strings gmap sorting.

Open Scope Z_scope.
Open Scope async_scope.

(** [z.string().optional()] and [z.boolean().optional()] of a field: [None] is
    a value of another type. *)
Definition optional_str (v : option json) : option (option string) :=
  match v with None => Some None | Some (JStr s) => Some (Some s) | Some _ => None end.
Definition optional_bool (v : option json) : option (option bool) :=
  match v with None => Some None | Some (JBool b) => Some (Some b) | Some _ => None end.

Definition endpoint_json (r : EndpointRow) : json :=
  JObj [("id", JStr (er_id r)); ("client_id", JStr (er_client_id r)); ("url", JStr (er_url r));
        ("signing_secret", JStr (er_signing_secret r)); ("is_active", JBool (er_is_active r));
        ("created_at", date_json (er_created_at r))].

Section Routes.
(** The URL format of zod, the issues it reports, and how [pg] writes an array
    of texts as a parameter. *)
Context (is_url : string -> bool) (issues_of : json -> json) (pg_array : list string -> string).
Context (cfg : Config).

Definition validation_failed (body : json) : exn :=
  AppError 400 "VALIDATION_ERROR" "Validation failed" (JObj [("issues", issues_of body)]).

(** ** POST /v1/endpoints *)

(** [createSchema]: client_id, url and the secret, if one is given. *)
Definition createSchema (body : json) : option (string * string * option string) :=
  match body with
  | JObj fs =>
      match field "client_id" fs, field "url" fs, optional_str (field "signing_secret" fs) with
      | Some (JStr client), Some (JStr url), Some provided =>
          if (1 <=? String.length client)%nat && (String.length client <=? 255)%nat && is_url url
          then Some (client, url, provided) else None
      | _, _, _ => None
      end
  | _ => None
  end.

Definition https_required (url : string) : bool :=
  match NODE_ENV cfg with production => negb (String.prefix "https://" url) | _ => false end.

(** [provided ?? `whsec_${randomBytes(32).toString('hex')}`]. *)
Definition new_secret (provided : option string) : io string :=
  match provided with
  | Some secret => Ret secret
  | None => let* hex := random_hex 32 in Ret ("whsec_" ++s hex)
  end.

Definition insecure_url : exn :=
  AppError 400 "INVALID_URL" "Endpoint URL must use HTTPS in production" (JObj []).

Definition row_reply (code : Z) (rows : list EndpointRow) : reply := {|
  rp_code := code; rp_headers := []; rp_body := opt_json endpoint_json (head rows) |}.

Definition postEndpoints (body : json) : io reply :=
  match createSchema body with
  | None => Throw (validation_failed body)
  | Some (client, url, provided) =>
      if https_required url then Throw insecure_url
      else
        let* secret := new_secret provided in
        let* rows := pool_query (InsertEndpoint client url secret) in
        Ret (row_reply 201 rows)
  end.

(** ** GET /v1/endpoints *)

(** [client_id ? .. : ..]; a repeated parameter is an array. *)
Definition client_filter (client_id : http_header) : option string :=
  match client_id with
  | Absent | One "" => None
  | One c => Some c
  | Many cs => Some (pg_array cs)
  end.

Definition getEndpoints (client_id : http_header) : io reply :=
  let* rows := pool_query (Select (SelectEndpoints (client_filter client_id))) in
  Ret {| rp_code := 200; rp_headers := [];
         rp_body := JObj [("data", JArr (map endpoint_json (rows : list EndpointRow)))] |}.

(** ** PATCH /v1/endpoints/:id *)

Definition patchSchema (body : json) : option (option bool * option string) :=
  match body with
  | JObj fs =>
      match optional_bool (field "is_active" fs), optional_str (field "url" fs) with
      | Some active, Some url =>
          if match url with Some u => is_url u | None => true end then Some (active, url) else None
      | _, _ => None
      end
  | _ => None
  end.

(** The clause being built: [i], [sets] and [values]. *)
Definition set_clause : Type := nat * list assignment * list param.

(** [if (v !== undefined) { sets.push(`column = $${i++}`); values.push(v); }]. *)
Definition push_set (column : nat -> assignment) (v : option param) (acc : set_clause) : set_clause :=
  match v with
  | None => acc
  | Some p => let '(i, sets, values) := acc in (S i, sets ++ [column i], values ++ [p])
  end.

Definition patch_clause (active : option bool) (url : option string) : set_clause :=
  push_set SetUrl (PText <$> url) (push_set SetActive (PBool <$> active) (1%nat, [], [])).

Definition nothing_to_patch : exn :=
  AppError 400 "VALIDATION_ERROR" "Provide at least one of: is_active, url" (JObj []).

Definition patchEndpoint (id : string) (body : json) : io reply :=
  match patchSchema body with
  | None => Throw (validation_failed body)
  | Some (None, None) => Throw nothing_to_patch
  | Some (active, url) =>
      let '(i, sets, values) := patch_clause active url in
      let* rows := pool_query (UpdateEndpoint sets i (values ++ [PText id])) in
      match (rows : list EndpointRow) with
      | [] => Throw (Errors.endpointNotFound id)
      | _ => Ret (row_reply 200 rows)
      end
  end.

(** ** What the routes do *)

(** The clause sets the columns that are given, for the row of [id]. *)
Lemma patch_clause_means active url id :
  let '(i, sets, values) := patch_clause active url in
  assigned (values ++ [PText id]) sets = Some (active, url) /\ text_at (values ++ [PText id]) i = Some id.
Proof. by destruct active, url. Qed.

Section Wp.
Context {RS BS : Type} `{!RedisServer RS} `{!RedisLaws RS} `{!BullMQ BS}.
Abbreviation world := (world RS BS).

(** The row a registration asks for. *)
Definition registered (client url : string) (provided : option string) (e : endpoint_row) : Prop :=
  e_client_id e = client /\ e_url e = url /\ e_is_active e = true /\
  match provided with
  | Some secret => e_signing_secret e = secret
  | None => exists bytes, e_signing_secret e = "whsec_" ++s to_hex bytes
  end.

Definition refused_registration (body : json) (e : exn) : Prop :=
  (createSchema body = None /\ e = validation_failed body) \/
  (exists client url provided, createSchema body = Some (client, url, provided) /\ https_required url = true /\ e = insecure_url).

(** One new row, under an id that was not in use. *)
Definition registers (body : json) (w : world) (id : string) (e : endpoint_row) : Prop :=
  endpoints (tables_of w) !! id = None /\ s_now w.1 <= e_created_at e /\
  exists client url provided, createSchema body = Some (client, url, provided) /\ https_required url = false /\
    registered client url provided e.

(** How POST /v1/endpoints ends. *)
Definition register_post (body : json) (w : world) (o : outcome exn reply) (w' : world) : Prop :=
  match o with
  | Returned r => exists id e, registers body w id e /\ wrote [WEndpoint id e] w w' /\
      r = row_reply 201 [endpoint_detail id e]
  | Threw x => (wrote [] w w' /\ (foreign x \/ refused_registration body x)) \/
      (foreign x /\ exists id e, registers body w id e /\ wrote [WEndpoint id e] w w')
  | Exited => False
  end.

Lemma wp_new_secret provided Q (w : world) :
  (forall secret w1, db_same w w1 ->
     match provided with Some s => secret = s | None => exists bytes, secret = "whsec_" ++s to_hex bytes end ->
     Q (Returned secret) w1) ->
  (forall x w1, db_same w w1 -> foreign x -> Q (Threw x) w1) ->
  wp env (new_secret provided) Q w.
Proof.
  intros HR HT. destruct provided as [s|]; cbn [new_secret]; [apply wp_ret; by apply HR|].
  unfold random_hex. rewrite <- !wp_bind. apply wp_perform. intros r w1 He.
  assert (db_same w w1) as Hs by (by eapply quiet_db_same; [|exact He]).
  destruct r as [x|bytes]; cbn [after answer].
  - apply HT; [done|]. by apply (env_foreign _ _ _ _ He).
  - apply HR; [done|]. by exists bytes.
Qed.

(** The insertion, from tables that have not changed since [w]. *)
Lemma wp_insert_endpoint body client url provided secret (w w1 : world) :
  createSchema body = Some (client, url, provided) -> https_required url = false -> db_same w w1 ->
  match provided with Some s => secret = s | None => exists bytes, secret = "whsec_" ++s to_hex bytes end ->
  wp env (let* rows := pool_query (InsertEndpoint client url secret) in Ret (row_reply 201 rows))
    (register_post body w) w1.
Proof.
  intros Hb Hs H1 Hsec. apply wp_bind. pose proof (db_same_tables _ _ H1) as HT. pose proof H1 as (_ & _ & _ & _ & Hn).
  assert (forall t r ws, s_now w1.1 <= t ->
    stmt_ok t (tables_of w1) (busy (s_pg w1.1) (l_tid w1.2)) (InsertEndpoint client url secret) r ws ->
    exists id e, registers body w id e /\ r = [endpoint_detail id e] /\ ws = [WEndpoint id e]) as Hok.
  { intros t r ws Ht (id & Hid & -> & ->). eexists id, _. split; [|done]. split; [by rewrite <- HT|]. split; [cbn; lia|].
    exists client, url, provided. repeat split; [done..|]. by destruct provided. }
  apply wp_pool_write.
  - intros r ws t w2 Ht Hr Hw. destruct (Hok t r ws Ht Hr) as (id & e & Hreg & -> & ->). apply wp_ret.
    exists id, e. split; [done|]. split; [by eapply wrote_after|done].
  - intros x ws w2 Hf Hw [->|(r & t & Ht & Hr)].
    + left. split; [by eapply wrote_after|by left].
    + right. split; [done|]. destruct (Hok t r ws Ht Hr) as (id & e & Hreg & _ & ->). exists id, e.
      split; [done|by eapply wrote_after].
Qed.

Lemma wp_postEndpoints body (w : world) : wp env (postEndpoints body) (register_post body w) w.
Proof.
  unfold postEndpoints. destruct (createSchema body) as [[[client url] provided]|] eqn:Hb.
  - destruct (https_required url) eqn:Hs.
    + apply wp_throw. left. split; [by apply db_same_wrote|]. right; right. by exists client, url, provided.
    + apply wp_bind, wp_new_secret.
      * intros secret w1 H1 Hsec. by eapply wp_insert_endpoint.
      * intros x w1 H1 Hx. left. split; [by apply db_same_wrote|by left].
  - apply wp_throw. left. split; [by apply db_same_wrote|]. right; by left.
Qed.

(** The errors of the update itself, each with its cause. *)
Definition refused_patch (T : tables) (id : string) (body : json) (e : exn) : Prop :=
  match patchSchema body with
  | None => e = validation_failed body
  | Some (None, None) => e = nothing_to_patch
  | Some _ => endpoints T !! id = None /\ e = Errors.endpointNotFound id
  end.

(** How PATCH /v1/endpoints/:id ends: the columns that are given are set, on
    that row only. *)
Definition patch_post (id : string) (body : json) (w : world) (o : outcome exn reply) (w' : world) : Prop :=
  let applied active url e := patchSchema body = Some (active, url) /\ (is_Some active \/ is_Some url) /\
    endpoints (tables_of w) !! id = Some e /\ wrote [WPatch id active url] w w' in
  match o with
  | Returned r => exists active url e, applied active url e /\ r = row_reply 200 [endpoint_detail id (patched active url e)]
  | Threw x => (wrote [] w w' /\ (foreign x \/ refused_patch (tables_of w) id body x)) \/
      (foreign x /\ exists active url e, applied active url e)
  | Exited => False
  end.

Lemma wp_update_endpoint id body active url (w : world) :
  patchSchema body = Some (active, url) -> is_Some active \/ is_Some url ->
  wp env (let '(i, sets, values) := patch_clause active url in
          let* rows := pool_query (UpdateEndpoint sets i (values ++ [PText id])) in
          match (rows : list EndpointRow) with
          | [] => Throw (Errors.endpointNotFound id)
          | _ => Ret (row_reply 200 rows)
          end) (patch_post id body w) w.
Proof.
  intros Hb Hsome. pose proof (patch_clause_means active url id) as Hc.
  destruct (patch_clause active url) as [[i sets] values]. destruct Hc as [Ha Hi]. apply wp_bind.
  assert (forall t r ws, stmt_ok t (tables_of w) (busy (s_pg w.1) (l_tid w.2)) (UpdateEndpoint sets i (values ++ [PText id])) r ws ->
    match endpoints (tables_of w) !! id with
    | None => r = [] /\ ws = []
    | Some e => r = [endpoint_detail id (patched active url e)] /\ ws = [WPatch id active url]
    end) as Hok.
  { intros t r ws (a & u & j & Ha' & Hj & H). rewrite Ha in Ha'. rewrite Hi in Hj. by injection Ha' as <- <-; injection Hj as <-. }
  apply wp_pool_write.
  - intros r ws t w1 _ Hr Hw. specialize (Hok t r ws Hr). destruct (endpoints (tables_of w) !! id) as [e|] eqn:He; destruct Hok as [-> ->].
    + apply wp_ret. exists active, url, e. done.
    + apply wp_throw. left. split; [done|]. right. unfold refused_patch. rewrite Hb.
      destruct active, url; [done..|]. by destruct Hsome as [[]|[]].
  - intros x ws w1 Hf Hw [->|(r & t & _ & Hr)]; [left; by split; [|left]|]. specialize (Hok t r ws Hr).
    destruct (endpoints (tables_of w) !! id) as [e|] eqn:He; destruct Hok as [_ ->].
    + right. split; [done|]. by exists active, url, e.
    + left. split; [done|by left].
Qed.

Lemma wp_patchEndpoint id body (w : world) : wp env (patchEndpoint id body) (patch_post id body w) w.
Proof.
  unfold patchEndpoint. destruct (patchSchema body) as [[[a|] [u|]]|] eqn:Hb.
  1-3: apply wp_update_endpoint; eauto.
  all: apply wp_throw; left; split; [by apply db_same_wrote|]; right; unfold refused_patch; by rewrite Hb.
Qed.

(** The listing: every endpoint of the client, the newest first. *)
Lemma wp_getEndpoints client (w : world) :
  wp env (getEndpoints client) (fun o w1 => db_same w w1 /\
    match o with
    | Returned r => exists rows, rows ≡ₚ endpoint_rows (tables_of w) (client_filter client) /\
        StronglySorted (fun a b => er_created_at b <= er_created_at a) rows /\
        r = {| rp_code := 200; rp_headers := []; rp_body := JObj [("data", JArr (map endpoint_json rows))] |}
    | Threw x => foreign x
    | Exited => False
    end) w.
Proof.
  unfold getEndpoints. apply wp_bind, wp_select.
  - intros rows w1 H1 [Hp Hs] _. apply wp_ret. split; [done|]. by exists rows.
  - intros x w1 H1 Hx. by split.
Qed.
End Wp.
End Routes.

(** ** Properties *)

(** Registering an endpoint. A 201 is sent when exactly one row has been
    added, active, under a new id, with the client and the URL of the body and
    its secret, or else a new one made of random bytes; in production only for
    an https URL. A body that does not match is a VALIDATION_ERROR, a URL that
    is not allowed INVALID_URL, and neither changes anything; when a service
    fails the row is added whole or not at all. *)
Theorem postEndpoints_spec {RS BS : Type} `{!RedisServer RS} `{!RedisLaws RS} `{!BullMQ BS}
    (is_url : string -> bool) (issues_of : json -> json) (cfg : Config) (body : json)
    (w w' : world RS BS) (o : outcome exn reply) :
  exec env (postEndpoints is_url issues_of cfg body) w o w' ->
  register_post is_url issues_of cfg body w o w'.
Proof. revert o w'. apply wp_exec, wp_postEndpoints. Qed.

Definition demo_registration : json :=
  JObj [("url", JStr "https://client.example/hook"); ("client_id", JStr "c9")].

Lemma postEndpoints_spec_witness :
  let w := demo_world 1000 empty_tables ∅ ∅ in
  let p := postEndpoints (fun _ => true) (fun _ => JNull) default_config demo_registration in
  exists r id e, (run_with (serve reliable) p w).1 = Returned r /\ e_client_id e = "c9" /\
    endpoints (tables_of (run_with (serve reliable) p w).2) !! id = Some e.
Proof.
  intros w p. pose proof (serve_exec reliable p w) as Hx.
  pose proof (postEndpoints_spec (fun _ => true) (fun _ => JNull) default_config demo_registration w _ _ Hx) as Ho.
  destruct (run_with (serve reliable) p w).1 as [r|e|] eqn:E; [|vm_compute in E; discriminate E..].
  destruct Ho as (id & e & (_ & _ & c & u & s & Hb & _ & Hc & _) & (HT & _) & _). exists r, id, e. split; [reflexivity|].
  vm_compute in Hb. injection Hb as <- <- <-. split; [exact Hc|]. rewrite HT. cbn. apply lookup_insert_eq.
Defined.

(** C31: updating an endpoint. A 200 is sent when exactly the columns the body
    gives have been set, on the row of that id and no other, and shows the row
    as it then is, whatever the order in which the SET clause was built. An
    empty update and a body that does not match are VALIDATION_ERRORs, an id
    that is not there is ENDPOINT_NOT_FOUND; none of them changes anything. *)
Theorem patchEndpoint_spec {RS BS : Type} `{!RedisServer RS} `{!RedisLaws RS} `{!BullMQ BS}
    (is_url : string -> bool) (issues_of : json -> json) (id : string) (body : json)
    (w w' : world RS BS) (o : outcome exn reply) :
  exec env (patchEndpoint is_url issues_of id body) w o w' ->
  patch_post is_url issues_of id body w o w' /\
  forall r, o = Returned r -> exists active url e, patchSchema is_url body = Some (active, url) /\
    endpoints (tables_of w) !! id = Some e /\
    let e' := {| e_client_id := e_client_id e; e_url := default (e_url e) url; e_signing_secret := e_signing_secret e;
                 e_is_active := default (e_is_active e) active; e_created_at := e_created_at e |} in
    endpoints (tables_of w') = <[id := e']> (endpoints (tables_of w)) /\
    deliveries (tables_of w') = deliveries (tables_of w) /\ events (tables_of w') = events (tables_of w) /\
    r = row_reply 200 [endpoint_detail id e'].
Proof.
  intros Hx. assert (patch_post is_url issues_of id body w o w') as H by (revert o w' Hx; apply wp_exec, wp_patchEndpoint).
  split; [done|]. intros r ->. destruct H as (active & url & e & (Hb & _ & He & HT & _) & ->).
  exists active, url, e. rewrite HT. split; [done|]. split; [done|]. cbn. split; [|done].
  apply map_eq. intros i. rewrite lookup_alter, lookup_insert. destruct (decide (id = i)) as [<-|]; [by rewrite He|done].
Qed.

Lemma patchEndpoint_spec_witness :
  let w := demo_world 1000 (demo_tables PENDING [] None) ∅ ∅ in
  let p := patchEndpoint (fun _ => true) (fun _ => JNull) "e1" (JObj [("is_active", JBool false)]) in
  exists r e, (run_with (serve reliable) p w).1 = Returned r /\ e_is_active e = false /\
    endpoints (tables_of (run_with (serve reliable) p w).2) !! "e1" = Some e.
Proof.
  intros w p. pose proof (serve_exec reliable p w) as Hx.
  destruct (patchEndpoint_spec (fun _ => true) (fun _ => JNull) "e1" (JObj [("is_active", JBool false)]) w _ _ Hx) as [_ Ho].
  destruct (run_with (serve reliable) p w).1 as [r|x|] eqn:E; [|vm_compute in E; discriminate E..].
  destruct (Ho r eq_refl) as (active & url & e & Hb & _ & HT & _). vm_compute in Hb. injection Hb as <- <-.
  eexists r, _. split; [reflexivity|]. split; [|rewrite HT; apply lookup_insert_eq]. reflexivity.
Defined.
