(* ===== verification/AuditTrail.v ===== *)
(** * The audit trail

    A well-formedness invariant of the five tables, and that every operation
    of the engine keeps it: a delivery's attempts are numbered from 1 without
    a gap and counted by the row, its transitions are a path of permitted moves
    from its creation to its status, a delivered one has a successful last
    attempt; rows of the two logs are never changed or removed. The operations
    are run one after the other here, each by a session of its own, with any
    answers and any failures of the services. *)

From S2P Require Import Prelude Async Config Json Dates Tables Queries Schema Redis Services Concrete Scripts.
From S2P Require Lock TokenBucket.
From S2P Require Import CircuitBreaker Repo Frames Crash Ingest Signature Worker WorkerSpec DeadLetter Api Endpoints.
From Stdlib Require Import ZArith QArith Lia String.
From stdpp Require Import prelude strings gmap.

Open Scope Z_scope.

(** ** The invariant *)

(** The table of legal transitions of SCHEMA.md, section 1.6. *)
Definition schema_moves : list (option status * status * actor) := [
  (None, PENDING, api); (Some PENDING, DELIVERING, worker); (Some FAILED, DELIVERING, worker);
  (Some DELIVERING, DELIVERED, worker); (Some DELIVERING, FAILED, worker); (Some FAILED, DLQ, worker);
  (Some DLQ, PENDING, manual_retry)].

Definition documented (from : option status) (to : status) (by_ : actor) : bool :=
  existsb (fun m => bool_decide (m = (from, to, by_))) schema_moves.

(** The moves of the worker that the table does not have: an attempt that fails
    on an open circuit without having begun, one that is begun again after a
    worker died, and a delivery that is taken to the dead-letter queue from
    another status than FAILED, each under its reason. *)
Definition undocumented (from : option status) (to : status) (reason : string) (by_ : actor) : bool :=
  bool_decide (by_ = worker) &&
  match from, to with
  | Some (PENDING | FAILED), FAILED => String.eqb reason "circuit_open"
  | Some DELIVERING, DELIVERING => String.prefix "attempt_" reason
  | Some (PENDING | DELIVERING | DELIVERED), DLQ => String.eqb reason "attempts_exhausted"
  | _, _ => false
  end.

Definition permitted (from : option status) (to : status) (reason : string) (by_ : actor) : bool :=
  documented from to by_ || undocumented from to reason by_.

(** [trs] is a path from [from] to [to], of moves of the table or of the three
    other kinds. *)
Fixpoint path (from : option status) (trs : list transition_row) (to : option status) : Prop :=
  match trs with
  | [] => from = to
  | r :: trs => t_from_status r = from /\ permitted from (t_to_status r) (t_reason r) (t_actor r) = true /\
      path (Some (t_to_status r)) trs to
  end.

Lemma path_app from trs1 trs2 mid to :
  path from trs1 mid -> path mid trs2 to -> path from (trs1 ++ trs2) to.
Proof.
  revert from. induction trs1 as [|r trs1 IH]; intros from; cbn; [by intros ->|].
  intros (H1 & H2 & H3) H. auto.
Qed.

Definition attempts_of (T : tables) (id : string) : list attempt_row :=
  filter (fun a => a_delivery_id a = id) (delivery_attempts T).

Definition trail (T : tables) (id : string) : list transition_row :=
  filter (fun r => t_delivery_id r = id) (delivery_transitions T).

(** An attempt that counts as a success was answered with a 2xx. *)
Definition honest (a : attempt_row) : Prop :=
  a_outcome a = SUCCESS -> exists z, a_http_status a = Some z /\ 200 <= z < 300.

(** The rows of one delivery tell one story. *)
Record history (d : delivery_row) (atts : list attempt_row) (trs : list transition_row) : Prop := {
  h_count : 0 <= d_attempt_count d;
  h_numbers : map a_attempt_number atts = seqZ 1 (d_attempt_count d);
  h_path : path None trs (Some (d_status d));
  h_honest : Forall honest atts;
  h_delivered : d_status d = DELIVERED -> exists a, last atts = Some a /\ a_outcome a = SUCCESS
}.

Record audit (T : tables) : Prop := {
  au_history id d : deliveries T !! id = Some d -> history d (attempts_of T id) (trail T id);
  au_attempts a : a ∈ delivery_attempts T -> is_Some (deliveries T !! a_delivery_id a);
  au_trail r : r ∈ delivery_transitions T -> is_Some (deliveries T !! t_delivery_id r);
  au_refs id d : deliveries T !! id = Some d ->
    is_Some (events T !! d_event_id d) /\ is_Some (endpoints T !! d_endpoint_id d);
  au_events ev : is_Some (events T !! ev) -> exists id d, deliveries T !! id = Some d /\ d_event_id d = ev;
  au_one id1 id2 d1 d2 : deliveries T !! id1 = Some d1 -> deliveries T !! id2 = Some d2 ->
    d_event_id d1 = d_event_id d2 -> id1 = id2;
  au_keys : keys_unique T
}.

(** The logs grow, nothing else is removed, and the counters do not go down. *)
Record grows (T T' : tables) : Prop := {
  gr_attempts : exists atts, delivery_attempts T' = delivery_attempts T ++ atts;
  gr_trail : exists trs, delivery_transitions T' = delivery_transitions T ++ trs;
  gr_events : events T ⊆ events T';
  gr_endpoints id e : endpoints T !! id = Some e -> exists e', endpoints T' !! id = Some e' /\
    e_client_id e' = e_client_id e /\ e_signing_secret e' = e_signing_secret e /\ e_created_at e' = e_created_at e;
  gr_deliveries id d : deliveries T !! id = Some d -> exists d', deliveries T' !! id = Some d' /\
    d_event_id d' = d_event_id d /\ d_endpoint_id d' = d_endpoint_id d /\
    d_created_at d' = d_created_at d /\ d_attempt_count d <= d_attempt_count d'
}.

#[export] Instance grows_preorder : PreOrder grows.
Proof.
  split.
  - intros T. constructor; try (exists []; by rewrite app_nil_r); [done|by eauto|].
    intros id d Hd. exists d. repeat split; [done|lia].
  - intros T1 T2 T3 [[a1 Ha1] [t1 Ht1] He1 Hp1 Hd1] [[a2 Ha2] [t2 Ht2] He2 Hp2 Hd2]. constructor.
    + exists (a1 ++ a2). by rewrite Ha2, Ha1, app_assoc.
    + exists (t1 ++ t2). by rewrite Ht2, Ht1, app_assoc.
    + by etrans.
    + intros id e He. destruct (Hp1 id e He) as (e' & He' & E1 & E2 & E3).
      destruct (Hp2 id e' He') as (e'' & He'' & F1 & F2 & F3). exists e''. repeat split; congruence.
    + intros id d Hd. destruct (Hd1 id d Hd) as (d' & Hd' & E1 & E2 & E3 & E4).
      destruct (Hd2 id d' Hd') as (d'' & Hd'' & F1 & F2 & F3 & F4). exists d''.
      repeat split; [done|congruence..|lia].
Qed.

(** ** One delivery changes *)

Lemma alter_known {A} (f : A -> A) (m : gmap string A) id d :
  m !! id = Some d -> alter f id m = <[id := f d]> m.
Proof.
  intros H. apply map_eq. intros i. rewrite lookup_alter, lookup_insert.
  destruct (decide (id = i)) as [<-|]; [by rewrite H|done].
Qed.

(** A delivery's row is replaced, with new rows of its own in the logs. *)
Lemma audit_update T T' id d d' atts trs :
  audit T -> deliveries T !! id = Some d ->
  endpoints T' = endpoints T -> events T' = events T -> deliveries T' = <[id := d']> (deliveries T) ->
  delivery_attempts T' = delivery_attempts T ++ atts -> Forall (fun a => a_delivery_id a = id) atts ->
  delivery_transitions T' = delivery_transitions T ++ trs -> Forall (fun r => t_delivery_id r = id) trs ->
  d_event_id d' = d_event_id d -> d_endpoint_id d' = d_endpoint_id d -> d_created_at d' = d_created_at d ->
  d_attempt_count d <= d_attempt_count d' ->
  (history d (attempts_of T id) (trail T id) -> history d' (attempts_of T id ++ atts) (trail T id ++ trs)) ->
  audit T' /\ grows T T'.
Proof.
  intros [Hh Ha Ht Hr He Ho Hk] Hd Eep Eev Ed Eatt Fatt Etr Ftr E1 E2 E3 E4 Hstep.
  assert (forall i x, deliveries T' !! i = Some x -> exists y, deliveries T !! i = Some y /\
    d_event_id x = d_event_id y /\ d_endpoint_id x = d_endpoint_id y) as Hback.
  { intros i x. rewrite Ed, lookup_insert. destruct (decide (id = i)) as [<-|]; [|by exists x].
    intros [= <-]. exists d. by rewrite E1, E2. }
  assert (forall i, is_Some (deliveries T !! i) -> is_Some (deliveries T' !! i)) as Hsome.
  { intros i [y Hy]. rewrite Ed, lookup_insert. destruct (decide (id = i)); eauto. }
  split; [constructor|constructor].
  - intros i x Hx. unfold attempts_of, trail. rewrite Eatt, Etr, !filter_app.
    rewrite Ed, lookup_insert in Hx. destruct (decide (id = i)) as [<-|Hne].
    + injection Hx as <-. rewrite (filter_all _ atts), (filter_all _ trs) by done. by apply Hstep, Hh.
    + rewrite (filter_none _ atts), (filter_none _ trs), !app_nil_r; [by apply Hh|..];
        (eapply Forall_impl; [eassumption|]; cbn; congruence).
  - intros a. rewrite Eatt, elem_of_app. rewrite Forall_forall in Fatt.
    intros [H|H]; [by apply Hsome, Ha|]. rewrite (Fatt _ H). apply Hsome. by exists d.
  - intros r. rewrite Etr, elem_of_app. rewrite Forall_forall in Ftr.
    intros [H|H]; [by apply Hsome, Ht|]. rewrite (Ftr _ H). apply Hsome. by exists d.
  - intros i x Hx. destruct (Hback i x Hx) as (y & Hy & -> & ->). rewrite Eep, Eev. by eapply Hr.
  - rewrite Eev. intros ev Hev. destruct (He ev Hev) as (i & y & Hy & <-).
    rewrite Ed. destruct (decide (id = i)) as [<-|Hne].
    + exists id, d'. rewrite lookup_insert_eq. split; [done|]. congruence.
    + exists i, y. by rewrite lookup_insert_ne by done.
  - intros i1 i2 x1 x2 H1 H2 E. destruct (Hback _ _ H1) as (y1 & Hy1 & F1 & _), (Hback _ _ H2) as (y2 & Hy2 & F2 & _).
    eapply Ho; [exact Hy1|exact Hy2|congruence].
  - intros c k ev1 ev2. unfold event_known. rewrite Eev. apply Hk.
  - by exists atts.
  - by exists trs.
  - by rewrite Eev.
  - rewrite Eep. by eauto.
  - intros i y Hy. rewrite Ed. destruct (decide (id = i)) as [<-|Hne].
    + exists d'. rewrite lookup_insert_eq. rewrite Hd in Hy. by injection Hy as <-.
    + exists y. rewrite lookup_insert_ne by done. repeat split; [done|lia].
Qed.

(** The path of a delivery, one move longer. *)
Lemma path_snoc d trs r to :
  path None trs (Some (d_status d)) -> t_from_status r = Some (d_status d) -> t_to_status r = to ->
  permitted (Some (d_status d)) to (t_reason r) (t_actor r) = true -> path None (trs ++ [r]) (Some to).
Proof. intros Hp Hf Ht Hl. eapply path_app; [exact Hp|]. cbn. by rewrite Ht. Qed.

(** A status change with its transition. *)
Lemma audit_move T id d to t reason by_ :
  audit T -> deliveries T !! id = Some d -> permitted (Some (d_status d)) to reason by_ = true -> to <> DELIVERED ->
  let T' := apply_writes T [WStatus id to t; WTransition (transition_at t id (Some (d_status d)) to reason by_)] in
  audit T' /\ grows T T'.
Proof.
  intros Ha Hd Hl Hnd T'.
  apply (audit_update T T' id d (set_status to t d) [] [transition_at t id (Some (d_status d)) to reason by_]); try done.
  - cbn. by apply alter_known.
  - cbn. by rewrite app_nil_r.
  - by repeat constructor.
  - intros [H1 H2 H3 H4 H5]. rewrite app_nil_r. constructor; try done. by eapply path_snoc.
Qed.

(** Marking a delivery enqueued, known or not. *)
Lemma audit_enqueued T id t : audit T -> audit (apply_write T (WEnqueued id t)) /\ grows T (apply_write T (WEnqueued id t)).
Proof.
  intros Ha. destruct (deliveries T !! id) as [d|] eqn:Hd.
  - apply (audit_update T _ id d (set_enqueued t d) [] []); try done; cbn; rewrite ?app_nil_r; try done.
    + by apply alter_known.
    + by intros [].
  - assert (apply_write T (WEnqueued id t) = T) as ->; [|done].
    destruct T. unfold apply_write, on_deliveries. cbn in *. f_equal.
    apply map_eq. intros i. rewrite lookup_alter. destruct (decide (id = i)) as [<-|]; [by rewrite Hd|done].
Qed.

Lemma audit_enqueued_all T ids t :
  audit T -> let T' := apply_writes T (map (fun id => WEnqueued id t) ids) in audit T' /\ grows T T'.
Proof.
  revert T. induction ids as [|id ids IH]; intros T Ha; [done|].
  destruct (audit_enqueued T id t Ha) as [H1 H2]. destruct (IH _ H1) as [H3 H4].
  split; [exact H3|by etrans].
Qed.

(** An attempt with the next number, and the status it leads to. *)
Lemma audit_recorded T T' input t0 d :
  audit T -> recorded input t0 T T' -> deliveries T !! ra_deliveryId input = Some d ->
  ra_fromStatus input = d_status d -> ra_attemptNumber input = d_attempt_count d + 1 ->
  permitted (Some (d_status d)) (ra_toStatus input) (ra_reason input) worker = true ->
  (ra_toStatus input = DELIVERED -> ra_outcome input = SUCCESS) ->
  honest (attempt_of_input input) ->
  audit T' /\ grows T T'.
Proof.
  intros Ha (_ & _ & next & _ & ->) Hd Hf Hn Hl Hs Hh.
  apply (audit_update T _ (ra_deliveryId input) d (set_attempted (ra_toStatus input) next t0 d)
    [attempt_of_input input]
    [transition_at t0 (ra_deliveryId input) (Some (ra_fromStatus input)) (ra_toStatus input) (ra_reason input) worker]);
    try done; cbn.
  - by apply alter_known.
  - by repeat constructor.
  - by repeat constructor.
  - lia.
  - intros [H1 H2 H3 H4 H5]. constructor; cbn.
    + lia.
    + rewrite map_app, H2. cbn. rewrite Hn, seqZ_app by lia. cbn. by rewrite (Z.add_comm 1).
    + eapply path_snoc; try done. by rewrite Hf.
    + apply Forall_app. by repeat constructor.
    + intros Hdel. exists (attempt_of_input input). rewrite last_snoc. split; [done|]. by apply Hs.
Qed.

(** ** One delivery is created *)

Lemma audit_created T p r ws : audit T -> created T p r ws -> audit (apply_writes T ws) /\ grows T (apply_writes T ws).
Proof.
  intros [Hh Ha Ht Hr He Ho Hk] (_ & _ & Hnew & Hev & Hdel & Hep & t0 & ->).
  set (ev := event_id r) in *. set (id := delivery_id r) in *.
  assert (forall i d, deliveries T !! i = Some d -> i <> id /\ d_event_id d <> ev) as Hold.
  { intros i d Hd. split; [congruence|]. intros E. destruct (Hr i d Hd) as [[x Hx] _]. congruence. }
  split; constructor; cbn.
  - intros i d. unfold attempts_of, trail. cbn. rewrite filter_app, lookup_insert.
    destruct (decide (id = i)) as [<-|Hne].
    + intros [= <-].
      rewrite (filter_none _ (delivery_attempts T)).
      2:{ apply Forall_forall. intros x Hx E. destruct (Ha x Hx) as [y Hy]. rewrite E in Hy. congruence. }
      rewrite (filter_none _ (delivery_transitions T)).
      2:{ apply Forall_forall. intros x Hx E. destruct (Ht x Hx) as [y Hy]. rewrite E in Hy. congruence. }
      rewrite filter_cons, decide_True by done. by constructor.
    + rewrite filter_cons, decide_False, app_nil_r by done. apply Hh.
  - intros a Hin. destruct (Ha a Hin) as [y Hy]. destruct (Hold _ _ Hy) as [Hne _]. rewrite lookup_insert_ne by congruence. by exists y.
  - intros x. rewrite elem_of_app, list_elem_of_singleton. intros [Hin| ->]; cbn; [|rewrite lookup_insert_eq; eauto].
    destruct (Ht x Hin) as [y Hy]. destruct (Hold _ _ Hy) as [Hne _]. rewrite lookup_insert_ne by congruence. by exists y.
  - intros i d. rewrite lookup_insert. destruct (decide (id = i)) as [<-|Hne].
    + intros [= <-]. cbn. rewrite lookup_insert_eq. eauto.
    + intros Hd. destruct (Hr i d Hd) as [H1 H2]. destruct (Hold i d Hd) as [_ H3].
      by rewrite lookup_insert_ne by congruence.
  - intros e. rewrite lookup_insert. destruct (decide (ev = e)) as [<-|Hne].
    + intros _. exists id, (new_delivery ev (endpoint_id p) t0). by rewrite lookup_insert_eq.
    + intros H. destruct (He e H) as (i & d & Hd & <-). destruct (Hold i d Hd) as [H1 _].
      exists i, d. by rewrite lookup_insert_ne by congruence.
  - intros i1 i2 d1 d2. rewrite !lookup_insert.
    destruct (decide (id = i1)) as [<-|H1], (decide (id = i2)) as [<-|H2]; try done.
    + intros [= <-] Hd2 E. cbn in E. by destruct (Hold i2 d2 Hd2).
    + intros Hd1 [= <-] E. cbn in E. by destruct (Hold i1 d1 Hd1).
    + apply Ho.
  - intros c k ev1 ev2 (e1 & H1 & K1) (e2 & H2 & K2). cbn in H1, H2. rewrite lookup_insert in H1, H2.
    assert (forall e x, events T !! e = Some x -> same_event_key (client_id p) (idempotency_key p) x = true -> False) as Hno.
    { intros e x Hx Hs. apply (Hnew e). by exists x. }
    assert (forall x, same_event_key c k (new_event p t0) = true -> same_event_key c k x = true ->
      same_event_key (client_id p) (idempotency_key p) x = true) as Hsame.
    { unfold same_event_key. cbn. intros x Hn. rewrite !andb_true_iff, !String.eqb_eq in *. intuition congruence. }
    destruct (decide (ev = ev1)) as [<-|N1], (decide (ev = ev2)) as [<-|N2]; try done.
    + injection H1 as <-. exfalso. eauto.
    + injection H2 as <-. exfalso. eauto.
    + apply (Hk c k); [by exists e1|by exists e2].
  - exists []. by rewrite app_nil_r.
  - eauto.
  - by apply insert_subseteq.
  - eauto.
  - intros i d Hd. destruct (Hold i d Hd) as [Hne _]. exists d. rewrite lookup_insert_ne by congruence.
    repeat split; [done|lia].
Qed.

(** ** The operations keep the invariant *)

Lemma settled_false d : settled d = false -> dw_status d <> DELIVERED /\ dw_status d <> DLQ.
Proof.
  unfold settled. intros H. apply orb_false_iff in H as [H1 H2].
  apply bool_decide_eq_false in H1, H2. done.
Qed.

(** What the worker does to a delivery that is not settled, or dead-letters. *)
Lemma permitted_attempt st n :
  st <> DELIVERED -> st <> DLQ -> permitted (Some st) DELIVERING ("attempt_" ++s n) worker = true.
Proof. intros H1 H2. destruct st; try done. exact (str_prefix_app "attempt_" n). Qed.

Lemma permitted_circuit st : st <> DELIVERED -> st <> DLQ -> permitted (Some st) FAILED "circuit_open" worker = true.
Proof. by destruct st. Qed.

Lemma permitted_exhausted st : st <> DLQ -> permitted (Some st) DLQ "attempts_exhausted" worker = true.
Proof. by destruct st. Qed.

Lemma audit_announced T id d row t0 :
  audit T -> for_worker T id = Some d -> deliveries T !! id = Some row -> settled d = false ->
  audit (announced id d t0 T) /\ grows T (announced id d t0 T).
Proof.
  intros Ha Hd Hrow Hs. destruct (for_worker_count _ _ _ _ Hd Hrow) as [_ Hst].
  destruct (settled_false d Hs) as [H1 H2]. unfold announced. rewrite Hst in *.
  apply audit_move; [done|done|by apply permitted_attempt|done].
Qed.

Lemma audit_delivery_effect cfg hmac T id T' sent fin :
  audit T -> delivery_effect cfg hmac T id T' sent fin -> audit T' /\ grows T T'.
Proof.
  intros Ha He. destruct He as [|H|d now next t0 T' Hd Hs Hact Hrec|d t0 Hd Hs Hact|d t0 now Hd Hs Hact
    |d t0 now lost r st fi next t1 T' Hd Hs Hact Hrec]; [done|done|..];
    destruct (for_worker_row _ _ _ Hd) as (row & Hrow & Hc & Hst); [|by eapply audit_announced..|].
  - destruct (settled_false d Hs) as [H1 H2].
    eapply (audit_recorded _ _ _ _ row Ha Hrec Hrow); cbn; try done; [unfold attemptNumber; lia|].
    rewrite Hst in *. by apply permitted_circuit.
  - destruct (audit_announced T id d row t0 Ha Hd Hrow Hs) as [Ha1 Hg1].
    pose proof (announced_lookup T id d t0 row Hrow) as Hrow1.
    assert (audit T' /\ grows (announced id d t0 T) T') as [Ha2 Hg2]; [|split; [exact Ha2|by etrans]].
    eapply (audit_recorded _ _ _ _ _ Ha1 Hrec Hrow1); cbn; try done.
    + unfold attemptNumber. lia.
    + by destruct (is_success _).
    + unfold is_success. case_bool_decide; done.
    + unfold honest. cbn. intros Hok. destruct (judge_success _ _ _ Hok) as (-> & res & -> & Hres).
      exists (dr_status res). done.
Qed.

(** ** Endpoints are registered and updated *)

(** Only the endpoints change, and those that are known keep their identity. *)
Lemma audit_endpoints T T' :
  audit T -> events T' = events T -> deliveries T' = deliveries T ->
  delivery_attempts T' = delivery_attempts T -> delivery_transitions T' = delivery_transitions T ->
  (forall id e, endpoints T !! id = Some e -> exists e', endpoints T' !! id = Some e' /\
     e_client_id e' = e_client_id e /\ e_signing_secret e' = e_signing_secret e /\ e_created_at e' = e_created_at e) ->
  audit T' /\ grows T T'.
Proof.
  intros [Hh Ha Ht Hr He Ho Hk] Eev Ed Eatt Etr Hep. split; constructor.
  - unfold attempts_of, trail. by rewrite Ed, Eatt, Etr.
  - by rewrite Eatt, Ed.
  - by rewrite Etr, Ed.
  - rewrite Ed, Eev. intros id d Hd. destruct (Hr id d Hd) as [H1 [e H2]]. split; [done|].
    destruct (Hep _ _ H2) as (e' & He' & _). by exists e'.
  - by rewrite Eev, Ed.
  - by rewrite Ed.
  - intros c k ev1 ev2. unfold event_known. rewrite Eev. apply Hk.
  - exists []. by rewrite Eatt, app_nil_r.
  - exists []. by rewrite Etr, app_nil_r.
  - by rewrite Eev.
  - done.
  - rewrite Ed. intros id d Hd. exists d. repeat split; [done|lia].
Qed.

Lemma audit_registered T id e :
  audit T -> endpoints T !! id = None -> let T' := apply_writes T [WEndpoint id e] in audit T' /\ grows T T'.
Proof.
  intros Ha Hid T'. apply audit_endpoints; try done. intros i x Hx. exists x. cbn.
  rewrite lookup_insert_ne by congruence. by eauto.
Qed.

Lemma audit_patched T id active url :
  audit T -> let T' := apply_writes T [WPatch id active url] in audit T' /\ grows T T'.
Proof.
  intros Ha T'. apply audit_endpoints; try done. intros i x Hx. cbn. rewrite lookup_alter.
  destruct (decide (id = i)) as [->|]; rewrite Hx; (eexists; split; [reflexivity|done]).
Qed.

Section Flows.
Context {RS BS : Type} `{!RedisServer RS} `{!RedisLaws RS} `{!BullMQ BS} `{!BullMQLaws BS}.
Abbreviation world := (world RS BS).
Context (cfg : Config) (hmac : string -> string -> string).

(** One activity of the engine: a request to ingest, the enqueueing that
    follows it, a job, a 'failed' event, a manual retry, a sweep, the
    registration and the update of an endpoint. *)
Inductive flow :=
| FIngest (p : IngestParams)
| FEnqueue (id : string)
| FDeliver (sched : schedule) (j : Job) (token : option string)
| FFailed (job : option FailedJob)
| FRetry (id : string)
| FSweep (limit : Z)
| FRegister (is_url : string -> bool) (issues_of : json -> json) (body : json)
| FPatch (is_url : string -> bool) (issues_of : json -> json) (id : string) (body : json).

(** [w'] is where some complete run of the flow from [w] ends. *)
Definition flow_runs (f : flow) (w w' : world) : Prop :=
  match f with
  | FIngest p => exists o, exec env (ingestEvent cfg p) w o w'
  | FEnqueue id => exists o, exec env (enqueueDelivery id) w o w'
  | FDeliver sched j token => exists o, exec env (processDelivery cfg hmac sched j token) w o w'
  | FFailed job => exists o, exec env (handleFailed cfg job) w o w'
  | FRetry id => exists o, exec env (retryFromDlq id) w o w'
  | FSweep limit => exists o, exec env (claimUnenqueued cfg limit) w o w'
  | FRegister is_url issues_of body => exists o, exec env (postEndpoints is_url issues_of cfg body) w o w'
  | FPatch is_url issues_of id body => exists o, exec env (patchEndpoint is_url issues_of id body) w o w'
  end.

(** [w'] is where the process of the flow may die. *)
Definition flow_cut (f : flow) (w w' : world) : Prop :=
  match f with
  | FIngest p => cut (ingestEvent cfg p) w w'
  | FEnqueue id => cut (enqueueDelivery id) w w'
  | FDeliver sched j token => cut (processDelivery cfg hmac sched j token) w w'
  | FFailed job => cut (handleFailed cfg job) w w'
  | FRetry id => cut (retryFromDlq id) w w'
  | FSweep limit => cut (claimUnenqueued cfg limit) w w'
  | FRegister is_url issues_of body => cut (postEndpoints is_url issues_of cfg body) w w'
  | FPatch is_url issues_of id body => cut (patchEndpoint is_url issues_of id body) w w'
  end.

(** A dead process has done to the tables what a complete run may do. *)
Lemma flow_cut_runs f (w w' : world) : flow_cut f w w' -> exists w1, flow_runs f w w1 /\ tables_of w1 = tables_of w'.
Proof.
  destruct f; cbn [flow_cut flow_runs]; intros (_ & o & w1 & Hx & HT & _)%cut_exec; exists w1; (split; [by exists o|done]).
Qed.

(** The system moves: a flow runs in a session of its own, to its end or until
    its process dies, or something else than the tables changes (time, Redis,
    the queues, the requests sent). *)
Inductive sys_step (s s' : shared RS BS) : Prop :=
| sys_flow f l l' : idle (s, l) -> flow_runs f (s, l) (s', l') -> sys_step s s'
| sys_crash f l l' : idle (s, l) -> flow_cut f (s, l) (s', l') -> sys_step s s'
| sys_other : pg_tables (s_pg s') = pg_tables (s_pg s) -> sys_step s s'.

Lemma flow_step f (w w' : world) : idle w -> flow_runs f w w' -> sys_step w.1 w'.1.
Proof. intros Hi Hf. destruct w as [s l], w' as [s' l']. by apply (sys_flow s s' f l l'). Qed.

Lemma flow_audit f (w w' : world) :
  idle w -> flow_runs f w w' -> audit (tables_of w) -> audit (tables_of w') /\ grows (tables_of w) (tables_of w').
Proof using BullMQLaws0 RedisLaws0.
  intros Hi Hf Ha.
  assert (forall T, T = tables_of w -> audit T /\ grows (tables_of w) T) as Hsame by (by intros T ->).
  destruct f as [p|id|sched j token|[job|]|id|limit|iu io body|iu io id body]; destruct Hf as [o Hx].
  - pose proof (wp_ingestEvent cfg p w Hi) as H. rewrite wp_exec in H.
    destruct (H _ _ Hx) as (_ & _ & [[HT _]|(r & ws & Hc & HT & _)]); [by apply Hsame|].
    rewrite HT. by eapply audit_created.
  - pose proof (wp_enqueueDelivery id w Hi) as H. rewrite wp_exec in H.
    destruct (H _ _ Hx) as (_ & _ & _ & _ & [[HT _]|(t & _ & HT & _)]); [by apply Hsame|].
    rewrite HT. by apply audit_enqueued.
  - pose proof (wp_processDelivery cfg hmac sched j token w Hi) as H. rewrite wp_exec in H.
    destruct (H _ _ Hx) as (_ & sent & fin & _ & He & _). by eapply audit_delivery_effect.
  - pose proof (wp_handleFailed cfg job w Hi) as H. rewrite wp_exec in H.
    destruct (H _ _ Hx) as (_ & _ & _ & [[HT _]|(d & t0 & sent & _ & _ & Hd & Hst & HT & _)]); [by apply Hsame|].
    destruct (for_worker_row _ _ _ Hd) as (row & Hrow & _ & Hs). rewrite HT. unfold dead_lettered. rewrite Hs in *.
    apply audit_move; [done|done|by apply permitted_exhausted|done].
  - destruct Hx as [_ ->]. by apply Hsame.
  - pose proof (wp_retry_post id w Hi) as H. rewrite wp_exec in H. destruct (H _ _ Hx) as (_ & _ & H1). clear H. rename H1 into H.
    destruct (deliveries (tables_of w) !! id) as [row|] eqn:Hrow; cbn in H; [|destruct H as [HT _]; by apply Hsame].
    destruct (d_status row) eqn:Hs; try (destruct H as [HT _]; by apply Hsame).
    destruct H as [(t0 & _ & HT & _)|[HT _]]; [|by apply Hsame]. rewrite HT.
    pose proof (audit_move (tables_of w) id row PENDING t0 "manual_retry" manual_retry Ha Hrow) as Hm.
    rewrite Hs in Hm. by apply Hm.
  - pose proof (wp_claimUnenqueued cfg limit w Hi) as H. rewrite wp_exec in H.
    assert (forall n, claimed cfg limit w w' n -> audit (tables_of w') /\ grows (tables_of w) (tables_of w')) as Hc.
    { intros n (t0 & ids & _ & _ & _ & _ & _ & _ & HT & _). rewrite HT. by apply audit_enqueued_all. }
    specialize (H _ _ Hx). destruct o as [n|e|]; [|destruct H as (_ & [HT|[n H]])|done]; [|by apply Hsame|];
      eapply Hc; [apply H|exact H].
  - pose proof (wp_postEndpoints iu io cfg body w) as H. rewrite wp_exec in H. specialize (H _ _ Hx).
    assert (forall id e, registers iu cfg body w id e -> audit (apply_writes (tables_of w) [WEndpoint id e]) /\
      grows (tables_of w) (apply_writes (tables_of w) [WEndpoint id e])) as Hreg.
    { intros id e [Hid _]. by apply audit_registered. }
    destruct o as [r|x|]; [| |done].
    + destruct H as (id & e & Hr & [HT _] & _). rewrite HT. by apply Hreg.
    + destruct H as [[[HT _] _]|(_ & id & e & Hr & HT & _)]; [by apply Hsame|]. rewrite HT. by apply Hreg.
  - pose proof (wp_patchEndpoint iu io id body w) as H. rewrite wp_exec in H. specialize (H _ _ Hx).
    destruct o as [r|x|]; [| |done].
    + destruct H as (active & url & e & (_ & _ & _ & HT & _) & _). rewrite HT. by apply audit_patched.
    + destruct H as [[[HT _] _]|(_ & active & url & e & _ & _ & _ & HT & _)]; [by apply Hsame|].
      rewrite HT. by apply audit_patched.
Qed.

Lemma sys_step_audit s s' :
  sys_step s s' -> audit (pg_tables (s_pg s)) ->
  audit (pg_tables (s_pg s')) /\ grows (pg_tables (s_pg s)) (pg_tables (s_pg s')).
Proof using BullMQLaws0 RedisLaws0.
  intros [f l l' Hi Hf|f l l' Hi Hf|HT] Ha; [by apply (flow_audit f (s, l) (s', l'))| |by rewrite HT].
  apply flow_cut_runs in Hf as (w1 & Hf & HT). change (pg_tables (s_pg s')) with (tables_of (s', l')). rewrite <- HT. by apply (flow_audit f (s, l) w1).
Qed.

Lemma sys_steps_audit s s' :
  rtc sys_step s s' -> audit (pg_tables (s_pg s)) ->
  audit (pg_tables (s_pg s')) /\ grows (pg_tables (s_pg s)) (pg_tables (s_pg s')).
Proof using BullMQLaws0 RedisLaws0.
  induction 1 as [s|s1 s2 s3 H12 _ IH]; intros Ha; [done|].
  destruct (sys_step_audit _ _ H12 Ha) as [Ha2 Hg2]. destruct (IH Ha2) as [Ha3 Hg3].
  split; [done|by etrans].
Qed.
End Flows.

(** Tables with endpoints only. *)
Definition blank (T : tables) : Prop :=
  events T = ∅ /\ deliveries T = ∅ /\ delivery_attempts T = [] /\ delivery_transitions T = [].

Lemma blank_audit T : blank T -> audit T.
Proof.
  intros (He & Hd & Ha & Ht). constructor; rewrite ?He, ?Hd, ?Ha, ?Ht.
  - intros id d [=].
  - intros a []%elem_of_nil.
  - intros r []%elem_of_nil.
  - intros id d [=].
  - intros ev [x [=]].
  - intros id1 id2 d1 d2 [=].
  - intros c k ev1 ev2 (e & H & _). by rewrite He in H.
Qed.

(** ** Properties *)

(** C13: the audit trail is complete, in every state that flows run one after
    the other reach. From tables with endpoints only, whatever ingestions,
    enqueueings, deliveries, failures, retries, sweeps, registrations and
    updates run one after the other, to their end or until their process dies
    at any call, with any answers and failures of the services and any fall of
    the heartbeats: every delivery's attempts are numbered 1, 2, ... without a
    gap up to its counter, its transitions lead from its creation to its status,
    each a move of the table of SCHEMA.md with its actor or one of the worker's
    three moves the table does not have, under its own reason ([permitted]), a
    delivered one has a last attempt that succeeded, every success was answered
    with a 2xx, every event has exactly one delivery and a client's key one
    event. *)
Theorem audit_reachable {RS BS : Type} `{!RedisServer RS} `{!RedisLaws RS} `{!BullMQ BS} `{!BullMQLaws BS}
    (cfg : Config) (hmac : string -> string -> string) (s s' : shared RS BS) :
  blank (pg_tables (s_pg s)) -> rtc (sys_step cfg hmac) s s' -> audit (pg_tables (s_pg s')).
Proof. intros Hb Hs. by apply (sys_steps_audit cfg hmac s s' Hs), blank_audit. Qed.

(** An endpoint and nothing else. *)
Definition blank_world : mem_world := demo_world 1000 {|
  endpoints := endpoints (demo_tables PENDING [] None); events := ∅; deliveries := ∅;
  delivery_attempts := []; delivery_transitions := [] |} ∅ ∅.

Lemma blank_world_blank : blank (tables_of blank_world).
Proof. by repeat split. Qed.

Definition ingested_world : mem_world :=
  (run_with (serve reliable) (ingestEvent default_config (demo_params "k1")) blank_world).2.

(** The id the first delivery gets. *)
Definition first_id : string := fresh_id (∅ : gmap string delivery_row).

Definition first_job : Job := {| job_id := first_id; job_deliveryId := first_id |}.

Definition attempted_run : outcome exn unit * mem_world :=
  run_with (serve (answering 503)) (processDelivery default_config toy_hmac demo_schedule first_job None) ingested_world.

Lemma ingested_steps : rtc (sys_step default_config toy_hmac) blank_world.1 attempted_run.2.1.
Proof.
  eapply rtc_l; [|apply rtc_once].
  - apply (flow_step default_config toy_hmac (FIngest (demo_params "k1")) blank_world ingested_world); [apply demo_idle|].
    apply (ex_intro (fun o => exec env _ _ o _) (run_with (serve reliable) (ingestEvent default_config (demo_params "k1")) blank_world).1).
    exact (serve_exec reliable (ingestEvent default_config (demo_params "k1")) blank_world).
  - apply (flow_step default_config toy_hmac (FDeliver demo_schedule first_job None) ingested_world attempted_run.2).
    + split; [vm_compute; reflexivity|]. intros k. vm_compute. intros H. inversion H.
    + apply (ex_intro (fun o => exec env _ _ o _) attempted_run.1).
      exact (serve_exec (answering 503)
        (processDelivery default_config toy_hmac demo_schedule first_job None) ingested_world).
Qed.

Lemma audit_reachable_witness :
  attempted_run.1 = Threw (NewError "http_503") /\
  audit (tables_of attempted_run.2) /\
  d_attempt_count <$> deliveries (tables_of attempted_run.2) !! first_id = Some 1.
Proof.
  split; [vm_compute; reflexivity|]. split; [|vm_compute; reflexivity].
  exact (audit_reachable default_config toy_hmac blank_world.1 attempted_run.2.1 blank_world_blank ingested_steps).
Defined.

(** The audit trail is append-only. From any tables with a complete
    trail, nothing that runs afterwards changes or removes an attempt, a
    transition or an event, removes an endpoint or changes its client or its
    secret, or changes a delivery's identity, or lowers its attempt counter: a
    manual retry continues the numbering. *)
Theorem audit_append_only {RS BS : Type} `{!RedisServer RS} `{!RedisLaws RS} `{!BullMQ BS} `{!BullMQLaws BS}
    (cfg : Config) (hmac : string -> string -> string) (s s' : shared RS BS) :
  audit (pg_tables (s_pg s)) -> rtc (sys_step cfg hmac) s s' -> grows (pg_tables (s_pg s)) (pg_tables (s_pg s')).
Proof. intros Ha Hs. by apply (sys_steps_audit cfg hmac s s' Hs). Qed.

Lemma audit_append_only_witness : grows (tables_of blank_world) (tables_of attempted_run.2).
Proof.
  exact (audit_append_only default_config toy_hmac blank_world.1 attempted_run.2.1
    (blank_audit _ blank_world_blank) ingested_steps).
Defined.

(** The endpoint answers 503 until its circuit opens; a second delivery is then
    attempted. *)
Definition accepted (key : string) (w : mem_world) : mem_world :=
  (run_with (serve reliable) (ingestEvent default_config (demo_params key)) w).2.

Definition refused_attempt (id : string) (w : mem_world) : mem_world :=
  (run_with (serve (answering 503)) (processDelivery default_config toy_hmac demo_schedule
    {| job_id := id; job_deliveryId := id |} None) w).2.

Definition opened_world : mem_world := Nat.iter 20 (refused_attempt first_id) (accepted "k1" blank_world).

Definition second_id : string := fresh_id (deliveries (tables_of opened_world)).

Definition second_refused : mem_world := refused_attempt second_id (accepted "k2" opened_world).

Lemma accepted_step key (w : mem_world) :
  idle w -> rtc (sys_step default_config toy_hmac) w.1 (accepted key w).1 /\ idle (accepted key w).
Proof.
  intros Hi. pose proof (serve_exec reliable (ingestEvent default_config (demo_params key)) w) as Hx. split.
  - apply rtc_once, (flow_step _ _ (FIngest (demo_params key))); [done|]. by eexists.
  - pose proof (wp_ingestEvent default_config (demo_params key) w Hi) as H. rewrite wp_exec in H.
    by destruct (H _ _ Hx) as (H1 & _).
Qed.

Lemma refused_attempts_steps id n (w : mem_world) :
  idle w -> rtc (sys_step default_config toy_hmac) w.1 (Nat.iter n (refused_attempt id) w).1 /\
  idle (Nat.iter n (refused_attempt id) w).
Proof.
  intros Hi. induction n as [|n [Hr Hi']]; [done|]. cbn [Nat.iter].
  set (v := Nat.iter n (refused_attempt id) w) in *. set (j := {| job_id := id; job_deliveryId := id |}).
  pose proof (serve_exec (answering 503) (processDelivery default_config toy_hmac demo_schedule j None) v) as Hx.
  split.
  - eapply rtc_r; [exact Hr|]. apply (flow_step _ _ (FDeliver demo_schedule j None)); [done|]. by eexists.
  - pose proof (wp_processDelivery default_config toy_hmac demo_schedule j None v Hi') as H. rewrite wp_exec in H.
    by destruct (H _ _ Hx) as (H1 & _).
Qed.

#[local] Opaque accepted refused_attempt.

Lemma second_refused_steps : rtc (sys_step default_config toy_hmac) blank_world.1 second_refused.1.
Proof.
  destruct (accepted_step "k1" blank_world (demo_idle _ _ _ _)) as [H1 Hi1].
  destruct (refused_attempts_steps first_id 20 _ Hi1) as [H2 Hi2].
  destruct (accepted_step "k2" _ Hi2) as [H3 Hi3].
  destruct (refused_attempts_steps second_id 1 _ Hi3) as [H4 _].
  etrans; [exact H1|]. etrans; [exact H2|]. etrans; [exact H3|exact H4].
Qed.

(** The table of SCHEMA.md is not the code's: a run of the engine takes a
    delivery from PENDING to FAILED, without an attempt having begun, when the
    circuit of its endpoint is open. *)
Theorem circuit_open_undocumented :
  rtc (sys_step default_config toy_hmac) blank_world.1 second_refused.1 /\
  map (fun r => (t_from_status r, t_to_status r, t_reason r)) (trail (tables_of second_refused) second_id) =
    [(None, PENDING, "created"%string); (Some PENDING, FAILED, "circuit_open"%string)] /\
  forall by_, documented (Some PENDING) FAILED by_ = false.
Proof. split; [exact second_refused_steps|]. split; [vm_compute; reflexivity|by intros []]. Qed.
