(* ===== verification/Concurrency.v ===== *)
(** * Ingestion under concurrency

    Any number of ingestions (src/src/db/ingest.ts) and other flows of the
    engine, interleaved call by call on the same PostgreSQL and Redis, with
    calls that fail and processes that die. Section [Store]: the agreement all
    of them keep, for one client key; [Steps]: that every call keeps it;
    [Programs]: that the ingestion does; then the theorem. *)

From S2P Require Import Prelude Async Interleave Json Config Tables Queries Schema Redis Services Concrete Scripts Repo Ingest.
From S2P Require Lock TokenBucket.
From S2P Require Import CircuitBreaker Frames Signature Worker WorkerSpec DeadLetter Api Endpoints AuditTrail.
From Stdlib Require Import ZArith Lia String.
From stdpp Require Import prelude strings gmap.

Open Scope Z_scope.
Open Scope async_scope.

(** ** Inserted events and deliveries *)

Definition new_events (ws : list write) : list (string * event_row) :=
  omap (fun w => match w with WEvent id r => Some (id, r) | _ => None end) ws.

Definition new_deliveries (ws : list write) : list (string * delivery_row) :=
  omap (fun w => match w with WDelivery id r => Some (id, r) | _ => None end) ws.

(** The event of each delivery. *)
Definition owner (T : tables) : gmap string string := d_event_id <$> deliveries T.

Lemma owner_alter f id (T : tables) :
  (forall d, d_event_id (f d) = d_event_id d) -> d_event_id <$> alter f id (deliveries T) = owner T.
Proof.
  intros Hf. unfold owner. apply map_eq. intros i. rewrite !lookup_fmap, lookup_alter.
  destruct (decide (id = i)) as [-> |]; [|done]. destruct (deliveries T !! i) as [d|]; [|done]. simpl. f_equal. apply Hf.
Qed.

Lemma apply_writes_events ws T :
  events (apply_writes T ws) = foldl (fun m x => <[x.1 := x.2]> m) (events T) (new_events ws).
Proof.
  revert T. induction ws as [|w ws IH]; intros T; [done|]. unfold apply_writes in *. cbn [foldl].
  rewrite IH. by destruct w.
Qed.

Lemma apply_writes_owner ws T :
  owner (apply_writes T ws) = foldl (fun m x => <[x.1 := d_event_id x.2]> m) (owner T) (new_deliveries ws).
Proof.
  revert T. induction ws as [|w ws IH]; intros T; [done|]. unfold apply_writes in *. cbn [foldl].
  rewrite IH. destruct w; cbn; f_equal; try done; try (by apply owner_alter).
  unfold owner. cbn. by rewrite fmap_insert.
Qed.

(** ** The agreement *)

Section Store.
Context {RS BS : Type} `{!RedisServer RS} `{!RedisLaws RS} `{!BullMQ BS}.
Abbreviation shared := (shared RS BS).

(** One client and one key of theirs. *)
Context (client key : string).

Abbreviation T_of s := (pg_tables (s_pg s)).
Abbreviation cacheKey := (idemRedisKey client key).

Definition known (s : shared) (ev : string) : Prop := event_known (T_of s) client key ev.

(** The session [tid] holds the lock [k]. *)
Definition held (s : shared) (tid : nat) (k : lockkey) : Prop := (k, tid) ∈ pg_locks (s_pg s).

(** The shared state: exclusive locks, one event for the key, deliveries of
    existing events, one delivery for that event, and a cache that names no
    other event. *)
Record store_ok (s : shared) : Prop := {
  so_locks k t1 t2 : (k, t1) ∈ pg_locks (s_pg s) -> (k, t2) ∈ pg_locks (s_pg s) -> t1 = t2;
  so_unique ev1 ev2 : known s ev1 -> known s ev2 -> ev1 = ev2;
  so_event d ev : owner (T_of s) !! d = Some ev -> is_Some (events (T_of s) !! ev);
  so_single ev d1 d2 : known s ev -> owner (T_of s) !! d1 = Some ev -> owner (T_of s) !! d2 = Some ev -> d1 = d2;
  so_cache n v d : s_now s <= n ->
    rs_keys (s_redis s) (ms_of_ts n) !! cacheKey = Some {| r_val := RStr v; r_deadline := d |} -> v <> "" -> known s v
}.

(** What an open transaction may have inserted: nothing, or one event with at
    most one delivery, under locks that keep their keys from everyone else. *)
Inductive pending (s : shared) (tid : nat) (ws : list write) : Prop :=
| pending_none : new_events ws = [] -> new_deliveries ws = [] -> pending s tid ws
| pending_event id e :
    new_events ws = [(id, e)] -> held s tid (LEventId id) -> events (T_of s) !! id = None ->
    (same_event_key client key e = true -> held s tid (LEvent client key) /\ forall ev, ~ known s ev) ->
    (new_deliveries ws = [] \/
     exists d row, new_deliveries ws = [(d, row)] /\ held s tid (LDeliveryId d) /\
       owner (T_of s) !! d = None /\ d_event_id row = id) ->
    pending s tid ws.

(** A session, with the ghost fact that it created the key's event. *)
Definition local : Type := session * Prop.

Definition local_ok (s : shared) (l : local) : Prop :=
  (l.2 -> exists ev, known s ev) /\
  match l_tx l.1 with None => True | Some x => pending s (l_tid l.1) (tx_writes x) end.

(** Others only add events and deliveries. *)
Definition others (_ : local) (s s' : shared) : Prop :=
  s_now s <= s_now s' /\ events (T_of s) ⊆ events (T_of s') /\ owner (T_of s) ⊆ owner (T_of s').

#[export] Instance others_preorder l : PreOrder (others l).
Proof.
  split; [by repeat split|]. intros s1 s2 s3 (?&?&?) (?&?&?). split; [lia|]. split; by etrans.
Qed.

(** Two sessions are different, and not both have created the event. *)
Definition apart (l1 l2 : local) : Prop := l_tid l1.1 <> l_tid l2.1 /\ ~ (l1.2 /\ l2.2).

#[export] Instance apart_sym : Symmetric apart.
Proof. intros l1 l2 [H1 H2]. split; [done|]. tauto. Qed.

(** The step from [s] to [s'] created the key's event. *)
Definition note (s s' : shared) (g : Prop) : Prop := g \/ ((forall ev, ~ known s ev) /\ exists ev, known s' ev).

(** The process of a session dies: the server rolls its transaction back. *)
Definition dies (w w' : world RS BS) : Prop :=
  w' = (with_pg (committed (s_pg w.1) (l_tid w.2) []) w.1, with_tx None w.2).

Abbreviation keeps := (guar store_ok local_ok others apart).

Lemma known_mono (s s' : shared) ev : events (T_of s) ⊆ events (T_of s') -> known s ev -> known s' ev.
Proof. intros Hs (e & He & Hk). exists e. split; [by eapply lookup_weaken|done]. Qed.

Lemma known_same (s s' : shared) ev : events (T_of s') = events (T_of s) -> known s' ev <-> known s ev.
Proof. intros Hs. unfold known, event_known. by rewrite Hs. Qed.

Lemma pending_move (s s' : shared) tid ws :
  events (T_of s') = events (T_of s) -> owner (T_of s') = owner (T_of s) ->
  (forall k, held s tid k -> held s' tid k) -> pending s tid ws -> pending s' tid ws.
Proof.
  intros He Ho Hh [H1 H2|id e H1 H2 H3 H4 H5]; [by apply pending_none|].
  apply (pending_event s' tid ws id e); [done|auto|by rewrite He| |].
  - intros Hs. destruct (H4 Hs) as [Hl Hn]. split; [auto|]. intros ev. rewrite (known_same s s') by done. apply Hn.
  - destruct H5 as [H5|(d & row & Hd & Hl & Hn & Hi)]; [by left|]. right. exists d, row. rewrite Ho. auto.
Qed.

(** A step that inserts no event and no delivery. *)
Lemma keeps_same (s s' : shared) l l' g :
  store_ok s -> local_ok s (l, g) ->
  s_now s <= s_now s' -> events (T_of s') = events (T_of s) -> owner (T_of s') = owner (T_of s) ->
  l_tid l' = l_tid l ->
  (forall k t1 t2, (k, t1) ∈ pg_locks (s_pg s') -> (k, t2) ∈ pg_locks (s_pg s') -> t1 = t2) ->
  (forall k t, (k, t) ∈ pg_locks (s_pg s) -> t <> l_tid l -> (k, t) ∈ pg_locks (s_pg s')) ->
  (forall n v d, s_now s' <= n ->
     rs_keys (s_redis s') (ms_of_ts n) !! cacheKey = Some {| r_val := RStr v; r_deadline := d |} -> v <> "" -> known s v) ->
  match l_tx l' with None => True | Some x => pending s' (l_tid l') (tx_writes x) end ->
  keeps (s, (l, g)) (s', (l', note s s' g)).
Proof.
  intros Hs [Hg _] Hn He Ho Ht Hx Hk Hc Hl'.
  assert (forall ev, known s' ev <-> known s ev) as Hkn by (intros; by apply known_same).
  assert (note s s' g -> g) as Hnote by (intros [|[H1 (ev & H2)]]; [done|]; destruct (H1 ev); by apply Hkn).
  split; [|split].
  - constructor; cbn [fst].
    + exact Hx.
    + intros ev1 ev2 H1%Hkn H2%Hkn. by eapply so_unique.
    + rewrite He, Ho. by apply so_event.
    + intros ev d1 d2 H%Hkn. rewrite Ho. by apply so_single.
    + intros n v d H1 H2 H3. apply Hkn. by eapply Hc.
  - split; [|exact Hl']. intros H%Hnote. destruct (Hg H) as [ev H1]. exists ev. by apply Hkn.
  - intros [l2 g2] [Hne Hd] [Hg2 Hp2]. split; [|split].
    + split; [intros [ev H]%Hg2; exists ev; by apply Hkn|]. cbn in *. destruct (l_tx l2) as [x|]; [|done].
      eapply pending_move; [done|done| |exact Hp2]. intros k. unfold held. intros H. apply Hk; [done|]. congruence.
    + split; [done|]. cbn. by rewrite He, Ho.
    + split; [cbn in *; congruence|]. intros [H%Hnote H2]. by apply Hd.
Qed.

(** The commit of a transaction that has inserted the event [id]. *)
Section Commit.
Context (s s' : shared) (tid : nat) (ws : list write) (id : string) (e : event_row).
Context (Hs : store_ok s) (Hn : s_now s <= s_now s') (Hr : s_redis s' = s_redis s).
Context (Hp : s_pg s' = committed (s_pg s) tid ws).
Context (Hnew : new_events ws = [(id, e)]) (Hid : held s tid (LEventId id)) (Hfresh : events (T_of s) !! id = None).
Context (Hkey : same_event_key client key e = true -> held s tid (LEvent client key) /\ forall ev, ~ known s ev).
Context (Hdel : new_deliveries ws = [] \/
  exists d row, new_deliveries ws = [(d, row)] /\ held s tid (LDeliveryId d) /\
    owner (T_of s) !! d = None /\ d_event_id row = id).

Lemma commit_locks k t : (k, t) ∈ pg_locks (s_pg s') <-> t <> tid /\ (k, t) ∈ pg_locks (s_pg s).
Proof using Hp. rewrite Hp. cbn. unfold release_locks. by rewrite list_elem_of_filter. Qed.

Lemma commit_events : events (T_of s') = <[id := e]> (events (T_of s)).
Proof using Hp Hnew. rewrite Hp. cbn. by rewrite apply_writes_events, Hnew. Qed.

Lemma commit_owner :
  owner (T_of s') = owner (T_of s) \/
  exists d, owner (T_of s') = <[d := id]> (owner (T_of s)) /\ held s tid (LDeliveryId d) /\ owner (T_of s) !! d = None.
Proof using Hp Hdel.
  rewrite Hp. cbn. rewrite apply_writes_owner.
  destruct Hdel as [-> |(d & row & -> & Hd & Hnone & Hi)]; [by left|right]. exists d. cbn. by rewrite Hi.
Qed.

Lemma commit_grows : events (T_of s) ⊆ events (T_of s') /\ owner (T_of s) ⊆ owner (T_of s').
Proof using Hp Hnew Hfresh Hdel.
  split; [rewrite commit_events; by apply insert_subseteq|].
  destruct commit_owner as [-> |(d & -> & _ & Hd)]; [done|by apply insert_subseteq].
Qed.

Lemma commit_unowned d : owner (T_of s) !! d <> Some id.
Proof using Hs Hfresh. intros Hd. destruct (so_event s Hs d id Hd) as [? ?]. congruence. Qed.

Lemma commit_known ev : known s' ev <-> known s ev \/ ev = id /\ same_event_key client key e = true.
Proof using Hp Hnew Hfresh.
  unfold known, event_known. rewrite commit_events. split.
  - intros (e' & [[<- <-]|[_ He]]%lookup_insert_Some & Hk); [by right|]. left. by exists e'.
  - intros [(e' & He & Hk)|[-> Hk]]; [|exists e; by rewrite lookup_insert_eq].
    exists e'. split; [|done]. apply lookup_insert_Some. right. split; [congruence|done].
Qed.

Lemma commit_single ev d1 d2 :
  known s' ev -> owner (T_of s') !! d1 = Some ev -> owner (T_of s') !! d2 = Some ev -> d1 = d2.
Proof using Hs Hp Hnew Hfresh Hdel.
  intros Hk. destruct (decide (ev = id)) as [-> |Hne].
  - destruct commit_owner as [-> |(d & -> & _ & Hd)]; [by intros H%commit_unowned|].
    intros [[-> _]|[_ H]]%lookup_insert_Some; [|by apply commit_unowned in H].
    intros [[-> _]|[_ H]]%lookup_insert_Some; [done|by apply commit_unowned in H].
  - apply commit_known in Hk as [Hk|[-> _]]; [|done].
    destruct commit_owner as [-> |(d & -> & _ & Hd)]; [by apply so_single|].
    intros [[_ ?]|[_ H1]]%lookup_insert_Some; [done|]. intros [[_ ?]|[_ H2]]%lookup_insert_Some; [done|].
    by eapply so_single.
Qed.

Lemma commit_store_ok : store_ok s'.
Proof using Hs Hn Hr Hp Hnew Hfresh Hkey Hdel.
  constructor.
  - intros k t1 t2 [_ H1]%commit_locks [_ H2]%commit_locks. by eapply so_locks.
  - intros ev1 ev2 [K1|[-> S1]]%commit_known [K2|[-> S2]]%commit_known; [by eapply so_unique| | |done].
    + by destruct (proj2 (Hkey S2) ev1).
    + by destruct (proj2 (Hkey S1) ev2).
  - intros d ev Hd. rewrite commit_events. destruct (decide (ev = id)) as [-> |Hne]; [by rewrite lookup_insert_eq|].
    rewrite lookup_insert_ne by done.
    destruct commit_owner as [E|(d' & E & _)]; rewrite E in Hd; [by eapply so_event|].
    apply lookup_insert_Some in Hd as [[_ ?]|[_ Hd]]; [done|by eapply so_event].
  - apply commit_single.
  - intros n v d Hv. rewrite Hr. intros Hc Hne. apply commit_known. left. eapply so_cache; [done| |done|done]. lia.
Qed.

(** What another session has pending stays pending. *)
Lemma commit_pending tid' ws' : tid' <> tid -> pending s tid' ws' -> pending s' tid' ws'.
Proof using Hs Hp Hnew Hid Hfresh Hkey Hdel.
  intros Hne [|id2 e2 E1 E2 E3 E4 E5]; [by apply pending_none|].
  assert (forall k, held s tid' k -> held s' tid' k) as Hh by (intros k H; by apply commit_locks).
  assert (forall k, held s tid k -> held s tid' k -> False) as Hboth.
  { intros k K1 K2. apply Hne. by eapply (so_locks s Hs k). }
  apply (pending_event s' _ _ id2 e2); [done|auto| | |].
  - rewrite commit_events, lookup_insert_ne; [done|]. intros ->. by eapply Hboth.
  - intros Hk2. destruct (E4 Hk2) as [K1 K2]. split; [auto|]. intros ev [H|[-> He]]%commit_known; [by apply (K2 ev)|].
    destruct (Hkey He) as [K3 _]. by eapply Hboth.
  - destruct E5 as [E5|(d2 & row2 & F1 & F2 & F3 & F4)]; [by left|]. right. exists d2, row2.
    split; [done|]. split; [auto|]. split; [|done].
    destruct commit_owner as [-> |(d & -> & Hd & _)]; [done|]. rewrite lookup_insert_ne; [done|].
    intros ->. by eapply Hboth.
Qed.
End Commit.

(** The commit of what a transaction has pending. *)
Lemma keeps_commit (s s' : shared) l g x :
  store_ok s -> local_ok s (l, g) -> l_tx l = Some x ->
  s_now s <= s_now s' -> s_redis s' = s_redis s -> s_pg s' = committed (s_pg s) (l_tid l) (tx_writes x) ->
  keeps (s, (l, g)) (s', (with_tx None l, note s s' g)).
Proof.
  intros Hs Hl Htx Hn Hr Hp. pose proof Hl as [Hg Hw]. cbn in Hg, Hw. rewrite Htx in Hw.
  pose proof (commit_locks s s' _ _ Hp) as Hlk.
  destruct Hw as [H1 H2|id e H1 Hid Hfresh Hkey Hdel].
  { apply keeps_same; try done.
    - rewrite Hp. cbn. by rewrite apply_writes_events, H1.
    - rewrite Hp. cbn. by rewrite apply_writes_owner, H2.
    - intros k t1 t2 [_ K1]%Hlk [_ K2]%Hlk. by eapply so_locks.
    - intros k t H Hne. by apply Hlk.
    - intros n v d Hv. rewrite Hr. apply so_cache; [done|lia]. }
  destruct (commit_grows s s' _ _ id e Hp H1 Hfresh Hdel) as [HE HO].
  assert (forall g0 : Prop, (g0 -> exists ev, known s ev) -> g0 -> exists ev, known s' ev) as Hmono.
  { intros g0 H0 H. destruct (H0 H) as [ev Hev]. exists ev. by apply (known_mono s). }
  split; [|split].
  - by eapply commit_store_ok.
  - split; [|done]. cbn. intros [H|[_ H]]; [by eapply Hmono|done].
  - intros [l2 g2] [Hne Hd] [Hg2 Hp2]. cbn in Hne, Hd, Hg2, Hp2. split; [|split; [by split|]].
    + split; [by apply Hmono|]. cbn. destruct (l_tx l2) as [x2|]; [|done]. eapply commit_pending; eauto.
    + split; [done|]. cbn. intros [[H|[H _]] H2]; [by apply Hd|]. destruct (Hg2 H2) as [ev Hev]. by apply (H ev).
Qed.

(** ** Every call keeps the agreement *)

(** What a call must respect: the cache entry names only the key's event, and
    events and deliveries are inserted in transactions, a delivery for the
    event just inserted. *)
Definition allowed (s : shared) (l : session) (c : cmd) : Prop :=
  match c with
  | Redis (RCmd (GET _)) => True
  | Redis (RCmd (SET k v _ _)) => k = cacheKey -> v <> "" -> known s v
  | Redis (RCmd c) => cacheKey ∉ rcmd_keys c
  | Redis (EVALSHA _ keys _) => cacheKey ∉ keys
  | Pg (CLIENT_QUERY (InsertEvent _ _ _ _)) =>
      forall x, l_tx l = Some x -> new_events (tx_writes x) = [] /\ new_deliveries (tx_writes x) = []
  | Pg (CLIENT_QUERY (InsertDelivery ev _)) =>
      forall x, l_tx l = Some x -> (exists e, new_events (tx_writes x) = [(ev, e)]) /\ new_deliveries (tx_writes x) = []
  | Pg (POOL_QUERY (InsertEvent _ _ _ _)) | Pg (POOL_QUERY (InsertDelivery _ _)) => False
  | _ => True
  end.

Definition is_insert (q : stmt) : bool :=
  match q with InsertEvent _ _ _ _ | InsertDelivery _ _ => true | _ => false end.

Lemma stmt_inserts_nothing now t b q r ws :
  stmt_ok now t b q r ws -> is_insert q = false -> new_events ws = [] /\ new_deliveries ws = [].
Proof.
  destruct q; cbn; intros H Hq; try discriminate Hq;
    repeat match goal with
    | H : _ /\ _ |- _ => destruct H
    | H : exists _, _ |- _ => destruct H
    | H : match ?x with _ => _ end |- _ => destruct x
    end; subst; done.
Qed.

Lemma new_events_app ws1 ws2 : new_events (ws1 ++ ws2) = new_events ws1 ++ new_events ws2.
Proof. apply omap_app. Qed.

Lemma new_deliveries_app ws1 ws2 : new_deliveries (ws1 ++ ws2) = new_deliveries ws1 ++ new_deliveries ws2.
Proof. apply omap_app. Qed.

(** The cache after a command at [n0] that leaves the key alone, or sets it to
    the key's event. *)
Lemma cache_after (s : shared) (st : RS) n0 :
  store_ok s -> s_now s <= n0 ->
  (rs_keys st (ms_of_ts n0) !! cacheKey = rs_keys (s_redis s) (ms_of_ts n0) !! cacheKey \/
   exists v d, rs_keys st (ms_of_ts n0) !! cacheKey = Some {| r_val := RStr v; r_deadline := d |} /\ (v <> "" -> known s v)) ->
  forall n v d, n0 <= n ->
    rs_keys st (ms_of_ts n) !! cacheKey = Some {| r_val := RStr v; r_deadline := d |} -> v <> "" -> known s v.
Proof using RedisLaws0.
  intros Hs Hn0 Hst n v d Hn. rewrite (rs_expiry st (ms_of_ts n0)), live_lookup by by apply ms_of_ts_mono.
  destruct Hst as [-> |(v' & d' & -> & Hv)].
  - intros H Hne. eapply (so_cache s Hs n v d); [lia| |done].
    by rewrite (rs_expiry (s_redis s) (ms_of_ts n0)), live_lookup by by apply ms_of_ts_mono.
  - destruct (decide _); [|done]. intros [= <- _]. exact Hv.
Qed.

(** A Redis command of [allowed], executed. *)
Lemma cache_exec (s : shared) l n0 (c : rtop) :
  store_ok s -> s_now s <= n0 -> allowed s l (Redis c) ->
  forall n v d, n0 <= n ->
    rs_keys (rs_exec (s_redis s) (ms_of_ts n0) c).2 (ms_of_ts n) !! cacheKey =
      Some {| r_val := RStr v; r_deadline := d |} -> v <> "" -> known s v.
Proof using RedisLaws0.
  intros Hs Hn0 Ha. apply cache_after; [done|done|]. set (t := ms_of_ts n0). destruct c as [c|sha keys args|sc|].
  - destruct (rs_cmd (s_redis s) t c) as (_ & -> & _). destruct c as [k|k v ex nx| | | | | | | |].
    2: destruct (decide (k = cacheKey)) as [-> |Hne]; [|left; apply redis_doc_frame; cbn; set_solver].
    2: cbn; destruct (match ex with Some _ => _ | None => _ end); [by left|].
    2: destruct nx, (rs_keys (s_redis s) t !! cacheKey) eqn:E; cbn; first [by left|right].
    2-4: eexists v, _; rewrite lookup_insert_eq; (split; [reflexivity|by apply Ha]).
    1: left; cbn; by repeat case_match.
    all: left; by apply redis_doc_frame.
  - left. by apply rs_evalsha_keys.
  - left. by destruct (rs_script_load (s_redis s) t sc) as (_ & -> & _).
  - left. by rewrite rs_ping.
Qed.

(** A statement of an open transaction. *)
Lemma pending_statement (s s' : shared) l x q r ws :
  pending s (l_tid l) (tx_writes x) -> l_tx l = Some x -> allowed s l (Pg (CLIENT_QUERY q)) ->
  stmt_runs (tx_start x) (s_pg s) (tx_view (s_pg s) x) (l_tid l) q r ws ->
  T_of s' = T_of s -> (forall k, k ∈ stmt_locks q r \/ held s (l_tid l) k -> held s' (l_tid l) k) ->
  pending s' (l_tid l) (tx_writes x ++ ws).
Proof.
  intros Hp Htx Ha (Hok & _ & _) HT Hh.
  assert (forall ws, pending s (l_tid l) ws -> pending s' (l_tid l) ws) as Hmove.
  { intros ws' H. eapply pending_move; [by rewrite HT..| |exact H]. auto. }
  destruct (is_insert q) eqn:Hq.
  - unfold tx_view in Hok. destruct q as [| | | | | | | | | |client' key' ty pl| |ev ep| | | |]; try discriminate Hq.
    + destruct (Ha x Htx) as [H1 H2]. cbn in Hok.
      rewrite apply_writes_events, H1 in Hok. cbn in Hok.
      destruct Hok as [(_ & -> & ->)|(Hnone & id & Hid & -> & ->)]; [rewrite app_nil_r; by apply Hmove|].
      eapply (pending_event s' _ _ id); [rewrite new_events_app, H1; reflexivity| |by rewrite HT| |].
      * apply Hh. left. cbn. set_solver.
      * intros Hk. unfold same_event_key in Hk. cbn in Hk. apply andb_true_iff in Hk as [->%String.eqb_eq ->%String.eqb_eq].
        split; [apply Hh; left; cbn; set_solver|]. intros ev (e & He & Hk). rewrite HT in He.
        rewrite (Hnone ev e He) in Hk. done.
      * left. by rewrite new_deliveries_app, H2.
    + destruct (Ha x Htx) as [[e H1] H2]. cbn in Hok. destruct Hok as (d & Hd & -> & ->).
      destruct Hp as [H3|id e' H3 H4 H5 H6 _]; rewrite H1 in H3; [done|]. injection H3 as <- <-.
      eapply (pending_event s' _ _ ev e); [by rewrite new_events_app, H1|auto|by rewrite HT| |].
      * intros Hk. destruct (H6 Hk) as [K1 K2]. split; [auto|]. intros ev'. unfold known. rewrite HT. apply K2.
      * right. exists d, (new_delivery ev ep (tx_start x)). split; [by rewrite new_deliveries_app, H2|].
        split; [apply Hh; left; cbn; set_solver|]. split; [|done].
        assert (owner (apply_writes (T_of s) (tx_writes x)) = owner (T_of s)) as Ho by by rewrite apply_writes_owner, H2.
        rewrite HT, <- Ho. unfold owner. rewrite lookup_fmap. cbn in Hd. by rewrite Hd.
  - destruct (stmt_inserts_nothing _ _ _ _ _ _ Hok Hq) as [E1 E2]. apply Hmove in Hp.
    assert (new_events (tx_writes x ++ ws) = new_events (tx_writes x)) as F1 by (by rewrite new_events_app, E1, app_nil_r).
    assert (new_deliveries (tx_writes x ++ ws) = new_deliveries (tx_writes x)) as F2 by (by rewrite new_deliveries_app, E2, app_nil_r).
    destruct Hp as [G1 G2|id e G1 G2 G3 G4 G5]; [apply pending_none; congruence|].
    apply (pending_event s' _ _ id e); [congruence|done|done|done|]. by rewrite F2.
Qed.

(** Locks taken by one session, that nobody else holds. *)
Lemma locks_grow (s : shared) tid ks :
  (forall k t1 t2, (k, t1) ∈ pg_locks (s_pg s) -> (k, t2) ∈ pg_locks (s_pg s) -> t1 = t2) ->
  Forall (fun k => ~ busy (s_pg s) tid k) ks ->
  forall k t1 t2, (k, t1) ∈ map (fun k => (k, tid)) ks ++ pg_locks (s_pg s) ->
    (k, t2) ∈ map (fun k => (k, tid)) ks ++ pg_locks (s_pg s) -> t1 = t2.
Proof.
  intros Hs Hf k t1 t2. rewrite Forall_forall in Hf.
  assert (forall t, (k, t) ∈ map (fun k => (k, tid)) ks ++ pg_locks (s_pg s) ->
    (t = tid /\ k ∈ ks) \/ (k, t) ∈ pg_locks (s_pg s)) as Hcase.
  { intros t [H|H]%elem_of_app; [|by right]. apply list_elem_of_fmap in H as (k' & [= -> ->] & Hk). by left. }
  assert (forall t, k ∈ ks -> (k, t) ∈ pg_locks (s_pg s) -> t = tid) as Hmine.
  { intros t Hk Ht. destruct (decide (t = tid)) as [|Hne]; [done|]. destruct (Hf k Hk). by exists t. }
  intros [[-> K1]|H1]%Hcase [[-> K2]|H2]%Hcase; [done| | |by eapply Hs].
  - symmetry. by apply Hmine.
  - by apply Hmine.
Qed.

(** A step outside the database. *)
Lemma keeps_outside (s s' : shared) l l' g :
  store_ok s -> local_ok s (l, g) -> s_now s <= s_now s' -> s_pg s' = s_pg s ->
  l_tid l' = l_tid l -> l_tx l' = l_tx l ->
  (forall n v d, s_now s' <= n ->
     rs_keys (s_redis s') (ms_of_ts n) !! cacheKey = Some {| r_val := RStr v; r_deadline := d |} -> v <> "" -> known s v) ->
  keeps (s, (l, g)) (s', (l', note s s' g)).
Proof.
  intros Hs Hl Hn Hp Ht Hx Hc. apply keeps_same; try done; rewrite ?Hp; try done.
  - by apply so_locks.
  - destruct Hl as [_ Hl]. rewrite Hx. cbn in Hl. destruct (l_tx l); [|done].
    rewrite Ht. eapply pending_move; [by rewrite Hp..| |exact Hl]. unfold held. by rewrite Hp.
Qed.

(** A step on the database that commits no insertion. *)
Lemma keeps_pg (s s' : shared) l l' g :
  store_ok s -> local_ok s (l, g) -> s_now s <= s_now s' -> s_redis s' = s_redis s -> l_tid l' = l_tid l ->
  events (T_of s') = events (T_of s) -> owner (T_of s') = owner (T_of s) ->
  (forall k t1 t2, (k, t1) ∈ pg_locks (s_pg s') -> (k, t2) ∈ pg_locks (s_pg s') -> t1 = t2) ->
  (forall k t, (k, t) ∈ pg_locks (s_pg s) -> t <> l_tid l -> (k, t) ∈ pg_locks (s_pg s')) ->
  match l_tx l' with None => True | Some x => pending s' (l_tid l') (tx_writes x) end ->
  keeps (s, (l, g)) (s', (l', note s s' g)).
Proof.
  intros Hs Hl Hn Hr Ht He Ho Hx Hk Hp. apply keeps_same; try done.
  intros n v d Hnn. rewrite Hr. apply so_cache; [done|lia].
Qed.

(** The end of a transaction without its writes. *)
Lemma keeps_rollback (s s' : shared) l g :
  store_ok s -> local_ok s (l, g) -> s_now s <= s_now s' -> s_redis s' = s_redis s ->
  s_pg s' = committed (s_pg s) (l_tid l) [] -> keeps (s, (l, g)) (s', (with_tx None l, note s s' g)).
Proof.
  intros Hs Hl Hn Hr Hp.
  assert (forall k t, (k, t) ∈ pg_locks (s_pg s') <-> t <> l_tid l /\ (k, t) ∈ pg_locks (s_pg s)) as Hlk.
  { intros k t. rewrite Hp. cbn. unfold release_locks. by rewrite list_elem_of_filter. }
  apply keeps_pg; try done.
  - by rewrite Hp.
  - by rewrite Hp.
  - intros k t1 t2 [_ H1]%Hlk [_ H2]%Hlk. by eapply so_locks.
  - intros k t H Hne. by apply Hlk.
Qed.

(** A step of the server on the database. *)
Lemma pg_keeps (s s' : shared) l g c p' tx' n :
  store_ok s -> local_ok s (l, g) -> allowed s l (Pg c) -> s_now s <= n ->
  s' = with_pg p' (with_now n s) ->
  (exists r, pg_answers n (s_pg s) (l_tid l) (l_tx l) c r p' tx') \/
  pg_fails n (s_pg s) (l_tid l) (l_tx l) c p' tx' ->
  keeps (s, (l, g)) (s', (with_tx tx' l, note s s' g)).
Proof.
  intros Hs Hl Ha Hn -> Hc. set (s' := with_pg p' (with_now n s)).
  assert (forall p, p' = p -> s_pg s' = p) as Hp' by (by intros p ->).
  pose proof (so_locks s Hs) as Hx. pose proof Hl as [_ Hw]. cbn in Hw.
  assert (p' = s_pg s -> tx' = l_tx l -> keeps (s, (l, g)) (s', (with_tx tx' l, note s s' g))) as Hsame.
  { intros -> ->. apply keeps_pg; try done. cbn. destruct (l_tx l); [|done]. by eapply pending_move; [..|exact Hw]. }
  assert (p' = committed (s_pg s) (l_tid l) [] -> tx' = None -> keeps (s, (l, g)) (s', (with_tx tx' l, note s s' g))) as Hroll.
  { intros -> ->. by apply keeps_rollback. }
  assert (p' = committed (s_pg s) (l_tid l) (default [] (tx_writes <$> l_tx l)) -> tx' = None ->
    keeps (s, (l, g)) (s', (with_tx tx' l, note s s' g))) as Hcommit.
  { intros Hp ->. destruct (l_tx l) as [x|] eqn:Htx; [|by apply Hroll].
    apply (keeps_commit s s' l g x); try done; try (by apply Hp'). }
  assert (forall q r ws, stmt_runs n (s_pg s) (T_of s) (l_tid l) q r ws -> allowed s l (Pg (POOL_QUERY q)) ->
    p' = {| pg_tables := apply_writes (T_of s) ws; pg_locks := pg_locks (s_pg s) |} -> tx' = l_tx l ->
    keeps (s, (l, g)) (s', (with_tx tx' l, note s s' g))) as Hpool.
  { intros q r ws (Hok & _ & _) Hq -> ->.
    assert (is_insert q = false) as Hi by (by destruct q).
    destruct (stmt_inserts_nothing _ _ _ _ _ _ Hok Hi) as [E1 E2].
    assert (events (T_of s') = events (T_of s)) as He by (cbn; by rewrite apply_writes_events, E1).
    assert (owner (T_of s') = owner (T_of s)) as Ho by (cbn; by rewrite apply_writes_owner, E2).
    apply keeps_pg; try done. cbn. destruct (l_tx l); [|done]. by eapply pending_move; [..|exact Hw]. }
  destruct c as [| | | | |q|q]; destruct Hc as [[r Hc]|Hc]; cbn in Hc.
  - by destruct Hc; apply Hsame.
  - by destruct Hc; apply Hsame.
  - by destruct Hc; apply Hsame.
  - done.
  - destruct Hc as [-> ->]. apply keeps_pg; try done. by apply pending_none.
  - destruct Hc as [-> ->]. by apply keeps_pg.
  - by destruct Hc; apply Hcommit.
  - by destruct Hc as [[Hc|Hc] Htx]; [apply Hroll|apply Hcommit].
  - by destruct Hc; apply Hroll.
  - by destruct Hc; apply Hroll.
  - destruct Hc as (x & ws & Htx & Hrun & -> & ->). rewrite Htx in Hw. apply keeps_pg; try done.
    + apply locks_grow; [exact Hx|by apply Hrun].
    + intros k t H _. cbn. apply elem_of_app. by right.
    + cbn. eapply (pending_statement s s' l x q r ws); try done.
      intros k [Hk|Hk]; cbn; apply elem_of_app; [left; by apply (list_elem_of_fmap_2 (fun k => (k, l_tid l)))|by right].
  - by destruct Hc; apply Hsame.
  - destruct Hc as (ws & Hrun & -> & ->). by eapply Hpool.
  - destruct Hc as [-> [-> |(r & ws & Hrun & -> & _)]]; [by apply Hsame|]. by eapply Hpool.
Qed.

(** The system with this ghost. *)
Definition genv := ghost_env env (fun w c (_ : exn + resp c) w' => note w.1 w'.1).
Definition gdies := ghost_crash dies (fun w w' => note w.1 w'.1).
Abbreviation rely := (rg genv store_ok local_ok others apart).
Abbreviation later := (meanwhile store_ok local_ok others).

Lemma env_keeps (s : shared) (l : local) c r w' :
  store_ok s -> local_ok s l -> allowed s l.1 c -> genv (s, l) c r w' -> keeps (s, l) w'.
Proof using RedisLaws0.
  destruct l as [l g], w' as [s' [l' g']]. intros Hs Hl Ha [He Hg]. cbn in He, Ha, Hg. subst g'.
  destruct He as (s1 & (n & Hn & ->) & He). cbn in Hn.
  assert (forall m v d, n <= m -> rs_keys (s_redis s) (ms_of_ts m) !! cacheKey =
    Some {| r_val := RStr v; r_deadline := d |} -> v <> "" -> known s v) as Hold.
  { intros m v d Hm. apply so_cache; [done|lia]. }
  destruct c as [c|c|q nm d i|q ty|i ts tk| | |m|rq| | | |sc|sc sha|lv m].
  { pose proof (cache_exec s l n c Hs Hn Ha) as Hnew. cbn in Hnew.
    assert (forall st, st = s_redis s \/ st = (rs_exec (s_redis s) (ms_of_ts n) c).2 ->
      (s', l') = (with_redis st (with_now n s), l) -> keeps (s, (l, g)) (s', (l', note s s' g))) as H.
    { intros st Hst [= -> ->]. apply keeps_outside; try done. by destruct Hst as [-> | ->]. }
    destruct r as [e|r]; cbn in He.
    - destruct He as [_ [(msg & _ & _ & He)|(_ & _ & [He|He])]];
        (eapply H; [|rewrite He; first [reflexivity|destruct s; reflexivity]]); auto.
    - destruct He as [_ He]. eapply H; [|exact He]. auto. }
  { destruct r as [e|r]; cbn in He.
    - destruct He as [_ (_ & p' & tx' & Hp & [= -> ->])]. eapply pg_keeps; [done..|exact Hn|reflexivity|right; exact Hp].
    - destruct He as (p' & tx' & Hp & [= -> ->]). eapply pg_keeps; [done..|exact Hn|reflexivity|left; by exists r]. }
  all: destruct r as [e|r]; cbn in He;
    repeat match goal with
    | H : _ /\ _ |- _ => destruct H
    | H : _ \/ _ |- _ => destruct H
    | H : (_, _) = (_, _) |- _ => injection H as -> ->
    end; try done; by apply keeps_outside.
Qed.

Lemma dies_keeps w w' : store_ok w.1 -> local_ok w.1 w.2 -> gdies w w' -> keeps w w'.
Proof.
  destruct w as [s [l g]], w' as [s' [l' g']]. intros Hs Hl [[= -> ->] Hg]. cbn in Hg |- *. subst g'.
  by apply keeps_rollback.
Qed.

(** ** The ingestion keeps the agreement *)

(** What a program has seen stays so. *)
Definition sees (w w' : shared * local) : Prop :=
  events (T_of w.1) ⊆ events (T_of w'.1) /\ owner (T_of w.1) ⊆ owner (T_of w'.1) /\ (w.2.2 -> w'.2.2).

#[export] Instance sees_preorder : PreOrder sees.
Proof.
  split; [by repeat split|]. intros w1 w2 w3 (H1 & H2 & H3) (H4 & H5 & H6).
  split; [by etrans|]. split; [by etrans|auto].
Qed.

Lemma sees_later w s : later w s -> sees w (s, w.2).
Proof. intros (_ & _ & _ & H1 & H2). by repeat split. Qed.

Lemma rely_call (c : cmd) Q w :
  (forall s, later w s -> allowed s w.2.1 c /\
     forall r w', genv (s, w.2) c r w' -> sees w (s, w.2) -> Q (answer r) w') ->
  rely (await c) Q w.
Proof using RedisLaws0.
  intros H. apply rg_perform. intros s Hs r w' He. destruct (H s Hs) as [Ha HQ].
  pose proof Hs as (Hok & Hl & _). split; [|by apply HQ; [|apply sees_later]].
  destruct w as [s0 l]. by eapply env_keeps.
Qed.

(** A command on the database. *)
Lemma rely_pg (c : pgcmd) Q s (l : local) :
  (forall s1 n, later (s, l) s1 -> sees (s, l) (s1, l) -> allowed s1 l.1 (Pg c) /\
     forall p' tx', let w' := (with_pg p' (with_now n s1), (with_tx tx' l.1, note s1 (with_pg p' (with_now n s1)) l.2)) in
     (forall r, pg_answers n (s_pg s1) (l_tid l.1) (l_tx l.1) c r p' tx' -> Q (Returned r) w') /\
     (forall e, pg_fails n (s_pg s1) (l_tid l.1) (l_tx l.1) c p' tx' -> Q (Threw e) w')) ->
  rely (pg c) Q (s, l).
Proof using RedisLaws0.
  intros H. apply (rely_call (Pg c)). intros s1 Hs1. cbn. split.
  { by apply (H s1 (s_now s1) Hs1), (sees_later (s, l)). }
  intros r [s' [l' g']] [(s2 & (n & Hn & ->) & He) Hg] Hse. cbn in He, Hg. subst g'.
  destruct (H s1 n Hs1 Hse) as [_ H1].
  destruct r as [e|r]; cbn in He |- *.
  - destruct He as [_ (_ & p' & tx' & Hp & [= -> ->])]. by apply (H1 p' tx').
  - destruct He as (p' & tx' & Hp & [= -> ->]). by apply (H1 p' tx').
Qed.

(** A command that leaves the tables alone. *)
Lemma rely_pg_same (c : pgcmd) Q s (l : local) :
  match c with CONNECT | CLIENT_RELEASE | BEGIN | ROLLBACK => True | _ => False end ->
  (forall o s' l', sees (s, l) (s', l') -> l_tid l'.1 = l_tid l.1 ->
     (forall r, o = Returned r -> c = BEGIN -> exists t0, l_tx l'.1 = Some {| tx_start := t0; tx_writes := [] |}) ->
     o <> Exited -> Q o (s', l')) ->
  rely (pg c) Q (s, l).
Proof using RedisLaws0.
  intros Hc HQ. apply rely_pg. intros s1 n Hs1 Hse. split; [by destruct c|]. intros p' tx' w'.
  assert (forall g : Prop, g -> note s1 (with_pg p' (with_now n s1)) g) as Hnote by (intros g Hg; by left).
  assert (T_of w'.1 = T_of s1 -> sees (s, l) w') as Hsame.
  { intros HT. etrans; [exact Hse|]. unfold sees, w' in *. cbn in *. rewrite HT. auto. }
  assert (pg_tables p' = T_of s1 -> forall o : outcome exn (pg_resp c), o <> Exited ->
    (forall r, o = Returned r -> c = BEGIN -> exists t0, tx' = Some {| tx_start := t0; tx_writes := [] |}) -> Q o w') as HQ'.
  { intros HT o Ho Hb. apply HQ; [by apply Hsame|done|exact Hb|done]. }
  split; intros x Hp; destruct c; try done; destruct Hp as [Hp Ht]; (apply HQ'; [by rewrite Hp|done|]); try done.
  intros r _ _. by exists n.
Qed.

(** A statement of an open transaction. *)
Lemma rely_client_query q Q s (l : local) x :
  l_tx l.1 = Some x ->
  (forall s1, sees (s, l) (s1, l) -> allowed s1 l.1 (Pg (CLIENT_QUERY q))) ->
  (forall e s' l', sees (s, l) (s', l') -> Q (Threw e) (s', l')) ->
  (forall r ws b s' l', sees (s, l) (s', l') -> l_tid l'.1 = l_tid l.1 ->
     l_tx l'.1 = Some {| tx_start := tx_start x; tx_writes := tx_writes x ++ ws |} ->
     stmt_ok (tx_start x) (apply_writes (T_of s') (tx_writes x)) b q r ws ->
     Q (Returned r) (s', l')) ->
  rely (client_query q) Q (s, l).
Proof using RedisLaws0.
  intros Htx Ha HQt HQr. apply rely_pg. intros s1 n Hs1 Hse. split; [by apply Ha|]. intros p' tx' w'.
  assert (T_of w'.1 = T_of s1 -> sees (s, l) w') as Hsame.
  { intros HT. etrans; [exact Hse|]. unfold sees, w' in *. cbn in *. rewrite HT. repeat split; try done. intros Hg. by left. }
  split.
  - intros r (y & ws & Hy & (Hok & _ & _) & Hp & Ht). rewrite Htx in Hy. injection Hy as <-.
    assert (T_of w'.1 = T_of s1) as HT by (cbn; by rewrite Hp).
    eapply (HQr r ws _ _ _ (Hsame HT)); [done|done|]. cbn in HT |- *. rewrite HT. exact Hok.
  - intros e [Hp Ht]. apply HQt, Hsame. cbn. by rewrite Hp.
Qed.

Section Ingestion.
Context (p : IngestParams).

(** The ingestion is for the client and the key in question. *)
Definition mine : Prop := client_id p = client /\ idempotency_key p = key.

Context (Hkey : idemRedisKey (client_id p) (idempotency_key p) = cacheKey -> mine).

(** The event and the delivery of a result are stored. *)
Definition located (s : shared) (r : IngestResult) : Prop :=
  (mine -> known s (event_id r)) /\ owner (T_of s) !! delivery_id r = Some (event_id r).

(** They are in the open transaction, or stored. *)
Definition drafted (w : shared * local) (r : IngestResult) : Prop :=
  exists x, l_tx w.2.1 = Some x /\
  ((is_new r = true /\ exists e row,
      new_events (tx_writes x) = [(event_id r, e)] /\ new_deliveries (tx_writes x) = [(delivery_id r, row)] /\
      d_event_id row = event_id r /\ (mine -> same_event_key client key e = true)) \/
   (is_new r = false /\ new_events (tx_writes x) = [] /\ new_deliveries (tx_writes x) = [] /\ located w.1 r)).

(** The result tells the truth about who created the event. *)
Definition reported (w : shared * local) (r : IngestResult) : Prop :=
  located w.1 r /\ (mine -> is_new r = true -> w.2.2).

Lemma located_sees w w' r : sees w w' -> located w.1 r -> located w'.1 r.
Proof.
  intros (He & Ho & _) [Hk Hd]. split; [|by eapply lookup_weaken]. intros Hm. by eapply known_mono; [|apply Hk].
Qed.

Lemma reported_sees w w' r : sees w w' -> reported w r -> reported w' r.
Proof. intros Hs [Hl Hg]. split; [by eapply located_sees|]. intros Hm Hn. apply Hs. auto. Qed.

Lemma rely_statements s (l : local) x :
  l_tx l.1 = Some x -> tx_writes x = [] ->
  rely (ingest_statements p) (fun o w => match o with Returned r => drafted w r | _ => True end) (s, l).
Proof using RedisLaws0.
  intros Htx Hx. unfold ingest_statements. apply rg_bind. eapply rely_client_query; [exact Htx| |done|].
  { intros s1 _ x1. cbn. rewrite Htx. intros [= <-]. by rewrite Hx. }
  intros ids ws b s1 l1 Hs1 Ht1 Htx1 Hok. rewrite Hx in Htx1, Hok. cbn in Hok, Htx1.
  destruct Hok as [(_ & -> & ->)|(_ & ev & _ & -> & ->)].
  - apply rg_bind. eapply rely_client_query; [exact Htx1|done|done|].
    intros evs ws2 b2 s2 l2 Hs2 Ht2 Htx2 (-> & _ & Hevs). cbn in Htx2, Hevs.
    destruct evs as [|ev evs]; [done|]. destruct (Hevs ev) as [Hev _]. specialize (Hev ltac:(by left)).
    apply rg_bind. eapply rely_client_query; [exact Htx2|done|done|].
    intros ds ws3 b3 s3 l3 Hs3 Ht3 Htx3 (-> & Hds). cbn in Htx3, Hds.
    destruct Hds as [[-> _]|(d & row & -> & Hd & Hdev)]; [done|]. eexists. split; [exact Htx3|]. right.
    split; [done|]. split; [done|]. split; [done|]. split; cbn.
    + intros [Hc Hi]. destruct Hev as (e & He & Hk). rewrite Hc, Hi in Hk. exists e. split; [|exact Hk].
      eapply lookup_weaken; [exact He|apply Hs3].
    + unfold owner. rewrite lookup_fmap, Hd. cbn. by rewrite Hdev.
  - apply rg_bind. eapply rely_client_query; [exact Htx1| |done|].
    { intros s2 _ x2. rewrite Htx1. intros [= <-]. cbn. split; [by eexists|done]. }
    intros ds ws2 b2 s2 l2 Hs2 Ht2 Htx2 (d & _ & -> & ->). cbn in Htx2.
    apply rg_bind. eapply rely_client_query; [exact Htx2|done|done|].
    intros [] ws3 b3 s3 l3 Hs3 Ht3 Htx3 ->. cbn in Htx3.
    eexists. split; [exact Htx3|]. left. split; [done|]. cbn. eexists _, _. split; [reflexivity|].
    split; [reflexivity|]. split; [done|]. intros [Hc Hi]. unfold same_event_key. cbn. by rewrite Hc, Hi, !String.eqb_refl.
Qed.

Lemma rely_commit s (l : local) r :
  drafted (s, l) r -> rely (pg COMMIT) (fun o w => match o with Returned _ => reported w r | _ => True end) (s, l).
Proof using RedisLaws0.
  intros (x & Htx & Hd). cbn in Htx. apply rely_pg. intros s1 n (Hok & [_ Hp] & _) Hse. split; [done|].
  intros p' tx' w'. split; [|done]. intros _ [Hp' Ht']. cbn in Hp. rewrite Htx in Hp, Hp'. cbn in Hp'.
  assert (T_of w'.1 = apply_writes (T_of s1) (tx_writes x)) as HT by (cbn; by rewrite Hp').
  assert (events (T_of w'.1) = foldl (fun m x => <[x.1 := x.2]> m) (events (T_of s1)) (new_events (tx_writes x))) as HE
    by (rewrite HT; apply apply_writes_events).
  assert (owner (T_of w'.1) = foldl (fun m x => <[x.1 := d_event_id x.2]> m) (owner (T_of s1)) (new_deliveries (tx_writes x))) as HO
    by (rewrite HT; apply apply_writes_owner).
  destruct Hd as [(Hn & e & row & He & Hde & Hre & Hm)|(Hn & He & Hde & Hl)]; rewrite He in HE; rewrite Hde in HO; cbn in HE, HO.
  - assert (mine -> known w'.1 (event_id r)) as Hknown.
    { intros Hmine. exists e. cbn. rewrite HE, lookup_insert_eq. split; [done|by apply Hm]. }
    split; [split; [exact Hknown|cbn; by rewrite HO, lookup_insert_eq, Hre]|].
    intros Hmine _. right. split; [|exists (event_id r); by apply Hknown].
    destruct Hp as [Hp|id e' Hp _ _ Hp4 _]; rewrite He in Hp; [done|]. injection Hp as <- <-.
    apply Hp4. by apply Hm.
  - split; [|by rewrite Hn]. apply (located_sees (s, l)); [|exact Hl]. etrans; [exact Hse|].
    split; [|split]; cbn in HE, HO |- *; [by rewrite HE|by rewrite HO|]. intros Hg. by left.
Qed.

(** A command on Redis leaves the tables and the session alone. *)
Lemma rely_redis (c : rcmd) Q s (l : local) :
  (forall s1, sees (s, l) (s1, l) -> allowed s1 l.1 (Redis (RCmd c))) ->
  (forall e w', sees (s, l) w' -> Q (Threw e) w') ->
  (forall s1 n r w', store_ok s1 -> s_now s1 <= n -> sees (s, l) w' -> T_of w'.1 = T_of s1 ->
     (redis_doc (ms_of_ts n) (rs_keys (s_redis s1) (ms_of_ts n)) c).1 = inr r -> Q (Returned r) w') ->
  rely (redis c) Q (s, l).
Proof using RedisLaws0.
  intros Ha HQt HQr. apply (rely_call (Redis (RCmd c))). intros s1 (Hok & Hl) . split; [by apply Ha, (sees_later (s, l))|].
  intros r [s' [l' g']] [(s2 & (n & Hn & ->) & He) Hg] Hse. cbn in He, Hg, Hn. subst g'.
  assert (forall st, (s', l') = (with_redis st (with_now n s1), l.1) -> sees (s, l) (s', (l', note s1 s' l.2)) /\ T_of s' = T_of s1) as Hsame.
  { intros st [= -> ->]. split; [|done]. etrans; [exact Hse|]. split; [done|]. split; [done|]. intros H. by left. }
  destruct r as [e|r]; cbn in He |- *.
  - apply HQt. destruct He as [_ [(msg & _ & _ & He)|(_ & _ & [He|He])]]; [by eapply Hsame| |by eapply Hsame].
    apply (Hsame (s_redis s1)). rewrite He. by destruct s1.
  - destruct He as [Hr He]. destruct (Hsame _ He) as [H1 H2]. apply (HQr s1 n r); [done..|].
    destruct (rs_cmd (s_redis s1) (ms_of_ts n) c) as (<- & _). exact Hr.
Qed.

Lemma rely_cached_result c s (l : local) :
  (idemRedisKey (client_id p) (idempotency_key p) = cacheKey -> forall v, c = Some v -> v <> "" -> known s v) ->
  (mine -> idemRedisKey (client_id p) (idempotency_key p) = cacheKey) ->
  rely (cached_result c) (fun o w => match o with Returned (Some r) => reported w r | _ => True end) (s, l).
Proof using RedisLaws0.
  intros Hc Hmk. destruct c as [[|a v]|]; [done| |done]. set (ev := String a v) in *.
  change (rely (let* rows := pool_query (SelectDeliveryOfEvent ev) in
    match (rows : list (string * status)) with
    | [] => Ret None
    | (d, st) :: _ => Ret (Some {| event_id := ev; delivery_id := d; delivery_status := st; is_new := false |})
    end) (fun o w => match o with Returned (Some r) => reported w r | _ => True end) (s, l)).
  apply rg_bind, rely_pg. intros s1 n _ Hse. split; [done|]. intros p' tx' w'. split; [|done].
  intros rows (ws & ((-> & Hr) & _ & _) & Hp & _). cbn in Hr.
  destruct Hr as [[-> _]|(d & row & -> & Hd & He)]; [done|].
  assert (T_of w'.1 = T_of s1) as HT by (cbn; by rewrite Hp). split; [|by cbn].
  split; cbn in HT |- *; rewrite ?HT.
  - intros Hm. apply (known_mono s1); [cbn; by rewrite HT|]. apply (known_mono s); [apply Hse|]. by apply Hc; [apply Hmk| |].
  - unfold owner. rewrite lookup_fmap, Hd. cbn. by rewrite He.
Qed.

(** What is asked of the end of an ingestion. *)
Definition told (o : outcome exn IngestResult) (w : shared * local) : Prop :=
  match o with Returned r => reported w r | _ => True end.

Lemma rely_release (o : outcome exn IngestResult) w :
  told o w -> rely (pg CLIENT_RELEASE) (fun fo w' => match fo with
    | Returned _ => told o w' | Threw e => told (Threw e) w' | Exited => told Exited w' end) w.
Proof using RedisLaws0.
  destruct w as [s l]. intros Ho. apply rely_pg_same; [done|].
  intros [[]|e|] s' l' Hs _ _ _; [|done|done]. destruct o as [r| |]; [|done|done]. by eapply reported_sees.
Qed.

Lemma rely_rollback (e : exn) w :
  rely (pg ROLLBACK ;;; Throw e) (fun o w' => told o w' /\ o <> Exited) w.
Proof using RedisLaws0.
  destruct w as [s l]. apply rg_bind, rely_pg_same; [done|]. by intros [[]|e'|] s' l' _ _ _ Hne.
Qed.

Lemma rely_detach_set cfg r s (l : local) :
  reported (s, l) r ->
  rely (detach (redis (SET (idemRedisKey (client_id p) (idempotency_key p)) (event_id r)
                  (Some (EX (IDEM_TTL_SECONDS cfg))) false)))
    (fun o w => reported w r /\ o = Returned tt) (s, l).
Proof using RedisLaws0 Hkey.
  intros Hr. unfold detach. apply rg_try_catch, rg_bind, rely_redis.
  - intros s1 Hs1. cbn. intros Hk _. apply (known_mono s); [apply Hs1|]. by apply Hr, Hkey.
  - intros e w Hw. split; [by eapply reported_sees|done].
  - intros s1 n x w _ _ Hw _ _. split; [by eapply reported_sees|done].
Qed.

Lemma rely_ingest_body cfg s (l : local) :
  rely (pg BEGIN ;;;
    let* r := ingest_statements p in
    pg COMMIT ;;;
    detach (redis (SET (idemRedisKey (client_id p) (idempotency_key p)) (event_id r)
              (Some (EX (IDEM_TTL_SECONDS cfg))) false)) ;;;
    Ret r) (fun o w => told o w) (s, l).
Proof using RedisLaws0 Hkey.
  apply rg_bind, rely_pg_same; [done|]. intros [[]|e|] s1 l1 _ _ Hb _; [|done|done].
  destruct (Hb tt eq_refl eq_refl) as [t0 Htx].
  apply rg_bind. eapply rg_mono; [eapply rely_statements; [exact Htx|done]|].
  intros [r|e|] [s2 l2] Hr; [|done|done].
  apply rg_bind. eapply rg_mono; [by apply rely_commit|]. intros [[]|e|] [s3 l3] Hr3; [|done|done].
  apply rg_bind. eapply rg_mono; [by apply rely_detach_set|]. by intros o w [Hw ->].
Qed.

Lemma rely_ingestEvent cfg s (l : local) : rely (ingestEvent cfg p) told (s, l).
Proof using RedisLaws0 Hkey.
  assert (mine -> idemRedisKey (client_id p) (idempotency_key p) = cacheKey) as Hmk by (by intros [-> ->]).
  unfold ingestEvent. apply rg_bind, rely_redis; [done|done|].
  intros s1 n c [s2 l2] Hok Hn _ HT Hget. cbn in HT, Hget.
  apply rg_bind. eapply rg_mono; [apply rely_cached_result; [|exact Hmk]|].
  { intros Hk v -> Hv. rewrite Hk in Hget. apply (known_mono s1); [by rewrite HT|].
    destruct (rs_keys (s_redis s1) (ms_of_ts n) !! cacheKey) as [[[v'|h] d]|] eqn:E; [|done|done].
    injection Hget as <-. by eapply so_cache. }
  intros [[r|]|e|] [s3 l3] Hr; [exact Hr| |done|done].
  apply rg_bind, rely_pg_same; [done|]. intros [[]|e|] s4 l4 _ _ _ _; [|done|done].
  apply rg_try_finally, rg_try_catch. eapply rg_mono; [apply rely_ingest_body|].
  intros [r|e|] w Hw; [by apply (rely_release (Returned r))| |done].
  eapply rg_mono; [apply rely_rollback|].
  intros [r|e'|] w' [Hw' Hne]; [by apply (rely_release (Returned r))|by apply (rely_release (Threw e'))|done].
Qed.
End Ingestion.

(** A call that inserts no event and no delivery and leaves the cache of keys
    alone keeps the agreement anywhere. *)
Definition elsewhere (c : cmd) : Prop :=
  match c with
  | Redis (RCmd c) => forall client key, idemRedisKey client key ∉ rcmd_keys c
  | Redis (EVALSHA _ keys _) => forall client key, idemRedisKey client key ∉ keys
  | Pg (CLIENT_QUERY q) | Pg (POOL_QUERY q) => is_insert q = false
  | _ => True
  end.

Lemma elsewhere_allowed c (s : shared) l : elsewhere c -> allowed s l c.
Proof.
  destruct c as [[c|sha keys args|sc|]|[| | | | |q|q]| | | | | | | | | | | | |]; cbn; try done.
  - intros H. destruct c; try done; intros E; destruct (H client key); cbn; rewrite E; by left.
  - by destruct q.
  - by destruct q.
Qed.

Lemma rely_elsewhere {A} (p : io A) w : awaits True elsewhere p -> rely p (fun _ _ => True) w.
Proof using RedisLaws0.
  apply rg_awaits. intros c s l r w' Hc Hs Hl He. eapply env_keeps; [done|done| |exact He]. by apply elsewhere_allowed.
Qed.
End Store.

Ltac elsewhere_call := first [exact I | reflexivity |
  cbn [elsewhere rcmd_keys Lock.acquire_cmd]; intros ? ?; rewrite ?not_elem_of_cons;
  repeat split; first [apply not_elem_of_nil | discriminate] ].

Ltac elsewhere_tac := issues_tac elsewhere_call.

(** The heartbeat awaits what extending the lock and the work under it do. *)
Lemma awaits_beats (P : cmd -> Prop) cfg id tok n :
  awaits True P (Lock.extend cfg id tok) -> P AbortSignal -> awaits True P (beats cfg id tok n).
Proof. intros He Ha. induction n as [|n IH]; cbn [beats]; [done|]. issues_tac ltac:(first [exact IH|exact He|exact Ha]). Qed.

Lemma awaits_heartbeat {A} (P : cmd -> Prop) cfg id tok sched (fn : io A) :
  awaits True P (Lock.extend cfg id tok) -> P AbortSignal ->
  awaits True P fn -> awaits True P (withLockHeartbeat cfg id tok sched fn).
Proof.
  intros He Ha Hfn. unfold withLockHeartbeat.
  assert (forall lost l, awaits True P (alongside cfg id tok lost l fn)) as H.
  { induction fn as [a|e| |c k IH]; intros lost l; cbn [alongside]; [done..|].
    apply issues_bind; [by apply awaits_beats|]. intros x. destruct Hfn as [Hc Hk]. split; [exact Hc|]. intros r. by apply IH. }
  issues_tac ltac:(first [apply H|by apply awaits_beats]).
Qed.

Lemma processDelivery_elsewhere cfg hmac sched j token : awaits True elsewhere (processDelivery cfg hmac sched j token).
Proof.
  issues_tac ltac:(first [match goal with |- awaits _ _ (withLockHeartbeat _ _ _ _ _) => apply awaits_heartbeat; [elsewhere_tac|exact I|elsewhere_tac] end | elsewhere_call]).
Qed.

Lemma handleFailed_elsewhere cfg job : awaits True elsewhere (handleFailed cfg job).
Proof. elsewhere_tac. Qed.

(** ** The flows side by side *)

(** The program of a flow, with the result of an ingestion. *)
Definition flow_prog (cfg : Config) (hmac : string -> string -> string) (f : flow) : io (option IngestResult) :=
  match f with
  | FIngest p => let* r := ingestEvent cfg p in Ret (Some r)
  | FEnqueue id => enqueueDelivery id ;;; Ret None
  | FDeliver sched j token => processDelivery cfg hmac sched j token ;;; Ret None
  | FFailed job => handleFailed cfg job ;;; Ret None
  | FRetry id => retryFromDlq id ;;; Ret None
  | FSweep limit => claimUnenqueued cfg limit ;;; Ret None
  | FRegister is_url issues_of body => postEndpoints is_url issues_of cfg body ;;; Ret None
  | FPatch is_url issues_of id body => patchEndpoint is_url issues_of id body ;;; Ret None
  end.

Definition is_ingest (f : flow) : bool := match f with FIngest _ => true | _ => false end.

Lemma flow_elsewhere cfg hmac f : is_ingest f = false -> awaits True elsewhere (flow_prog cfg hmac f).
Proof.
  destruct f; intros Hf; [done|..]; cbn [flow_prog]; (apply issues_bind; [|done]);
    [elsewhere_tac|apply processDelivery_elsewhere|apply handleFailed_elsewhere|elsewhere_tac..].
Qed.

Section Race.
Context {RS BS : Type} `{!RedisServer RS} `{!RedisLaws RS} `{!BullMQ BS}.
Context (cfg : Config) (hmac : string -> string -> string) (client key : string).
Abbreviation T_of s := (pg_tables (s_pg s)).

(** Flows about to start, each in a session of its own. *)
Definition starting (calls : list (flow * session)) : list (io (option IngestResult) * session) :=
  (fun c => (flow_prog cfg hmac c.1, c.2)) <$> calls.

(** Every ingestion that uses the key's cache entry is for the key. *)
Definition unambiguous (calls : list (flow * session)) : Prop :=
  forall p l, (FIngest p, l) ∈ calls ->
    idemRedisKey (client_id p) (idempotency_key p) = idemRedisKey client key ->
    client_id p = client /\ idempotency_key p = key.

(** Sessions of their own, with no transaction open. *)
Definition separate (calls : list (flow * session)) : Prop :=
  (forall c, c ∈ calls -> l_tx c.2 = None) /\ NoDup ((fun c => l_tid c.2) <$> calls).

(** The call [i], an ingestion for the key, has returned [r]. *)
Definition ingested (calls : list (flow * session)) (ts : list (io (option IngestResult) * session))
    (i : nat) (r : IngestResult) : Prop :=
  exists p l l', calls !! i = Some (FIngest p, l) /\ client_id p = client /\ idempotency_key p = key /\
    ts !! i = Some (Ret (Some r), l').

(** What the end of each call promises. *)
Definition promise (calls : list (flow * session)) (i : nat) (o : outcome exn (option IngestResult))
    (w : shared RS BS * local) : Prop :=
  match o, calls !! i with
  | Returned (Some r), Some (FIngest p, _) => reported client key p w r
  | _, _ => True
  end.

Lemma flow_promise calls i f l s :
  calls !! i = Some (f, l) -> unambiguous calls ->
  rg (genv client key) (store_ok client key) (local_ok client key) others apart
    (flow_prog cfg hmac f) (promise calls i) (s, (l, False)).
Proof using RedisLaws0.
  intros Hi Hu. destruct (is_ingest f) eqn:Hf.
  - destruct f as [p| | | | | | |]; try discriminate Hf. apply rg_bind. eapply rg_mono; [eapply rely_ingestEvent|].
    + intros Hk. by eapply Hu; [eapply list_elem_of_lookup_2|].
    + intros [r|e|] w Hw; try done. unfold promise. cbn. by rewrite Hi.
  - eapply rg_mono; [by eapply rely_elsewhere, flow_elsewhere|].
    intros [[r|]|e|] w _; try done. unfold promise. rewrite Hi. by destruct f.
Qed.

Lemma race_fits calls s :
  unambiguous calls -> separate calls -> store_ok client key s ->
  fits_all (genv client key) (store_ok client key) (local_ok client key) others apart (promise calls)
    (s, (fun c => (flow_prog cfg hmac c.1, (c.2, False))) <$> calls).
Proof using RedisLaws0.
  intros Hu [Hidle Hnd] Hs. apply fits_start; [apply _|done| |].
  - intros i p l Hi. apply list_lookup_fmap_Some_1 in Hi as ([f l0] & [= -> ->] & Hi).
    split; [|by eapply flow_promise]. split; [done|]. cbn.
    pose proof (Hidle (f, l0) (list_elem_of_lookup_2 _ _ _ Hi)) as Hx. cbn in Hx. by rewrite Hx.
  - intros i j t u Hi Hj Hne. apply list_lookup_fmap_Some_1 in Hi as (c & -> & Hi).
    apply list_lookup_fmap_Some_1 in Hj as (d & -> & Hj). split; [|by intros []].
    cbn. intros Ht. apply Hne. eapply (NoDup_lookup _ _ _ (l_tid c.2) Hnd); rewrite list_lookup_fmap; [by rewrite Hi|].
    rewrite Hj. cbn. by rewrite Ht.
Qed.

(** C8: ingestion under concurrency, of one client's key. Let any number of
    flows of the engine, ingestions, jobs, sweeps, retries and changes of
    endpoints, run interleaved call by call, with any answers, failures and
    deaths of processes in between. Suppose that every ingestion that uses the
    key's entry of the cache is for this client and key: the entry's name joins
    the two with a colon, and two pairs with one name do mix their events up
    ([Ingest.ingest_cross_client]). Suppose that each flow has a session of its
    own, with no transaction open, and that the run starts where the key has at
    most one event, with at most one delivery, deliveries are of events that
    exist, and a cache entry of the key names its event. Then the key has at
    most one event at every moment; all the ingestions under it that return
    name this event and its one delivery, both stored; and at most one of them
    says it created it. *)
Theorem ingest_race (calls : list (flow * session)) (s s' : shared RS BS) ts' :
  unambiguous calls -> separate calls -> store_ok client key s ->
  rtc (sys_move env dies) (s, starting calls) (s', ts') ->
  (forall ev1 ev2, event_known (T_of s') client key ev1 -> event_known (T_of s') client key ev2 -> ev1 = ev2) /\
  forall i r, ingested calls ts' i r ->
    event_known (T_of s') client key (event_id r) /\
    (exists row, deliveries (T_of s') !! delivery_id r = Some row /\ d_event_id row = event_id r) /\
    forall j r', ingested calls ts' j r' ->
      event_id r' = event_id r /\ delivery_id r' = delivery_id r /\
      (is_new r = true -> is_new r' = true -> i = j).
Proof using RedisLaws0.
  intros Hu Hsep Hs Hrun.
  set (gts := (fun c => (flow_prog cfg hmac c.1, (c.2, False))) <$> calls).
  assert (starting calls = erase gts) as Est by (unfold starting, gts, erase; by rewrite <- list_fmap_compose).
  rewrite Est in Hrun. apply (ghost_steps env dies (fun w c (_ : exn + resp c) w' => note client key w.1 w'.1) (fun w w' => note client key w.1 w'.1)) in Hrun as (gts' & Hrun & E). cbn in Hrun, E.
  pose proof (race_fits calls s Hu Hsep Hs) as Hfit.
  assert (fits_all (genv client key) (store_ok client key) (local_ok client key) others apart
    (promise calls) (s', gts')) as Hend0.
  { refine (fits_steps (genv client key) (gdies client key) (store_ok client key) (local_ok client key) others apart _ (promise calls) _ _ Hrun Hfit). intros w w'. apply dies_keeps. }
  clear Hrun Hfit. pose proof Hend0 as (Hs' & Hlo & Hap). cbn in Hs'.
  assert (forall i r, ingested calls ts' i r -> exists g, (exists l, gts' !! i = Some (Ret (Some r), (l, g))) /\
    event_known (T_of s') client key (event_id r) /\
    owner (T_of s') !! delivery_id r = Some (event_id r) /\ (is_new r = true -> g)) as Hend.
  { intros i r (p & l & l' & Hi & Hc & Hk & Ht). rewrite E in Ht.
    apply list_lookup_fmap_Some_1 in Ht as ([q [l1 g]] & [= <- <-] & Ht).
    destruct (fits_returned _ _ _ _ _ _ _ _ _ _ _ Hend0 Ht) as (_ & s0 & HR & HQ).
    unfold promise in HQ. cbn in HQ. rewrite Hi in HQ. destruct HQ as [[Hkn Hd] Hg]. destruct HR as (_ & He & Ho).
    exists g. split; [by eexists|]. split; [|split; [|by apply Hg]].
    - eapply known_mono; [exact He|]. by apply Hkn.
    - by eapply lookup_weaken. }
  split; [by apply so_unique|]. intros i r Hi. destruct (Hend i r Hi) as (g & [l Hl] & Hk & Ho & Hg).
  split; [done|]. split.
  { unfold owner in Ho. rewrite lookup_fmap in Ho. destruct (deliveries (T_of s') !! delivery_id r) as [row|]; [|done].
    exists row. split; [done|]. cbn in Ho. by injection Ho. }
  intros j r' Hj. destruct (Hend j r' Hj) as (g' & [l' Hl'] & Hk' & Ho' & Hg').
  assert (event_id r' = event_id r) as Hev by (by eapply so_unique). split; [done|]. split.
  { eapply (so_single client key s' Hs' (event_id r)); [done| |done]. by rewrite <- Hev. }
  intros Hn Hn'. destruct (decide (i = j)) as [|Hne]; [done|]. exfalso.
  destruct (Hap i j _ _ Hl Hl' Hne) as [_ Hboth]. apply Hboth. cbn. auto.
Qed.
End Race.

(** ** Witness: two requests under one key

    Both find the cache empty and begin a transaction before either inserts;
    the second insertion waits until the first has committed. A sweep runs
    with them. *)

Definition demo_tid (n : nat) : session := {| l_tid := n; l_tx := None; l_sha := l_sha demo_session |}.

Definition demo_calls : list (flow * session) :=
  [(FIngest (demo_params "k2"), demo_tid 1); (FIngest (demo_params "k2"), demo_tid 2); (FSweep 10, demo_tid 3)].

Definition demo_schedule : list nat :=
  [0; 1; 0; 1; 0; 1; 2; 0; 0; 0; 0; 2; 0; 0; 1; 1; 1; 2; 1; 1; 1; 2]%nat.

Definition demo_race : system :=
  run_schedule (serve reliable) demo_schedule
    ((demo_world 1000 (demo_tables PENDING [] None) ∅ ∅).1, starting default_config (fun _ _ => "") demo_calls).

Definition result_of {L : Type} (ts : list (io (option IngestResult) * L)) (i : nat) : option IngestResult :=
  match ts !! i with Some (Ret r, _) => r | _ => None end.

Lemma result_of_Some {L : Type} (ts : list (io (option IngestResult) * L)) i r :
  result_of ts i = Some r -> exists l, ts !! i = Some (Ret (Some r), l).
Proof. unfold result_of. destruct (ts !! i) as [[[a|e| |c k] l]|]; try done. intros ->. by exists l. Qed.

Lemma demo_store_ok :
  store_ok "c1" "k2" (demo_world 1000 (demo_tables PENDING [] None) ∅ ∅).1.
Proof.
  constructor.
  - intros k t1 t2 []%elem_of_nil.
  - intros ev1 ev2 (e & He & Hk). cbn in He. apply lookup_singleton_Some in He as [<- <-]. discriminate Hk.
  - intros d ev Hd. unfold owner in Hd. rewrite lookup_fmap in Hd. cbn in Hd.
    destruct ({["d1" := _]} !! d) as [row|] eqn:E in Hd; [|done]. apply lookup_singleton_Some in E as [<- <-].
    injection Hd as <-. by eexists.
  - intros ev d1 d2 (e & He & Hk). cbn in He. apply lookup_singleton_Some in He as [<- <-]. discriminate Hk.
  - intros n v d _ H. cbn in H. unfold live in H. rewrite map_filter_empty in H. discriminate H.
Qed.

Lemma ingest_race_witness :
  exists r1 r2, result_of demo_race.2 0 = Some r1 /\ result_of demo_race.2 1 = Some r2 /\
    is_new r1 = true /\ is_new r2 = false /\ event_id r2 = event_id r1 /\ delivery_id r2 = delivery_id r1.
Proof.
  assert (rtc (sys_move env dies) ((demo_world 1000 (demo_tables PENDING [] None) ∅ ∅).1,
    starting default_config (fun _ _ => "") demo_calls) demo_race) as Hrun by apply run_schedule_moves, serve_env.
  assert (unambiguous "c1" "k2" demo_calls) as Hu.
  { intros p l Hp _. repeat (apply elem_of_cons in Hp as [Hp|Hp]; [first [discriminate Hp|by injection Hp as -> ->]|]). by apply elem_of_nil in Hp. }
  assert (separate demo_calls) as Hsep.
  { split; [|apply (bool_decide_unpack _); vm_compute; exact I].
    intros c Hc. repeat (apply elem_of_cons in Hc as [-> |Hc]; [done|]). by apply elem_of_nil in Hc. }
  destruct (result_of demo_race.2 0) as [r1|] eqn:E1; [|vm_compute in E1; discriminate E1].
  destruct (result_of demo_race.2 1) as [r2|] eqn:E2; [|vm_compute in E2; discriminate E2].
  exists r1, r2. split; [done|]. split; [done|].
  split; [vm_compute in E1; injection E1 as <-; reflexivity|].
  split; [vm_compute in E2; injection E2 as <-; reflexivity|].
  destruct demo_race as [s' ts'] eqn:E. cbn [snd] in E1, E2.
  destruct (result_of_Some _ _ _ E1) as [l1 H1], (result_of_Some _ _ _ E2) as [l2 H2].
  destruct (ingest_race default_config (fun _ _ => "") "c1" "k2" demo_calls _ s' ts' Hu Hsep demo_store_ok Hrun) as [_ H].
  destruct (H 0%nat r1) as (_ & _ & H12).
  { eexists _, _, _. split; [reflexivity|]. split; [reflexivity|]. split; [reflexivity|exact H1]. }
  destruct (H12 1%nat r2) as (Hev & Hd & _); [|by split].
  eexists _, _, _. split; [reflexivity|]. split; [reflexivity|]. split; [reflexivity|exact H2].
Defined.
