(* ===== verification/Mutex.v ===== *)
(** * One job of a delivery at a time

    The lock of src/src/redis/lock.ts at work: any number of flows of the
    engine interleaved call by call, jobs of the same delivery among them.
    Section [Discipline]: scripts are called by identifiers that name them;
    [Leases]: what a job was last told of its lease, and the agreement that
    makes it true; then the theorem, which combines them with the automaton of
    WorkerProtocol.v. *)

From S2P Require Import Prelude Async Interleave Json Config Tables Queries Schema Redis Services Concrete Scripts Repo Ingest.
From S2P Require Lock TokenBucket.
From S2P Require Import CircuitBreaker Frames Signature Worker WorkerSpec WorkerProtocol DeadLetter Api Endpoints AuditTrail Concurrency.
From Stdlib Require Import ZArith QArith Lia String.
From stdpp Require Import prelude strings gmap.

Open Scope Z_scope.
Open Scope async_scope.

(** ** Scripts by their identifiers *)

Section Discipline.
Context (cfg : Config).

(** Keys and arguments a script may get: those of the lock the arguments of
    its two functions, the bucket no key of a lock. *)
Definition shaped (sc : script) (keys args : list string) : bool :=
  match sc, args with
  | release_lock_lua, [_] => true
  | extend_lock_lua, [_; ttl] => String.eqb ttl (show_Z (LOCK_TTL_MS cfg))
  | token_bucket_lua, _ => forallb (fun k => negb (String.prefix (Lock.lockKey "") k)) keys
  | _, _ => false
  end.

(** The identifiers the program has been given, with their scripts; a key is
    set for milliseconds only with the lock's lifetime. *)
Abbreviation given := (list (string * script)).

Definition dstep (st : given) (e : event resp exn) : option given :=
  let '(Ev c r) := e in
  match c return exn + resp c -> option given with
  | ShaGet sc => fun r => match r with inr (Some sha) => Some ((sha, sc) :: st) | _ => Some st end
  | Redis (SCRIPT_LOAD sc) => fun r => match r with inr sha => Some ((sha, sc) :: st) | inl _ => Some st end
  | ShaSet sc sha => fun _ => if bool_decide ((sha, sc) ∈ st) then Some st else None
  | Redis (RCmd (SET _ _ (Some (PX ttl)) _)) => fun _ => if ttl =? LOCK_TTL_MS cfg then Some st else None
  | Redis (EVALSHA sha keys args) => fun _ =>
      if existsb (fun x => String.eqb x.1 sha && shaped x.2 keys args) st then Some st else None
  | _ => fun _ => Some st
  end r.

(** A program that calls scripts only so, whatever it has been given. *)
Definition disciplined {A} (p : io A) : Prop := forall st, conforms dstep p (fun _ _ => True) st.

Definition plain (c : cmd) : Prop :=
  match c with
  | Redis (EVALSHA _ _ _) | ShaSet _ _ | Redis (RCmd (SET _ _ (Some (PX _)) _)) => False
  | _ => True
  end.

Lemma plain_step c r st : plain c -> exists st', dstep st (Ev c r) = Some st'.
Proof.
  destruct c as [[c|sha keys args|sc|]| | | | | | | | | | | |sc|sc sha|]; cbn; try done; intros Hc; eauto.
  - destruct c as [|k v [[]|] nx| | | | | | | |]; try done; eauto.
  - destruct r; eauto.
  - destruct r as [|[]]; eauto.
Qed.

Lemma disciplined_plain {A} (p : io A) : awaits True plain p -> disciplined p.
Proof.
  induction p as [a|e| |c k IH]; intros Hp st; try exact I. destruct Hp as [Hc Hk].
  intros r. destruct (plain_step c r st Hc) as [st' ->]. by apply IH.
Qed.

Lemma disciplined_bind {A B} (p : io A) (f : A -> io B) :
  disciplined p -> (forall a, disciplined (f a)) -> disciplined (bind p f).
Proof. intros Hp Hf st. apply conforms_bind. eapply conforms_mono; [apply Hp|]. intros [a|e|] st' _; [apply Hf|done|done]. Qed.

Lemma disciplined_try_catch {A} (p : io A) (h : exn -> io A) :
  disciplined p -> (forall e, disciplined (h e)) -> disciplined (try_catch p h).
Proof. intros Hp Hh st. apply conforms_try_catch. eapply conforms_mono; [apply Hp|]. intros [a|e|] st' _; [done|apply Hh|done]. Qed.

Lemma disciplined_try_finally {A} (p : io A) (f : io unit) :
  disciplined p -> disciplined f -> disciplined (try_finally p f).
Proof.
  intros Hp Hf st. apply conforms_try_finally. eapply conforms_mono; [apply Hp|].
  intros [a|e|] st' _; [| |done]; (eapply conforms_mono; [apply Hf|]; by intros []).
Qed.

Lemma disciplined_for_each {A} (l : list A) (f : A -> io unit) :
  (forall x, disciplined (f x)) -> disciplined (for_each l f).
Proof. intros Hf. induction l as [|x l IH]; [by intros st|]. by apply disciplined_bind. Qed.

(** [LoadedScript.eval] is disciplined. *)
Lemma disciplined_eval sc keys args : shaped sc keys args = true -> disciplined (eval_script sc keys args).
Proof.
  intros Hs st. unfold eval_script. apply conforms_bind; apply (conforms_perform dstep (ShaGet sc)).
  intros r. destruct r as [e|[sha|]]; (eexists; split; [reflexivity|try done]).
  assert (forall sha st, (sha, sc) ∈ st -> conforms dstep (evalsha sha keys args) (fun _ st' => st' = st) st) as Hcall.
  { intros sha' st' Hin. apply (conforms_perform dstep (Redis (EVALSHA sha' keys args))). intros r. exists st'. split; [|done].
    cbn. assert (existsb (fun x => String.eqb x.1 sha' && shaped x.2 keys args) st' = true) as ->; [|done].
    apply existsb_exists. exists (sha', sc). split; [by apply list_elem_of_In|]. cbn. by rewrite String.eqb_refl. }
  apply conforms_try_catch. eapply conforms_mono; [apply Hcall; by left|]. intros [n|e|] st' ->; [done| |done].
  destruct (isNoScriptError e); [|done]. apply conforms_bind; apply (conforms_perform dstep (Redis (SCRIPT_LOAD sc))).
  intros r. destruct r as [e2|sha2]; (eexists; split; [reflexivity|try done]).
  apply conforms_bind; apply (conforms_perform dstep (ShaSet sc sha2)). intros r. eexists. split; [cbn; rewrite bool_decide_true by (by left); reflexivity|].
  destruct r; [done|]. eapply conforms_mono; [apply Hcall; by left|]. done.
Qed.

Lemma disciplined_acquire id : disciplined (Lock.acquire cfg id).
Proof.
  apply disciplined_bind; [apply disciplined_plain; issues_tac ltac:(exact I)|]. intros tok.
  apply disciplined_bind; [|by intros a st]. intros st.
  apply (conforms_perform dstep (Redis (RCmd (Lock.acquire_cmd cfg id tok)))). intros r. exists st. split; [|done].
  cbn. by rewrite Z.eqb_refl.
Qed.

Lemma disciplined_extend id tok : disciplined (Lock.extend cfg id tok).
Proof. apply disciplined_bind; [apply disciplined_eval; cbn; by rewrite String.eqb_refl|done]. Qed.
End Discipline.

(** Proves [disciplined cfg p] by the shape of [p]. *)
Ltac disciplined_tac tac :=
  repeat (intros;
    lazymatch goal with
    | |- disciplined _ (bind _ _) => apply disciplined_bind
    | |- disciplined _ (try_catch _ _) => apply disciplined_try_catch
    | |- disciplined _ (try_finally _ _) => apply disciplined_try_finally
    | |- disciplined _ (for_each _ _) => apply disciplined_for_each
    | |- disciplined _ (match ?x with _ => _ end) => destruct x
    | |- disciplined ?cfg (eval_script _ _ _) => apply disciplined_eval; cbn; first [reflexivity|apply String.eqb_refl]
    | |- disciplined ?cfg ?p => first
        [ solve [tac] | solve [apply disciplined_plain; issues_tac ltac:(exact I)]
        | let q := eval red in p in change (disciplined cfg q) ]
    end).

Lemma disciplined_beats cfg id tok n : disciplined cfg (beats cfg id tok n).
Proof.
  induction n as [|n IH]; cbn [beats]; [by intros st|].
  disciplined_tac ltac:(first [exact IH|apply disciplined_extend]).
Qed.

Lemma disciplined_heartbeat {A} cfg id tok sched (fn : io A) :
  awaits True plain fn -> disciplined cfg (withLockHeartbeat cfg id tok sched fn).
Proof.
  intros Hfn. unfold withLockHeartbeat.
  assert (forall lost l, disciplined cfg (alongside cfg id tok lost l fn)) as H.
  { induction fn as [a|e| |c k IH]; intros lost l; cbn [alongside]; [by intros st..|].
    apply disciplined_bind; [apply disciplined_beats|]. intros x st r. destruct Hfn as [Hc Hk].
    destruct (plain_step cfg c r st Hc) as [st' ->]. by apply IH. }
  disciplined_tac ltac:(first [apply H|apply disciplined_beats]).
Qed.

Lemma processDelivery_disciplined cfg hmac sched j token : disciplined cfg (processDelivery cfg hmac sched j token).
Proof.
  disciplined_tac ltac:(first [apply disciplined_beats | apply disciplined_acquire |
    match goal with |- disciplined _ (withLockHeartbeat _ _ _ _ _) =>
      apply disciplined_heartbeat; issues_tac ltac:(exact I) end]).
Qed.

Lemma flow_disciplined cfg hmac f : disciplined cfg (flow_prog cfg hmac f).
Proof.
  destruct f; cbn [flow_prog]; (apply disciplined_bind; [|by intros a st]);
    [..|disciplined_tac fail|disciplined_tac fail]; try apply processDelivery_disciplined; disciplined_tac fail.
Qed.

(** ** What a job knows of its lease *)

Section Leases.
Context {RS BS : Type} `{!RedisServer RS} `{!RedisLaws RS} `{!BullMQ BS}.
Abbreviation shared := (shared RS BS).
Context (cfg : Config) (d : string).

(** The random tokens the session [tid] may draw: they are its own. *)
Context (mint : nat -> string -> Prop).
Context (Httl : 0 < LOCK_TTL_MS cfg) (Hmint : forall t1 t2 tok, mint t1 tok -> mint t2 tok -> t1 = t2).

(** The services, with tokens that do not collide. *)
Definition minted (w : world RS BS) (c : cmd) (r : exn + resp c) (w' : world RS BS) : Prop :=
  env w c r w' /\
  match c return exn + resp c -> Prop with
  | RandomBytes _ => fun r => match r with inr bytes => mint (l_tid w.2) (to_hex bytes) | _ => True end
  | _ => fun _ => True
  end r.

(** The lease on the delivery a session was last told it has: its token and
    the deadline. *)
Definition told : Type := option (string * Z).

Definition tell (w : world RS BS) (c : cmd) (r : exn + resp c) (w' : world RS BS) (g : told) : told :=
  match c return exn + resp c -> told with
  | Redis (RCmd (SET k tok (Some (PX ttl)) true)) => fun r =>
      match r with
      | inr true => if String.eqb k (Lock.lockKey d) then Some (tok, now_ms w'.1 + ttl) else g
      | _ => g
      end
  | Redis (EVALSHA _ keys args) => fun r =>
      if bool_decide (keys = [Lock.lockKey d]) then
        match args, r with
        | [_], _ => None
        | [tok; ttl], inr n =>
            if n =? 1 then match read_Z ttl with Some ms => Some (tok, now_ms w'.1 + ms) | None => g end else g
        | _, _ => g
        end
      else g
  | _ => fun _ => g
  end r.

Definition job_env := ghost_env minted tell.
Definition job_dies := ghost_crash (dies (RS := RS) (BS := BS)) (fun _ _ (g : told) => g).

Abbreviation private := (session * told)%type.

(** A session knows the identifiers of its scripts, and until the deadline it
    was told the server stores its token. *)
Definition lease_ok (s : shared) (l : private) : Prop :=
  (forall sc sha, l_sha l.1 sc = Some sha -> sha = sha1 sc) /\
  match l.2 with
  | None => True
  | Some (tok, until) =>
      mint (l_tid l.1) tok /\ until <= now_ms s + LOCK_TTL_MS cfg /\
      (now_ms s < until -> exists u, until <= u /\ Lock.leased (s_redis s) (now_ms s) d tok u)
  end.

Definition later_on (_ : private) (s s' : shared) : Prop := s_now s <= s_now s'.

#[export] Instance later_on_preorder l : PreOrder (later_on l).
Proof. unfold later_on. split; [intros s; lia|intros s1 s2 s3; lia]. Qed.

Definition other (l1 l2 : private) : Prop := l_tid l1.1 <> l_tid l2.1.

#[export] Instance other_sym : Symmetric other.
Proof. unfold other. intros l1 l2. congruence. Qed.

Abbreviation owes := (guar (fun _ : shared => True) lease_ok later_on other).

(** What a session that was told [g] may do with the server. *)
Inductive lock_use (tid : nat) (g : told) : rtop -> Prop :=
| use_acquire tok : mint tid tok -> g = None -> lock_use tid g (RCmd (Lock.acquire_cmd cfg d tok))
| use_release tok : mint tid tok -> lock_use tid g (EVALSHA (sha1 release_lock_lua) [Lock.lockKey d] [tok])
| use_extend tok until : g = Some (tok, until) ->
    lock_use tid g (EVALSHA (sha1 extend_lock_lua) [Lock.lockKey d] [tok; show_Z (LOCK_TTL_MS cfg)])
| use_other c : Lock.lockKey d ∉ rcmd_keys c -> lock_use tid g (RCmd c)
| use_script sc keys args : Lock.lockKey d ∉ keys -> lock_use tid g (EVALSHA (sha1 sc) keys args)
| use_load sc : lock_use tid g (SCRIPT_LOAD sc)
| use_ping : lock_use tid g PING.

Definition proper (l : private) (c : cmd) : Prop :=
  match c with
  | Redis c => lock_use (l_tid l.1) l.2 c
  | ShaSet sc sha => sha = sha1 sc
  | _ => True
  end.

Lemma lock_use_foreign s l c tid' tok :
  lease_ok s l -> lock_use (l_tid l.1) l.2 c -> mint tid' tok -> l_tid l.1 <> tid' -> Lock.foreign_cmd d tok c.
Proof using Httl Hmint.
  intros [_ Hl] Hc Hm Hne.
  assert (forall t, mint (l_tid l.1) t -> t <> tok) as Hn by (intros t Ht ->; apply Hne; by eapply Hmint).
  destruct Hc as [t Ht _|t Ht|t u E|c Hk|sc keys args Hk|sc|]; try (by constructor); constructor; try (by apply Hn).
  rewrite E in Hl. by apply Hn, Hl.
Qed.

(** What a call does to the clock, the server and the session. *)
Lemma env_parts (w : world RS BS) c r (w' : world RS BS) :
  env w c r w' -> s_now w.1 <= s_now w'.1 /\ l_tid w'.2 = l_tid w.2 /\
  (s_redis w'.1 = s_redis w.1 \/
   exists rc, c = Redis rc /\ s_redis w'.1 = (rs_exec (s_redis w.1) (now_ms w'.1) rc).2) /\
  (l_sha w'.2 = l_sha w.2 \/ exists sc sha, c = ShaSet sc sha /\ w'.2 = with_sha sc sha w.2).
Proof.
  destruct w as [s l], w' as [s' l']. intros (s1 & (n & Hn & ->) & He). cbn in Hn, He |- *.
  assert (forall st, (s', l') = (with_redis st (with_now n s), l) -> s_now s <= s_now s' /\ l_tid l' = l_tid l /\
    s_redis s' = st /\ l_sha l' = l_sha l /\ now_ms s' = ms_of_ts n) as Hred by (by intros st [= -> ->]).
  assert ((s', l') = (with_now n s, l) -> s_now s <= s_now s' /\ l_tid l' = l_tid l /\
    s_redis s' = s_redis s /\ l_sha l' = l_sha l /\ now_ms s' = ms_of_ts n) as Hsame by (by intros [= -> ->]).
  destruct c as [c|c|q nm d' i|q ty|i ts tk| | |m|rq| | | |sc|sc sha|lv m].
  { destruct r as [e|r]; cbn in He.
    - destruct He as [_ [(msg & _ & _ & He)|(_ & _ & [He|He])]].
      + destruct (Hred _ He) as (H1 & H2 & H3 & H4 & H5). rewrite H5. split; [done|]. split; [done|]. split; [right; by exists c|by left].
      + destruct (Hsame He) as (H1 & H2 & H3 & H4 & H5). repeat (split; [done|]). split; by left.
      + destruct (Hred _ He) as (H1 & H2 & H3 & H4 & H5). rewrite H5. split; [done|]. split; [done|]. split; [right; by exists c|by left].
    - destruct He as [_ He]. destruct (Hred _ He) as (H1 & H2 & H3 & H4 & H5). rewrite H5.
      split; [done|]. split; [done|]. split; [right; by exists c|by left]. }
  all: destruct r as [e|r]; cbn in He;
    repeat match goal with
    | H : _ /\ _ |- _ => destruct H
    | H : _ \/ _ |- _ => destruct H
    | H : exists _, _ |- _ => destruct H
    | H : (_, _) = (_, _) |- _ => injection H as -> ->
    end; try done; cbn; (split; [done|]); (split; [done|]); (split; [by left|]);
    first [by left | right; eauto].
Qed.

(** A lease outlasts time, and the commands of others. *)
Lemma told_keeps (s s' : shared) (P : Prop) tok until :
  s_now s <= s_now s' ->
  (s_redis s' = s_redis s \/
   exists rc, Lock.foreign_cmd d tok rc /\ s_redis s' = (rs_exec (s_redis s) (now_ms s') rc).2) ->
  P /\ until <= now_ms s + LOCK_TTL_MS cfg /\
    (now_ms s < until -> exists u, until <= u /\ Lock.leased (s_redis s) (now_ms s) d tok u) ->
  P /\ until <= now_ms s' + LOCK_TTL_MS cfg /\
    (now_ms s' < until -> exists u, until <= u /\ Lock.leased (s_redis s') (now_ms s') d tok u).
Proof using RedisLaws0.
  intros Hn Hr (HP & Hu & Hl). assert (now_ms s <= now_ms s') as Hms by by apply ms_of_ts_mono.
  split; [done|]. split; [lia|]. intros Hlt. destruct (Hl ltac:(lia)) as (u & Huu & HL). exists u. split; [done|].
  assert (Lock.leased (s_redis s) (now_ms s') d tok u) as HL' by (eapply Lock.leased_later; [exact HL|lia]).
  destruct Hr as [-> |(rc & Hf & ->)]; [done|]. by apply Lock.leased_step.
Qed.

Lemma owes_others (s s' : shared) (l l' : private) c r :
  lease_ok s l -> proper l c -> env (s, l.1) c r (s', l'.1) -> lease_ok s' l' -> owes (s, l) (s', l').
Proof using RedisLaws0 Httl Hmint.
  intros Hl Hc He Hl'. destruct (env_parts _ _ _ _ He) as (Hn & Ht & Hr & _). cbn in *.
  split; [done|]. split; [done|]. intros l2 Hne [Hsha Hl2]. split; [|split; [done|]]; last by unfold other in *; cbn in *; congruence.
  split; [done|]. cbn. destruct (l2.2) as [[tok until]|]; [|done].
  apply (told_keeps s); [done| |done]. destruct Hr as [Hr|(rc & -> & Hr)]; [by left|right].
  exists rc. split; [|done]. by eapply lock_use_foreign; [exact Hl|exact Hc|apply Hl2|].
Qed.

Lemma sha_keeps (l l' : session) (c : cmd) :
  (l_sha l' = l_sha l \/ exists sc sha, c = ShaSet sc sha /\ l' = with_sha sc sha l) ->
  match c with ShaSet sc sha => sha = sha1 sc | _ => True end ->
  (forall sc sha, l_sha l sc = Some sha -> sha = sha1 sc) -> forall sc sha, l_sha l' sc = Some sha -> sha = sha1 sc.
Proof.
  intros [-> |(sc & sha & -> & ->)] Hc Hl; [done|]. intros sc' sha' H. cbn in H.
  destruct (decide (sc' = sc)) as [-> |]; [|by apply Hl]. injection H as <-. done.
Qed.

(** The ghost changes only at commands on the lock's key. *)
Lemma tell_other w c r w' g :
  match c with
  | Redis (RCmd c) => Lock.lockKey d ∉ rcmd_keys c
  | Redis (EVALSHA _ keys _) => Lock.lockKey d ∉ keys
  | _ => True
  end -> tell w c r w' g = g.
Proof.
  destruct c as [[c|sha keys args|sc|]| | | | | | | | | | | | | |]; cbn; try done.
  - destruct c as [|k v [[|]|] []| | | | | | | |]; try done. intros Hk. destruct r as [|[]]; try done.
    destruct (String.eqb_spec k (Lock.lockKey d)) as [-> |]; [|done]. destruct Hk. cbn. by left.
  - intros Hk. rewrite bool_decide_false; [done|]. intros ->. destruct Hk. by left.
Qed.

Lemma env_redis_answer (c : rtop) (w w' : world RS BS) (x : rtop_resp c) :
  env w (Redis c) (inr x) w' ->
  (rs_exec (s_redis w.1) (now_ms w'.1) c).1 = inr x /\ s_redis w'.1 = (rs_exec (s_redis w.1) (now_ms w'.1) c).2.
Proof. destruct w as [s l]. intros (s1 & (n & Hn & ->) & H & ->). done. Qed.

(** The lock's own calls make true what they are told. *)
Lemma told_acquire (tok : string) (w w' : world RS BS) (r : exn + resp (Redis (RCmd (Lock.acquire_cmd cfg d tok)))) :
  env w (Redis (RCmd (Lock.acquire_cmd cfg d tok))) r w' -> mint (l_tid w'.2) tok ->
  match tell w (Redis (RCmd (Lock.acquire_cmd cfg d tok))) r w' None with
  | None => True
  | Some (tok, until) =>
      mint (l_tid w'.2) tok /\ until <= now_ms w'.1 + LOCK_TTL_MS cfg /\
      (now_ms w'.1 < until -> exists u, until <= u /\ Lock.leased (s_redis w'.1) (now_ms w'.1) d tok u)
  end.
Proof using RedisLaws0 Httl.
  intros He Hm. destruct r as [e|[]]; [done| |done]. destruct (env_redis_answer _ _ _ _ He) as [Hr Hs].
  cbn. rewrite String.eqb_refl. split; [done|]. split; [lia|]. intros _. eexists; split; [reflexivity|].
  unfold Lock.leased, Lock.lease_rep. rewrite Hs. set (t := now_ms w'.1) in *.
  destruct (rs_cmd (s_redis w.1) t (Lock.acquire_cmd cfg d tok)) as (H1 & H2 & _).
  rewrite H2. pose proof (eq_trans (eq_sym H1) Hr) as Hr'. clear Hr. rename Hr' into Hr. cbn in Hr |- *. destruct (Z.leb_spec (LOCK_TTL_MS cfg) 0); [lia|].
  destruct (rs_keys (s_redis w.1) t !! Lock.lockKey d); [done|]. cbn. by rewrite lookup_insert_eq.
Qed.

Abbreviation extend_op tok := (EVALSHA (sha1 extend_lock_lua) [Lock.lockKey d] [tok; show_Z (LOCK_TTL_MS cfg)]).

Lemma extend_step (s : RS) t tok :
  ((rs_exec s t (extend_op tok)).1 = inr 1 -> Lock.leased (rs_exec s t (extend_op tok)).2 t d tok (t + LOCK_TTL_MS cfg)) /\
  forall u, Lock.leased s t d tok u ->
    (rs_exec s t (extend_op tok)).2 = s \/ Lock.leased (rs_exec s t (extend_op tok)).2 t d tok (t + LOCK_TTL_MS cfg).
Proof using RedisLaws0 Httl.
  destruct (rs_scripts s (sha1 extend_lock_lua)) eqn:Hs; [|rewrite rs_noscript by done; split; [done|auto]].
  destruct (rs_evalsha s t extend_lock_lua [Lock.lockKey d] [tok; show_Z (LOCK_TTL_MS cfg)] Hs) as (H1 & H2 & _).
  rewrite run_extend_script in H1, H2. unfold Lock.leased, Lock.lease_rep. rewrite H1, H2. unfold run_extend, set_deadline.
  destruct (Z.leb_spec (t + LOCK_TTL_MS cfg) t); [lia|]. split.
  - destruct (rs_keys s t !! Lock.lockKey d) as [[[v|h] dl]|]; try done.
    destruct (decide (v = tok)) as [-> |]; [|done]. intros _. cbn. by rewrite lookup_insert_eq.
  - intros u ->. cbn. rewrite decide_True by done. right. cbn. by rewrite lookup_insert_eq.
Qed.

Lemma told_extend (tok : string) until (w w' : world RS BS) (r : exn + resp (Redis (extend_op tok))) :
  env w (Redis (extend_op tok)) r w' -> lease_ok w.1 (w.2, Some (tok, until)) ->
  match tell w (Redis (extend_op tok)) r w' (Some (tok, until)) with
  | None => True
  | Some (tok, until) =>
      mint (l_tid w.2) tok /\ until <= now_ms w'.1 + LOCK_TTL_MS cfg /\
      (now_ms w'.1 < until -> exists u, until <= u /\ Lock.leased (s_redis w'.1) (now_ms w'.1) d tok u)
  end.
Proof using RedisLaws0 Httl.
  intros He [_ (Hm & Hu & Hl)]. cbn in Hm, Hl.
  assert (mint (l_tid w.2) tok /\ until <= now_ms w'.1 + LOCK_TTL_MS cfg /\
    (now_ms w'.1 < until -> exists u, until <= u /\ Lock.leased (s_redis w'.1) (now_ms w'.1) d tok u)) as Hkeep.
  { destruct (env_parts _ _ _ _ He) as (Hn & _ & Hr & _). apply ms_of_ts_mono in Hn. unfold now_ms in *.
    split; [done|]. split; [lia|]. intros Hlt. destruct (Hl ltac:(lia)) as (u & Huu & HL).
    assert (Lock.leased (s_redis w.1) (ms_of_ts (s_now w'.1)) d tok u) as HL' by (eapply Lock.leased_later; [exact HL|lia]).
    destruct Hr as [-> |(rc & [= <-] & Hr)]; [by exists u|].
    rewrite Hr. destruct (proj2 (extend_step (s_redis w.1) (ms_of_ts (s_now w'.1)) tok) u HL') as [E|HE].
    - rewrite E. by exists u.
    - eexists; split; [|exact HE]. lia. }
  destruct r as [e|n]; cbn -[show_Z]; rewrite bool_decide_true by done; [done|].
  destruct (Z.eqb_spec n 1) as [-> |]; [|done]. rewrite read_show_Z. split; [done|]. split; [lia|]. intros _.
  destruct (env_redis_answer _ _ _ _ He) as [Hr Hs]. eexists; split; [reflexivity|]. rewrite Hs. by apply extend_step.
Qed.

(** Every call keeps the agreement. *)
Lemma job_keeps s (l l' : private) c r s' :
  lease_ok s l -> proper l c -> job_env (s, l) c r (s', l') -> lease_ok s' l' /\ owes (s, l) (s', l').
Proof using RedisLaws0 Httl Hmint.
  intros Hl Hc [[He _] Hg]. cbn in He, Hg. destruct (env_parts _ _ _ _ He) as (Hn & Ht & Hr & Hsha).
  assert (lease_ok s' l') as Hl'; [|split; [done|]; by eapply owes_others].
  pose proof Hl as [Hs Hlease]. split.
  { eapply sha_keeps; [exact Hsha| |exact Hs]. by destruct c. }
  assert (l'.2 = l.2 -> (s_redis s' = s_redis s \/
    exists rc, (forall tok, Lock.foreign_cmd d tok rc) /\ s_redis s' = (rs_exec (s_redis s) (now_ms s') rc).2) ->
    match l'.2 with None => True | Some (tok, until) => mint (l_tid l'.1) tok /\ until <= now_ms s' + LOCK_TTL_MS cfg /\
      (now_ms s' < until -> exists u, until <= u /\ Lock.leased (s_redis s') (now_ms s') d tok u) end) as Hsame.
  { intros E Hr'. rewrite E. cbn in Ht. rewrite Ht. destruct (l.2) as [[tok until]|]; [|done].
    apply (told_keeps s); [done| |done]. destruct Hr' as [?|(rc & Hf & ?)]; [by left|right; by exists rc]. }
  destruct c as [rc|c|q nm d' i|q ty|i ts tk| | |m|rq| | | |sc|sc sha|lv m];
    try (apply Hsame; [by rewrite Hg, tell_other|]; destruct Hr as [?|(? & ? & _)]; [by left|done]).
  assert ((forall tok, Lock.foreign_cmd d tok rc) -> s_redis s' = s_redis s \/
    exists rc, (forall tok, Lock.foreign_cmd d tok rc) /\ s_redis s' = (rs_exec (s_redis s) (now_ms s') rc).2) as Hfor.
  { intros Hf. destruct Hr as [Hr|(rc' & [= <-] & Hr)]; [by left|right; by exists rc]. }
  cbn [fst snd] in Ht. destruct Hc as [tok Hm Hnone|tok Hm|tok until E|rc Hk|sc keys args Hk|sc|];
    try (apply Hsame; [by rewrite Hg, tell_other|apply Hfor; by constructor]).
  - rewrite Hg, Hnone. apply (told_acquire tok (s, l.1) (s', l'.1)); [done|]. cbn. by rewrite Ht.
  - rewrite Hg. cbn. by rewrite bool_decide_true.
  - rewrite Hg, E, Ht. apply (told_extend tok until (s, l.1) (s', l'.1)); [done|]. rewrite <- E. by destruct l.
Qed.

(** ** Where each flow stands *)

(** A call that leaves the lock of [d] alone. *)
Definition spares (c : cmd) : Prop :=
  match c with
  | Redis (RCmd c) => Lock.lockKey d ∉ rcmd_keys c
  | Redis (EVALSHA _ keys _) => Lock.lockKey d ∉ keys
  | _ => True
  end.

(** What a job has been told, by where it stands. *)
Definition coupled (tid : nat) (st : phase) (g : told) : Prop :=
  match st with
  | Idle drawn => g = None /\ forall tok, drawn = Some tok -> mint tid tok
  | Refused => g = None
  | Held tok _ _ => mint tid tok /\ exists until, g = Some (tok, until)
  | Releasing tok => mint tid tok /\ g = None
  end.

(** The identifiers given are those of their scripts. *)
Definition named (st : list (string * script)) : Prop := forall sha sc, (sha, sc) ∈ st -> sha = sha1 (S := RS) sc.

Lemma named_step st st' c r (w w' : world RS BS) :
  named st -> dstep cfg st (Ev c r) = Some st' -> env w c r w' ->
  (forall sc sha, l_sha w.2 sc = Some sha -> sha = sha1 sc) -> named st'.
Proof using RedisLaws0.
  intros Hst Hd He Hl.
  assert (forall sha sc, sha = sha1 sc -> named ((sha, sc) :: st)) as Hcons.
  { intros sha sc -> sha' sc' [[= -> ->]|H]%elem_of_cons; [done|by apply Hst]. }
  destruct c as [[c|sha keys args|sc|]| | | | | | | | | | | |sc|sc sha|]; cbn in Hd; try (injection Hd as <-; exact Hst).
  - destruct c as [|k v [[]|] nx| | | | | | | |]; try (injection Hd as <-; exact Hst). destruct (_ =? _); [by injection Hd as <-|done].
  - destruct (existsb _ _); [by injection Hd as <-|done].
  - destruct r as [e|sha]; injection Hd as <-; [done|]. apply Hcons.
    destruct (env_redis_answer _ _ _ _ He) as [Hr _]. destruct (rs_script_load (s_redis w.1) (now_ms w'.1) sc) as [E _].
    pose proof (eq_trans (eq_sym E) Hr) as H. by injection H.
  - destruct r as [e|[sha|]]; injection Hd as <-; [done| |done]. apply Hcons, Hl.
    destruct w as [s l]. destruct He as (s1 & _ & Hr & _). done.
  - destruct (bool_decide _); [by injection Hd as <-|done].
Qed.

(** A disciplined call of a script. *)
Lemma called st st' sha keys args r :
  named st -> dstep cfg st (Ev (Redis (EVALSHA sha keys args)) r) = Some st' ->
  exists sc, sha = sha1 (S := RS) sc /\ shaped cfg sc keys args = true.
Proof.
  intros Hst. cbn. destruct (existsb _ _) eqn:E; [|done]. intros _.
  apply existsb_exists in E as ([sha' sc] & Hin & [E Hs]%andb_prop). cbn in E, Hs.
  apply String.eqb_eq in E as ->. exists sc. split; [|done]. apply Hst. by apply list_elem_of_In.
Qed.

Lemma proper_spares st st' c r l :
  named st -> dstep cfg st (Ev c r) = Some st' -> spares c -> proper l c.
Proof.
  intros Hst Hd Hc. destruct c as [[c|sha keys args|sc|]| | | | | | | | | | | |sc|sc sha|]; try done; try (by constructor).
  - destruct (called _ _ _ _ _ _ Hst Hd) as (sc & -> & _). by constructor.
  - cbn in Hd. destruct (bool_decide_reflect ((sha, sc) ∈ st)); [|done]. by apply Hst.
Qed.

Lemma bucket_not_lock sc args :
  shaped cfg sc [Lock.lockKey d] args = true ->
  (sc = release_lock_lua /\ exists tok, args = [tok]) \/
  (sc = extend_lock_lua /\ exists tok, args = [tok; show_Z (LOCK_TTL_MS cfg)]).
Proof.
  destruct sc; cbn [shaped].
  - destruct args as [|tok [|]]; try done. left. eauto.
  - destruct args as [|tok [|ttl [|]]]; try done. intros ->%String.eqb_eq. right. eauto.
  - assert (String.prefix (Lock.lockKey "") (Lock.lockKey d) = true) as E by (by destruct d).
    destruct args as [|? [|? [|]]]; cbn [forallb]; by rewrite E.
Qed.

(** The calls of a job that holds the lock. *)
Lemma held_calls tok g lost c r st :
  hstep d tok g lost c r = Some st ->
  (exists sha, c = Redis (EVALSHA sha [Lock.lockKey d] [tok]) /\ st = Releasing tok) \/
  exists g' lost', st = Held tok g' lost' /\
    ((exists sha ttl, c = Redis (EVALSHA sha [Lock.lockKey d] [tok; ttl])) \/ spares c).
Proof.
  assert (forall g' lost', spares c -> Held tok g' lost' = st -> (exists sha, c = Redis (EVALSHA sha [Lock.lockKey d] [tok]) /\ st = Releasing tok) \/
    exists g' lost', st = Held tok g' lost' /\
      ((exists sha ttl, c = Redis (EVALSHA sha [Lock.lockKey d] [tok; ttl])) \/ spares c)) as Hstay.
  { intros g' lost' Hs <-. right. exists g', lost'. split; [done|by right]. }
  destruct c as [[c|sha keys args|sc|]|q|q nm d' i|q ty|i ts tk| | |m|rq| | | |sc|sc sha|lv m]; cbn; try done.
  2: { destruct (bool_decide_reflect (keys = [Lock.lockKey d])) as [-> |Hk].
    - destruct args as [|t [|ttl [|]]]; try done; destruct (String.eqb_spec t tok) as [-> |]; try done; cbn.
      + intros [= <-]. left. eauto.
      + destruct (beating g); [|done]. intros [= <-]. right. eauto 10.
    - case_bool_decide; [done|]. intros [= <-]. by eapply Hstay. }
  1: { case_bool_decide; [done|]. intros [= <-]. by eapply Hstay. }
  2: destruct q as [| | | | |q|q]; try destruct q; try done.
  all: repeat match goal with
    | |- Some _ = Some _ -> _ => intros [= <-]; by eapply Hstay
    | |- None = Some _ -> _ => done
    | |- match ?x with _ => _ end = Some _ -> _ => destruct x
    end.
Qed.

(** A job's call is proper, and what it is told keeps pace with where it is. *)
Lemma job_step given given' st st' c r (w w' : world RS BS) g :
  named given -> dstep cfg given (Ev c r) = Some given' -> pstep d st (Ev c r) = Some st' ->
  minted w c r w' -> coupled (l_tid w.2) st g ->
  proper (w.2, g) c /\ coupled (l_tid w'.2) st' (tell w c r w' g).
Proof using RedisLaws0 Httl.
  intros Hg Hd Hp [He Hm] Hc. destruct (env_parts _ _ _ _ He) as (_ & Ht & _). rewrite Ht.
  destruct st as [drawn| |tok gg lost|tok]; cbn [pstep coupled] in Hp, Hc.
  - destruct Hc as [-> Hdr].
    destruct c as [[[|k v [[|ttl]|] []| | | | | | | |]|sha keys args|sc|]| | | | | | | | | | | | | |]; try done.
    + cbn in Hd. destruct (String.eqb_spec k (Lock.lockKey d)) as [-> |]; [|done]. cbn in Hp.
      destruct (bool_decide_reflect (drawn = Some v)) as [-> |]; [|done]. injection Hp as <-.
      destruct (Z.eqb_spec ttl (LOCK_TTL_MS cfg)) as [-> |]; [|done].
      split; [apply use_acquire; [by apply Hdr|done]|]. destruct r as [e|[]]; cbn; [done| |done].
      rewrite String.eqb_refl. split; [by apply Hdr|by eexists].
    + injection Hp as <-. split; [done|]. split; [done|]. intros tok. cbn in Hm. destruct r; [done|]. by intros [= <-].
  - destruct c; try done; by injection Hp as <-.
  - destruct Hc as [Htok [until ->]]. destruct (held_calls _ _ _ _ _ _ Hp) as [(sha & -> & ->)|(g' & lost' & -> & Hc)].
    + destruct (called _ _ _ _ _ _ Hg Hd) as (sc & -> & [(-> & tok' & [= <-])|(-> & tok' & ?)]%bucket_not_lock); [|done].
      split; [by constructor|]. cbn. rewrite bool_decide_true by done. done.
    + destruct Hc as [(sha & ttl & ->)|Hc].
      * destruct (called _ _ _ _ _ _ Hg Hd) as (sc & -> & [(-> & tok' & ?)|(-> & tok' & [= <- ->])]%bucket_not_lock); [done|].
        split; [by eapply use_extend|]. cbn -[show_Z]. rewrite bool_decide_true by done. split; [done|].
        destruct r as [e|n]; [by eexists|]. destruct (n =? 1); [|by eexists]. rewrite read_show_Z. by eexists.
      * split; [by eapply proper_spares|]. rewrite tell_other; [split; [done|by eexists]|]. by destruct c as [[]| | | | | | | | | | | | | |].
  - destruct Hc as [Htok ->]. destruct c as [[|sha keys args|sc|]| | | | | | | | | | | |sc|sc sha|]; try done.
    + destruct (bool_decide_reflect (keys = [Lock.lockKey d] /\ args = [tok])) as [[-> ->]|]; [|done]. injection Hp as <-.
      destruct (called _ _ _ _ _ _ Hg Hd) as (sc & -> & [(-> & tok' & [= <-])|(-> & tok' & ?)]%bucket_not_lock); [|done].
      split; [by constructor|]. cbn. by rewrite bool_decide_true.
    + injection Hp as <-. split; [constructor|done].
    + injection Hp as <-. split; [|done]. eapply proper_spares; [exact Hg|exact Hd|done].
Qed.

(** A job of [d] is at a place of the protocol; another flow leaves its lock
    alone. *)
Definition placed (job : bool) (p : io (option IngestResult)) (l : private) : Prop :=
  if job then exists st, conforms (pstep d) p (fun _ _ => True) st /\ coupled (l_tid l.1) st l.2
  else awaits True spares p /\ l.2 = None.

Definition sound (job : nat -> bool) (i : nat) (p : io (option IngestResult)) (l : private) : Prop :=
  (exists given, conforms (dstep cfg) p (fun _ _ => True) given /\ named given) /\ placed (job i) p l.

Lemma sound_step job i c k s (l : private) r w' :
  True -> lease_ok s l -> sound job i (Vis c k) l -> job_env (s, l) c r w' ->
  owes (s, l) w' /\ sound job i (k r) w'.2.
Proof using RedisLaws0 Httl Hmint.
  destruct w' as [s' l']. intros _ Hl [(given & Hgiven & Hn) Hp] He. pose proof He as [Hm Hg]. cbn in Hm, Hg.
  destruct (conforms_vis _ _ _ _ _ r Hgiven) as (given' & Hd & Hgiven').
  assert (proper l c /\ placed (job i) (k r) l') as [Hpr Hpl].
  { unfold placed in *. destruct (job i).
    - destruct Hp as (st & Hst & Hc). destruct (conforms_vis _ _ _ _ _ r Hst) as (st' & Hps & Hst').
      destruct l as [l g], l' as [l' g']. cbn in *. subst g'.
      destruct (job_step _ _ _ _ _ _ _ _ g Hn Hd Hps Hm Hc) as [H1 H2]. split; [done|]. by exists st'.
    - destruct Hp as [[Hc Hk] Hnone]. split; [by eapply proper_spares|]. split; [apply Hk|]. rewrite Hg, Hnone.
      apply tell_other. by destruct c as [[]| | | | | | | | | | | | | |]. }
  split; [by eapply job_keeps|]. split; [|done]. exists given'. split; [done|].
  eapply named_step; [exact Hn|exact Hd|apply Hm|apply Hl].
Qed.

Lemma dies_owes w w' : True -> lease_ok w.1 w.2 -> job_dies w w' -> owes w w'.
Proof.
  destruct w as [s l], w' as [s' [l' g']]. intros _ Hl [Hd Hg]. cbn in Hd, Hg. injection Hd as -> ->. subst g'.
  split; [done|]. split; [exact Hl|]. intros l2 H1 H2. split; [exact H2|]. split; [unfold later_on; cbn; lia|exact H1].
Qed.
End Leases.

(** ** The flows at their start *)

Ltac spares_call := first [exact I | assumption |
  cbn [spares rcmd_keys Lock.acquire_cmd]; rewrite ?not_elem_of_cons;
  repeat split; first [apply not_elem_of_nil | discriminate | assumption] ].
Ltac spares_tac := issues_tac spares_call.

(** The flow is a job of the delivery. *)
Definition is_job (d : string) (f : flow) : bool :=
  match f with FDeliver _ j _ => String.eqb (job_deliveryId j) d | _ => false end.

Lemma processDelivery_spares d cfg hmac sched j token :
  job_deliveryId j <> d -> awaits True (spares d) (processDelivery cfg hmac sched j token).
Proof.
  intros Hne. assert (Lock.lockKey d <> Lock.lockKey (job_deliveryId j)) as Hk by (intros [= E]; by apply Hne).
  issues_tac ltac:(first [match goal with |- awaits _ _ (withLockHeartbeat _ _ _ _ _) => apply awaits_heartbeat; [spares_tac|exact I|spares_tac] end | spares_call]).
Qed.

Lemma flow_spares d cfg hmac f : is_job d f = false -> awaits True (spares d) (flow_prog cfg hmac f).
Proof.
  destruct f; cbn [is_job]; intros Hf; cbn [flow_prog]; (apply issues_bind; [|done]);
    [spares_tac|spares_tac|apply processDelivery_spares; by apply String.eqb_neq|spares_tac..].
Qed.

(** ** Property *)

Section Mutual.
Context {RS BS : Type} `{!RedisServer RS} `{!RedisLaws RS} `{!BullMQ BS}.
Context (cfg : Config) (hmac : string -> string -> string) (d : string) (mint : nat -> string -> Prop).

(** Flows about to start, told nothing yet. *)
Definition untold (calls : list (flow * session)) : list (io (option IngestResult) * (session * told)) :=
  (fun c => (flow_prog cfg hmac c.1, (c.2, None))) <$> calls.

(** Sessions of their own, that know their scripts by the right identifiers. *)
Definition set_up (calls : list (flow * session)) : Prop :=
  (forall c sc sha, c ∈ calls -> l_sha c.2 sc = Some sha -> sha = sha1 (S := RS) sc) /\
  NoDup ((fun c => l_tid c.2) <$> calls).

Abbreviation threads := (list (io (option IngestResult) * (session * told))).

(** The lease the flow [i] was last told it has. *)
Definition told_of (ts : threads) (i : nat) : told :=
  match ts !! i with Some (_, (_, g)) => g | None => None end.

(** The call it makes next. *)
Definition next_call (ts : threads) (i : nat) : option cmd :=
  match ts !! i with Some (Vis c _, _) => Some c | _ => None end.

Lemma untold_sound i p l calls :
  untold calls !! i = Some (p, l) ->
  sound (RS := RS) cfg d mint (fun i => match calls !! i with Some c => is_job d c.1 | None => false end) i p l.
Proof.
  intros Hi. unfold untold in Hi. apply list_lookup_fmap_Some_1 in Hi as ([f l0] & [= -> ->] & Hi). split.
  - exists []. split; [apply flow_disciplined|]. by intros sha sc []%elem_of_nil.
  - rewrite Hi. unfold placed. cbn [fst snd]. destruct (is_job d f) eqn:Hf; [|by split; [apply flow_spares|]].
    destruct f as [|?|sched j token|?|?|?|? ? ?|? ? ? ?]; try discriminate Hf. apply String.eqb_eq in Hf.
    exists (Idle None). split; [|by split]. apply conforms_bind. eapply conforms_mono; [by apply conforms_processDelivery|].
    by intros [].
Qed.

Lemma untold_fits calls (s : shared RS BS) :
  0 < LOCK_TTL_MS cfg -> (forall t1 t2 tok, mint t1 tok -> mint t2 tok -> t1 = t2) -> set_up calls ->
  fits_all (job_env d mint) (fun _ => True) (lease_ok cfg d mint) later_on other (fun _ _ _ => True) (s, untold calls).
Proof using RedisLaws0.
  intros Httl Hmint [Hsha Hnd]. apply fits_start; [apply _|done| |].
  - intros i p l Hi. split.
    + unfold untold in Hi. apply list_lookup_fmap_Some_1 in Hi as (c & [= -> ->] & Hi). split; [|done].
      intros sc sha. apply Hsha. by eapply list_elem_of_lookup_2.
    + eapply (rg_follow _ _ _ _ _ (sound (RS := RS) cfg d mint _)); [|by apply untold_sound].
      intros j c k s0 l0 r w'. by apply sound_step.
  - intros i j t u Hi Hj Hne. unfold untold in Hi, Hj. apply list_lookup_fmap_Some_1 in Hi as (c & -> & Hi).
    apply list_lookup_fmap_Some_1 in Hj as (c' & -> & Hj). unfold other. cbn. intros Ht. apply Hne.
    eapply (NoDup_lookup _ _ _ (l_tid c.2) Hnd); rewrite list_lookup_fmap; [by rewrite Hi|]. rewrite Hj. cbn. by rewrite Ht.
Qed.

Lemma told_of_Some ts i g : told_of ts i = Some g -> exists p l, ts !! i = Some (p, (l, Some g)).
Proof. unfold told_of. destruct (ts !! i) as [[p [l g']]|]; [|done]. intros ->. by exists p, l. Qed.

(** A job of [d] makes a request only while it is told of a lease. *)
Lemma sound_sends l rq (k : exn + resp (HttpSend rq) -> io (option IngestResult)) :
  placed d mint true (Vis (HttpSend rq) k) l -> exists tok until, l.2 = Some (tok, until).
Proof.
  intros (st & Hst & Hc). destruct (conforms_vis _ _ _ _ _ (inl (NewError "")) Hst) as (st' & Hp & _).
  destruct st as [?| |tok g lost|?]; try done. destruct Hc as [_ [until ->]]. by exists tok, until.
Qed.

(** C9: one job of a delivery at a time. Let any number of flows of the
    engine, jobs of the delivery [d] among them, run interleaved call by call,
    with any answers, failures, clocks and deaths of processes, the random
    tokens of different sessions being different. Then, at every moment: a job
    that was told it has the lock of [d] until some time has it on the server
    until then; of any two jobs that were told so, one has outlived its lease;
    and a job about to send the request of [d] is one that was told so. So two
    requests for one delivery are made side by side only when a job has
    outlived its lease. *)
Theorem job_mutex (calls : list (flow * session)) (s s' : shared RS BS) (ts' : threads) :
  0 < LOCK_TTL_MS cfg -> (forall t1 t2 tok, mint t1 tok -> mint t2 tok -> t1 = t2) -> set_up calls ->
  rtc (sys_move (job_env d mint) job_dies) (s, untold calls) (s', ts') ->
  (forall i tok until, told_of ts' i = Some (tok, until) -> now_ms s' < until ->
     exists u, until <= u /\ Lock.leased (s_redis s') (now_ms s') d tok u) /\
  (forall i j tok1 until1 tok2 until2, i <> j ->
     told_of ts' i = Some (tok1, until1) -> told_of ts' j = Some (tok2, until2) ->
     until1 <= now_ms s' \/ until2 <= now_ms s') /\
  (forall i sched job token l rq, calls !! i = Some (FDeliver sched job token, l) -> job_deliveryId job = d ->
     next_call ts' i = Some (HttpSend rq) -> exists tok until, told_of ts' i = Some (tok, until)).
Proof using RedisLaws0.
  intros Httl Hmint Hset Hrun.
  set (job := fun i => match calls !! i with Some c => is_job d c.1 | None => false end).
  destruct (follows_steps (job_env d mint) job_dies (fun _ => True) (lease_ok cfg d mint) later_on other
    (dies_owes cfg d mint) (sound (RS := RS) cfg d mint job) (sound_step cfg d mint Httl Hmint job)
    (fun _ _ _ => True) _ _ Hrun) as [(_ & Hfit & Hother) Hsound]; cbn [fst snd] in *.
  { by apply untold_fits. }
  { intros i p l Hi. right. by apply untold_sound. }
  split; [|split].
  - intros i tok until (p & l & Hi)%told_of_Some Hlt. by apply (Hfit i _ Hi).
  - intros i j tok1 until1 tok2 until2 Hne (p1 & l1 & H1)%told_of_Some (p2 & l2 & H2)%told_of_Some.
    destruct (Hfit i _ H1) as [[_ (M1 & _ & L1)] _], (Hfit j _ H2) as [[_ (M2 & _ & L2)] _]. cbn in *.
    destruct (Z.le_gt_cases until1 (now_ms s')) as [|Hlt1]; [by left|]. destruct (Z.le_gt_cases until2 (now_ms s')) as [|Hlt2]; [by right|].
    destruct (L1 Hlt1) as (u1 & _ & E1), (L2 Hlt2) as (u2 & _ & E2). unfold Lock.leased, Lock.lease_rep in *.
    rewrite E1 in E2. injection E2 as <- _. exfalso. apply (Hother i j _ _ H1 H2 Hne). by eapply Hmint.
  - intros i sched jb token l rq Hi Hd Hn. unfold next_call, told_of in *.
    destruct (ts' !! i) as [[[a|e| |c k] [l' g]]|] eqn:Ht; try discriminate Hn. injection Hn as ->.
    destruct (Hsound i _ _ Ht) as [|[_ Hp]]; [done|]. unfold job in Hp. rewrite Hi in Hp. cbn in Hp.
    rewrite (proj2 (String.eqb_eq _ _) Hd) in Hp. by apply (sound_sends (l', g) rq k).
Qed.
End Mutual.

(** ** Witness: two jobs of one delivery

    Both draw their tokens; the first takes the lock, the second is turned
    away; the first goes on to the request. *)

Lemma to_hex_length s : String.length (to_hex s) = (2 * String.length s)%nat.
Proof. induction s as [|c s IH]; [done|]. cbn [to_hex String.length]. rewrite IH. lia. Qed.

(** Session [t] draws [t] bytes. *)
Fixpoint bytes_of (t : nat) : string := match t with O => "" | S t => String Ascii.zero (bytes_of t) end.

Definition demo_mint (t : nat) (tok : string) : Prop := tok = to_hex (bytes_of t).

Lemma demo_mint_apart t1 t2 tok : demo_mint t1 tok -> demo_mint t2 tok -> t1 = t2.
Proof.
  assert (forall t, String.length (bytes_of t) = t) as Hlen by (intros t; induction t; cbn; congruence).
  intros -> H%(f_equal String.length). rewrite !to_hex_length, !Hlen in H. lia.
Qed.

(** Services that do not fail, with random bytes by session. *)
Definition by_session (w : mem_world) : forall c : cmd, (exn + resp c) * mem_world :=
  serve {| o_random := 0; o_bytes := bytes_of (l_tid w.2); o_status := 200; o_body := "ok"; o_fail := fun _ => None |} w.

Lemma by_session_minted : handles (minted demo_mint) by_session.
Proof. intros w c. split; [apply serve_env|]. destruct c, w; try exact I. exact eq_refl. Qed.

Definition demo_jobs : list (flow * session) :=
  [(FDeliver WorkerSpec.demo_schedule demo_job None, demo_tid 1); (FDeliver WorkerSpec.demo_schedule demo_job None, demo_tid 2)].

Definition demo_turns : list nat := [0; 1; 0; 1; 1]%nat ++ replicate 14 0%nat.

Definition demo_mutex : system :=
  run_schedule (ghostly (tell "d1") by_session) demo_turns
    (pending_world.1, untold default_config toy_hmac demo_jobs).

Lemma job_mutex_witness :
  (exists rq, next_call demo_mutex.2 0 = Some (HttpSend rq)) /\ told_of demo_mutex.2 1 = None /\
  exists tok until u, told_of demo_mutex.2 0 = Some (tok, until) /\ now_ms demo_mutex.1 < until <= u /\
    Lock.leased (s_redis demo_mutex.1) (now_ms demo_mutex.1) "d1" tok u.
Proof.
  assert (rtc (sys_move (job_env "d1" demo_mint) job_dies)
    (pending_world.1, untold default_config toy_hmac demo_jobs) (demo_mutex.1, demo_mutex.2)) as Hrun.
  { rewrite <- surjective_pairing. apply run_schedule_moves, ghostly_handles, by_session_minted. }
  assert (set_up (RS := mem_redis) demo_jobs) as Hset.
  { split; [|apply (bool_decide_unpack _); vm_compute; exact I].
    intros c sc sha Hc. repeat (apply elem_of_cons in Hc as [-> |Hc]; [by intros [= <-]|]). by apply elem_of_nil in Hc. }
  destruct (job_mutex default_config toy_hmac "d1" demo_mint demo_jobs _ _ _ ltac:(reflexivity) demo_mint_apart Hset Hrun)
    as (Hlease & _ & Hsend).
  destruct (next_call demo_mutex.2 0) as [[| | | | | | | |rq| | | | | |]|] eqn:En; try (vm_compute in En; discriminate En).
  split; [by exists rq|]. split; [vm_compute; reflexivity|].
  destruct (Hsend 0%nat WorkerSpec.demo_schedule demo_job None (demo_tid 1) rq eq_refl eq_refl En) as (tok & until & Ht).
  assert (now_ms demo_mutex.1 < until) as Hlt by (vm_compute in Ht; injection Ht as _ <-; vm_compute; reflexivity).
  destruct (Hlease 0%nat tok until Ht Hlt) as (u & Hu & HL). exists tok, until, u. exact (conj Ht (conj (conj Hlt Hu) HL)).
Defined.
