(* ===== verification/Invariants.v ===== *)
(** * The checks run by hand

    src/scripts/invariants.sql, the five queries a team runs after a test of
    failures, and the three of src/scripts/expectation.sql that look for
    violations, as functions of the tables; and what they find on the tables
    the engine keeps. *)

From S2P Require Import Prelude Async Config Json Dates Tables Queries Schema Redis Services Concrete Scripts.
From S2P Require Lock TokenBucket.
From S2P Require Import CircuitBreaker Repo Frames Ingest Signature Worker WorkerSpec DeadLetter Api Endpoints AuditTrail.
From Stdlib Require Import ZArith QArith Lia String.
From stdpp Require Import prelude strings gmap sorting.

Open Scope Z_scope.

(** ** SQL *)

(** [GROUP BY key HAVING P]: the keys of the groups that satisfy [P]. *)
Definition group_having {A K} `{EqDecision K} (key : A -> K) (P : list A -> bool) (rows : list A) : list K :=
  filter (fun k => P (filter (fun r => key r = k) rows)) (remove_dups (map key rows)).

(** [max(..)] of a group, [NULL] on none. *)
Definition sql_max (l : list Z) : option Z :=
  match l with [] => None | x :: l => Some (foldl Z.max x l) end.

(** [LEFT JOIN delivery_attempts a ON a.delivery_id = d.id]. *)
Definition with_attempts (T : tables) : list (string * delivery_row * option attempt_row) :=
  flat_map (fun '(id, d) =>
    match filter (fun a => a_delivery_id a = id) (delivery_attempts T) with
    | [] => [(id, d, None)]
    | atts => map (fun a => (id, d, Some a)) atts
    end) (map_to_list (deliveries T)).

(** [count(a.id)]: the rows in which it is not [NULL]. *)
Definition count_attempts (rows : list (string * delivery_row * option attempt_row)) : Z :=
  Z.of_nat (length (omap (fun r => r.2) rows)).

(** [HAVING d.attempt_count <> count(a.id)], the counter constant in a group. *)
Definition miscounted (rows : list (string * delivery_row * option attempt_row)) : bool :=
  match rows with
  | r :: _ => negb (d_attempt_count r.1.2 =? count_attempts rows)
  | [] => false
  end.

(** ** invariants.sql *)

Definition I1 (T : tables) : list string :=
  group_having t_delivery_id (fun rows => 1 <? Z.of_nat (length rows))
    (filter (fun r => t_to_status r = DELIVERED) (delivery_transitions T)).

Definition I2 (T : tables) : list string :=
  group_having a_delivery_id (fun rows =>
    negb (bool_decide (sql_max (map a_attempt_number rows) = Some (Z.of_nat (length rows)))))
    (delivery_attempts T).

Definition I3 (T : tables) : list string :=
  map fst (group_having (fun r => (r.1.1, d_attempt_count r.1.2)) miscounted (with_attempts T)).

(** At the time [now], in microseconds. *)
Definition I4 (now : Z) (T : tables) : list string :=
  map fst (filter (fun '(_, d) => d_status d = DELIVERING /\ d_updated_at d < now - 300000000) (map_to_list (deliveries T))).

Definition I5 (T : tables) : list string :=
  map fst (filter (fun '(id, d) => d_status d = DELIVERED /\
    ~ Exists (fun a => a_delivery_id a = id /\ a_outcome a = SUCCESS) (delivery_attempts T)) (map_to_list (deliveries T))).

(** ** expectation.sql *)

Definition above (f : delivery_row -> Z) (x y : string * delivery_row) : Prop := f y.2 <= f x.2.

#[export] Instance above_dec f : RelDecision (above f).
Proof. intros x y. unfold above. apply _. Defined.

(** [ORDER BY f DESC LIMIT 20]. *)
Definition top20 (f : delivery_row -> Z) (rows : list (string * delivery_row)) : list (string * delivery_row) :=
  take 20 (merge_sort (above f) rows).

Definition E1 (T : tables) : list (string * delivery_row) :=
  top20 d_attempt_count (filter (fun '(_, d) => 5 < d_attempt_count d) (map_to_list (deliveries T))).

Definition E2 (T : tables) : list (string * delivery_row) :=
  top20 d_updated_at (filter (fun '(id, d) => (id, (d_attempt_count d, d_status d)) ∈
    group_having (fun r => (r.1.1, (d_attempt_count r.1.2, d_status r.1.2))) miscounted (with_attempts T))
    (map_to_list (deliveries T))).

Definition E3 (T : tables) : list (string * delivery_row) :=
  top20 d_updated_at (filter (fun '(_, d) => d_status d = DLQ /\ d_attempt_count d < 5) (map_to_list (deliveries T))).

(** ** What the queries find *)

Lemma elem_of_group_having {A K} `{EqDecision K} (key : A -> K) P (rows : list A) k :
  k ∈ group_having key P rows <-> (exists r, r ∈ rows /\ key r = k) /\ P (filter (fun r => key r = k) rows) = true.
Proof.
  unfold group_having. rewrite list_elem_of_filter, elem_of_remove_dups, list_elem_of_fmap, Is_true_true.
  split; [intros [H1 (r & -> & Hr)]; eauto|intros [(r & Hr & <-) H1]; eauto].
Qed.

Lemma group_having_none {A K} `{EqDecision K} (key : A -> K) P (rows : list A) :
  (forall r, r ∈ rows -> P (filter (fun r' => key r' = key r) rows) = false) -> group_having key P rows = [].
Proof.
  intros H. destruct (group_having key P rows) as [|k ks] eqn:E; [done|].
  assert (k ∈ group_having key P rows) as Hk by (rewrite E; by left).
  apply elem_of_group_having in Hk as [(r & Hr & <-) Hk]. by rewrite H in Hk.
Qed.

Lemma foldl_max_seqZ x n : 0 <= n -> foldl Z.max x (seqZ (x + 1) n) = x + n.
Proof.
  intros Hn. revert x. pattern n. apply natlike_ind; [|clear n Hn|done].
  - intros x. rewrite seqZ_nil by lia. cbn. lia.
  - intros n Hn IH x. rewrite seqZ_cons by lia. cbn. rewrite Z.max_r by lia.
    replace (Z.succ (x + 1)) with ((x + 1) + 1) by lia. rewrite Z.pred_succ, IH. lia.
Qed.

Lemma sql_max_seqZ n : 0 < n -> sql_max (seqZ 1 n) = Some n.
Proof.
  intros Hn. rewrite seqZ_cons by lia. cbn. f_equal. rewrite (foldl_max_seqZ 1) by lia. lia.
Qed.

(** On a path of permitted moves a delivery that is never taken out of DELIVERED
    comes there once. *)
Lemma path_delivered from trs to :
  path from trs to -> Forall (fun r => t_from_status r <> Some DELIVERED) trs ->
  (from = Some DELIVERED -> trs = []) /\ (length (filter (fun r => t_to_status r = DELIVERED) trs) <= 1)%nat.
Proof.
  revert from. induction trs as [|r trs IH]; intros from; cbn [path]; [by split; cbn; [|lia]|].
  intros (Hf & _ & Hp) [Hr Hall]%Forall_cons. destruct (IH _ Hp Hall) as [H1 H2]. split; [congruence|].
  rewrite filter_cons. destruct (decide (t_to_status r = DELIVERED)) as [E|]; [|done].
  rewrite H1 by by rewrite E. cbn. lia.
Qed.

Lemma path_from_delivered from trs to r :
  path from trs to -> r ∈ trs -> t_from_status r = Some DELIVERED -> t_to_status r = DLQ.
Proof.
  revert from. induction trs as [|r' trs IH]; intros from; [by intros _ ?%elem_of_nil|].
  intros (Hf & Hl & Hp) [-> |Hr]%elem_of_cons E; [|by eapply IH].
  rewrite E in Hf. subst from. unfold permitted, undocumented in Hl.
  destruct (t_to_status r'), (t_actor r'); try done; cbn in Hl; by rewrite ?andb_false_r in Hl.
Qed.

(** The attempts agree with the rows they count for: they are numbered without
    a gap, as many as the row says, and a delivered one has its success. *)
Record counted (T : tables) : Prop := {
  ct_row id d : deliveries T !! id = Some d ->
    0 <= d_attempt_count d /\ map a_attempt_number (attempts_of T id) = seqZ 1 (d_attempt_count d) /\
    (d_status d = DELIVERED -> Exists (fun a => a_outcome a = SUCCESS) (attempts_of T id));
  ct_refs a : a ∈ delivery_attempts T -> is_Some (deliveries T !! a_delivery_id a);
  ct_honest : Forall honest (delivery_attempts T)
}.

Lemma audit_counted T : audit T -> counted T.
Proof.
  intros HT. constructor; [|apply (au_attempts T HT)|].
  - intros id d Hd. destruct (au_history T HT id d Hd) as [Hc Hn _ _ Hdel]. split; [done|]. split; [done|].
    intros Hs. destruct (Hdel Hs) as (a & Ha & Ho). apply Exists_exists. exists a. split; [|done]. by apply last_Some_elem_of.
  - apply Forall_forall. intros a Ha. destruct (au_attempts T HT a Ha) as [d Hd].
    destruct (au_history T HT _ d Hd) as [_ _ _ Hh _]. rewrite Forall_forall in Hh. by apply Hh, list_elem_of_filter.
Qed.

Lemma I1_audited T id : audit T ->
  id ∈ I1 T -> exists r, r ∈ trail T id /\ t_from_status r = Some DELIVERED /\ t_to_status r = DLQ.
Proof.
  intros HT [(r & Hr & <-) Hn]%elem_of_group_having.
  apply list_elem_of_filter in Hr as [_ Hr]. destruct (au_trail T HT r Hr) as [d Hd].
  destruct (au_history T HT _ d Hd) as [_ _ Hp _ _].
  destruct (decide (Exists (fun r => t_from_status r = Some DELIVERED) (trail T (t_delivery_id r)))) as [H|H].
  - apply Exists_exists in H as (r' & Hr' & Hf). exists r'. split; [done|]. split; [done|]. by eapply path_from_delivered.
  - apply not_Exists_Forall in H; [|apply _]. destruct (path_delivered _ _ _ Hp H) as [_ Hlen].
    assert (filter (fun x => t_delivery_id x = t_delivery_id r) (filter (fun x => t_to_status x = DELIVERED) (delivery_transitions T)) =
      filter (fun x => t_to_status x = DELIVERED) (trail T (t_delivery_id r))) as E.
    { unfold trail. rewrite !list_filter_filter. apply list_filter_iff. tauto. }
    rewrite E in Hn. apply Z.ltb_lt in Hn. lia.
Qed.

Lemma I1_staying T : audit T ->
  Forall (fun r => t_from_status r <> Some DELIVERED) (delivery_transitions T) -> I1 T = [].
Proof.
  intros HT Hall. destruct (I1 T) as [|id l] eqn:E; [done|]. exfalso.
  destruct (I1_audited T id HT) as (r & Hr & Hf & _); [rewrite E; by left|].
  rewrite Forall_forall in Hall. apply (Hall r); [|done]. by apply list_elem_of_filter in Hr as [_ Hr].
Qed.

Section Counted.
Context (T : tables) (HT : counted T).

Lemma I2_counted : I2 T = [].
Proof using HT.
  apply group_having_none. intros a Ha. destruct (ct_refs T HT a Ha) as [d Hd].
  destruct (ct_row T HT _ d Hd) as (Hc & Hn & _).
  change (filter (fun a' => a_delivery_id a' = a_delivery_id a) (delivery_attempts T)) with (attempts_of T (a_delivery_id a)).
  assert (a ∈ attempts_of T (a_delivery_id a)) as Hin by (by apply list_elem_of_filter).
  assert (length (attempts_of T (a_delivery_id a)) = length (seqZ 1 (d_attempt_count d))) as Hl by (by rewrite <- Hn, length_map).
  rewrite length_seqZ in Hl. apply negb_false_iff, bool_decide_eq_true. rewrite Hn, sql_max_seqZ; [f_equal; lia|].
  destruct (attempts_of T (a_delivery_id a)); [by apply elem_of_nil in Hin|]. cbn in Hl. lia.
Qed.

Lemma I5_counted : I5 T = [].
Proof using HT.
  unfold I5. rewrite filter_none; [done|]. apply Forall_forall. intros [id d] Hd%elem_of_map_to_list [Hs Hn].
  destruct (ct_row T HT id d Hd) as (_ & _ & Hdel). apply Hdel, Exists_exists in Hs as (a & [H1 H2]%list_elem_of_filter & Ho).
  apply Hn, Exists_exists. by exists a.
Qed.

(** The rows of one delivery in the join. *)
Lemma with_attempts_group (P : string * delivery_row * option attempt_row -> Prop) `{!forall r, Decision (P r)} id d :
  deliveries T !! id = Some d -> (forall r, P r -> r.1.1 = id) -> (forall o, P (id, d, o)) ->
  filter P (with_attempts T) =
    match attempts_of T id with [] => [(id, d, None)] | atts => map (fun a => (id, d, Some a)) atts end.
Proof.
  intros Hd Hid HP. unfold with_attempts. pose proof (NoDup_fst_map_to_list (deliveries T)) as Hnd.
  apply elem_of_map_to_list in Hd. induction (map_to_list (deliveries T)) as [|[id' d'] l IH]; [by apply elem_of_nil in Hd|].
  cbn [flat_map]. rewrite filter_app. apply NoDup_cons in Hnd as [Hn Hnd].
  apply elem_of_cons in Hd as [[= <- <-]|Hd].
  - rewrite filter_all, (filter_none _ (flat_map _ l)), app_nil_r; [done| |].
    + apply Forall_forall. intros [[i x] o] Hin Hp. apply Hid in Hp. cbn in Hp. subst i. apply Hn.
      apply list_elem_of_In, in_flat_map in Hin as ([i y] & Hin & Hr).
      apply list_elem_of_fmap. exists (i, y). split; [|by apply list_elem_of_In].
      cbn. destruct (filter _ (delivery_attempts T)); cbn in Hr; [destruct Hr as [[= <- _ _]|[]]; done|].
      destruct Hr as [[= <- _ _]|Hr]; [done|]. by apply in_map_iff in Hr as (? & [= <- _ _] & _).
    + destruct (filter _ (delivery_attempts T)); [by repeat constructor|]. apply Forall_map, Forall_forall. by intros ? _.
  - rewrite filter_none; [by apply IH|]. apply Forall_forall. intros r Hr Hp%Hid. apply Hn.
    apply list_elem_of_fmap. exists (id, d). split; [|done]. cbn.
    destruct (filter _ (delivery_attempts T)).
    + apply list_elem_of_singleton in Hr as ->. done.
    + by apply list_elem_of_fmap in Hr as (? & -> & _).
Qed.

(** Every counter is the number of attempts, however the rows of the join are
    told apart within a delivery. *)
Lemma count_counted {K} `{EqDecision K} (g : delivery_row -> K) :
  group_having (fun r => (r.1.1, g r.1.2)) miscounted (with_attempts T) = [].
Proof using HT.
  apply group_having_none. intros [[id d] o] Hr.
  assert (deliveries T !! id = Some d) as Hd.
  { apply list_elem_of_In, in_flat_map in Hr as ([i y] & Hin%list_elem_of_In%elem_of_map_to_list & Hr).
    destruct (filter _ (delivery_attempts T)) as [|a l]; [destruct Hr as [[= <- <- _]|[]]; done|].
    by apply in_map_iff in Hr as (a' & [= <- <- _] & _). }
  cbn. rewrite (with_attempts_group _ id d Hd); [|by intros r [= -> _]|done].
  destruct (ct_row T HT id d Hd) as (Hc & Hn & _).
  assert (length (attempts_of T id) = Z.to_nat (d_attempt_count d)) as Hl by (by rewrite <- (length_map a_attempt_number), Hn, length_seqZ).
  destruct (attempts_of T id) as [|a l]; cbn in Hl; unfold miscounted; cbn [map];
    apply negb_false_iff, Z.eqb_eq; unfold count_attempts; cbn; [lia|].
  assert (omap (fun r : string * delivery_row * option attempt_row => r.2) (map (fun a => (id, d, Some a)) l) = l) as ->
    by (clear; induction l as [|x l IH]; cbn; congruence).
  lia.
Qed.

Lemma I3_counted : I3 T = [].
Proof using HT. unfold I3. by rewrite count_counted. Qed.

Lemma E2_counted : E2 T = [].
Proof using HT.
  unfold E2. rewrite (count_counted (fun d => (d_attempt_count d, d_status d))).
  rewrite filter_none; [done|]. apply Forall_forall. by intros [id d] _ ?%elem_of_nil.
Qed.
End Counted.

(** ** Property *)

(** C15: the queries of invariants.sql in every state that flows run one after
    the other reach. From tables with endpoints only, whatever flows of the
    engine run one after the other, to their end or until their process dies,
    with any answers and failures: the numbering of attempts (I2), the attempt
    counters (I3, and query 2 of expectation.sql) and the success behind each
    DELIVERED (I5) are in order, as invariants.sql demands. I1, which it demands
    to be empty too, is not always ([delivered_twice]): what it reports are
    deliveries moved from DELIVERED to the dead-letter queue in between, and it
    is empty while no transition leaves DELIVERED. Jobs whose calls interleave
    are not covered here: for them Ledger.v shows that the attempts stay in
    order, and that I1 may report a delivery without such a move. *)
Theorem invariants_found {RS BS : Type} `{!RedisServer RS} `{!RedisLaws RS} `{!BullMQ BS} `{!BullMQLaws BS}
    (cfg : Config) (hmac : string -> string -> string) (s s' : shared RS BS) :
  blank (pg_tables (s_pg s)) -> rtc (sys_step cfg hmac) s s' ->
  let T := pg_tables (s_pg s') in
  I2 T = [] /\ I3 T = [] /\ I5 T = [] /\ E2 T = [] /\
  (forall id, id ∈ I1 T -> exists r, r ∈ trail T id /\ t_from_status r = Some DELIVERED /\ t_to_status r = DLQ) /\
  (Forall (fun r => t_from_status r <> Some DELIVERED) (delivery_transitions T) -> I1 T = []).
Proof.
  intros Hb Hs T. assert (audit T) as HT by by apply (sys_steps_audit cfg hmac s s' Hs), blank_audit.
  pose proof (audit_counted T HT) as HC.
  split; [by apply I2_counted|]. split; [by apply I3_counted|]. split; [by apply I5_counted|].
  split; [by apply E2_counted|]. split; [by intros id; apply I1_audited|]. by apply I1_staying.
Qed.

Lemma invariants_found_witness :
  attempted_run.1 = Threw (NewError "http_503") /\ I3 (tables_of attempted_run.2) = [] /\
  I1 (tables_of attempted_run.2) = [].
Proof.
  destruct (invariants_found default_config toy_hmac blank_world.1 attempted_run.2.1 blank_world_blank ingested_steps)
    as (_ & H3 & _).
  split; [vm_compute; reflexivity|]. split; [exact H3|]. vm_compute; reflexivity.
Defined.

(** ** Two DELIVERED transitions

    The last attempt of a job succeeds but the lock cannot be given back, so
    the job fails; its last failed event moves the delivery to the dead-letter
    queue; a manual retry delivers it again. *)

Definition run_flow (cfg : Config) (o : oracle) (f : flow) (w : mem_world) : mem_world :=
  match f with
  | FIngest p => (run_with (serve o) (ingestEvent cfg p) w).2
  | FEnqueue id => (run_with (serve o) (enqueueDelivery id) w).2
  | FDeliver sched j token => (run_with (serve o) (processDelivery cfg toy_hmac sched j token) w).2
  | FFailed job => (run_with (serve o) (handleFailed cfg job) w).2
  | FRetry id => (run_with (serve o) (retryFromDlq id) w).2
  | FSweep limit => (run_with (serve o) (claimUnenqueued cfg limit) w).2
  | FRegister is_url issues_of body => (run_with (serve o) (postEndpoints is_url issues_of cfg body) w).2
  | FPatch is_url issues_of id body => (run_with (serve o) (patchEndpoint is_url issues_of id body) w).2
  end.

Lemma run_flow_step cfg o f (w : mem_world) : idle w -> sys_step cfg toy_hmac w.1 (run_flow cfg o f w).1.
Proof.
  intros Hi. apply (flow_step cfg toy_hmac f w (run_flow cfg o f w) Hi).
  destruct f; cbn [flow_runs run_flow]; eexists; apply serve_exec.
Qed.

(** No transaction and no row lock left. *)
Definition idleb (w : mem_world) : bool :=
  match l_tx w.2, pg_locks (s_pg w.1) with None, [] => true | _, _ => false end.

Lemma idleb_idle w : idleb w = true -> idle w.
Proof.
  unfold idleb, idle. destruct (l_tx w.2); [done|]. destruct (pg_locks (s_pg w.1)); [|done].
  intros _. split; [done|]. intros k. apply not_elem_of_nil.
Qed.

(** Flows one after the other, each with the keys of Redis gone before it. *)
Fixpoint run_flows (cfg : Config) (l : list (oracle * flow)) (w : mem_world) : option mem_world :=
  match l with
  | [] => Some w
  | (o, f) :: l =>
      let w := (with_redis {| mr_keys := ∅; mr_scripts := mr_scripts (s_redis w.1) |} w.1, w.2) in
      if idleb w then run_flows cfg l (run_flow cfg o f w) else None
  end.

Lemma run_flows_steps cfg l (w w' : mem_world) :
  run_flows cfg l w = Some w' -> rtc (sys_step cfg toy_hmac) w.1 w'.1.
Proof.
  revert w. induction l as [|[o f] l IH]; intros w; cbn [run_flows]; [by intros [= <-]|].
  set (w1 := (with_redis _ w.1, w.2)). destruct (idleb w1) eqn:Hi; [|done]. intros H.
  eapply rtc_l; [|eapply rtc_l; [|by apply IH]].
  - instantiate (1 := w1.1). by apply sys_other.
  - by apply run_flow_step, idleb_idle.
Qed.

Definition deliver_first : flow := FDeliver WorkerSpec.demo_schedule first_job None.
Definition first_failure : flow := FFailed (Some {| fj_attemptsMade := 5; fj_deliveryId := first_id |}).

Definition twice : list (oracle * flow) :=
  (reliable, FIngest (demo_params "k1")) :: replicate 4 (answering 503, deliver_first) ++
  [(lock_stuck, deliver_first); (reliable, first_failure); (reliable, FRetry first_id); (reliable, deliver_first)].

(** A state the engine can reach for which I1 and query 1 of expectation.sql
    report a delivery. *)
Theorem delivered_twice : exists w,
  rtc (sys_step default_config toy_hmac) blank_world.1 w.1 /\
  I1 (tables_of w) = [first_id] /\ map fst (E1 (tables_of w)) = [first_id].
Proof.
  destruct (run_flows default_config twice blank_world) as [w|] eqn:E; [|vm_compute in E; discriminate E].
  exists w. split; [by eapply run_flows_steps|]. vm_compute in E. injection E as <-. split; vm_compute; reflexivity.
Qed.

(** A database that cannot be read. *)
Definition unreadable : oracle := {|
  o_random := 0; o_bytes := "token"; o_status := 200; o_body := "ok";
  o_fail := fun c => match c with
    | Pg (POOL_QUERY (SelectForWorker _)) => Some (JsError "Error" "Connection terminated")
    | _ => None end |}.

Definition unread : list (oracle * flow) :=
  (reliable, FIngest (demo_params "k1")) :: replicate 5 (unreadable, deliver_first) ++ [(reliable, first_failure)].

(** A delivery in the dead-letter queue that has not been attempted once. *)
Theorem dead_unattempted : exists w,
  rtc (sys_step default_config toy_hmac) blank_world.1 w.1 /\ map fst (E3 (tables_of w)) = [first_id].
Proof.
  destruct (run_flows default_config unread blank_world) as [w|] eqn:E; [|vm_compute in E; discriminate E].
  exists w. split; [by eapply run_flows_steps|]. vm_compute in E. injection E as <-. vm_compute; reflexivity.
Qed.

(** ** A delivery left DELIVERING *)

Lemma enqueued_all_lookup T ids t id :
  id ∉ ids -> deliveries (apply_writes T (map (fun id => WEnqueued id t) ids)) !! id = deliveries T !! id.
Proof.
  revert T. induction ids as [|i ids IH]; intros T; [done|]. rewrite not_elem_of_cons. intros [Hne Hn].
  cbn [map apply_writes foldl]. unfold apply_writes in IH. rewrite (IH (apply_write T (WEnqueued i t)) Hn). cbn.
  by rewrite lookup_alter_ne.
Qed.

(** A delivery that a dead worker left DELIVERING, which I4 reports after five
    minutes, is left as it is by every sweep of the reconciler and by every
    manual retry, whatever they are answered: only a job can bring it back. *)
Theorem delivering_stays {RS BS : Type} `{!RedisServer RS} `{!RedisLaws RS} `{!BullMQ BS} `{!BullMQLaws BS}
    (cfg : Config) (hmac : string -> string -> string) (f : flow) (w w' : world RS BS) (id : string) (d : delivery_row) :
  match f with FSweep _ | FRetry _ => True | _ => False end ->
  idle w -> flow_runs cfg hmac f w w' ->
  deliveries (tables_of w) !! id = Some d -> d_status d = DELIVERING ->
  deliveries (tables_of w') !! id = Some d.
Proof.
  intros Hf Hi Hx Hd Hs. destruct f as [| | | |i|limit| |]; try done; destruct Hx as [o Hx].
  - pose proof (wp_retry_post i w Hi) as H. rewrite wp_exec in H. destruct (H _ _ Hx) as (_ & _ & H1).
    destruct (deliveries (tables_of w) !! i) as [row|] eqn:Hrow; cbn in H1; [|by destruct H1 as [-> _]].
    destruct (d_status row) eqn:Hst; try (by destruct H1 as [-> _]).
    destruct H1 as [(t0 & _ & -> & _)|[-> _]]; [|done]. cbn. rewrite lookup_alter_ne; [done|]. intros ->. congruence.
  - pose proof (wp_claimUnenqueued cfg limit w Hi) as H. rewrite wp_exec in H. specialize (H _ _ Hx).
    assert (forall n, claimed cfg limit w w' n -> deliveries (tables_of w') !! id = Some d) as Hc.
    { intros n (t0 & ids & _ & _ & _ & _ & Hst & _ & HT & _). rewrite HT, enqueued_all_lookup; [done|].
      intros Hin. rewrite Forall_forall in Hst. destruct (Hst id Hin) as (d' & Hd' & H'). rewrite Hd in Hd'. injection Hd' as <-.
      unfold claimable in H'. rewrite Hs in H'. discriminate H'. }
    destruct o as [n|e|]; [eapply Hc; apply H|destruct H as (_ & [-> |[n H]]); [done|by eapply Hc]|done].
Qed.
