(* ===== verification/Migrations.v ===== *)
(** * The migrations

    src/migrations: the DDL of the two migrations as data, run on a catalog of
    tables and indexes, forth and back; the rows the INSERT statements of
    Schema.v make, and the constraints they break, by that DDL; that the tables
    the engine keeps satisfy all of it; and which indexes the sweep and the
    queries of src/scripts/explain-check.ts can use. *)

From S2P Require Import Prelude Async Config Json Dates Tables Queries Schema Redis Services Concrete.
From S2P Require Import Repo Ingest Signature AuditTrail.
From Stdlib Require Import ZArith Lia String.
From stdpp Require Import prelude strings gmap.

Open Scope Z_scope.

(** ** SQL *)

Inductive value :=
| Null | Text (s : string) | Uuid (s : string) | Int (n : Z) | Bool (b : bool) | Time (us : Z) | Jsonb (j : json).

Inductive sqltype := TUuid | TText | TBoolean | TInt | TBigint | TTimestamptz | TJsonb.

Definition row := list (string * value).

Fixpoint get (r : row) (col : string) : value :=
  match r with
  | [] => Null
  | (c, v) :: r => if String.eqb c col then v else get r col
  end.

Definition in_range (bits n : Z) : bool := (- 2 ^ (bits - 1) <=? n) && (n <? 2 ^ (bits - 1)).

Definition typed (ty : sqltype) (v : value) : bool :=
  match ty, v with
  | _, Null | TUuid, Uuid _ | TText, Text _ | TBoolean, Bool _ | TTimestamptz, Time _ | TJsonb, Jsonb _ => true
  | TInt, Int n => in_range 32 n
  | TBigint, Int n => in_range 64 n
  | _, _ => false
  end.

Definition is_null (v : value) : bool := match v with Null => true | _ => false end.

(** [v = v']; [None] is unknown. No constraint or predicate compares [jsonb]. *)
Definition sql_eq (v v' : value) : option bool :=
  match v, v' with
  | Null, _ | _, Null => None
  | Text s, Text s' | Uuid s, Uuid s' => Some (String.eqb s s')
  | Int n, Int n' | Time n, Time n' => Some (n =? n')
  | Bool b, Bool b' => Some (Bool.eqb b b')
  | _, _ => Some false
  end.

(** [v < v'] on times. *)
Definition sql_lt (v v' : value) : option bool :=
  match v, v' with Time n, Time n' => Some (n <? n') | _, _ => None end.

Inductive cond :=
| CEq (col : string) (v : value)
| CLt (col : string) (v : value)
| CIn (col : string) (vs : list value)
| CNotNull (col : string)
| CAnd (c1 c2 : cond)
| COr (c1 c2 : cond).

Definition and3 (a b : option bool) : option bool :=
  match a, b with Some false, _ | _, Some false => Some false | Some true, Some true => Some true | _, _ => None end.
Definition or3 (a b : option bool) : option bool :=
  match a, b with Some true, _ | _, Some true => Some true | Some false, Some false => Some false | _, _ => None end.

Fixpoint eval_cond (r : row) (c : cond) : option bool :=
  match c with
  | CEq col v => sql_eq (get r col) v
  | CLt col v => sql_lt (get r col) v
  | CIn col vs => foldr or3 (Some false) (map (sql_eq (get r col)) vs)
  | CNotNull col => Some (negb (is_null (get r col)))
  | CAnd c1 c2 => and3 (eval_cond r c1) (eval_cond r c2)
  | COr c1 c2 => or3 (eval_cond r c1) (eval_cond r c2)
  end.

(** [WHERE c] takes the rows on which [c] is true, not unknown. *)
Definition selects (c : cond) (r : row) : bool := match eval_cond r c with Some b => b | None => false end.

(** [CHECK (c)] rejects the rows on which [c] is false. *)
Definition passes_check (c : cond) (r : row) : bool := match eval_cond r c with Some b => b | None => true end.

(** ** The catalog *)

Inductive col_default := gen_random_uuid | now_ | constant (v : value) | identity.

Record column := { col_name : string; col_type : sqltype; col_not_null : bool; col_dflt : option col_default }.

Inductive table_constraint :=
| UniqueKey (index_name : string) (cols : list string)   (** [PRIMARY KEY] and [UNIQUE] *)
| CheckThat (c : cond)
| References (col : string) (table : string) (key : string).

Record table_def := { td_columns : list column; td_constraints : list table_constraint }.

Inductive index_method := btree | brin.

(** The columns with whether they are [DESC]; the predicate of a partial
    index; and whether a constraint of the table needs the index. *)
Record index_def := {
  ix_table : string; ix_method : index_method; ix_columns : list (string * bool);
  ix_where : option cond; ix_constraint : bool
}.

Record catalog := { cat_tables : gmap string table_def; cat_indexes : gmap string index_def }.

Inductive ddl :=
| CreateTable (name : string) (def : table_def)
| CreateIndex (name : string) (ix : index_def)
| DropTableIfExists (name : string)
| DropIndexIfExists (name : string).

Definition asc (cols : list string) : list (string * bool) := map (fun c => (c, false)) cols.

(** The indexes the keys of a table make. *)
Definition key_index (table : string) (k : table_constraint) : option (string * index_def) :=
  match k with
  | UniqueKey n cols => Some (n, {| ix_table := table; ix_method := btree; ix_columns := asc cols;
                                    ix_where := None; ix_constraint := true |})
  | _ => None
  end.

Definition key_indexes (table : string) (def : table_def) : list (string * index_def) :=
  omap (key_index table) (td_constraints def).

(** Tables and indexes share their names. *)
Definition name_taken (c : catalog) (n : string) : bool :=
  bool_decide (is_Some (cat_tables c !! n)) || bool_decide (is_Some (cat_indexes c !! n)).

Definition has_column (def : table_def) (col : string) : bool :=
  existsb (fun k => String.eqb (col_name k) col) (td_columns def).

(** A foreign key needs a table with that key. *)
Definition reference_ok (c : catalog) (k : table_constraint) : bool :=
  match k with
  | References _ t key =>
      match cat_tables c !! t with
      | Some def => existsb (fun k' => match k' with UniqueKey _ [col] => String.eqb col key | _ => false end) (td_constraints def)
      | None => false
      end
  | _ => true
  end.

Definition refers_to (t : string) (def : table_def) : bool :=
  existsb (fun k => match k with References _ t' _ => String.eqb t' t | _ => false end) (td_constraints def).

Definition add_index (n : string) (ix : index_def) (c : catalog) : option catalog :=
  if name_taken c n then None else Some {| cat_tables := cat_tables c; cat_indexes := <[n := ix]> (cat_indexes c) |}.

Definition add_indexes (l : list (string * index_def)) (c : catalog) : option catalog :=
  foldl (fun acc '(n, ix) => c ← acc; add_index n ix c) (Some c) l.

(** A catalog without a table and its indexes. *)
Definition without (t : string) (c : catalog) : catalog := {|
  cat_tables := delete t (cat_tables c);
  cat_indexes := filter (fun '(_, ix) => ix_table ix <> t) (cat_indexes c) |}.

(** What a statement makes of the catalog; [None]: it fails. *)
Definition run_ddl (d : ddl) (c : catalog) : option catalog :=
  match d with
  | CreateTable n def =>
      if name_taken c n || negb (forallb (reference_ok c) (td_constraints def)) then None
      else add_indexes (key_indexes n def) {| cat_tables := <[n := def]> (cat_tables c); cat_indexes := cat_indexes c |}
  | CreateIndex n ix =>
      match cat_tables c !! ix_table ix with
      | Some def => if forallb (fun col => has_column def col.1) (ix_columns ix) then add_index n ix c else None
      | None => None
      end
  | DropTableIfExists n =>
      match cat_tables c !! n with
      | None => if bool_decide (is_Some (cat_indexes c !! n)) then None else Some c
      | Some _ => if existsb (fun '(m, def) => negb (String.eqb m n) && refers_to n def) (map_to_list (cat_tables c))
                  then None else Some (without n c)
      end
  | DropIndexIfExists n =>
      match cat_indexes c !! n with
      | None => if bool_decide (is_Some (cat_tables c !! n)) then None else Some c
      | Some ix => if ix_constraint ix then None
                   else Some {| cat_tables := cat_tables c; cat_indexes := delete n (cat_indexes c) |}
      end
  end.

(** A migration is one transaction. *)
Definition migrate (ds : list ddl) (c : catalog) : option catalog :=
  foldl (fun acc d => c ← acc; run_ddl d c) (Some c) ds.

Definition no_catalog : catalog := {| cat_tables := ∅; cat_indexes := ∅ |}.

(** ** The initial schema *)

Definition nullable (n : string) (ty : sqltype) : column := {|
  col_name := n; col_type := ty; col_not_null := false; col_dflt := None |}.
Definition not_null (n : string) (ty : sqltype) : column := {|
  col_name := n; col_type := ty; col_not_null := true; col_dflt := None |}.
Definition not_null_default (n : string) (ty : sqltype) (d : col_default) : column := {|
  col_name := n; col_type := ty; col_not_null := true; col_dflt := Some d |}.

Definition one_of (col : string) (l : list string) : table_constraint := CheckThat (CIn col (map Text l)).

Definition plain_index (table : string) (method : index_method) (cols : list (string * bool)) : index_def := {|
  ix_table := table; ix_method := method; ix_columns := cols; ix_where := None; ix_constraint := false |}.
Definition partial_index (table : string) (cols : list (string * bool)) (c : cond) : index_def := {|
  ix_table := table; ix_method := btree; ix_columns := cols; ix_where := Some c; ix_constraint := false |}.

Definition endpoints_def : table_def := {|
  td_columns := [not_null_default "id" TUuid gen_random_uuid; not_null "client_id" TText; not_null "url" TText;
    not_null "signing_secret" TText; not_null_default "is_active" TBoolean (constant (Bool true));
    not_null_default "created_at" TTimestamptz now_];
  td_constraints := [UniqueKey "endpoints_pkey" ["id"]] |}.

Definition events_def : table_def := {|
  td_columns := [not_null_default "id" TUuid gen_random_uuid; not_null "client_id" TText;
    not_null "idempotency_key" TText; not_null "event_type" TText; not_null "payload" TJsonb;
    not_null_default "received_at" TTimestamptz now_];
  td_constraints := [UniqueKey "events_pkey" ["id"]; UniqueKey "uq_events_client_idem" ["client_id"; "idempotency_key"]] |}.

Definition deliveries_def : table_def := {|
  td_columns := [not_null_default "id" TUuid gen_random_uuid; not_null "event_id" TUuid; not_null "endpoint_id" TUuid;
    not_null_default "status" TText (constant (Text "PENDING")); not_null_default "attempt_count" TInt (constant (Int 0));
    nullable "next_attempt_at" TTimestamptz; not_null_default "enqueued" TBoolean (constant (Bool false));
    not_null_default "created_at" TTimestamptz now_; not_null_default "updated_at" TTimestamptz now_];
  td_constraints := [UniqueKey "deliveries_pkey" ["id"]; References "event_id" "events" "id";
    References "endpoint_id" "endpoints" "id";
    one_of "status" ["PENDING"; "DELIVERING"; "DELIVERED"; "FAILED"; "DLQ"];
    UniqueKey "uq_deliveries_event_endpoint" ["event_id"; "endpoint_id"]] |}.

Definition delivery_attempts_def : table_def := {|
  td_columns := [not_null_default "id" TBigint identity; not_null "delivery_id" TUuid; not_null "attempt_number" TInt;
    not_null "outcome" TText; nullable "http_status" TInt; nullable "response_body" TText;
    nullable "error_message" TText; nullable "latency_ms" TInt; not_null "started_at" TTimestamptz;
    not_null "finished_at" TTimestamptz];
  td_constraints := [UniqueKey "delivery_attempts_pkey" ["id"]; References "delivery_id" "deliveries" "id";
    one_of "outcome" ["SUCCESS"; "HTTP_ERROR"; "TIMEOUT"; "CONN_ERROR"; "CIRCUIT_OPEN"; "LOCK_LOST"];
    UniqueKey "uq_attempts" ["delivery_id"; "attempt_number"]] |}.

Definition delivery_transitions_def : table_def := {|
  td_columns := [not_null_default "id" TBigint identity; not_null "delivery_id" TUuid; nullable "from_status" TText;
    not_null "to_status" TText; nullable "reason" TText;
    not_null_default "actor" TText (constant (Text "worker")); not_null_default "created_at" TTimestamptz now_];
  td_constraints := [UniqueKey "delivery_transitions_pkey" ["id"]; References "delivery_id" "deliveries" "id";
    one_of "actor" ["worker"; "api"; "reconciler"; "manual-retry"]] |}.

Definition idx_deliveries_unenqueued : index_def :=
  partial_index "deliveries" (asc ["created_at"]) (CEq "enqueued" (Bool false)).

(** A table and its indexes, as the migration creates them. *)
Definition created (t : string) (def : table_def) (ixs : list (string * index_def)) : list ddl :=
  CreateTable t def :: map (fun '(n, ix) => CreateIndex n ix) ixs.

Definition initial_tables : list (string * table_def * list (string * index_def)) := [
  ("endpoints", endpoints_def, [("idx_endpoints_client", plain_index "endpoints" btree (asc ["client_id"]))]);
  ("events", events_def, []);
  ("deliveries", deliveries_def, [
    ("idx_deliveries_unenqueued", idx_deliveries_unenqueued);
    ("idx_deliveries_status_updated", plain_index "deliveries" btree [("status", false); ("updated_at", true)]);
    ("idx_deliveries_endpoint_created", plain_index "deliveries" btree [("endpoint_id", false); ("created_at", true)]);
    ("idx_deliveries_event", plain_index "deliveries" btree (asc ["event_id"]))]);
  ("delivery_attempts", delivery_attempts_def, [
    ("idx_attempts_delivery", plain_index "delivery_attempts" btree (asc ["delivery_id"; "attempt_number"]));
    ("idx_attempts_brin", plain_index "delivery_attempts" brin (asc ["started_at"]))]);
  ("delivery_transitions", delivery_transitions_def, [
    ("idx_transitions_delivery", plain_index "delivery_transitions" btree (asc ["delivery_id"; "id"]));
    ("idx_transitions_brin", plain_index "delivery_transitions" brin (asc ["created_at"]))])].

Definition initial_up : list ddl := concat (map (fun '(t, def, ixs) => created t def ixs) initial_tables).

Definition initial_down : list ddl := [
  DropTableIfExists "delivery_transitions"; DropTableIfExists "delivery_attempts";
  DropTableIfExists "deliveries"; DropTableIfExists "events"; DropTableIfExists "endpoints"].

(** ** The index of the reconciler *)

Definition idx_deliveries_pending_stuck : index_def :=
  partial_index "deliveries" (asc ["updated_at"]) (CEq "status" (Text "PENDING")).
Definition idx_deliveries_failed_overdue : index_def :=
  partial_index "deliveries" (asc ["next_attempt_at"]) (CAnd (CEq "status" (Text "FAILED")) (CNotNull "next_attempt_at")).

Definition pending_index_up : list ddl := [
  DropIndexIfExists "idx_deliveries_unenqueued";
  CreateIndex "idx_deliveries_pending_stuck" idx_deliveries_pending_stuck;
  CreateIndex "idx_deliveries_failed_overdue" idx_deliveries_failed_overdue].

Definition pending_index_down : list ddl := [
  DropIndexIfExists "idx_deliveries_pending_stuck"; DropIndexIfExists "idx_deliveries_failed_overdue";
  CreateIndex "idx_deliveries_unenqueued" idx_deliveries_unenqueued].

Definition initial_schema : catalog := default no_catalog (migrate initial_up no_catalog).
Definition current_schema : catalog := default no_catalog (migrate pending_index_up initial_schema).

Example both_migrations : migrate (initial_up ++ pending_index_up) no_catalog = Some current_schema.
Proof. vm_compute. reflexivity. Qed.

Example both_down : migrate (pending_index_down ++ initial_down) current_schema = Some no_catalog.
Proof. vm_compute. reflexivity. Qed.

(** ** Down after up *)

(** Every index is on a table of the catalog, every foreign key too, and names
    are used once. *)
Record well_formed (c : catalog) : Prop := {
  wf_indexes n ix : cat_indexes c !! n = Some ix -> is_Some (cat_tables c !! ix_table ix);
  wf_references t def t' : cat_tables c !! t = Some def -> refers_to t' def = true -> is_Some (cat_tables c !! t');
  wf_names n : is_Some (cat_indexes c !! n) -> cat_tables c !! n = None
}.

Lemma migrate_app ds1 ds2 c : migrate (ds1 ++ ds2) c = migrate ds1 c ≫= migrate ds2.
Proof.
  assert (forall ds, foldl (fun acc d => x ← acc; run_ddl d x) None ds = None) as Hnone by (by induction ds).
  unfold migrate. rewrite foldl_app. destruct (foldl _ (Some c) ds1) as [c1|]; [done|apply Hnone].
Qed.

Lemma migrate_cons d ds c : migrate (d :: ds) c = run_ddl d c ≫= migrate ds.
Proof. exact (migrate_app [d] ds c). Qed.

Lemma name_free c n : name_taken c n = false -> cat_tables c !! n = None /\ cat_indexes c !! n = None.
Proof.
  intros [H1%bool_decide_eq_false H2%bool_decide_eq_false]%orb_false_iff.
  by rewrite eq_None_not_Some, eq_None_not_Some.
Qed.

(** [c'] is [c] with more indexes on [t]. *)
Record indexed (t : string) (c c' : catalog) : Prop := {
  id_tables : cat_tables c' = cat_tables c;
  id_without : without t c' = without t c;
  id_wf : is_Some (cat_tables c !! t) -> well_formed c -> well_formed c'
}.

#[export] Instance indexed_preorder t : PreOrder (indexed t).
Proof.
  split; [by constructor|]. intros c1 c2 c3 [H1 H2 H3] [H4 H5 H6]. constructor; [congruence..|].
  intros Ht Hw. rewrite H1 in H6. auto.
Qed.

Lemma add_index_indexed n ix c c' : add_index n ix c = Some c' -> indexed (ix_table ix) c c'.
Proof.
  unfold add_index. destruct (name_taken c n) eqn:Hn; intros [= <-]. apply name_free in Hn as [Ht0 Hn]. constructor; [done|..].
  - unfold without. cbn. f_equal. by rewrite map_filter_insert_False, delete_id by (cbn; auto).
  - intros Ht [Hi Hr Hu]. split; cbn.
    + intros m ix' Hm. apply lookup_insert_Some in Hm as [[_ <-]|[_ Hm]]; [exact Ht|by eapply Hi].
    + exact Hr.
    + intros m [<-|Hm]%lookup_insert_is_Some'; [exact Ht0|by apply Hu].
Qed.

Lemma add_indexes_indexed t l c c' :
  Forall (fun p => ix_table p.2 = t) l -> add_indexes l c = Some c' -> indexed t c c'.
Proof.
  unfold add_indexes. intros Hl. revert c. induction Hl as [|[n ix] l <- Hl IH]; intros c; cbn [foldl]; [by intros [= <-]|].
  cbn [mbind option_bind]. destruct (add_index n ix c) as [c1|] eqn:E.
  - intros H. etrans; [by apply (add_index_indexed n ix)|by apply IH].
  - intros H. exfalso. clear -H. induction l as [|[m ix'] l IH]; [discriminate H|exact (IH H)].
Qed.

Lemma key_indexes_on t def : Forall (fun p => ix_table p.2 = t) (key_indexes t def).
Proof.
  unfold key_indexes. apply Forall_forall. intros [n ix] H%list_elem_of_omap. destruct H as (k & _ & Hk).
  by destruct k; inversion Hk.
Qed.

Lemma reference_present c def t : forallb (reference_ok c) (td_constraints def) = true -> refers_to t def = true ->
  is_Some (cat_tables c !! t).
Proof.
  intros Hr. unfold refers_to. rewrite existsb_exists. intros (k & Hk & Ht). rewrite forallb_forall in Hr.
  specialize (Hr k Hk). destruct k as [| |col t' key]; try discriminate Ht. apply String.eqb_eq in Ht as ->.
  unfold reference_ok in Hr. by destruct (cat_tables c !! t).
Qed.

(** A new table, from which nothing hangs yet. *)
Record with_table (t : string) (def : table_def) (c c' : catalog) : Prop := {
  wt_new : cat_tables c !! t = None;
  wt_tables : cat_tables c' = <[t := def]> (cat_tables c);
  wt_without : without t c' = c;
  wt_wf : well_formed c'
}.

Lemma with_table_indexed t def c c1 c2 : with_table t def c c1 -> indexed t c1 c2 -> with_table t def c c2.
Proof.
  intros [H1 H2 H3 H4] [H5 H6 H7]. constructor; [done|congruence..|]. apply H7; [|done]. rewrite H2, lookup_insert_eq. done.
Qed.

Lemma create_table_with t def c c' :
  well_formed c -> run_ddl (CreateTable t def) c = Some c' -> with_table t def c c'.
Proof.
  intros [Hi Hr Hu] H. cbn [run_ddl] in H. destruct (name_taken c t || _) eqn:E; [discriminate H|].
  apply orb_false_iff in E as [[Ht Htx]%name_free Href%negb_false_iff].
  eapply with_table_indexed; [|eapply add_indexes_indexed; [apply key_indexes_on|exact H]]. clear H. constructor; [done|done|..].
  - destruct c as [ts ixs]. unfold without. cbn in *. f_equal; [by apply delete_insert_id|].
    apply map_filter_id. intros n ix Hix Heq. apply Hi in Hix as Hs. rewrite Heq, Ht in Hs. by destruct Hs.
  - split; cbn.
    + intros n ix Hix. apply lookup_insert_is_Some'. right. by eapply Hi.
    + intros t1 d t2 Hd Ht2. apply lookup_insert_is_Some'. right.
      apply lookup_insert_Some in Hd as [[_ <-]|[_ Hd]]; [by eapply reference_present|by eapply Hr].
    + intros n Hn. rewrite lookup_insert_ne; [by apply Hu|]. intros ->. rewrite Htx in Hn. by destruct Hn.
Qed.

Lemma create_index_indexed n ix c c' : run_ddl (CreateIndex n ix) c = Some c' -> indexed (ix_table ix) c c'.
Proof.
  cbn [run_ddl]. destruct (cat_tables c !! ix_table ix); [|done]. destruct (forallb _ _); [|done]. apply add_index_indexed.
Qed.

Lemma created_with t def ixs c c' :
  well_formed c -> Forall (fun p => ix_table p.2 = t) ixs -> migrate (created t def ixs) c = Some c' -> with_table t def c c'.
Proof.
  intros Hw Hixs. unfold created. rewrite migrate_cons. destruct (run_ddl _ c) as [c1|] eqn:E; [|done]. cbn [mbind option_bind].
  apply create_table_with in E; [|done]. intros H. eapply with_table_indexed; [exact E|]. clear E. revert c1 H.
  induction Hixs as [|[n ix] l <- Hl IH]; intros c1; [by intros [= <-]|]. cbn [map]. rewrite migrate_cons.
  destruct (run_ddl _ c1) as [c2|] eqn:E; [|done]. intros H. etrans; [by eapply create_index_indexed|by apply IH].
Qed.

Lemma drop_new_table t def c c' : well_formed c -> with_table t def c c' -> run_ddl (DropTableIfExists t) c' = Some c.
Proof.
  intros [_ Hr _] [H1 H2 H3 H4]. cbn [run_ddl]. rewrite H2, lookup_insert_eq. destruct (existsb _ _) eqn:E; [exfalso|by rewrite H3].
  apply existsb_exists in E as ([m d] & Hm%list_elem_of_In%elem_of_map_to_list & [Hne%negb_true_iff%String.eqb_neq Ht]%andb_true_iff).
  apply lookup_insert_Some in Hm as [[-> _]|[_ Hm]]; [done|]. destruct (Hr m d t Hm Ht) as [x Hx]. congruence.
Qed.

(** Tables created one after the other and dropped in the opposite order. *)
Lemma drops_undo_creates (gs : list (string * table_def * list (string * index_def))) c c' :
  well_formed c -> Forall (fun g => Forall (fun p => ix_table p.2 = g.1.1) g.2) gs ->
  migrate (concat (map (fun '(t, def, ixs) => created t def ixs) gs)) c = Some c' ->
  well_formed c' /\ migrate (map (fun g => DropTableIfExists g.1.1) (reverse gs)) c' = Some c.
Proof.
  intros Hw Hgs. revert c Hw. induction Hgs as [|[[t def] ixs] gs Hg Hgs IH]; intros c Hw; [by intros [= <-]|].
  cbn [map concat]. rewrite migrate_app. destruct (migrate (created t def ixs) c) as [c1|] eqn:E; [|done].
  apply created_with in E; [|done..]. cbn [mbind option_bind]. intros H. apply IH in H as [Hw' H]; [|by eapply wt_wf].
  split; [done|]. rewrite reverse_cons, map_app, migrate_app, H. by apply (drop_new_table t def).
Qed.

(** The initial migration forth and back: when its [up] succeeds, whatever is
    in the database already, its [down] brings back precisely that. *)
Theorem initial_round_trip (c c' : catalog) :
  well_formed c -> migrate initial_up c = Some c' -> migrate initial_down c' = Some c.
Proof.
  intros Hw H. apply (drops_undo_creates initial_tables) in H as [_ H]; [exact H|done|]. by repeat constructor.
Qed.

Lemma no_catalog_wf : well_formed no_catalog.
Proof. split; [intros n ix Hn|intros t def t' Ht|intros n Hn]; [discriminate Hn|discriminate Ht|reflexivity]. Qed.

Lemma initial_round_trip_witness :
  migrate initial_up no_catalog = Some initial_schema /\ migrate initial_down initial_schema = Some no_catalog.
Proof.
  split; [vm_compute; reflexivity|]. apply initial_round_trip; [exact no_catalog_wf|vm_compute; reflexivity].
Defined.

Lemma create_index_inv n ix c c' : run_ddl (CreateIndex n ix) c = Some c' ->
  cat_tables c !! n = None /\ cat_indexes c !! n = None /\
  c' = {| cat_tables := cat_tables c; cat_indexes := <[n := ix]> (cat_indexes c) |}.
Proof.
  cbn [run_ddl]. destruct (cat_tables c !! ix_table ix); [|done]. destruct (forallb _ _); [|done]. unfold add_index.
  destruct (name_taken c n) eqn:E; [done|]. intros [= <-]. apply name_free in E as [??]. done.
Qed.

Lemma drop_index n ix c :
  cat_indexes c !! n = Some ix -> ix_constraint ix = false ->
  run_ddl (DropIndexIfExists n) c = Some {| cat_tables := cat_tables c; cat_indexes := delete n (cat_indexes c) |}.
Proof. intros H1 H2. cbn [run_ddl]. by rewrite H1, H2. Qed.

Lemma create_index_fresh n ix c :
  cat_tables c !! n = None -> cat_indexes c !! n = None ->
  (exists def, cat_tables c !! ix_table ix = Some def /\ forallb (fun col => has_column def col.1) (ix_columns ix) = true) ->
  run_ddl (CreateIndex n ix) c = Some {| cat_tables := cat_tables c; cat_indexes := <[n := ix]> (cat_indexes c) |}.
Proof.
  intros Ht Hi (def & Hd & Hc). cbn [run_ddl]. rewrite Hd, Hc. unfold add_index, name_taken. rewrite Ht, Hi.
  by rewrite !bool_decide_eq_false_2 by (by intros []).
Qed.

(** The second migration forth and back, from a database with the table and
    the index it replaces. *)
Theorem pending_index_round_trip (c c' : catalog) :
  well_formed c -> cat_tables c !! "deliveries" = Some deliveries_def ->
  cat_indexes c !! "idx_deliveries_unenqueued" = Some idx_deliveries_unenqueued ->
  migrate pending_index_up c = Some c' -> migrate pending_index_down c' = Some c.
Proof.
  intros [_ _ Hu] Ht Hi. pose proof (Hu _ (mk_is_Some _ _ Hi)) as Hfree. unfold pending_index_up, pending_index_down.
  rewrite !migrate_cons, (drop_index _ _ c Hi eq_refl). cbn [mbind option_bind]. rewrite migrate_cons.
  destruct (run_ddl (CreateIndex "idx_deliveries_pending_stuck" _) _) as [c1|] eqn:E1; [|done].
  apply create_index_inv in E1 as (_ & H1 & ->). cbn [mbind option_bind cat_tables cat_indexes] in *. rewrite migrate_cons.
  destruct (run_ddl (CreateIndex "idx_deliveries_failed_overdue" _) _) as [c2|] eqn:E2; [|done].
  apply create_index_inv in E2 as (_ & H2 & ->). cbn [mbind option_bind cat_tables cat_indexes] in *. intros [= <-].
  rewrite (drop_index _ idx_deliveries_pending_stuck) by
    (first [done|by cbn; rewrite lookup_insert_ne, lookup_insert_eq]).
  cbn [mbind option_bind cat_tables cat_indexes]. rewrite migrate_cons.
  rewrite (drop_index _ idx_deliveries_failed_overdue) by
    (first [done|by cbn; rewrite lookup_delete_ne, lookup_insert_eq]).
  cbn [mbind option_bind cat_tables cat_indexes]. set (m := delete _ (delete _ _)).
  assert (m = delete "idx_deliveries_unenqueued" (cat_indexes c)) as ->.
  { unfold m. rewrite (delete_insert_ne _ "idx_deliveries_pending_stuck"), (delete_insert_id _ "idx_deliveries_pending_stuck") by done.
    apply delete_insert_id. by rewrite lookup_insert_ne in H2. }
  rewrite migrate_cons, create_index_fresh; [|done|apply lookup_delete_eq|by exists deliveries_def].
  cbn [cat_tables cat_indexes]. rewrite insert_delete_id by done. by destruct c.
Qed.

Lemma initial_schema_wf : well_formed initial_schema.
Proof.
  apply (drops_undo_creates initial_tables no_catalog); [exact no_catalog_wf|by repeat constructor|vm_compute; reflexivity].
Qed.

Lemma pending_index_round_trip_witness :
  migrate pending_index_up initial_schema = Some current_schema /\ migrate pending_index_down current_schema = Some initial_schema.
Proof.
  split; [vm_compute; reflexivity|].
  apply pending_index_round_trip; [exact initial_schema_wf|vm_compute; reflexivity..].
Defined.

(** ** Rows *)

(** The row an INSERT makes: the columns it gives, and the defaults of the
    others, with the generated id. *)
Definition inserted (now : Z) (id : value) (def : table_def) (given : row) : row :=
  map (fun k => (col_name k,
    if existsb (fun g => String.eqb g.1 (col_name k)) given then get given (col_name k)
    else match col_dflt k with
         | Some gen_random_uuid | Some identity => id
         | Some now_ => Time now
         | Some (constant v) => v
         | None => Null
         end)) (td_columns def).

Definition opt_value {A} (f : A -> value) (o : option A) : value := match o with Some x => f x | None => Null end.

Definition endpoint_tuple (id : string) (e : endpoint_row) : row :=
  [("id", Uuid id); ("client_id", Text (e_client_id e)); ("url", Text (e_url e));
   ("signing_secret", Text (e_signing_secret e)); ("is_active", Bool (e_is_active e)); ("created_at", Time (e_created_at e))].

Definition event_tuple (id : string) (e : event_row) : row :=
  [("id", Uuid id); ("client_id", Text (ev_client_id e)); ("idempotency_key", Text (ev_idempotency_key e));
   ("event_type", Text (ev_event_type e)); ("payload", Jsonb (ev_payload e)); ("received_at", Time (ev_received_at e))].

Definition delivery_tuple (id : string) (d : delivery_row) : row :=
  [("id", Uuid id); ("event_id", Uuid (d_event_id d)); ("endpoint_id", Uuid (d_endpoint_id d));
   ("status", Text (status_text (d_status d))); ("attempt_count", Int (d_attempt_count d));
   ("next_attempt_at", opt_value Time (d_next_attempt_at d)); ("enqueued", Bool (d_enqueued d));
   ("created_at", Time (d_created_at d)); ("updated_at", Time (d_updated_at d))].

Definition attempt_tuple (id : Z) (a : attempt_row) : row :=
  [("id", Int id); ("delivery_id", Uuid (a_delivery_id a)); ("attempt_number", Int (a_attempt_number a));
   ("outcome", Text (outcome_text (a_outcome a))); ("http_status", opt_value Int (a_http_status a));
   ("response_body", opt_value Text (a_response_body a)); ("error_message", opt_value Text (a_error_message a));
   ("latency_ms", Int (a_latency_ms a)); ("started_at", Time (a_started_at a)); ("finished_at", Time (a_finished_at a))].

Definition transition_tuple (id : Z) (r : transition_row) : row :=
  [("id", Int id); ("delivery_id", Uuid (t_delivery_id r));
   ("from_status", opt_value (fun s => Text (status_text s)) (t_from_status r));
   ("to_status", Text (status_text (t_to_status r))); ("reason", Text (t_reason r));
   ("actor", Text (actor_text (t_actor r))); ("created_at", Time (t_created_at r))].

(** The table and the columns an INSERT names, with their values. *)
Definition insert_of (q : stmt) : option (string * row) :=
  match q with
  | InsertEndpoint client url secret =>
      Some ("endpoints", [("client_id", Text client); ("url", Text url); ("signing_secret", Text secret)])
  | InsertEvent client key type payload =>
      Some ("events", [("client_id", Text client); ("idempotency_key", Text key); ("event_type", Text type);
                       ("payload", Jsonb payload)])
  | InsertDelivery event endpoint =>
      Some ("deliveries", [("event_id", Uuid event); ("endpoint_id", Uuid endpoint); ("status", Text "PENDING");
                           ("enqueued", Bool false)])
  | InsertTransition id from to reason by_ =>
      Some ("delivery_transitions", [("delivery_id", Uuid id); ("from_status", opt_value (fun s => Text (status_text s)) from);
        ("to_status", Text (status_text to)); ("reason", Text reason); ("actor", Text (actor_text by_))])
  | InsertAttempt id n o http body err latency started finished =>
      Some ("delivery_attempts", [("delivery_id", Uuid id); ("attempt_number", Int n); ("outcome", Text (outcome_text o));
        ("http_status", opt_value Int http); ("response_body", opt_value Text body); ("error_message", opt_value Text err);
        ("latency_ms", Int latency); ("started_at", Time (ts_of_ms started)); ("finished_at", Time (ts_of_ms finished))])
  | _ => None
  end.

(** The row a write adds, with the number the identity column gives it. *)
Definition added_row (serial : Z) (w : write) : option (string * value * row) :=
  match w with
  | WEvent id r => Some ("events", Uuid id, event_tuple id r)
  | WDelivery id r => Some ("deliveries", Uuid id, delivery_tuple id r)
  | WEndpoint id r => Some ("endpoints", Uuid id, endpoint_tuple id r)
  | WAttempt r => Some ("delivery_attempts", Int serial, attempt_tuple serial r)
  | WTransition r => Some ("delivery_transitions", Int serial, transition_tuple serial r)
  | _ => None
  end.

Definition def_of (t : string) : table_def :=
  default {| td_columns := []; td_constraints := [] |} (cat_tables current_schema !! t).

(** ** The constraints on a row *)

Definition equal (v v' : value) : bool := match sql_eq v v' with Some b => b | None => false end.

Definition same_key (cols : list string) (r r' : row) : bool :=
  forallb (fun col => equal (get r col) (get r' col)) cols.

(** [r] may stand in its table, whose other rows are [others]. *)
Definition constraint_ok (db : string -> list row) (others : list row) (r : row) (k : table_constraint) : bool :=
  match k with
  | UniqueKey _ cols => negb (existsb (same_key cols r) others)
  | CheckThat c => passes_check c r
  | References col t key => is_null (get r col) || existsb (fun r' => equal (get r col) (get r' key)) (db t)
  end.

Definition column_ok (r : row) (k : column) : bool :=
  typed (col_type k) (get r (col_name k)) && negb (col_not_null k && is_null (get r (col_name k))).

Definition fits (db : string -> list row) (def : table_def) (others : list row) (r : row) : bool :=
  bool_decide (map fst r = map col_name (td_columns def)) &&
  forallb (column_ok r) (td_columns def) && forallb (constraint_ok db others r) (td_constraints def).

(** Every row of every table fits among the others. *)
Definition satisfies (c : catalog) (db : string -> list row) : Prop :=
  forall t def, cat_tables c !! t = Some def ->
  forall i r, db t !! i = Some r -> fits db def (delete i (db t)) r = true.

(** ** The tables as rows *)

Section Contents.
(** The numbers the identity columns gave the rows of the two logs. *)
Context (attempt_id transition_id : nat -> Z).

Definition contents (T : tables) (t : string) : list row :=
  if String.eqb t "endpoints" then map (uncurry endpoint_tuple) (map_to_list (endpoints T))
  else if String.eqb t "events" then map (uncurry event_tuple) (map_to_list (events T))
  else if String.eqb t "deliveries" then map (uncurry delivery_tuple) (map_to_list (deliveries T))
  else if String.eqb t "delivery_attempts" then imap (fun i a => attempt_tuple (attempt_id i) a) (delivery_attempts T)
  else if String.eqb t "delivery_transitions" then imap (fun i r => transition_tuple (transition_id i) r) (delivery_transitions T)
  else [].

(** What an INSERT is refused for: a violated constraint, or the conflict
    that [ON CONFLICT DO NOTHING] passes over. *)
Definition refused (T : tables) (q : stmt) : Prop :=
  match q with
  | InsertEvent client key _ _ => exists id e, events T !! id = Some e /\ same_event_key client key e = true
  | _ => stmt_violates T q
  end.

Lemma existsb_map_to_list {A} (cells : string -> A -> row) (f : row -> bool) (m : gmap string A) :
  existsb f (map (uncurry cells) (map_to_list m)) = true <-> exists id x, m !! id = Some x /\ f (cells id x) = true.
Proof.
  rewrite existsb_exists. split.
  - intros (r & ([id x] & <- & Hx%list_elem_of_In%elem_of_map_to_list)%in_map_iff & Hf). by exists id, x.
  - intros (id & x & Hx & Hf). exists (cells id x). split; [|done]. apply in_map_iff. exists (id, x).
    split; [done|]. by apply list_elem_of_In, elem_of_map_to_list.
Qed.

Lemma existsb_imap {A} (cells : nat -> A -> row) (f : row -> bool) (l : list A) :
  existsb f (imap cells l) = true <-> exists i x, l !! i = Some x /\ f (cells i x) = true.
Proof.
  rewrite existsb_exists. split.
  - intros (r & Hr%list_elem_of_In & Hf). apply list_elem_of_lookup in Hr as [i Hi]. rewrite list_lookup_imap in Hi.
    destruct (l !! i) as [x|] eqn:E; [|discriminate Hi]. injection Hi as <-. by exists i, x.
  - intros (i & x & Hx & Hf). exists (cells i x). split; [|done]. apply list_elem_of_In, list_elem_of_lookup.
    exists i. by rewrite list_lookup_imap, Hx.
Qed.

(** A foreign key finds its row. *)
Lemma referenced {A} (cells : string -> A -> row) (m : gmap string A) (id : string) :
  (forall i x, get (cells i x) "id" = Uuid i) ->
  existsb (fun r' => equal (Uuid id) (get r' "id")) (map (uncurry cells) (map_to_list m)) = bool_decide (is_Some (m !! id)).
Proof.
  intros Hid. apply eq_true_iff_eq. rewrite existsb_map_to_list, bool_decide_eq_true. split.
  - intros (i & x & Hx & He). rewrite Hid in He. unfold equal in He. cbn in He. apply String.eqb_eq in He as ->. by exists x.
  - intros [x Hx]. exists id, x. rewrite Hid. unfold equal. cbn. by rewrite String.eqb_refl.
Qed.

(** The rows the statements insert have the defaults of the DDL in the
    columns they leave out. *)
Theorem inserts_defaults (now serial : Z) (T : tables) (busy : lockkey -> Prop) (q : stmt) (r : stmt_resp q) (ws : list write)
    (t : string) (given : row) :
  insert_of q = Some (t, given) -> stmt_ok now T busy q r ws ->
  (ws = [] /\ refused T q) \/
  exists w id, ws = [w] /\ added_row serial w = Some (t, id, inserted now id (def_of t) given).
Proof.
  destruct q; cbn [insert_of]; intros [= <- <-]; cbn [stmt_ok].
  - intros ->. right. eexists _, _. split; [done|]. reflexivity.
  - intros ->. right. eexists _, _. split; [done|]. reflexivity.
  - intros [(H & _ & ->)|(_ & id & _ & _ & ->)]; [by left|]. right. eexists _, _. split; [done|]. reflexivity.
  - intros (id & _ & _ & ->). right. eexists _, _. split; [done|]. reflexivity.
  - intros (id & _ & _ & ->). right. eexists _, _. split; [done|]. reflexivity.
Qed.

Definition well_typed (def : table_def) (r : row) : bool :=
  forallb (fun k => typed (col_type k) (get r (col_name k))) (td_columns def).

Definition nulls_ok (def : table_def) (r : row) : bool :=
  forallb (fun k => negb (col_not_null k && is_null (get r (col_name k)))) (td_columns def).

Definition layout_ok (def : table_def) (r : row) : bool := bool_decide (map fst r = map col_name (td_columns def)).

Lemma forallb_andb {A} (f g : A -> bool) l : forallb (fun x => f x && g x) l = forallb f l && forallb g l.
Proof. induction l as [|x l IH]; [done|]. cbn. rewrite IH. by destruct (f x), (g x), (forallb f l). Qed.

Lemma fits_split db def others r : well_typed def r = true ->
  fits db def others r = layout_ok def r && nulls_ok def r && forallb (constraint_ok db others r) (td_constraints def).
Proof. unfold fits, column_ok. rewrite forallb_andb. unfold well_typed. intros ->. done. Qed.

(** The new row has an id, in no other row. *)
Definition fresh_in (rows : list row) (id : value) : Prop :=
  is_null id = false /\ existsb (fun r => equal id (get r "id")) rows = false.

Lemma same_key_one col r r' : same_key [col] r r' = equal (get r col) (get r' col).
Proof. unfold same_key. cbn [forallb]. apply andb_true_r. Qed.

Lemma new_id rows id r : get r "id" = id -> fresh_in rows id -> existsb (same_key ["id"] r) rows = false.
Proof.
  intros <- [_ H]. etrans; [|exact H]. clear H. induction rows as [|r' rows IH]; [reflexivity|].
  cbn [existsb]. by rewrite same_key_one, IH.
Qed.

Lemma delivery_exists T id : existsb (fun r' => equal (Uuid id) (get r' "id")) (contents T "deliveries") = bool_decide (is_Some (deliveries T !! id)).
Proof. by apply (referenced delivery_tuple). Qed.

(** The constraints of each table, one by one. *)
Lemma event_constraints db others r :
  forallb (constraint_ok db others r) (td_constraints events_def) =
  negb (existsb (same_key ["id"] r) others) && (negb (existsb (same_key ["client_id"; "idempotency_key"] r) others) && true).
Proof. reflexivity. Qed.

Lemma delivery_constraints db others r id ev ep :
  get r "event_id" = Uuid ev -> get r "endpoint_id" = Uuid ep -> get r "status" = Text (status_text id) ->
  forallb (constraint_ok db others r) (td_constraints deliveries_def) =
  negb (existsb (same_key ["id"] r) others) && (existsb (fun r' => equal (Uuid ev) (get r' "id")) (db "events") &&
  (existsb (fun r' => equal (Uuid ep) (get r' "id")) (db "endpoints") &&
  negb (existsb (same_key ["event_id"; "endpoint_id"] r) others))).
Proof.
  intros H1 H2 H3. cbn [forallb td_constraints deliveries_def constraint_ok]. rewrite H1, H2. cbn [is_null orb].
  unfold one_of, constraint_ok, passes_check. cbn [eval_cond]. rewrite H3. by destruct id; cbn; rewrite andb_true_r.
Qed.

Lemma attempt_constraints db others r id o :
  get r "delivery_id" = Uuid id -> get r "outcome" = Text (outcome_text o) ->
  forallb (constraint_ok db others r) (td_constraints delivery_attempts_def) =
  negb (existsb (same_key ["id"] r) others) && (existsb (fun r' => equal (Uuid id) (get r' "id")) (db "deliveries") &&
  negb (existsb (same_key ["delivery_id"; "attempt_number"] r) others)).
Proof.
  intros H1 H2. cbn [forallb td_constraints delivery_attempts_def constraint_ok]. rewrite H1. cbn [is_null orb].
  unfold one_of, constraint_ok, passes_check. cbn [eval_cond]. rewrite H2. by destruct o; cbn; rewrite andb_true_r.
Qed.

Lemma transition_constraints db others r id a :
  get r "delivery_id" = Uuid id -> get r "actor" = Text (actor_text a) ->
  forallb (constraint_ok db others r) (td_constraints delivery_transitions_def) =
  negb (existsb (same_key ["id"] r) others) && existsb (fun r' => equal (Uuid id) (get r' "id")) (db "deliveries").
Proof.
  intros H1 H2. cbn [forallb td_constraints delivery_transitions_def constraint_ok]. rewrite H1. cbn [is_null orb].
  unfold one_of, constraint_ok, passes_check. cbn [eval_cond]. rewrite H2. by destruct a; cbn; rewrite andb_true_r.
Qed.

Lemma same_key_two c1 c2 r r' :
  same_key [c1; c2] r r' = equal (get r c1) (get r' c1) && equal (get r c2) (get r' c2).
Proof. unfold same_key. cbn [forallb]. by rewrite andb_true_r. Qed.

Lemma event_clash T r client key :
  get r "client_id" = Text client -> get r "idempotency_key" = Text key ->
  existsb (same_key ["client_id"; "idempotency_key"] r) (contents T "events") = true <->
  exists id e, events T !! id = Some e /\ same_event_key client key e = true.
Proof.
  intros H1 H2. change (contents T "events") with (map (uncurry event_tuple) (map_to_list (events T))).
  rewrite existsb_map_to_list. repeat (apply exist_proper; intros ?). rewrite same_key_two, H1, H2.
  unfold same_event_key, equal. cbn. by rewrite (String.eqb_sym client), (String.eqb_sym key).
Qed.

Lemma delivery_clash T r ev ep :
  get r "event_id" = Uuid ev -> get r "endpoint_id" = Uuid ep ->
  existsb (same_key ["event_id"; "endpoint_id"] r) (contents T "deliveries") = true <->
  exists id d, deliveries T !! id = Some d /\ d_event_id d = ev /\ d_endpoint_id d = ep.
Proof.
  intros H1 H2. change (contents T "deliveries") with (map (uncurry delivery_tuple) (map_to_list (deliveries T))).
  rewrite existsb_map_to_list. repeat (apply exist_proper; intros ?). rewrite same_key_two, H1, H2. unfold equal. cbn.
  rewrite andb_true_iff, !String.eqb_eq. naive_solver.
Qed.

Lemma attempt_clash T r id n :
  get r "delivery_id" = Uuid id -> get r "attempt_number" = Int n ->
  existsb (same_key ["delivery_id"; "attempt_number"] r) (contents T "delivery_attempts") = true <->
  exists a, a ∈ delivery_attempts T /\ a_delivery_id a = id /\ a_attempt_number a = n.
Proof.
  intros H1 H2. change (contents T "delivery_attempts") with (imap (fun i a => attempt_tuple (attempt_id i) a) (delivery_attempts T)).
  rewrite existsb_imap. split.
  - intros (i & a & Ha & Hk). exists a. split; [by eapply list_elem_of_lookup_2|]. rewrite same_key_two, H1, H2 in Hk.
    unfold equal in Hk. cbn in Hk. apply andb_true_iff in Hk as [->%String.eqb_eq ->%Z.eqb_eq]. done.
  - intros (a & [i Hi]%list_elem_of_lookup & <- & <-). exists i, a. split; [done|]. rewrite same_key_two, H1, H2. unfold equal. cbn.
    by rewrite String.eqb_refl, Z.eqb_refl.
Qed.

Lemma fits_inserted db now id def given others :
  let r := inserted now id def given in
  well_typed def r = true -> nulls_ok def r = true ->
  fits db def others r = forallb (constraint_ok db others r) (td_constraints def).
Proof.
  intros r Ht Hn. rewrite fits_split by done. rewrite Hn. unfold layout_ok, r, inserted. rewrite map_map. cbn [fst].
  by rewrite bool_decide_eq_true_2.
Qed.

(** C35: the statements are refused for what the DDL says. A row to be inserted,
    with a new id and integers in the range of their columns, satisfies every
    constraint of its table just when the statement neither violates one nor
    runs into the conflict it passes over. *)
Theorem inserts_checked (now : Z) (id : value) (T : tables) (q : stmt) (t : string) (given : row) :
  insert_of q = Some (t, given) -> fresh_in (contents T t) id ->
  let r := inserted now id (def_of t) given in
  well_typed (def_of t) r = true ->
  fits (contents T) (def_of t) (contents T t) r = true <-> ~ refused T q.
Proof.
  destruct q; cbn [insert_of]; intros [= <- <-]; intros Hf; set (r := inserted _ _ _ _); intros Ht;
    (unfold r at 1; rewrite fits_inserted; [|exact Ht|by destruct Hf as [Hid _], id]); fold r.
  - change (def_of "delivery_transitions") with delivery_transitions_def in *.
    rewrite (transition_constraints _ _ _ id0 by_), (new_id _ id) by done. cbn [negb andb].
    rewrite delivery_exists, bool_decide_eq_true, <- not_eq_None_Some. done.
  - change (def_of "delivery_attempts") with delivery_attempts_def in *.
    rewrite (attempt_constraints _ _ _ id0 o), (new_id _ id) by done. cbn [negb andb].
    rewrite andb_true_iff, delivery_exists, bool_decide_eq_true, <- not_eq_None_Some, negb_true_iff, <- not_true_iff_false.
    rewrite (attempt_clash T r id0 number) by done. cbn [refused stmt_violates]. tauto.
  - change (def_of "events") with events_def in *. rewrite event_constraints, (new_id _ id) by done. cbn [negb andb].
    rewrite andb_true_r, negb_true_iff, <- not_true_iff_false. by rewrite (event_clash T r client key).
  - change (def_of "deliveries") with deliveries_def in *.
    rewrite (delivery_constraints _ _ _ PENDING event endpoint), (new_id _ id) by done. cbn [negb andb].
    change (contents T "events") with (map (uncurry event_tuple) (map_to_list (events T))).
    change (contents T "endpoints") with (map (uncurry endpoint_tuple) (map_to_list (endpoints T))).
    rewrite (referenced event_tuple), (referenced endpoint_tuple) by done.
    rewrite !andb_true_iff, !bool_decide_eq_true, <- !not_eq_None_Some, negb_true_iff, <- not_true_iff_false.
    rewrite (delivery_clash T r event endpoint) by done. cbn [refused stmt_violates]. tauto.
  - change (def_of "endpoints") with endpoints_def in *. cbn [forallb td_constraints endpoints_def constraint_ok].
    rewrite (new_id _ id) by done. cbn. tauto.
Qed.

(** ** The tables satisfy the schema *)

Lemma exists_other {A} (f : A -> bool) (l : list A) i :
  existsb f (delete i l) = true -> exists j x, j <> i /\ l !! j = Some x /\ f x = true.
Proof.
  rewrite existsb_exists. intros (x & Hx%list_elem_of_In & Hf). rewrite delete_take_drop in Hx.
  apply elem_of_app in Hx as [[j Hj]%list_elem_of_lookup|[j Hj]%list_elem_of_lookup].
  - apply lookup_take_Some in Hj as [Hj Hlt]. exists j, x. split; [lia|done].
  - rewrite lookup_drop in Hj. exists (S i + j)%nat, x. split; [lia|done].
Qed.

(** A row of a table of records with ids, and the others. *)
Lemma other_record {A} (cells : string -> A -> row) (m : gmap string A) i r :
  map (uncurry cells) (map_to_list m) !! i = Some r ->
  exists id x, m !! id = Some x /\ r = cells id x /\
  forall f, existsb f (delete i (map (uncurry cells) (map_to_list m))) = true ->
    exists id' x', id' <> id /\ m !! id' = Some x' /\ f (cells id' x') = true.
Proof.
  intros Hr. apply list_lookup_fmap_Some in Hr as ([id x] & -> & Hi). exists id, x.
  split; [by eapply elem_of_map_to_list, list_elem_of_lookup_2|]. split; [done|].
  intros f (j & r & Hj & Hr & Hf)%exists_other. apply list_lookup_fmap_Some in Hr as ([id' x'] & -> & Hi').
  exists id', x'. split; [|split; [by eapply elem_of_map_to_list, list_elem_of_lookup_2|done]].
  intros ->. apply Hj. eapply (NoDup_lookup (map_to_list m).*1); [apply NoDup_fst_map_to_list|..]; rewrite list_lookup_fmap.
  - by rewrite Hi'.
  - by rewrite Hi.
Qed.

(** A row of a log, and the others. *)
Lemma other_entry {A} (cells : nat -> A -> row) (l : list A) i r :
  imap cells l !! i = Some r ->
  exists x, l !! i = Some x /\ r = cells i x /\
  forall f, existsb f (delete i (imap cells l)) = true -> exists j y, j <> i /\ l !! j = Some y /\ f (cells j y) = true.
Proof.
  rewrite list_lookup_imap. destruct (l !! i) as [x|] eqn:E; intros [= <-]. exists x. split; [done|]. split; [done|].
  intros f (j & r & Hj & Hr & Hf)%exists_other. rewrite list_lookup_imap in Hr.
  destruct (l !! j) as [y|] eqn:E'; [|discriminate Hr]. injection Hr as <-. by exists j, y.
Qed.

(** Numbers that do not repeat among the rows of a delivery are at one place. *)
Lemma NoDup_filter_lookup {A} (P : A -> Prop) `{forall x, Decision (P x)} (f : A -> Z) (l : list A) i j a b :
  NoDup (map f (filter P l)) -> l !! i = Some a -> l !! j = Some b -> P a -> P b -> f a = f b -> i = j.
Proof.
  revert i j. induction l as [|x l IH]; intros i j Hn Hi Hj Ha Hb Hf; [discriminate Hi|].
  assert (forall k c, l !! k = Some c -> P c -> f c ∈ map f (filter P l)) as Hin.
  { intros k c Hk Hc. apply list_elem_of_fmap_2, list_elem_of_filter. split; [done|by eapply list_elem_of_lookup_2]. }
  rewrite filter_cons in Hn. destruct i as [|i], j as [|j]; cbn in Hi, Hj; [done|..].
  - injection Hi as ->. rewrite decide_True in Hn by done. apply NoDup_cons in Hn as [Hn _]. destruct Hn. rewrite Hf. by eapply Hin.
  - injection Hj as ->. rewrite decide_True in Hn by done. apply NoDup_cons in Hn as [Hn _]. destruct Hn. rewrite <- Hf. by eapply Hin.
  - f_equal. apply (IH i j); try done. destruct (decide (P x)); [by apply NoDup_cons in Hn as [_ Hn]|done].
Qed.

(** The integers are in the range of their columns, and the identity columns
    number the rows of a log apart. *)
Record representable (T : tables) : Prop := {
  re_counts id d : deliveries T !! id = Some d -> in_range 32 (d_attempt_count d) = true;
  re_http a z : a ∈ delivery_attempts T -> a_http_status a = Some z -> in_range 32 z = true;
  re_latency a : a ∈ delivery_attempts T -> in_range 32 (a_latency_ms a) = true;
  re_attempt_ids i : (i < length (delivery_attempts T))%nat -> in_range 64 (attempt_id i) = true;
  re_transition_ids i : (i < length (delivery_transitions T))%nat -> in_range 64 (transition_id i) = true;
  re_attempts_apart i j : (i < length (delivery_attempts T))%nat -> (j < length (delivery_attempts T))%nat ->
    attempt_id i = attempt_id j -> i = j;
  re_transitions_apart i j : (i < length (delivery_transitions T))%nat -> (j < length (delivery_transitions T))%nat ->
    transition_id i = transition_id j -> i = j
}.

Lemma fits_stored db def others r :
  layout_ok def r = true -> nulls_ok def r = true -> well_typed def r = true ->
  forallb (constraint_ok db others r) (td_constraints def) = true -> fits db def others r = true.
Proof. intros H1 H2 H3 H4. by rewrite fits_split, H1, H2, H4. Qed.

Lemma equal_uuid s s' : equal (Uuid s) (Uuid s') = true <-> s = s'.
Proof. unfold equal. cbn. apply String.eqb_eq. Qed.

(** No other row has the key. *)
Lemma no_other (f : row -> bool) others : (existsb f others = true -> False) -> negb (existsb f others) = true.
Proof. intros H. apply negb_true_iff, not_true_iff_false. exact H. Qed.

Lemma endpoints_fit T i r :
  contents T "endpoints" !! i = Some r -> fits (contents T) endpoints_def (delete i (contents T "endpoints")) r = true.
Proof.
  intros (id & e & He & -> & Ho)%(other_record endpoint_tuple). apply fits_stored; [reflexivity..|].
  cbn [forallb td_constraints endpoints_def constraint_ok]. rewrite andb_true_r. apply no_other.
  intros (id' & e' & Hne & _ & Hk)%Ho. rewrite same_key_one in Hk. by apply equal_uuid in Hk.
Qed.

Lemma events_fit T i r : keys_unique T ->
  contents T "events" !! i = Some r -> fits (contents T) events_def (delete i (contents T "events")) r = true.
Proof.
  intros Hu (id & e & He & -> & Ho)%(other_record event_tuple). apply fits_stored; [reflexivity..|].
  rewrite event_constraints, andb_true_r. apply andb_true_iff. split; apply no_other; intros (id' & e' & Hne & He' & Hk)%Ho.
  - rewrite same_key_one in Hk. by apply equal_uuid in Hk.
  - rewrite same_key_two in Hk. unfold equal in Hk. cbn in Hk. apply andb_true_iff in Hk as [Hc%String.eqb_eq Hi%String.eqb_eq].
    apply Hne. apply (Hu (ev_client_id e') (ev_idempotency_key e')); eexists; (split; [done|]); unfold same_event_key;
      by rewrite ?Hc, ?Hi, !String.eqb_refl.
Qed.

Lemma deliveries_fit T i r : audit T -> representable T ->
  contents T "deliveries" !! i = Some r -> fits (contents T) deliveries_def (delete i (contents T "deliveries")) r = true.
Proof.
  intros Ha Hr (id & d & Hd & -> & Ho)%(other_record delivery_tuple). apply fits_stored; [reflexivity|reflexivity|..].
  - unfold well_typed. cbn. rewrite (re_counts T Hr id d Hd). by destruct (d_next_attempt_at d).
  - rewrite (delivery_constraints _ _ _ (d_status d) (d_event_id d) (d_endpoint_id d)) by done.
    change (contents T "events") with (map (uncurry event_tuple) (map_to_list (events T))).
    change (contents T "endpoints") with (map (uncurry endpoint_tuple) (map_to_list (endpoints T))).
    rewrite (referenced event_tuple), (referenced endpoint_tuple) by done. apply (au_refs T Ha) in Hd as Hrefs.
    rewrite !bool_decide_eq_true_2 by apply Hrefs. cbn [andb].
    apply andb_true_iff. split; apply no_other; intros (id' & d' & Hne & Hd' & Hk)%Ho.
    + rewrite same_key_one in Hk. by apply equal_uuid in Hk.
    + rewrite same_key_two in Hk. apply andb_true_iff in Hk as [Hk%equal_uuid _]. apply Hne. by eapply (au_one T Ha).
Qed.

Lemma transitions_fit T i r : audit T -> representable T ->
  contents T "delivery_transitions" !! i = Some r ->
  fits (contents T) delivery_transitions_def (delete i (contents T "delivery_transitions")) r = true.
Proof.
  intros Ha Hr (x & Hx & -> & Ho)%(other_entry (fun i r => transition_tuple (transition_id i) r)).
  apply fits_stored; [reflexivity|reflexivity|..].
  - unfold well_typed. cbn. rewrite (re_transition_ids T Hr i) by (by eapply lookup_lt_Some). by destruct (t_from_status x).
  - rewrite (transition_constraints _ _ _ (t_delivery_id x) (t_actor x)) by done. apply andb_true_iff. split.
    + apply no_other. intros (j & y & Hne & Hy & Hk)%Ho. rewrite same_key_one in Hk. unfold equal in Hk. cbn in Hk.
      apply Z.eqb_eq in Hk. apply Hne. symmetry. apply (re_transitions_apart T Hr); [by eapply lookup_lt_Some..|done].
    + rewrite delivery_exists. apply bool_decide_eq_true, (au_trail T Ha). by eapply list_elem_of_lookup_2.
Qed.

Lemma attempts_fit T i r : audit T -> representable T ->
  contents T "delivery_attempts" !! i = Some r ->
  fits (contents T) delivery_attempts_def (delete i (contents T "delivery_attempts")) r = true.
Proof.
  intros Ha Hr (x & Hx & -> & Ho)%(other_entry (fun i a => attempt_tuple (attempt_id i) a)).
  pose proof (list_elem_of_lookup_2 _ _ _ Hx) as Hin. destruct (au_attempts T Ha x Hin) as [d Hd].
  pose proof (h_numbers _ _ _ (au_history T Ha _ d Hd)) as Hnum.
  apply fits_stored; [reflexivity|reflexivity|..].
  - assert (in_range 32 (a_attempt_number x) = true) as Hn.
    { assert (a_attempt_number x ∈ seqZ 1 (d_attempt_count d)) as Hz%elem_of_seqZ.
      { rewrite <- Hnum. apply list_elem_of_fmap_2, list_elem_of_filter. done. }
      pose proof (re_counts T Hr _ _ Hd) as Hc. unfold in_range in *. apply andb_true_iff in Hc as [_ Hc%Z.ltb_lt].
      apply andb_true_iff. split; [apply Z.leb_le|apply Z.ltb_lt]; lia. }
    unfold well_typed. cbn. rewrite (re_attempt_ids T Hr i) by (by eapply lookup_lt_Some). rewrite Hn, (re_latency T Hr x Hin). cbn.
    pose proof (re_http T Hr x) as Hh. destruct (a_http_status x) as [z|]; cbn; [rewrite (Hh z Hin eq_refl)|];
      by destruct (a_response_body x), (a_error_message x).
  - rewrite (attempt_constraints _ _ _ (a_delivery_id x) (a_outcome x)) by done.
    rewrite delivery_exists, bool_decide_eq_true_2 by done. cbn [andb].
    apply andb_true_iff. split; apply no_other; intros (j & y & Hne & Hy & Hk)%Ho.
    + rewrite same_key_one in Hk. unfold equal in Hk. cbn in Hk. apply Z.eqb_eq in Hk. apply Hne. symmetry.
      apply (re_attempts_apart T Hr); [by eapply lookup_lt_Some..|done].
    + rewrite same_key_two in Hk. apply andb_true_iff in Hk as [Hid%equal_uuid Hk]. unfold equal in Hk. cbn in Hk.
      apply Z.eqb_eq in Hk. apply Hne. eapply (NoDup_filter_lookup (fun a => a_delivery_id a = a_delivery_id x) a_attempt_number);
        [|done..]. unfold attempts_of in Hnum. rewrite Hnum. apply NoDup_seqZ.
Qed.

Lemma schema_tables : cat_tables current_schema = list_to_map [
  ("endpoints", endpoints_def); ("events", events_def); ("deliveries", deliveries_def);
  ("delivery_attempts", delivery_attempts_def); ("delivery_transitions", delivery_transitions_def)].
Proof. vm_compute. reflexivity. Qed.

Lemma audit_satisfies T : audit T -> representable T -> satisfies current_schema (contents T).
Proof.
  intros Ha Hr t def Ht i r Hi. rewrite schema_tables in Ht. apply elem_of_list_to_map_2 in Ht.
  repeat (apply elem_of_cons in Ht as [[= -> ->]|Ht]); [..|by apply elem_of_nil in Ht].
  - by apply endpoints_fit.
  - apply events_fit; [apply (au_keys T Ha)|done].
  - by apply deliveries_fit.
  - by apply attempts_fit.
  - by apply transitions_fit.
Qed.

(** C14: the tables keep every constraint of the migrations. Whatever flows run
    one after the other, to their end or until their process dies, from a
    database with endpoints only: as long as the numbers are in the range of
    their columns, the rows of the five tables have the columns of the DDL
    with values of their types, no [NULL] where it forbids one, no value its
    CHECKs reject, no two rows with the same key, and no foreign key without
    its row. *)
Theorem schema_kept {RS BS : Type} `{!RedisServer RS} `{!RedisLaws RS} `{!BullMQ BS} `{!BullMQLaws BS}
    (cfg : Config) (hmac : string -> string -> string) (s s' : shared RS BS) :
  blank (pg_tables (s_pg s)) -> rtc (sys_step cfg hmac) s s' -> representable (pg_tables (s_pg s')) ->
  migrate (initial_up ++ pending_index_up) no_catalog = Some current_schema /\
  satisfies current_schema (contents (pg_tables (s_pg s'))).
Proof.
  intros Hb Hs Hr. split; [exact both_migrations|]. apply audit_satisfies; [|exact Hr].
  by apply (sys_steps_audit cfg hmac s s' Hs), blank_audit.
Qed.
End Contents.

(** The ranges of the tables' numbers, decided. *)
Definition representableb (T : tables) : bool :=
  forallb (fun p => in_range 32 (d_attempt_count p.2)) (map_to_list (deliveries T)) &&
  forallb (fun a => match a_http_status a with Some z => in_range 32 z | None => true end && in_range 32 (a_latency_ms a)) (delivery_attempts T) &&
  (Z.of_nat (length (delivery_attempts T)) <? 2 ^ 63) && (Z.of_nat (length (delivery_transitions T)) <? 2 ^ 63).

Lemma in_range_nat i n : (i < n)%nat -> Z.of_nat n < 2 ^ 63 -> in_range 64 (Z.of_nat i) = true.
Proof. intros H1 H2. apply andb_true_iff. split; [apply Z.leb_le|apply Z.ltb_lt]; cbn in *; lia. Qed.

Lemma representableb_spec T : representableb T = true -> representable Z.of_nat Z.of_nat T.
Proof.
  unfold representableb. rewrite !andb_true_iff, !Z.ltb_lt, !forallb_forall. intros [[[Hd Ha] Hn] Hm]. constructor.
  - intros id d Hid. apply (Hd (id, d)). by apply list_elem_of_In, elem_of_map_to_list.
  - intros a z Hin Hz. apply list_elem_of_In, Ha, andb_true_iff in Hin as [H _]. by rewrite Hz in H.
  - intros a Hin. by apply list_elem_of_In, Ha, andb_true_iff in Hin as [_ H].
  - intros i Hi. by eapply in_range_nat.
  - intros i Hi. by eapply in_range_nat.
  - intros i j _ _. lia.
  - intros i j _ _. lia.
Qed.

Lemma schema_kept_witness :
  satisfies current_schema (contents Z.of_nat Z.of_nat (tables_of attempted_run.2)) /\
  length (contents Z.of_nat Z.of_nat (tables_of attempted_run.2) "delivery_transitions") = 3%nat.
Proof.
  split; [|vm_compute; reflexivity].
  apply (schema_kept Z.of_nat Z.of_nat default_config toy_hmac blank_world.1 _ blank_world_blank ingested_steps).
  apply representableb_spec. vm_compute. reflexivity.
Defined.

Lemma inserts_checked_witness :
  let T := demo_tables PENDING [] None in
  let r := inserted 5 (Uuid "d2") deliveries_def [("event_id", Uuid "v1"); ("endpoint_id", Uuid "e2"); ("status", Text "PENDING"); ("enqueued", Bool false)] in
  fits (contents Z.of_nat Z.of_nat T) deliveries_def (contents Z.of_nat Z.of_nat T "deliveries") r = false /\
  ~ ~ refused T (InsertDelivery "v1" "e2").
Proof.
  intros T r. split; [vm_compute; reflexivity|]. intros H.
  apply (inserts_checked Z.of_nat Z.of_nat 5 (Uuid "d2") T (InsertDelivery "v1" "e2") "deliveries" _ eq_refl) in H.
  - vm_compute in H. discriminate H.
  - split; [reflexivity|]. vm_compute. reflexivity.
  - vm_compute. reflexivity.
Defined.

(** ** What the indexes hold *)

(** A partial index has the rows its predicate selects. *)
Definition in_index (ix : index_def) (r : row) : bool :=
  match ix_where ix with Some c => selects c r | None => true end.

(** The columns a WHERE clause bounds in all the rows it selects. *)
Fixpoint bounded_columns (c : cond) : list string :=
  match c with
  | CEq col _ | CLt col _ | CIn col _ => [col]
  | CAnd c1 c2 => bounded_columns c1 ++ bounded_columns c2
  | CNotNull _ | COr _ _ => []
  end.

(** A B-tree that has all the rows [WHERE c] selects in [table], in the order
    of a column that [c] bounds. *)
Definition serves (table : string) (c : Z -> cond) (ix : index_def) : Prop :=
  ix_table ix = table /\ ix_method ix = btree /\
  (exists col, fst <$> head (ix_columns ix) = Some col /\ forall now, col ∈ bounded_columns (c now)) /\
  forall now r, selects (c now) r = true -> in_index ix r = true.

(** The sweep of [claimUnenqueued], and its two arms. *)
Definition pending_arm (grace_s now : Z) : cond :=
  CAnd (CEq "status" (Text "PENDING")) (CLt "updated_at" (Time (now - 1000000 * grace_s))).
Definition failed_arm (grace_s now : Z) : cond :=
  CAnd (CAnd (CAnd (CEq "status" (Text "FAILED")) (CNotNull "next_attempt_at")) (CLt "next_attempt_at" (Time now)))
       (CLt "updated_at" (Time (now - 1000000 * grace_s))).
Definition claim_where (grace_s now : Z) : cond :=
  CAnd (COr (CEq "status" (Text "PENDING"))
            (CAnd (CAnd (CEq "status" (Text "FAILED")) (CNotNull "next_attempt_at")) (CLt "next_attempt_at" (Time now))))
       (CLt "updated_at" (Time (now - 1000000 * grace_s))).

Lemma selects_and c1 c2 r : selects (CAnd c1 c2) r = selects c1 r && selects c2 r.
Proof. unfold selects. cbn [eval_cond]. by destruct (eval_cond r c1) as [[]|], (eval_cond r c2) as [[]|]. Qed.

Lemma selects_or c1 c2 r : selects (COr c1 c2) r = selects c1 r || selects c2 r.
Proof. unfold selects. cbn [eval_cond]. by destruct (eval_cond r c1) as [[]|], (eval_cond r c2) as [[]|]. Qed.

Lemma status_selected id d s :
  selects (CEq "status" (Text (status_text s))) (delivery_tuple id d) = bool_decide (d_status d = s).
Proof. unfold selects. cbn. by destruct (d_status d), s. Qed.

Lemma pending_selected id d : selects (CEq "status" (Text "PENDING")) (delivery_tuple id d) = bool_decide (d_status d = PENDING).
Proof. exact (status_selected id d PENDING). Qed.

Lemma failed_selected id d : selects (CEq "status" (Text "FAILED")) (delivery_tuple id d) = bool_decide (d_status d = FAILED).
Proof. exact (status_selected id d FAILED). Qed.

Lemma claim_where_claimable grace_s now id d :
  selects (claim_where grace_s now) (delivery_tuple id d) = claimable now grace_s d.
Proof.
  unfold claim_where, claimable. rewrite selects_and, selects_or, !selects_and.
  rewrite pending_selected, failed_selected. unfold selects. cbn.
  destruct (d_next_attempt_at d); cbn; by rewrite ?andb_true_r, ?andb_false_r.
Qed.

Lemma arms_of_claim grace_s now r :
  selects (claim_where grace_s now) r = selects (pending_arm grace_s now) r || selects (failed_arm grace_s now) r.
Proof.
  unfold claim_where, pending_arm, failed_arm. rewrite !selects_and, selects_or, !selects_and.
  generalize (selects (CLt "updated_at" (Time (now - 1000000 * grace_s))) r), (selects (CEq "status" (Text "PENDING")) r),
    (selects (CEq "status" (Text "FAILED")) r), (selects (CNotNull "next_attempt_at") r),
    (selects (CLt "next_attempt_at" (Time now)) r). by intros [] [] [] [] [].
Qed.

Lemma pending_arm_served grace_s : serves "deliveries" (pending_arm grace_s) idx_deliveries_pending_stuck.
Proof.
  split; [done|]. split; [done|]. split.
  - exists "updated_at". split; [done|]. intros now. cbn. set_solver.
  - intros now r. unfold pending_arm, in_index. cbn [ix_where idx_deliveries_pending_stuck partial_index].
    rewrite selects_and. by intros [H _]%andb_true_iff.
Qed.

Lemma failed_arm_served grace_s : serves "deliveries" (failed_arm grace_s) idx_deliveries_failed_overdue.
Proof.
  split; [done|]. split; [done|]. split.
  - exists "next_attempt_at". split; [done|]. intros now. cbn. set_solver.
  - intros now r. unfold failed_arm, in_index. cbn [ix_where idx_deliveries_failed_overdue partial_index].
    rewrite !selects_and. by intros [[H _]%andb_true_iff _]%andb_true_iff.
Qed.

(** The second migration does what it says. The WHERE clause of the sweep
    selects the deliveries the sweep may claim, it is the union of two arms,
    and each arm is served by one of the two new indexes; these hold nothing
    but PENDING and FAILED deliveries; while the index they replace lacks
    deliveries the sweep claims. *)
Theorem sweep_indexed (grace_s : Z) :
  (forall now id d, selects (claim_where grace_s now) (delivery_tuple id d) = claimable now grace_s d) /\
  (forall now r, selects (claim_where grace_s now) r = selects (pending_arm grace_s now) r || selects (failed_arm grace_s now) r) /\
  (exists n ix, cat_indexes current_schema !! n = Some ix /\ serves "deliveries" (pending_arm grace_s) ix) /\
  (exists n ix, cat_indexes current_schema !! n = Some ix /\ serves "deliveries" (failed_arm grace_s) ix) /\
  (forall id d, in_index idx_deliveries_pending_stuck (delivery_tuple id d) ||
     in_index idx_deliveries_failed_overdue (delivery_tuple id d) = true -> d_status d = PENDING \/ d_status d = FAILED) /\
  (exists now id d, claimable now grace_s d = true /\ in_index idx_deliveries_unenqueued (delivery_tuple id d) = false).
Proof.
  split; [apply claim_where_claimable|]. split; [apply arms_of_claim|].
  split; [exists "idx_deliveries_pending_stuck", idx_deliveries_pending_stuck; split; [vm_compute; reflexivity|apply pending_arm_served]|].
  split; [exists "idx_deliveries_failed_overdue", idx_deliveries_failed_overdue; split; [vm_compute; reflexivity|apply failed_arm_served]|].
  split.
  - intros id d H. apply orb_true_iff in H as [H|H].
    + left. change (selects (CEq "status" (Text "PENDING")) (delivery_tuple id d) = true) in H.
      rewrite pending_selected in H. by apply bool_decide_eq_true in H.
    + right. unfold in_index in H. cbn [ix_where idx_deliveries_failed_overdue partial_index] in H.
      rewrite selects_and, failed_selected in H. by apply andb_true_iff in H as [H%bool_decide_eq_true _].
  - exists (1000000 * grace_s + 1), "d1", {| d_event_id := "v1"; d_endpoint_id := "e1"; d_status := PENDING;
      d_attempt_count := 0; d_next_attempt_at := None; d_enqueued := true; d_created_at := 0; d_updated_at := 0 |}.
    split; [|reflexivity]. unfold claimable. cbn [d_status d_updated_at]. apply andb_true_iff. split; [reflexivity|].
    apply Z.ltb_lt. lia.
Qed.
