(* ===== verification/Ledger.v ===== *)
(** * The attempts under concurrency

    Any number of flows of the engine, interleaved call by call on the same
    services, jobs of one delivery that outlived their locks among them: the
    attempts of a delivery stay numbered without a gap and counted by its row,
    and a delivered one has its success. Section [Tables]: what the tables must
    satisfy, and the writes that keep it; [Protocol]: what a session may send,
    as an automaton whose state is all that is remembered of it; [Steps]: a
    session that follows it keeps the agreement; [Programs]: every flow does. *)

From S2P Require Import Prelude Async Interleave Json Config Tables Queries Schema Redis Services Concrete Scripts Repo Ingest.
From S2P Require Lock TokenBucket Mutex.
From S2P Require Import CircuitBreaker Frames Signature Worker WorkerSpec DeadLetter Api Endpoints AuditTrail Concurrency Invariants.
From Stdlib Require Import ZArith QArith Lia String.
From stdpp Require Import prelude strings gmap.

Open Scope Z_scope.
Open Scope async_scope.

(** ** The tables *)

Lemma attempts_of_nil T id : counted T -> deliveries T !! id = None -> attempts_of T id = [].
Proof.
  intros HT Hid. apply filter_none, Forall_forall. intros a Ha <-.
  destruct (ct_refs T HT a Ha) as [d Hd]. congruence.
Qed.

(** A write of no attempt and no success. *)
Definition quiet (w : write) : Prop :=
  match w with
  | WAttempt _ | WAttempted _ _ _ _ => False
  | WStatus _ st _ => st <> DELIVERED
  | WDelivery _ row => d_attempt_count row = 0 /\ d_status row <> DELIVERED
  | _ => True
  end.

(** The rows known before are there with the same counter. *)
Definition same_counts (T T' : tables) : Prop :=
  forall id d, deliveries T !! id = Some d ->
    exists d', deliveries T' !! id = Some d' /\ d_attempt_count d' = d_attempt_count d.

#[export] Instance same_counts_preorder : PreOrder same_counts.
Proof.
  split; [by intros T id d Hd; exists d|]. intros T1 T2 T3 H12 H23 id d Hd.
  destruct (H12 id d Hd) as (d2 & Hd2 & E2). destruct (H23 id d2 Hd2) as (d3 & Hd3 & E3). exists d3. split; [done|lia].
Qed.

(** A row is replaced by one with as many attempts, and no success of its own. *)
Lemma counted_alter T f id :
  (forall d, d_attempt_count (f d) = d_attempt_count d /\ (d_status (f d) = DELIVERED -> d_status d = DELIVERED)) ->
  counted T -> let T' := on_deliveries (alter f id) T in counted T' /\ same_counts T T'.
Proof.
  intros Hf [Hr Ha Hh] T'. split; [constructor|].
  - intros i d Hd. cbn in Hd. apply lookup_alter_Some in Hd as [(-> & d0 & Hd & ->)|[_ Hd]]; [|by apply Hr].
    destruct (Hf d0) as [-> Hs]. destruct (Hr _ _ Hd) as (H1 & H2 & H3). auto.
  - intros a Hin. apply lookup_alter_is_Some. by apply Ha.
  - done.
  - intros i d Hd. cbn. rewrite lookup_alter. destruct (decide (id = i)) as [-> |]; rewrite Hd; eexists; (split; [reflexivity|]); [apply Hf|done].
Qed.

Lemma counted_quiet T w :
  counted T -> quiet w -> (forall d row, w = WDelivery d row -> attempts_of T d = []) ->
  counted (apply_write T w) /\ same_counts T (apply_write T w) /\
  delivery_attempts (apply_write T w) = delivery_attempts T.
Proof.
  intros HT Hq Hn.
  assert (forall f id, (forall d, d_attempt_count (f d) = d_attempt_count d /\ (d_status (f d) = DELIVERED -> d_status d = DELIVERED)) ->
    let T' := on_deliveries (alter f id) T in counted T' /\ same_counts T T' /\ delivery_attempts T' = delivery_attempts T) as Halter.
  { intros f id Hf T'. destruct (counted_alter T f id Hf HT) as [H1 H2]. exact (conj H1 (conj H2 eq_refl)). }
  assert (forall T', deliveries T' = deliveries T -> delivery_attempts T' = delivery_attempts T ->
    counted T' /\ same_counts T T' /\ delivery_attempts T' = delivery_attempts T) as Hsame.
  { intros T' E1 E2. destruct HT as [Hr Ha Hh]. split; [|split; [|done]].
    - constructor; unfold attempts_of; rewrite ?E1, ?E2; [exact Hr|exact Ha|exact Hh].
    - intros i d Hd. exists d. by rewrite E1. }
  destruct w as [id r|id r|id st t|id t|r|id st nx t|r|id r|id ac u]; cbn in Hq; try done; try (by apply Hsame).
  - destruct Hq as [Hc Hs]. specialize (Hn id r eq_refl). destruct HT as [Hr Ha Hh]. split; [constructor|split; [|done]].
    + intros i d Hd. cbn in Hd. apply lookup_insert_Some in Hd as [[<- <-]|[_ Hd]]; [|by apply Hr].
      rewrite Hc. unfold attempts_of in *. cbn. rewrite Hn. by repeat split.
    + intros a Hin. apply lookup_insert_is_Some'. right. by apply Ha.
    + done.
    + intros i d Hd. cbn. rewrite lookup_insert. destruct (decide (id = i)) as [<-|]; [|by exists d].
      exists r. split; [done|]. destruct (Hr _ _ Hd) as (H1 & H2 & _). rewrite Hn in H2. cbn in H2.
      apply (f_equal length) in H2. rewrite length_seqZ in H2. cbn in H2. lia.
  - apply Halter. by intros d.
  - apply Halter. by intros d.
Qed.

Lemma counted_quiets T ws :
  counted T -> Forall quiet ws -> (forall d row, (d, row) ∈ new_deliveries ws -> attempts_of T d = []) ->
  counted (apply_writes T ws) /\ same_counts T (apply_writes T ws) /\
  delivery_attempts (apply_writes T ws) = delivery_attempts T.
Proof.
  revert T. induction ws as [|w ws IH]; intros T HT Hq Hn; [done|]. apply Forall_cons in Hq as [Hw Hq].
  destruct (counted_quiet T w HT Hw) as (H1 & H2 & H3).
  { intros d row ->. apply (Hn d row). by left. }
  destruct (IH (apply_write T w) H1 Hq) as (H4 & H5 & H6).
  { intros d row Hin. unfold attempts_of. rewrite H3. apply (Hn d row).
    unfold new_deliveries in *. cbn. destruct w; try done. by right. }
  change (apply_writes T (w :: ws)) with (apply_writes (apply_write T w) ws).
  split; [done|]. split; [by etrans|]. by rewrite H6.
Qed.

(** The next attempt with the row that counts it. *)
Lemma counted_record T a st nx t d :
  counted T -> deliveries T !! a_delivery_id a = Some d -> a_attempt_number a = d_attempt_count d + 1 ->
  honest a -> (st = DELIVERED -> a_outcome a = SUCCESS) ->
  counted (apply_writes T [WAttempt a; WAttempted (a_delivery_id a) st nx t]).
Proof.
  intros [Hr Ha Hh] Hd Hn Hho Hs. constructor; cbn.
  - intros i x Hx. unfold attempts_of. cbn. rewrite filter_app, filter_cons, filter_nil.
    apply lookup_alter_Some in Hx as [(<- & d0 & Hd0 & ->)|[Hne Hx]].
    + rewrite Hd in Hd0. injection Hd0 as <-. destruct (Hr _ _ Hd) as (H1 & H2 & _). rewrite decide_True by done. cbn.
      split; [lia|]. split.
      * rewrite map_app. cbn. unfold attempts_of in H2. rewrite H2, Hn, seqZ_app by lia. cbn. by rewrite (Z.add_comm 1).
      * intros Hst. apply Exists_app. right. apply Exists_cons. left. by apply Hs.
    + rewrite decide_False, app_nil_r by congruence. by apply Hr.
  - intros b [Hb|Hb]%elem_of_app.
    + apply lookup_alter_is_Some. by apply Ha.
    + apply list_elem_of_singleton in Hb as ->. apply lookup_alter_is_Some. by exists d.
  - apply Forall_app. by repeat constructor.
Qed.

(** ** The protocol *)

(** What the open transaction has done: no attempt; an attempt that no row
    counts yet; an attempt and its row. *)
Inductive txphase := Calm | Counting (id : string) (o : AttemptOutcome) | Counted.

(** What is remembered of a session: the counters it was answered, and its
    transaction. *)
Record progress := { seen : list (string * Z); phase_of : txphase }.

Definition in_phase (ph : txphase) (g : progress) : progress := {| seen := seen g; phase_of := ph |}.

Definition is_2xx (http : option Z) : bool :=
  match http with Some z => (200 <=? z) && (z <? 300) | None => false end.

(** A statement that adds no attempt and no success. *)
Definition tame (q : stmt) : bool :=
  match q with
  | InsertAttempt _ _ _ _ _ _ _ _ _ | UpdateAttempted _ _ _ => false
  | UpdateStatus _ st => bool_decide (st <> DELIVERED)
  | _ => true
  end.

(** The statements of a transaction. *)
Definition tx_statement (g : progress) (q : stmt) (ok : bool) : option progress :=
  match phase_of g, q with
  | Calm, InsertAttempt id n o http _ _ _ _ _ =>
      if bool_decide ((id, n - 1) ∈ seen g) && (bool_decide (o <> SUCCESS) || is_2xx http)
      then Some (if ok then in_phase (Counting id o) g else g) else None
  | Counting id o, UpdateAttempted id' st _ =>
      if String.eqb id id' && (bool_decide (st <> DELIVERED) || bool_decide (o = SUCCESS))
      then Some (if ok then in_phase Counted g else g) else None
  | Counting _ _, _ => None
  | _, _ => if tame q then Some g else None
  end.

Definition lstep (g : progress) (e : event resp exn) : option progress :=
  let '(Ev c r) := e in
  match c return exn + resp c -> option progress with
  | Pg BEGIN | Pg ROLLBACK => fun _ => Some (in_phase Calm g)
  | Pg COMMIT => fun _ => match phase_of g with Counting _ _ => None | _ => Some (in_phase Calm g) end
  | Pg (CLIENT_QUERY q) => fun r => tx_statement g q (match r with inr _ => true | inl _ => false end)
  | Pg (POOL_QUERY (SelectForWorker id)) => fun r =>
      match r with
      | inr rows => Some {| seen := map (fun row => (id, w_attempt_count row)) rows ++ seen g; phase_of := phase_of g |}
      | inl _ => Some g
      end
  | Pg (POOL_QUERY (InsertDelivery _ _)) => fun _ => None
  | Pg (POOL_QUERY q) => fun _ => if tame q then Some g else None
  | _ => fun _ => Some g
  end r.

Section Store.
Context {RS BS : Type} `{!RedisServer RS} `{!RedisLaws RS} `{!BullMQ BS}.
Abbreviation shared := (shared RS BS).
Abbreviation T_of s := (pg_tables (s_pg s)).

Definition exclusive (s : shared) : Prop :=
  forall k t1 t2, (k, t1) ∈ pg_locks (s_pg s) -> (k, t2) ∈ pg_locks (s_pg s) -> t1 = t2.

Definition ledger_ok (s : shared) : Prop := exclusive s /\ counted (T_of s).

(** New deliveries are new, under locks that keep their ids from others. *)
Definition fresh (s : shared) (tid : nat) (ws : list write) : Prop :=
  forall d row, (d, row) ∈ new_deliveries ws -> held s tid (LDeliveryId d) /\ deliveries (T_of s) !! d = None.

(** The attempt is the next of a known delivery, and no other session can
    insert it. *)
Definition next_attempt (s : shared) (tid : nat) (a : attempt_row) : Prop :=
  honest a /\ held s tid (LAttempt (a_delivery_id a) (a_attempt_number a)) /\
  exists d, deliveries (T_of s) !! a_delivery_id a = Some d /\ a_attempt_number a = d_attempt_count d + 1.

(** The writes of the open transaction, by its phase. *)
Inductive owed (s : shared) (tid : nat) : txphase -> list write -> Prop :=
| owed_calm ws : Forall quiet ws -> fresh s tid ws -> owed s tid Calm ws
| owed_counting ws a : Forall quiet ws -> fresh s tid ws -> next_attempt s tid a ->
    owed s tid (Counting (a_delivery_id a) (a_outcome a)) (ws ++ [WAttempt a])
| owed_counted ws1 a st nx t ws2 : Forall quiet (ws1 ++ ws2) -> fresh s tid (ws1 ++ ws2) -> next_attempt s tid a ->
    (st = DELIVERED -> a_outcome a = SUCCESS) ->
    owed s tid Counted (ws1 ++ [WAttempt a; WAttempted (a_delivery_id a) st nx t] ++ ws2).

Abbreviation private := (session * progress)%type.

(** A counter that was seen is not above the row's. *)
Definition session_ok (s : shared) (l : private) : Prop :=
  (forall id n, (id, n) ∈ seen l.2 -> exists d, deliveries (T_of s) !! id = Some d /\ 0 <= n <= d_attempt_count d) /\
  match l_tx l.1 with None => True | Some x => owed s (l_tid l.1) (phase_of l.2) (tx_writes x) end.

(** Rows stay, and their counters do not go down. *)
Definition counts_grow (T T' : tables) : Prop :=
  forall id d, deliveries T !! id = Some d ->
    exists d', deliveries T' !! id = Some d' /\ d_attempt_count d <= d_attempt_count d'.

#[export] Instance counts_grow_preorder : PreOrder counts_grow.
Proof.
  split; [intros T id d Hd; exists d; split; [done|lia]|]. intros T1 T2 T3 H12 H23 id d Hd.
  destruct (H12 id d Hd) as (d2 & Hd2 & E2). destruct (H23 id d2 Hd2) as (d3 & Hd3 & E3). exists d3. split; [done|lia].
Qed.

Definition forward (_ : private) (s s' : shared) : Prop := counts_grow (T_of s) (T_of s').

#[export] Instance forward_preorder l : PreOrder (forward l).
Proof. unfold forward. split; [by intros s|]. intros s1 s2 s3. by etrans. Qed.

Definition distinct (l1 l2 : private) : Prop := l_tid l1.1 <> l_tid l2.1.

#[export] Instance distinct_sym : Symmetric distinct.
Proof. unfold distinct. intros l1 l2. congruence. Qed.

Abbreviation keeps := (guar ledger_ok session_ok forward distinct).

(** ** What a commit does *)

(** From the tables [T] to [T'], by a session that holds the locks of what it
    adds. *)
Record commits (s : shared) (tid : nat) (T' : tables) : Prop := {
  cm_counted : counted T';
  cm_rows id d : deliveries (T_of s) !! id = Some d -> exists d', deliveries T' !! id = Some d' /\
    (d_attempt_count d' = d_attempt_count d \/
     d_attempt_count d' = d_attempt_count d + 1 /\ held s tid (LAttempt id (d_attempt_count d + 1)));
  cm_new id : deliveries (T_of s) !! id = None -> is_Some (deliveries T' !! id) -> held s tid (LDeliveryId id)
}.

Lemma apply_writes_rows T ws id :
  is_Some (deliveries (apply_writes T ws) !! id) ->
  is_Some (deliveries T !! id) \/ exists row, (id, row) ∈ new_deliveries ws.
Proof.
  revert T. induction ws as [|w ws IH]; intros T; [by left|].
  change (apply_writes T (w :: ws)) with (apply_writes (apply_write T w) ws). intros H.
  destruct (IH _ H) as [H1|[row H1]].
  - destruct w; cbn in H1; rewrite ?lookup_alter_is_Some in H1; try (by left).
    apply lookup_insert_is_Some' in H1 as [<-|H1]; [|by left]. right. eexists. left.
  - right. exists row. unfold new_deliveries in *. cbn. destruct w; try done. by right.
Qed.

Lemma fresh_app s tid ws1 ws2 : fresh s tid (ws1 ++ ws2) <-> fresh s tid ws1 /\ fresh s tid ws2.
Proof.
  unfold fresh. rewrite new_deliveries_app. split.
  - intros H. split; intros d row Hin; apply (H d row), elem_of_app; auto.
  - intros [H1 H2] d row [H|H]%elem_of_app; eauto.
Qed.

Lemma owed_commits (s : shared) tid ph ws :
  ledger_ok s -> owed s tid ph ws -> (forall id o, ph <> Counting id o) -> commits s tid (apply_writes (T_of s) ws).
Proof.
  intros [_ HT] Hw Hph.
  assert (forall ws ws', new_deliveries ws' = new_deliveries ws -> fresh s tid ws -> forall id,
    deliveries (T_of s) !! id = None -> is_Some (deliveries (apply_writes (T_of s) ws') !! id) -> held s tid (LDeliveryId id)) as Hnew.
  { intros ws1 ws2 E Hf id Hn Hid. apply apply_writes_rows in Hid as [[x Hx]|[row Hrow]]; [congruence|].
    rewrite E in Hrow. by apply (Hf id row). }
  destruct Hw as [ws Hq Hf|ws a Hq Hf Ha|ws1 a st nx t ws2 Hq Hf (Hh & Hlk & d & Hd & Hn) Hs].
  - destruct (counted_quiets _ ws HT Hq) as (H1 & H2 & H3).
    { intros d row Hin. apply attempts_of_nil; [done|]. by apply (Hf d row). }
    constructor; [done| |by apply (Hnew ws)]. intros id d Hd. destruct (H2 id d Hd) as (d' & Hd' & E). exists d'. auto.
  - by destruct (Hph (a_delivery_id a) (a_outcome a)).
  - apply Forall_app in Hq as [Hq1 Hq2]. pose proof Hf as [Hf1 Hf2]%fresh_app.
    destruct (counted_quiets _ ws1 HT Hq1) as (H1 & H2 & H3).
    { intros d' row Hin. apply attempts_of_nil; [done|]. by apply (Hf1 d' row). }
    set (T1 := apply_writes (T_of s) ws1) in *. destruct (H2 _ _ Hd) as (d1 & Hd1 & E1).
    assert (counted (apply_writes T1 [WAttempt a; WAttempted (a_delivery_id a) st nx t])) as H4.
    { eapply counted_record; [done|exact Hd1|lia|done|done]. }
    set (T2 := apply_writes T1 [WAttempt a; WAttempted (a_delivery_id a) st nx t]) in *.
    destruct (counted_quiets T2 ws2 H4 Hq2) as (H5 & H6 & H7).
    { intros d' row Hin. destruct (Hf2 d' row Hin) as [_ Hnone].
      assert (d' <> a_delivery_id a) as Hne by (intros ->; congruence).
      assert (attempts_of T2 d' = attempts_of (T_of s) d') as ->; [|by apply attempts_of_nil].
      unfold attempts_of, T2. cbn. rewrite filter_app, filter_cons, decide_False, app_nil_r by done. by rewrite H3. }
    assert (apply_writes (T_of s) (ws1 ++ [WAttempt a; WAttempted (a_delivery_id a) st nx t] ++ ws2) = apply_writes T2 ws2) as E
      by (unfold T2, T1; by rewrite !apply_writes_app).
    constructor.
    + by rewrite E.
    + intros id x Hx. destruct (H2 id x Hx) as (x1 & Hx1 & F1).
      assert (exists x2, deliveries T2 !! id = Some x2 /\ d_attempt_count x2 =
        (if decide (a_delivery_id a = id) then d_attempt_count x + 1 else d_attempt_count x)) as (x2 & Hx2 & F2).
      { unfold T2. cbn. rewrite lookup_alter. destruct (decide _) as [<-|]; rewrite Hx1; eexists; (split; [reflexivity|]); cbn; lia. }
      destruct (H6 id x2 Hx2) as (x3 & Hx3 & F3). exists x3. rewrite E. split; [done|].
      destruct (decide (a_delivery_id a = id)) as [<-|]; [right|left; lia]. rewrite Hd in Hx. injection Hx as <-.
      split; [lia|]. by rewrite <- Hn.
    + apply (Hnew (ws1 ++ ws2)); [|done]. unfold new_deliveries. by rewrite !omap_app.
Qed.

Lemma commits_same (s : shared) tid T' : ledger_ok s -> T' = T_of s -> commits s tid T'.
Proof.
  intros [_ HT] ->. constructor; [done| |].
  - intros id d Hd. exists d. auto.
  - intros id Hn [d Hd]. congruence.
Qed.

(** ** What is pending stays so *)

Lemma owed_stable (s s' : shared) tid ph ws :
  (forall ws, fresh s tid ws -> fresh s' tid ws) -> (forall a, next_attempt s tid a -> next_attempt s' tid a) ->
  owed s tid ph ws -> owed s' tid ph ws.
Proof. intros Hf Ha [ws' H1 H2|ws' a H1 H2 H3|ws1 a st nx t ws2 H1 H2 H3 H4]; constructor; auto. Qed.

(** A step that adds no row and counts nothing. *)
Lemma owed_move (s s' : shared) tid ph ws :
  same_counts (T_of s) (T_of s') ->
  (forall id, deliveries (T_of s) !! id = None -> deliveries (T_of s') !! id = None) ->
  (forall k, held s tid k -> held s' tid k) -> owed s tid ph ws -> owed s' tid ph ws.
Proof.
  intros Hc Hn Hh. apply owed_stable.
  - intros ws' H d row Hin. destruct (H d row Hin). auto.
  - intros a (H1 & H2 & d & Hd & Hnum). split; [done|]. split; [auto|].
    destruct (Hc _ _ Hd) as (d' & Hd' & E). exists d'. split; [done|lia].
Qed.

(** The commit of another session. *)
Lemma owed_other (s s' : shared) tid tid' ph ws :
  exclusive s -> commits s tid (T_of s') -> tid' <> tid ->
  (forall k, held s tid' k -> held s' tid' k) -> owed s tid' ph ws -> owed s' tid' ph ws.
Proof.
  intros Hx [_ Hr Hn] Hne Hh. apply owed_stable.
  - intros ws' H d row Hin. destruct (H d row Hin) as [H1 H2]. split; [auto|].
    destruct (deliveries (T_of s') !! d) eqn:E; [|done]. exfalso. apply Hne.
    apply (Hx (LDeliveryId d)); [done|]. apply Hn; [done|]. rewrite E. by eexists.
  - intros a (H1 & H2 & d & Hd & Hnum). split; [done|]. split; [auto|].
    destruct (Hr _ _ Hd) as (d' & Hd' & [E|[E H3]]); exists d'; (split; [done|]); [lia|].
    exfalso. apply Hne. apply (Hx (LAttempt (a_delivery_id a) (a_attempt_number a))); [done|]. by rewrite Hnum.
Qed.

(** A step of the session [tid]. *)
Lemma ledger_keeps (s s' : shared) (l l' : private) :
  ledger_ok s -> commits s (l_tid l.1) (T_of s') -> exclusive s' ->
  (forall k t, (k, t) ∈ pg_locks (s_pg s) -> t <> l_tid l.1 -> (k, t) ∈ pg_locks (s_pg s')) ->
  l_tid l'.1 = l_tid l.1 -> session_ok s' l' -> keeps (s, l) (s', l').
Proof.
  intros [Hx HT] Hc Hx' Hlk Ht Hl'. split; [by split; [|apply Hc]|]. split; [done|].
  intros l2 Hne [Hseen Hp]. unfold distinct in *. cbn [fst snd] in *.
  assert (counts_grow (T_of s) (T_of s')) as Hg.
  { intros id d Hd. destruct (cm_rows _ _ _ Hc id d Hd) as (d' & Hd' & E). exists d'. split; [done|lia]. }
  split; [|split; [exact Hg|congruence]]. split.
  - intros id n Hin. destruct (Hseen id n Hin) as (d & Hd & E). destruct (Hg id d Hd) as (d' & Hd' & E'). exists d'. split; [done|lia].
  - destruct (l_tx l2.1) as [x|]; [|done]. eapply owed_other; [exact Hx|exact Hc|congruence| |exact Hp].
    intros k Hk. apply Hlk; [done|congruence].
Qed.

(** ** Statements *)

Lemma tame_quiet now t b q r ws : stmt_ok now t b q r ws -> tame q = true -> Forall quiet ws.
Proof.
  destruct q; cbn [stmt_ok tame]; intros H Hq; try discriminate Hq;
    repeat match goal with
    | H : _ /\ _ |- _ => destruct H
    | H : _ \/ _ |- _ => destruct H
    | H : exists _, _ |- _ => destruct H
    | H : match ?x with _ => _ end |- _ => destruct x
    end; subst; repeat constructor; cbn; try done. by apply bool_decide_eq_true in Hq.
Qed.

Lemma apply_writes_known T ws id : is_Some (deliveries T !! id) -> is_Some (deliveries (apply_writes T ws) !! id).
Proof.
  revert T. induction ws as [|w ws IH]; intros T H; [done|]. apply (IH (apply_write T w)).
  destruct w; cbn; rewrite ?lookup_alter_is_Some, ?lookup_insert_is_Some'; auto.
Qed.

(** What a statement of a transaction adds to the deliveries. *)
Lemma fresh_statement (s s' : shared) tid now ws q r ws1 :
  fresh s tid ws -> stmt_ok now (apply_writes (T_of s) ws) (busy (s_pg s) tid) q r ws1 ->
  T_of s' = T_of s -> (forall k, k ∈ stmt_locks q r \/ held s tid k -> held s' tid k) -> fresh s' tid (ws ++ ws1).
Proof.
  intros Hf Hok HT Hh. apply fresh_app. split.
  - intros d row Hin. destruct (Hf d row Hin). rewrite HT. auto.
  - intros d row Hin. destruct (is_insert q) eqn:Hq.
    + destruct q as [| | | | | | | | | | | |ev ep| | | |]; try discriminate Hq; cbn in Hok.
      * destruct Hok as [(_ & _ & ->)|(_ & id & _ & _ & ->)]; by apply elem_of_nil in Hin.
      * destruct Hok as (id & Hid & -> & ->). apply list_elem_of_singleton in Hin as [= -> ->].
        split; [apply Hh; left; cbn; set_solver|]. rewrite HT.
        destruct (deliveries (T_of s) !! id) eqn:E; [|done].
        destruct (apply_writes_known (T_of s) ws id) as [x Hx]; [by rewrite E|congruence].
    + destruct (stmt_inserts_nothing _ _ _ _ _ _ Hok Hq) as [_ E]. rewrite E in Hin. by apply elem_of_nil in Hin.
Qed.

(** The attempt that is inserted after a counter was read is the next one. *)
Lemma inserted_next (s s' : shared) tid ws id n o http body err lat st fi r ws1 now (g : progress) :
  counted (T_of s) -> Forall quiet ws -> fresh s tid ws ->
  (forall id n, (id, n) ∈ seen g -> exists d, deliveries (T_of s) !! id = Some d /\ 0 <= n <= d_attempt_count d) ->
  (id, n - 1) ∈ seen g -> (o = SUCCESS -> is_2xx http = true) ->
  stmt_runs now (s_pg s) (apply_writes (T_of s) ws) tid (InsertAttempt id n o http body err lat st fi) r ws1 ->
  T_of s' = T_of s -> held s' tid (LAttempt id n) ->
  exists a, ws1 = [WAttempt a] /\ a_delivery_id a = id /\ a_outcome a = o /\ next_attempt s' tid a.
Proof.
  intros HT Hq Hf Hseen Hin Hok (Hrun & Hv & _) HT' Hlk. cbn in Hrun, Hv. eexists. split; [exact Hrun|].
  split; [done|]. split; [done|]. split; [|split; [exact Hlk|]].
  - intros E. cbn in E |- *. specialize (Hok E). destruct http as [z|]; [|done]. exists z. split; [done|].
    apply andb_prop in Hok as [H1 H2]. lia.
  - cbn. destruct (Hseen id (n - 1) Hin) as (d & Hd & Hn). rewrite HT'. exists d. split; [done|].
    destruct (Z.lt_ge_cases (d_attempt_count d) n) as [|Hle]; [lia|]. exfalso. apply Hv. right.
    destruct (counted_quiets _ ws HT Hq) as (_ & _ & Hatt).
    { intros d' row Hrow. apply attempts_of_nil; [done|]. by apply (Hf d' row). }
    destruct (ct_row _ HT id d Hd) as (_ & Hnum & _).
    assert (n ∈ map a_attempt_number (attempts_of (T_of s) id)) as Ha by (rewrite Hnum; apply elem_of_seqZ; lia).
    apply list_elem_of_fmap in Ha as (a & -> & Ha). apply list_elem_of_filter in Ha as [Hid Ha].
    exists a. rewrite Hatt. auto.
Qed.

Lemma owed_statement (s s' : shared) tid g g' x q r ws1 :
  ledger_ok s -> owed s tid (phase_of g) (tx_writes x) ->
  (forall id n, (id, n) ∈ seen g -> exists d, deliveries (T_of s) !! id = Some d /\ 0 <= n <= d_attempt_count d) ->
  tx_statement g q true = Some g' ->
  stmt_runs (tx_start x) (s_pg s) (tx_view (s_pg s) x) tid q r ws1 ->
  T_of s' = T_of s -> (forall k, k ∈ stmt_locks q r \/ held s tid k -> held s' tid k) ->
  owed s' tid (phase_of g') (tx_writes x ++ ws1).
Proof.
  intros [_ HT] Hw Hseen Hg Hrun HT' Hh. unfold tx_view in Hrun. unfold tx_statement in Hg.
  assert (forall ph ws, owed s tid ph ws -> owed s' tid ph ws) as Hmove.
  { intros ph ws. apply owed_move; [by rewrite HT'|by rewrite HT'|auto]. }
  assert (forall ws, fresh s tid ws -> fresh s' tid ws) as Hfm.
  { intros ws H d row Hin. destruct (H d row Hin). rewrite HT'. auto. }
  assert (forall a, next_attempt s tid a -> next_attempt s' tid a) as Ham.
  { intros a (H1 & H2 & H3). split; [done|]. rewrite HT'. auto. }
  assert (forall ws, fresh s tid ws -> stmt_ok (tx_start x) (apply_writes (T_of s) (tx_writes x)) (busy (s_pg s) tid) q r ws1 ->
    new_deliveries ws = new_deliveries (tx_writes x) -> fresh s' tid (ws ++ ws1)) as Hfs.
  { intros ws Hf Hok E. assert (fresh s tid (tx_writes x)) as Hf' by (unfold fresh; by rewrite <- E).
    pose proof (fresh_statement s s' tid _ _ q r ws1 Hf' Hok HT' Hh) as H. unfold fresh in *. by rewrite new_deliveries_app, E, <- new_deliveries_app. }
  remember (phase_of g) as ph eqn:Eph. remember (tx_writes x) as ws0 eqn:Ews.
  destruct Hw as [ws Hq Hf|ws a Hq Hf Ha|ws1' a st nx t ws2 Hq Hf Ha Hs].
  - assert ((exists id n o http body err lat st fi, q = InsertAttempt id n o http body err lat st fi) \/
      tame q = true /\ g' = g) as [(id & n & o & http & body & err & lat & st & fi & ->)|[Htame ->]].
    { destruct q; try (left; by eauto 10); right; destruct (tame _) eqn:E in Hg; try discriminate Hg; by injection Hg as <-. }
    + destruct (bool_decide_reflect ((id, n - 1) ∈ seen g)) as [Hin|]; [|done]. cbn in Hg.
      destruct (bool_decide (o <> SUCCESS) || is_2xx http) eqn:Hok; [|done]. injection Hg as <-. cbn.
      destruct (inserted_next s s' tid ws id n o http body err lat st fi r ws1 (tx_start x) g HT Hq Hf Hseen Hin)
        as (a & -> & <- & <- & Ha); [|exact Hrun|done|apply Hh; left; cbn; set_solver|].
      { intros ->. by rewrite bool_decide_false in Hok by (by intros []). }
      constructor; auto.
    + rewrite <- Eph. constructor; [|by apply Hfs; [|apply Hrun|]].
      apply Forall_app. split; [done|]. eapply tame_quiet; [apply Hrun|done].
  - destruct q as [| | | | | | |id' st next| | | | | | | | |]; try discriminate Hg. cbn in Hrun.
    destruct (String.eqb_spec (a_delivery_id a) id') as [<-|]; [|done]. cbn in Hg.
    destruct (bool_decide (st <> DELIVERED) || bool_decide (a_outcome a = SUCCESS)) eqn:Hok; [|done]. injection Hg as <-. cbn.
    destruct Hrun as ((n & Hn & ->) & _). rewrite <- app_assoc.
    change ([WAttempt a] ++ [WAttempted (a_delivery_id a) st n (tx_start x)]) with
      ([WAttempt a; WAttempted (a_delivery_id a) st n (tx_start x)] ++ []).
    constructor; rewrite ?app_nil_r; [done|auto|auto|].
    intros ->. rewrite bool_decide_false in Hok by (by intros []). by apply bool_decide_eq_true in Hok.
  - assert (tame q = true /\ g' = g) as [Htame ->].
    { destruct q; destruct (tame _) eqn:E in Hg; try discriminate Hg; by injection Hg as <-. }
    rewrite <- Eph, <- !app_assoc. constructor; [| |auto|done].
    + rewrite app_assoc. apply Forall_app. split; [done|]. eapply tame_quiet; [apply Hrun|done].
    + rewrite app_assoc. apply Hfs; [done|apply Hrun|]. by rewrite !new_deliveries_app.
Qed.

(** ** Every call *)

Lemma release_exclusive (s s' : shared) tid T' :
  exclusive s -> s_pg s' = {| pg_tables := T'; pg_locks := release_locks tid (pg_locks (s_pg s)) |} ->
  exclusive s' /\ forall k t, (k, t) ∈ pg_locks (s_pg s) -> t <> tid -> (k, t) ∈ pg_locks (s_pg s').
Proof.
  unfold exclusive. intros Hx ->. unfold release_locks. cbn. split.
  - intros k t1 t2 [_ H1]%list_elem_of_filter [_ H2]%list_elem_of_filter. by eapply Hx.
  - intros k t H Hne. by apply list_elem_of_filter.
Qed.

(** The end of a transaction, with its writes or without. *)
Lemma ends_keeps (s s' : shared) l l' g (b : bool) :
  ledger_ok s -> session_ok s (l, g) -> (b = true -> forall id o, phase_of g <> Counting id o) ->
  s_pg s' = committed (s_pg s) (l_tid l) (if b then default [] (tx_writes <$> l_tx l) else []) ->
  l_tid l' = l_tid l -> l_tx l' = None ->
  keeps (s, (l, g)) (s', (l', in_phase Calm g)) .
Proof.
  intros Hs [Hseen Hp] Hb Hpg Ht Htx. cbn in Hseen, Hp.
  assert (commits s (l_tid l) (T_of s')) as Hc.
  { rewrite Hpg. cbn. destruct b; [|by apply commits_same].
    destruct (l_tx l) as [x|]; [|by apply commits_same]. by eapply owed_commits; [|exact Hp|auto]. }
  destruct (release_exclusive s s' (l_tid l) _ (proj1 Hs) Hpg) as [Hx Hlk].
  eapply (ledger_keeps s s' (l, g) (l', in_phase Calm g)); [done|exact Hc|exact Hx|exact Hlk|done|].
  split; cbn; [|by rewrite Htx]. intros id n Hin. destruct (Hseen id n Hin) as (d & Hd & E).
  destruct (cm_rows _ _ _ Hc id d Hd) as (d' & Hd' & E'). exists d'. split; [done|lia].
Qed.

(** A step that changes no table. *)
Lemma still_keeps (s s' : shared) l l' g g' :
  ledger_ok s -> T_of s' = T_of s -> exclusive s' ->
  (forall k t, (k, t) ∈ pg_locks (s_pg s) -> (k, t) ∈ pg_locks (s_pg s')) -> l_tid l' = l_tid l ->
  session_ok s' (l', g') -> keeps (s, (l, g)) (s', (l', g')).
Proof.
  intros Hs HT Hx Hlk Ht Hl'.
  eapply (ledger_keeps s s' (l, g) (l', g')); [done|by apply commits_same|exact Hx| |done|done]. auto.
Qed.

Lemma session_still (s s' : shared) l l' g :
  T_of s' = T_of s -> (forall k, held s (l_tid l) k -> held s' (l_tid l) k) -> l_tid l' = l_tid l -> l_tx l' = l_tx l ->
  session_ok s (l, g) -> session_ok s' (l', g).
Proof.
  intros HT Hh Ht Htx [Hseen Hp]. split; cbn in *; [by rewrite HT|]. rewrite Htx, Ht. destruct (l_tx l); [|done].
  eapply (owed_move s s'); [by rewrite HT|by rewrite HT|exact Hh|exact Hp].
Qed.

(** An autocommitted statement. *)
Lemma pool_keeps (s s' : shared) l l' g q r ws now :
  ledger_ok s -> session_ok s (l, g) -> tame q = true -> (forall ev ep, q <> InsertDelivery ev ep) ->
  stmt_runs now (s_pg s) (T_of s) (l_tid l) q r ws ->
  s_pg s' = {| pg_tables := apply_writes (T_of s) ws; pg_locks := pg_locks (s_pg s) |} ->
  l_tid l' = l_tid l -> l_tx l' = l_tx l -> keeps (s, (l, g)) (s', (l', g)).
Proof.
  intros Hs Hl Hq Hnd (Hok & _) Hpg Ht Htx. pose proof Hs as [Hx HT]. destruct Hl as [Hseen Hp]. cbn in Hseen, Hp.
  assert (Forall quiet ws) as Hqs by (by eapply tame_quiet).
  assert (new_deliveries ws = []) as Hn.
  { destruct (is_insert q) eqn:Hi; [|by eapply stmt_inserts_nothing]. destruct q; try discriminate Hi; [|by destruct (Hnd event endpoint)].
    cbn in Hok. by destruct Hok as [(_ & _ & ->)|(_ & id & _ & _ & ->)]. }
  assert (T_of s' = apply_writes (T_of s) ws) as HT' by by rewrite Hpg.
  destruct (counted_quiets _ ws HT Hqs) as (H1 & H2 & _); [by rewrite Hn; intros ? ? ?%elem_of_nil|].
  assert (commits s (l_tid l) (T_of s')) as Hc.
  { rewrite HT'. eapply owed_commits; [done|apply (owed_calm s (l_tid l) ws Hqs)|done]. intros ? ?. rewrite Hn. by intros ?%elem_of_nil. }
  eapply (ledger_keeps s s' (l, g) (l', g)); [done|exact Hc| | |done|].
  - unfold exclusive. rewrite Hpg. exact Hx.
  - rewrite Hpg. by intros k t H _.
  - split; cbn.
    + intros id n Hin. destruct (Hseen id n Hin) as (d & Hd & E). rewrite HT'. destruct (H2 id d Hd) as (d' & Hd' & E').
      exists d'. split; [done|lia].
    + rewrite Htx, Ht. destruct (l_tx l); [|done]. eapply (owed_move s s'); [by rewrite HT'| | |exact Hp].
      * intros id Hnone. rewrite HT'. destruct (deliveries (apply_writes _ _) !! id) eqn:E; [|done].
        destruct (apply_writes_rows (T_of s) ws id) as [[x Hx']|[row Hrow]]; [by rewrite E|congruence|].
        rewrite Hn in Hrow. by apply elem_of_nil in Hrow.
      * unfold held. rewrite Hpg. done.
Qed.

Lemma tx_statement_failed g q g' : tx_statement g q false = Some g' -> g' = g.
Proof. unfold tx_statement. repeat case_match; intros; by simplify_eq. Qed.

Lemma tx_statement_seen g q b g' : tx_statement g q b = Some g' -> seen g' = seen g.
Proof. unfold tx_statement. repeat case_match; intros; by simplify_eq. Qed.

(** A call that follows the protocol keeps the agreement. *)
Lemma lstep_keeps (s s' : shared) l l' c r g g' :
  ledger_ok s -> session_ok s (l, g) -> env (s, l) c r (s', l') -> lstep g (Ev c r) = Some g' ->
  keeps (s, (l, g)) (s', (l', g')).
Proof.
  intros Hs Hl He Hg. destruct (env_pg _ _ _ _ _ _ He) as [Ht Hc]. clear He.
  assert (s_pg s' = s_pg s -> l_tx l' = l_tx l -> g' = g -> keeps (s, (l, g)) (s', (l', g'))) as Hsame.
  { intros Hp Htx ->. apply still_keeps; try done; rewrite ?Hp; try done; [unfold exclusive; rewrite Hp; apply Hs|].
    eapply session_still; [by rewrite Hp| |done|done|done]. unfold held. by rewrite Hp. }
  destruct c as [c|c|q nm d i|q ty|i ts tk| | |m|rq| | | |sc|sc sha|lv m]; cbn in Hg;
    try (destruct Hc; injection Hg as <-; by apply Hsame).
  destruct Hc as (n & p' & tx' & Hn & Hp & Htx & Hc).
  pose proof (ends_keeps s s' l l' g) as Hend.
  destruct c as [| | | | |q|q]; cbn in Hg, Hc.
  - injection Hg as <-. apply Hsame; [|by destruct r, Hc; congruence..]. destruct r, Hc; congruence.
  - injection Hg as <-. destruct r; [done|]. destruct Hc. apply Hsame; congruence.
  - injection Hg as <-. assert (s_pg s' = s_pg s) as E by (destruct r, Hc; congruence).
    apply still_keeps; try done; rewrite ?E; try done; [unfold exclusive; rewrite E; apply Hs|].
    destruct Hl as [Hseen _]. split; cbn; [by rewrite E|].
    assert (l_tx l' = None \/ l_tx l' = Some {| tx_start := n; tx_writes := [] |}) as [-> | ->] by (destruct r, Hc; subst; auto); [done|].
    constructor; [done|]. by intros d row ?%elem_of_nil.
  - assert ((forall id o, phase_of g <> Counting id o) /\ g' = in_phase Calm g) as [Hph ->]
      by (destruct (phase_of g); simplify_eq; done).
    destruct r as [e|r].
    + destruct Hc as [[-> | ->] ->]; [by apply (Hend false)|by apply (Hend true)].
    + destruct Hc as [-> ->]. by apply (Hend true).
  - injection Hg as <-. assert (p' = committed (s_pg s) (l_tid l) [] /\ tx' = None) as [-> ->] by by destruct r. by apply (Hend false).
  - destruct r as [e|r]; [apply tx_statement_failed in Hg as ->; destruct Hc; apply Hsame; congruence|].
    destruct Hc as (x & ws & Hx & Hrun & -> & ->). destruct Hl as [Hseen Hw]. cbn in Hseen, Hw. rewrite Hx in Hw.
    assert (T_of s' = T_of s) as HT by by rewrite Hp.
    apply still_keeps; try done.
    + unfold exclusive. rewrite Hp. apply (locks_grow s); [apply Hs|apply Hrun].
    + intros k t Hk. rewrite Hp. apply elem_of_app. by right.
    + split; cbn; [by rewrite (tx_statement_seen _ _ _ _ Hg), HT|]. rewrite Htx, Ht. cbn.
      eapply (owed_statement s s'); [exact Hs|exact Hw|exact Hseen|exact Hg|exact Hrun|done|].
      intros k Hk. unfold held. rewrite Hp. cbn. apply elem_of_app.
      destruct Hk as [Hk|Hk]; [left; by apply (list_elem_of_fmap_2 (fun k => (k, l_tid l)))|by right].
  - assert (tame q = true /\ (forall ev ep, q <> InsertDelivery ev ep) /\
      (g' = g \/ exists id, q = SelectForWorker id)) as (Hq & Hnd & Hg').
    { destruct q; try discriminate Hg; (split; [|split; [done|]]); try done;
        try (by injection Hg as <-; left); try (by right; eexists).
      - by destruct (tame _).
      - destruct (tame _); [|done]. injection Hg as <-. by left. }
    assert (forall r ws, stmt_runs n (s_pg s) (T_of s) (l_tid l) q r ws ->
      p' = {| pg_tables := apply_writes (T_of s) ws; pg_locks := pg_locks (s_pg s) |} -> tx' = l_tx l ->
      keeps (s, (l, g)) (s', (l', g))) as Hpool.
    { intros r0 ws Hrun -> ->. eapply (pool_keeps s s' l l' g q r0 ws n); try done. }
    destruct Hg' as [-> |[id ->]].
    + destruct r as [e|r]; [|by destruct Hc as (ws & Hrun & E & Htx'); eapply Hpool].
      destruct Hc as [Htx' [E|(r & ws & Hrun & E & _)]]; [apply Hsame; congruence|by eapply Hpool].
    + destruct r as [e|rows]; injection Hg as <-.
      * destruct Hc as [Htx' [E|(r & ws & Hrun & E & _)]]; [apply Hsame; congruence|by eapply Hpool].
      * destruct Hc as (ws & ((Hws & Hrows) & _) & -> & ->). cbn in Hws. subst ws.
        assert (T_of s' = T_of s) as HT by by rewrite Hp.
        apply still_keeps; try done; [unfold exclusive; rewrite Hp; apply Hs|by rewrite Hp|].
        destruct (session_still s s' l l' g HT) as [Hseen Hw]; [unfold held; by rewrite Hp|done|done|done|].
        split; [|exact Hw]. cbn. intros i m [Hin|Hin]%elem_of_app; [|by apply Hseen].
        apply list_elem_of_fmap in Hin as (row & [= -> ->] & Hin). cbn in Hrows. subst rows.
        unfold worker_row in Hin. destruct (deliveries (T_of s) !! id) as [d|] eqn:Hd; [|by apply elem_of_nil in Hin]. cbn in Hin.
        destruct (endpoints (T_of s) !! d_endpoint_id d); [|by apply elem_of_nil in Hin].
        destruct (events (T_of s) !! d_event_id d); [|by apply elem_of_nil in Hin]. apply list_elem_of_singleton in Hin as ->.
        rewrite HT. exists d. cbn. split; [done|]. destruct (ct_row _ (proj2 Hs) id d Hd) as [? _]. lia.
Qed.

(** ** Sessions that follow the protocol *)

Definition noted (_ : world RS BS) (c : cmd) (r : exn + resp c) (_ : world RS BS) (g : progress) : progress :=
  default g (lstep g (Ev c r)).

Definition led_env := ghost_env env noted.
Definition led_dies := ghost_crash (dies (RS := RS) (BS := BS)) (fun _ _ g => in_phase Calm g).

Definition abides (_ : nat) (p : io (option IngestResult)) (l : private) : Prop :=
  conforms lstep p (fun _ _ => True) l.2.

Lemma abides_step i c k s (l : private) r w' :
  ledger_ok s -> session_ok s l -> abides i (Vis c k) l -> led_env (s, l) c r w' -> keeps (s, l) w' /\ abides i (k r) w'.2.
Proof.
  destruct l as [l g], w' as [s' [l' g']]. intros Hs Hl Hp [He Hg]. cbn in He, Hg.
  destruct (conforms_vis _ _ _ _ _ r Hp) as (g1 & Hg1 & Hk). unfold noted in Hg. cbn in Hg1. rewrite Hg1 in Hg. cbn in Hg. subst g'.
  split; [by eapply lstep_keeps|exact Hk].
Qed.

Lemma led_dies_keeps w w' : ledger_ok w.1 -> session_ok w.1 w.2 -> led_dies w w' -> keeps w w'.
Proof.
  destruct w as [s [l g]], w' as [s' [l' g']]. intros Hs Hl [[= -> ->] Hg]. cbn in Hg. subst g'.
  by apply (ends_keeps s _ l (with_tx None l) g false).
Qed.
End Store.

(** ** The flows follow the protocol *)

(** A call any session may make at any time it has no attempt to count. *)
Definition harmless (c : cmd) : bool :=
  match c with
  | Pg (CLIENT_QUERY q) => tame q
  | Pg (POOL_QUERY (InsertDelivery _ _)) => false
  | Pg (POOL_QUERY q) => tame q
  | _ => true
  end.

(** Nothing is left to count, and nothing seen is forgotten. *)
Definition settled_from (g g' : progress) : Prop := phase_of g' = Calm /\ seen g ⊆ seen g'.

Lemma settled_refl g : phase_of g = Calm -> settled_from g g.
Proof. by split. Qed.

Lemma settled_trans g1 g2 g3 : settled_from g1 g2 -> settled_from g2 g3 -> settled_from g1 g3.
Proof. intros [_ H1] [H2 H3]. split; [done|]. by etrans. Qed.

Lemma harmless_step g c r :
  phase_of g = Calm -> harmless c = true -> exists g', lstep g (Ev c r) = Some g' /\ settled_from g g'.
Proof.
  intros Hg Hc. destruct g as [sn ph]. cbn in Hg. subst ph.
  assert (forall q b, tame q = true -> tx_statement {| seen := sn; phase_of := Calm |} q b = Some {| seen := sn; phase_of := Calm |}) as Htx.
  { intros q b Hq. unfold tx_statement. cbn [phase_of]. destruct q; try discriminate Hq; cbn in *; by rewrite ?Hq. }
  destruct c as [c|[| | | | |q|q]|q nm d i|q ty|i ts tk| | |m|rq| | | |sc|sc sha|lv m]; cbn in Hc |- *;
    try (eexists; split; [reflexivity|by split]).
  - eexists. split; [by apply Htx|by split].
  - destruct q; try discriminate Hc; cbn in Hc |- *; rewrite ?Hc; try (eexists; split; [reflexivity|by split]).
    destruct r; (eexists; split; [reflexivity|]); split; try done. cbn. intros x Hx. apply elem_of_app. by right.
Qed.

Definition calm_prog {A} (p : io A) : Prop :=
  forall g, phase_of g = Calm -> conforms lstep p (fun _ g' => settled_from g g') g.

Lemma calm_harmless {A} (p : io A) : awaits True (fun c => harmless c = true) p -> calm_prog p.
Proof.
  induction p as [a|e| |c k IH]; intros Hp g Hg; try (by split). destruct Hp as [Hc Hk].
  intros r. destruct (harmless_step g c r Hg Hc) as (g1 & E & Hg1). rewrite E.
  eapply conforms_mono; [apply (IH r (Hk r) g1), Hg1|]. intros o g2. by apply settled_trans.
Qed.

Lemma calm_bind {A B} (p : io A) (f : A -> io B) (Q : outcome exn B -> progress -> Prop) g :
  calm_prog p -> phase_of g = Calm ->
  (forall g' e, settled_from g g' -> Q (Threw e) g') -> (forall g', settled_from g g' -> Q Exited g') ->
  (forall a g', settled_from g g' -> conforms lstep (f a) Q g') -> conforms lstep (bind p f) Q g.
Proof.
  intros Hp Hg Ht Hx Hf. apply conforms_bind. eapply conforms_mono; [by apply Hp|]. intros [a|e|] g' H; auto.
Qed.

Ltac harmless_tac := issues_tac ltac:(reflexivity).

(** A transaction that has counted what it inserted. *)
Lemma calm_withTx {A} (fn : io A) (g : progress) :
  phase_of g = Calm ->
  (forall g1, settled_from g g1 -> conforms lstep fn (fun o g' => seen g1 ⊆ seen g' /\
    match o with Returned _ => forall id o, phase_of g' <> Counting id o | Threw _ => True | Exited => False end) g1) ->
  conforms lstep (withTx fn) (fun _ g' => settled_from g g') g.
Proof.
  intros Hg Hfn. unfold withTx.
  assert (forall c, match c with CONNECT | BEGIN | CLIENT_RELEASE => True | _ => False end -> calm_prog (pg c)) as Hpg.
  { intros c Hc. apply calm_harmless. destruct c; try done; harmless_tac. }
  assert (forall e (g' : progress), seen g ⊆ seen g' ->
    conforms lstep (pg ROLLBACK ;;; Throw e : io A) (fun _ g'' => settled_from g g'') g') as Hback.
  { intros e g' Hs. apply conforms_bind, (conforms_perform lstep (Pg ROLLBACK)). intros r.
    exists (in_phase Calm g'). split; [done|]. by destruct r. }
  apply calm_bind; [by apply Hpg|done|done|done|]. intros _ g1 Hg1.
  apply conforms_try_finally.
  eapply (conforms_mono _ _ (fun _ g' => settled_from g g')).
  - apply conforms_try_catch, calm_bind; [by apply Hpg|apply Hg1|..].
    + intros g2 e H2. apply Hback. etrans; [apply Hg1|apply H2].
    + intros g2 H2. by eapply settled_trans.
    + intros _ g2 H2. assert (settled_from g g2) as H02 by by eapply settled_trans.
      apply conforms_bind. eapply conforms_mono; [by apply Hfn|].
      intros o g3 [Hs Ho]. assert (seen g ⊆ seen g3) as H03 by (etrans; [apply H02|done]).
      destruct o as [a|e|]; [|by apply Hback|done].
      apply conforms_bind, (conforms_perform lstep (Pg COMMIT)). intros r. exists (in_phase Calm g3).
      split; [cbn; destruct (phase_of g3) as [|id o|] eqn:E; [done|by destruct (Ho id o)|done]|].
      destruct r; [by apply Hback|done].
  - intros o g' Hg'. destruct o; try done; (eapply conforms_mono; [by apply Hpg, Hg'|]; intros [] g''; by eapply settled_trans).
Qed.

(** ** The attempt of a job *)

Lemma conforms_statement (q : stmt) (Q : outcome exn (stmt_resp q) -> progress -> Prop) (g : progress) :
  (forall e, exists g', tx_statement g q false = Some g' /\ Q (Threw e) g') ->
  (forall r, exists g', tx_statement g q true = Some g' /\ Q (Returned r) g') ->
  conforms lstep (client_query q) Q g.
Proof. intros H1 H2. apply (conforms_perform lstep (Pg (CLIENT_QUERY q))). intros [e|r]; [apply H1|apply H2]. Qed.

Lemma calm_recordAttempt (input : RecordAttemptInput) (g : progress) :
  phase_of g = Calm -> (ra_deliveryId input, ra_attemptNumber input - 1) ∈ seen g ->
  (ra_outcome input = SUCCESS -> is_2xx (ra_httpStatus input) = true) ->
  (ra_toStatus input = DELIVERED -> ra_outcome input = SUCCESS) ->
  conforms lstep (recordAttempt input) (fun _ g' => settled_from g g') g.
Proof.
  intros Hg Hseen Ho Hs. apply calm_withTx; [done|]. intros [sn ph] [Hg1 Hsub]. cbn in Hg1, Hsub. subst ph.
  assert (forall b P (HP : Decision P), (~ P -> b = true) -> bool_decide P || b = true) as Hor.
  { intros b P HP Hb. case_bool_decide; [done|]. by apply Hb. }
  apply conforms_bind, conforms_statement; intros r; eexists; (split; [cbn;
    rewrite bool_decide_true, Hor by (try apply Hsub; try done; intros ?%dec_stable; auto); reflexivity|]); [done|].
  apply conforms_bind, conforms_statement; intros r2; eexists; (split; [cbn;
    rewrite String.eqb_refl, Hor by (intros ?%dec_stable; apply bool_decide_eq_true; auto); reflexivity|]); [done|].
  apply conforms_bind, conforms_statement; intros r3; eexists; by (split; [reflexivity|]).
Qed.

(** The delivery a job acts on was read under the counter it will write. *)
Definition read_by (deliveryId : string) (d : DeliveryForWorker) (g : progress) : Prop :=
  phase_of g = Calm /\ (deliveryId, attemptCount d) ∈ seen g.

Lemma read_by_settled id d g g' : read_by id d g -> settled_from g g' -> read_by id d g'.
Proof. intros [_ Hd] [Hg Hs]. split; [done|by apply Hs]. Qed.

Lemma calm_getForDelivery id (g : progress) :
  phase_of g = Calm ->
  conforms lstep (getForDelivery id)
    (fun o g' => phase_of g' = Calm /\ forall d, o = Returned (Some d) -> read_by id d g') g.
Proof.
  intros Hg. apply conforms_bind, (conforms_perform lstep (Pg (POOL_QUERY (SelectForWorker id)))).
  intros [e|rows]; (eexists; split; [reflexivity|]); [done|].
  destruct rows as [|row rows]; split; try done. intros d [= <-]. split; [done|]. by left.
Qed.

Section Flows.
Context (cfg : Config) (hmac : string -> string -> string).

(** A part that leaves the attempts alone. *)
Ltac calm_step H :=
  apply calm_bind; [apply calm_harmless; solve [harmless_tac]|apply H|
    intros ? ? [? ?]; first [assumption|by split]|intros ? [? ?]; first [assumption|by split]|
    let a := fresh "a" in let g := fresh "g" in let Hn := fresh in
    intros a g Hn; apply (read_by_settled _ _ _ _ H) in Hn; clear H; rename Hn into H].

Lemma calm_pickup j token (g : progress) :
  phase_of g = Calm ->
  conforms lstep (pickup cfg j token)
    (fun o g' => phase_of g' = Calm /\ forall d st, o = Returned (Some (d, st)) -> read_by (job_deliveryId j) d g') g.
Proof.
  intros Hg. apply conforms_bind. eapply conforms_mono; [by apply calm_getForDelivery|].
  intros [[d|]|e|] g1 [Hg1 Hd]; try (by split). pose proof (Hd d eq_refl) as H. clear Hd.
  destruct (_ || _); [by split|]. destruct (negb _).
  { do 2 calm_step H. by split; [apply H|]. }
  calm_step H. case_bool_decide.
  { do 2 calm_step H. apply conforms_bind. eapply conforms_mono; [apply calm_recordAttempt; [apply H| |done..]|].
    - cbn. unfold attemptNumber. rewrite Z.add_simpl_r. apply H.
    - by intros [] ? []. }
  calm_step H. destruct a0; [|do 3 calm_step H; by split; [apply H|]].
  split; [apply H|]. by intros d' st [= <- <-].
Qed.

Lemma calm_call id tok sched url body headers : calm_prog (withLockHeartbeat cfg id tok sched (deliver cfg url body headers)).
Proof. apply calm_harmless, awaits_heartbeat; [harmless_tac|done|harmless_tac]. Qed.

Lemma calm_attempt id tok sched d st (g : progress) :
  read_by id d g -> conforms lstep (attempt cfg hmac id tok sched d st) (fun _ g' => phase_of g' = Calm) g.
Proof.
  intros H. unfold attempt. do 3 calm_step H.
  apply calm_bind; [apply calm_call|apply H|by intros ? ? []|by intros ? []|intros r g3 H3]. apply (read_by_settled _ _ _ _ H) in H3. clear H.
  do 3 calm_step H3. apply conforms_bind. eapply conforms_mono; [apply calm_recordAttempt; [apply H3|..]|].
  - cbn. unfold attemptNumber. rewrite Z.add_simpl_r. apply H3.
  - cbn. intros Ho. pose proof (judge_success _ _ _ Ho) as (Hl & res & Hr & Hz). unfold judge. rewrite Hl, Hr. cbn. lia.
  - cbn. unfold is_success. by case_bool_decide.
  - intros [] g' [Hg' _]; try done. by destruct (is_success _).
Qed.

Lemma calm_processDelivery sched j token (g : progress) :
  phase_of g = Calm -> conforms lstep (processDelivery cfg hmac sched j token) (fun _ g' => phase_of g' = Calm) g.
Proof.
  intros Hg. unfold processDelivery.
  assert (forall g lock bucket, phase_of g = Calm -> conforms lstep (cleanup cfg (job_deliveryId j) lock bucket) (fun _ g' => phase_of g' = Calm) g) as Hclean.
  { intros g0 lock bucket H0. eapply conforms_mono; [apply (calm_harmless (cleanup cfg _ _ _)); [harmless_tac|done]|by intros ? ? []]. }
  apply calm_bind; [apply calm_harmless; harmless_tac|done|by intros ? ? []|by intros ? []|intros lock g1 [Hg1 _]].
  destruct (negb _).
  { eapply conforms_mono; [apply calm_harmless; [harmless_tac|done]|by intros ? ? []]. }
  apply conforms_bind. unfold settle. apply conforms_try_catch, conforms_bind.
  eapply conforms_mono; [by apply calm_pickup|].
  intros [[[d st]|]|e|] g2 [Hg2 Hd]; [|..|done].
  - apply conforms_try_finally. eapply conforms_mono; [apply calm_attempt, (Hd d st eq_refl)|].
    intros [] g' Hg'; try done; (eapply conforms_mono; [by apply Hclean|]; by intros []).
  - by apply Hclean.
  - cbn. apply conforms_bind. eapply conforms_mono; [by apply Hclean|]. by intros [].
Qed.
End Flows.

(** At its start a session has seen nothing. *)
Definition unseen : progress := {| seen := []; phase_of := Calm |}.

Lemma flow_abides cfg hmac f : conforms lstep (flow_prog cfg hmac f) (fun _ _ => True) unseen.
Proof.
  destruct f; cbn [flow_prog]; [| |apply conforms_bind; eapply conforms_mono; [by apply calm_processDelivery|by intros []]|..];
    (eapply conforms_mono; [apply calm_harmless; [|done]|done]; apply issues_bind; [harmless_tac|done]).
Qed.

(** ** Property *)

Section Race.
Context {RS BS : Type} `{!RedisServer RS} `{!RedisLaws RS} `{!BullMQ BS}.
Context (cfg : Config) (hmac : string -> string -> string).
Abbreviation T_of s := (pg_tables (s_pg s)).

(** Flows about to start, that have seen nothing. *)
Definition beginning (calls : list (flow * session)) : list (io (option IngestResult) * (session * progress)) :=
  (fun c => (flow_prog cfg hmac c.1, (c.2, unseen))) <$> calls.

Lemma beginning_follows calls : follows abides (beginning calls).
Proof.
  intros i p l Hi. apply list_lookup_fmap_Some_1 in Hi as ([f l0] & [= -> ->] & Hi). right. apply flow_abides.
Qed.

Lemma beginning_fits calls (s : shared RS BS) :
  separate calls -> ledger_ok s ->
  fits_all led_env ledger_ok session_ok forward distinct (fun _ _ _ => True) (s, beginning calls).
Proof using RedisLaws0.
  intros [Hidle Hnd] Hs. apply fits_start; [apply _|done| |].
  - intros i p l Hi. pose proof (beginning_follows calls i p l Hi) as Hp. split.
    + apply list_lookup_fmap_Some_1 in Hi as ([f l0] & [= -> ->] & Hi). split; cbn; [by intros ? ? ?%elem_of_nil|].
      pose proof (Hidle (f, l0) (list_elem_of_lookup_2 _ _ _ Hi)) as Hx. cbn in Hx. by rewrite Hx.
    + destruct Hp as [-> |Hp]; [done|]. eapply (rg_follow _ _ _ _ _ abides); [|exact Hp].
      intros j c k s0 l0 r w'. by apply abides_step.
  - intros i j t u Hi Hj Hne. apply list_lookup_fmap_Some_1 in Hi as (c & -> & Hi).
    apply list_lookup_fmap_Some_1 in Hj as (d & -> & Hj). unfold distinct.
    cbn. intros Ht. apply Hne. eapply (NoDup_lookup _ _ _ (l_tid c.2) Hnd); rewrite list_lookup_fmap; [by rewrite Hi|].
    rewrite Hj. cbn. by rewrite Ht.
Qed.

(** Whatever keeps the agreement moves the counters forward. *)
Lemma keeps_forward (w w' : shared RS BS * (session * progress)) :
  guar ledger_ok session_ok forward distinct w w' -> counts_grow (T_of w.1) (T_of w'.1).
Proof.
  intros (_ & _ & Hg).
  destruct (Hg ({| l_tid := S (l_tid w.2.1); l_tx := None; l_sha := l_sha w.2.1 |}, unseen)) as (_ & H & _); [|by split; [intros ? ? ?%elem_of_nil|]|exact H].
  unfold distinct. cbn. lia.
Qed.

(** C10: the attempts under concurrency. Let any number of flows of the
    engine, jobs of the same delivery among them, run interleaved call by
    call, with any answers, failures and deaths of processes: the locks of
    jobs may have run out long ago. If the attempts agree with their rows at
    the start, they do at every moment: those of each delivery are numbered
    from 1 without a gap or a repetition, as many as its row says, a
    DELIVERED one has its success and a success its 2xx answer, so that the
    queries of invariants.sql on them find nothing. No counter ever goes down. *)
Theorem attempts_race (calls : list (flow * session)) (s s' : shared RS BS) ts' :
  separate calls -> exclusive s -> counted (T_of s) ->
  rtc (sys_move env dies) (s, starting cfg hmac calls) (s', ts') ->
  counted (T_of s') /\ counts_grow (T_of s) (T_of s') /\
  I2 (T_of s') = [] /\ I3 (T_of s') = [] /\ I5 (T_of s') = [] /\ E2 (T_of s') = [].
Proof using RedisLaws0.
  intros Hsep Hx HT Hrun.
  assert (starting cfg hmac calls = erase (beginning calls)) as Est
    by (unfold starting, beginning, erase; by rewrite <- list_fmap_compose).
  rewrite Est in Hrun. apply (ghost_steps env dies noted (fun _ _ => in_phase Calm)) in Hrun as (gts' & Hrun & E).
  pose proof (beginning_fits calls s Hsep (conj Hx HT)) as Hfit.
  destruct (follows_steps led_env led_dies ledger_ok session_ok forward distinct led_dies_keeps abides abides_step
    (fun _ _ _ => True) _ _ Hrun Hfit (beginning_follows calls)) as [([_ HT'] & _) _].
  cbn [fst] in HT'. split; [done|]. split.
  { refine (follows_shared led_env led_dies ledger_ok session_ok forward distinct led_dies_keeps abides abides_step
      (fun s s' => counts_grow (T_of s) (T_of s')) (fun _ _ _ => True) _ _ _ Hrun Hfit (beginning_follows calls)).
    - split; [by intros x|by intros x y z; etrans].
    - intros w w' _ _. apply keeps_forward. }
  split; [by apply I2_counted|]. split; [by apply I3_counted|]. split; [by apply I5_counted|by apply E2_counted].
Qed.
End Race.

(** ** A job that outlives its lock *)

(** Services whose calls take the time [tick] says. *)
Definition clocked (tick : mem_world -> cmd -> Z) (h : forall w : mem_world, forall c : cmd, (exn + resp c) * mem_world)
    (w : mem_world) (c : cmd) : (exn + resp c) * mem_world :=
  h (with_now (s_now w.1 + Z.max 0 (tick w c)) w.1, w.2) c.

Lemma clocked_env tick h : handles env h -> handles env (clocked tick h).
Proof.
  intros Hh w c. unfold clocked. set (w1 := (with_now _ _, _)). specialize (Hh w1 c).
  destruct (h w1 c) as [r w']. destruct Hh as (s & (n & Hn & ->) & H). exists (with_now n w1.1). split; [|exact H].
  exists n. split; [|done]. cbn in Hn. lia.
Qed.

(** The first session waits a minute for its connection. *)
Definition waiting (w : mem_world) (c : cmd) : Z :=
  match c with Pg CONNECT => if (l_tid w.2 =? 1)%nat then 60000000 else 0 | _ => 0 end.

Definition no_ticks : schedule := {| during := []; late := 0 |}.

Definition stale_jobs : list (flow * session) :=
  (fun t => (FDeliver no_ticks demo_job None, demo_tid t)) <$> [1; 2; 3]%nat.

(** The first job reads the delivery and waits; the second delivers it; the
    first goes on, and fails; the third is its retry. *)
Definition stale_turns : list nat :=
  replicate 8 0%nat ++ replicate 40 1%nat ++ replicate 40 0%nat ++ replicate 40 2%nat.

Definition stale_run : system :=
  run_schedule (clocked waiting Mutex.by_session) stale_turns
    (pending_world.1, starting default_config toy_hmac stale_jobs).

Lemma stale_moves :
  rtc (sys_move env dies) (pending_world.1, starting default_config toy_hmac stale_jobs) (stale_run.1, stale_run.2).
Proof.
  rewrite <- surjective_pairing. apply run_schedule_moves, clocked_env. intros w c. apply Mutex.by_session_minted.
Qed.

Lemma stale_separate : separate stale_jobs.
Proof.
  split; [|apply (bool_decide_unpack _); vm_compute; exact I].
  intros c Hc. repeat (apply elem_of_cons in Hc as [-> |Hc]; [done|]). by apply elem_of_nil in Hc.
Qed.

Lemma pending_counted : counted (pg_tables (s_pg pending_world.1)).
Proof.
  constructor; [|by intros a ?%elem_of_nil|constructor].
  intros id d Hd. cbn in Hd. by apply lookup_singleton_Some in Hd as [<- <-].
Qed.

Lemma attempts_race_witness :
  map a_attempt_number (attempts_of (pg_tables (s_pg stale_run.1)) "d1") = [1; 2] /\
  length (s_sent stale_run.1) = 3%nat /\ I2 (pg_tables (s_pg stale_run.1)) = [] /\ I3 (pg_tables (s_pg stale_run.1)) = [].
Proof.
  destruct (attempts_race default_config toy_hmac stale_jobs pending_world.1 stale_run.1 stale_run.2 stale_separate
    (fun k t1 t2 H => match not_elem_of_nil _ H with end) pending_counted stale_moves) as (_ & _ & H2 & H3 & _).
  split; [vm_compute; reflexivity|]. split; [vm_compute; reflexivity|]. exact (conj H2 H3).
Defined.

(** The attempts are in order, but the delivery is not: the first job has
    moved it from DELIVERED back to DELIVERING under the status it had read a
    minute before, and its retry delivers it again, with no dead-letter queue
    involved. *)
Theorem delivered_again : exists s ts,
  rtc (sys_move env dies) (pending_world.1, starting default_config toy_hmac stale_jobs) (s, ts) /\
  I1 (pg_tables (s_pg s)) = ["d1"] /\
  map (fun r => (t_from_status r, t_to_status r)) (trail (pg_tables (s_pg s)) "d1") =
    [(None, PENDING); (Some PENDING, DELIVERING); (Some DELIVERING, DELIVERED); (Some PENDING, DELIVERING);
     (Some DELIVERING, DELIVERING); (Some DELIVERING, DELIVERED)].
Proof.
  exists stale_run.1, stale_run.2. split; [exact stale_moves|]. split; vm_compute; reflexivity.
Qed.
