(* ===== verification/Reconciler.v ===== *)
(** * The reconciler

    [src/src/reconciler/index.ts]: the loop that sweeps for deliveries no job
    will come for. The sweep itself is [claimUnenqueued] of Repo.v. *)

From S2P Require Import Prelude Async Config Json Tables Queries Schema Redis Services Concrete Scripts Repo Frames WorkerSpec DeadLetter.
From Stdlib Require Import ZArith Lia String.
From stdpp Require Import prelude strings gmap.

Open Scope Z_scope.
Open Scope async_scope.

Definition tick (cfg : Config) : io unit :=
  try_catch
    (let* count := claimUnenqueued cfg (RECONCILER_BATCH_SIZE cfg) in
     if 0 <? count then log "info" "enqueued orphaned deliveries" else Ret tt)
    (fun err => log "error" "reconciler tick failed").

(** [loop], when [shuttingDown] is found unset [n] times. The timer between
    two ticks only lets time pass, as any call does. *)
Fixpoint loop (cfg : Config) (n : nat) : io unit :=
  match n with
  | O => Ret tt
  | S n => tick cfg ;;; loop cfg n
  end.

Section Reconciler.
Context {RS BS : Type} `{!RedisServer RS} `{!RedisLaws RS} `{!BullMQ BS} `{!BullMQLaws BS}.
Abbreviation world := (world RS BS).
Context (cfg : Config).

(** What sweeps do to the queues: jobs of the delivery queue whose id is the
    delivery's. *)
Definition swept : BS -> BS -> Prop := rtc (fun b b' => exists id, b' = bq_add b webhook_delivery id id).

Lemma wp_claim_swept limit b (w : world) :
  swept b (s_bull w.1) -> wp env (claimUnenqueued cfg limit) (fun _ w' => swept b (s_bull w'.1)) w.
Proof.
  intros Hw. set (J := fun w' : world => swept b (s_bull w'.1)).
  assert (forall w1 w2, J w1 -> same_rest w1 w2 -> J w2) as HJ.
  { unfold J. by intros w1 w2 H (_ & -> & _). }
  assert (forall q w1, J w1 -> wp env (client_query q) (fun _ => J) w1) as Hq.
  { intros q w1 H1. by apply (wp_pg_rest J HJ). }
  apply (wp_withTx_rest J HJ); [done|]. intros w1 H1. apply wp_bind. eapply wp_mono; [by apply Hq|].
  intros [ids|e|] w2 H2; cbn [after]; [|done|done]. apply wp_bind.
  eapply wp_mono; [apply (wp_for_each env (ids : list string) _ J); [done|]|].
  - intros id w3 _ H3. apply wp_bind, wp_queue_add. intros n Hn.
    assert (J (with_bull (bq_add (s_bull w3.1) webhook_delivery id id) (with_now n w3.1), w3.2)) as H4.
    { unfold J. cbn. eapply rtc_r; [exact H3|]. by exists id. }
    split; [|by intros e _]. cbn [after]. apply wp_bind. eapply wp_mono; [by apply Hq|].
    intros [[]|e|] w4 H5; cbn [after]; [by apply wp_ret|done|done].
  - intros [[]|e|] w3 H3; cbn [after]; [by apply wp_ret|done|done].
Qed.

Lemma swept_kept b b' : swept b b' -> jobs_kept b b'.
Proof. induction 1 as [|b1 b2 b3 [id ->] _ IH]; [done|]. etrans; [apply bq_add_kept|exact IH]. Qed.

(** A delivery whose own id the queue remembers gets no further job. *)
Lemma swept_remembered b b' id :
  swept b b' -> is_Some (bq_jobs b webhook_delivery !! id) ->
  forall jid j, bq_jobs b' webhook_delivery !! jid = Some j -> j_deliveryId j = id ->
  bq_jobs b webhook_delivery !! jid = Some j.
Proof.
  induction 1 as [|b1 b2 b3 [x ->] _ IH]; intros Hid jid j Hj Hd; [done|].
  assert (is_Some (bq_jobs (bq_add b1 webhook_delivery x x) webhook_delivery !! id)) as Hid2.
  { destruct Hid as [k Hk]. exists k. by apply bq_add_kept. }
  specialize (IH Hid2 jid j Hj Hd). rewrite bq_add_jobs, decide_True in IH by done.
  destruct (bq_jobs b1 webhook_delivery !! x) as [k|] eqn:Hx; [done|].
  rewrite lookup_insert in IH. destruct (decide (x = jid)) as [<-|]; [|done].
  injection IH as <-. cbn in Hd. subst x. destruct Hid as [k Hk]. congruence.
Qed.

(** A tick never throws, and leaves what a sweep may leave. *)
Definition tick_post (w w' : world) : Prop :=
  idle w' /\ swept (s_bull w.1) (s_bull w'.1) /\
  (tables_of w' = tables_of w \/ exists n, claimed cfg (RECONCILER_BATCH_SIZE cfg) w w' n).

Lemma tick_post_later (w w1 w2 : world) : tick_post w w1 -> later w1 w2 -> tick_post w w2.
Proof. intros H (n & Hn & ->). by destruct w1 as [[] []]. Qed.

Lemma wp_tick (w : world) : idle w -> wp env (tick cfg) (fun o w' => o = Returned tt /\ tick_post w w') w.
Proof.
  intros Hi. unfold tick. apply wp_try_catch, wp_bind. eapply wp_mono.
  { apply wp_and; [by apply (wp_claimUnenqueued cfg (RECONCILER_BATCH_SIZE cfg))|by apply (wp_claim_swept _ (s_bull w.1))]. }
  assert (forall l m w1, tick_post w w1 -> wp env (log l m) (fun o w' => o = Returned tt /\ tick_post w w') w1) as Hlog.
  { intros l m w1 H1. eapply wp_mono; [apply wp_log|]. intros o w2 [-> H2]. split; [done|by eapply tick_post_later]. }
  intros [n|e|] w1 [Ho Hs]; cbn [after]; [| |done].
  - destruct Ho as [Hi1 Hc]. assert (tick_post w w1) as H1 by (split; [done|]; split; [done|]; right; by exists n).
    destruct (0 <? n); [|by apply wp_ret]. eapply wp_mono; [by apply Hlog|]. by intros o w2 [-> H2].
  - destruct Ho as [Hi1 Hc]. by apply Hlog.
Qed.

Lemma wp_loop n (w : world) :
  idle w -> wp env (loop cfg n) (fun o w' => o = Returned tt /\ idle w' /\ swept (s_bull w.1) (s_bull w'.1)) w.
Proof.
  revert w. induction n as [|n IH]; intros w Hi; cbn [loop]; [by apply wp_ret|].
  apply wp_bind. eapply wp_mono; [by apply wp_tick|]. intros o w1 (-> & Hi1 & Hs1 & _). cbn [after].
  eapply wp_mono; [by apply IH|]. intros o w2 (-> & Hi2 & Hs2). split; [done|]. split; [done|]. by etrans.
Qed.
End Reconciler.

(** ** Properties *)

Section Recovery.
Context {RS BS : Type} `{!RedisServer RS} `{!RedisLaws RS} `{!BullMQ BS} `{!BullMQLaws BS}.
Abbreviation world := (world RS BS).

Definition waiting_job (id : string) : job := {| j_deliveryId := id; j_state := JWait |}.

(** The delivery queue after a sweep of [ids]. *)
Lemma add_jobs_lookup (b : BS) ids id :
  bq_jobs (add_jobs b ids) webhook_delivery !! id =
  match bq_jobs b webhook_delivery !! id with
  | Some j => Some j
  | None => if decide (id ∈ ids) then Some (waiting_job id) else None
  end.
Proof.
  unfold add_jobs. revert b. induction ids as [|x ids IH]; intros b; cbn.
  - by destruct (bq_jobs b webhook_delivery !! id).
  - rewrite IH, bq_add_jobs, decide_True by done.
    destruct (bq_jobs b webhook_delivery !! x) as [k|] eqn:Hx.
    + destruct (bq_jobs b webhook_delivery !! id) eqn:Hid; [done|].
      destruct (decide (id ∈ ids)), (decide (id ∈ x :: ids)); try done; exfalso; set_solver.
    + rewrite lookup_insert. destruct (decide (x = id)) as [<-|Hne].
      * rewrite Hx, decide_True by (by left). done.
      * destruct (bq_jobs b webhook_delivery !! id) eqn:Hid; [done|].
        destruct (decide (id ∈ ids)), (decide (id ∈ x :: ids)); try done; exfalso; set_solver.
Qed.

Lemma stuck_later cfg T t t' id : t <= t' -> stuck cfg T t id -> stuck cfg T t' id.
Proof.
  intros Ht (d & Hd & Hc). exists d. split; [done|]. unfold claimable in *.
  apply andb_true_iff in Hc as [Hc Hu]. apply andb_true_iff. split; [|lia].
  apply orb_true_iff in Hc as [->|Hc]; [done|]. apply orb_true_iff. right.
  apply andb_true_iff in Hc as [-> Hn]. cbn. destruct (d_next_attempt_at d); [lia|done].
Qed.

Lemma wp_tick_steady cfg (w : world) :
  idle w -> wp steady (tick cfg) (fun o w' => o = Returned tt /\ exists n,
    claimed cfg (RECONCILER_BATCH_SIZE cfg) w w' n) w.
Proof.
  intros Hi. unfold tick. apply wp_try_catch.
  eapply wp_steady_bind; [smooth_tac|by apply (wp_claimUnenqueued cfg (RECONCILER_BATCH_SIZE cfg))|].
  intros n w1 [_ Hc]. cbn beta iota. destruct (0 <? n).
  - eapply wp_mono; [apply wp_steady; [smooth_tac|apply wp_log]|].
    intros o w2 ([] & -> & _ & k & _ & ->). split; [done|]. exists n. exact Hc.
  - apply wp_ret. split; [done|]. by exists n.
Qed.

(** The reconciler outlives every failure and only ever adds. However
    many ticks run, with any answers and failures of the services, the loop
    ends only at the shutdown, with no transaction left open; the queues keep
    every job they remembered; and a delivery whose own id the queue
    remembers, in whatever state, gets no further job from any sweep. *)
Theorem reconciler_survives (cfg : Config) (n : nat) (w w' : world) (o : outcome exn unit) :
  idle w -> exec env (loop cfg n) w o w' ->
  o = Returned tt /\ idle w' /\ jobs_kept (s_bull w.1) (s_bull w'.1) /\
  forall id, is_Some (bq_jobs (s_bull w.1) webhook_delivery !! id) ->
  forall jid j, bq_jobs (s_bull w'.1) webhook_delivery !! jid = Some j -> j_deliveryId j = id ->
  bq_jobs (s_bull w.1) webhook_delivery !! jid = Some j.
Proof.
  intros Hi Hx. pose proof (wp_loop cfg n w Hi) as H. rewrite wp_exec in H.
  destruct (H _ _ Hx) as (Ho & Hi' & Hs). split; [done|]. split; [done|]. split; [by apply swept_kept|].
  intros id. by apply swept_remembered.
Qed.

Lemma tick_recovers (cfg : Config) (w w' : world) (o : outcome exn unit) :
  idle w -> exec steady (tick cfg) w o w' ->
  o = Returned tt /\ exists n, claimed cfg (RECONCILER_BATCH_SIZE cfg) w w' n /\
  (RECONCILER_BATCH_SIZE cfg <= n \/
   forall id, stuck cfg (tables_of w) (s_now w.1) id -> unlocked w id ->
   bq_jobs (s_bull w'.1) webhook_delivery !! id =
   Some (default (waiting_job id) (bq_jobs (s_bull w.1) webhook_delivery !! id))).
Proof.
  intros Hi Hx. pose proof (wp_tick_steady cfg w Hi) as H. rewrite wp_exec in H.
  destruct (H _ _ Hx) as (Ho & n & Hc). split; [done|]. exists n. split; [done|].
  destruct Hc as (t0 & ids & Ht & _ & _ & _ & _ & Hall & _ & Hb).
  destruct (Z.le_gt_cases (RECONCILER_BATCH_SIZE cfg) n) as [Hle|Hlt]; [by left|]. right.
  intros id Hst Hu. assert (id ∈ ids) as Hin by (apply Hall; [done|by eapply stuck_later|done]).
  rewrite Hb, add_jobs_lookup. destruct (bq_jobs (s_bull w.1) webhook_delivery !! id); [done|].
  by rewrite decide_True.
Qed.

(** C17: a tick on services that do not fail recovers every stuck delivery.
    Either the batch was full, or each delivery that was pending or overdue
    and untouched for the grace period, and whose row no other session held,
    has its job on the delivery queue: the one the queue remembered, or a new
    waiting one. *)
Theorem reconciler_recovers (cfg : Config) (w w' : world) (o : outcome exn unit) :
  idle w -> exec steady (tick cfg) w o w' ->
  o = Returned tt /\ exists n, claimed cfg (RECONCILER_BATCH_SIZE cfg) w w' n /\
  (RECONCILER_BATCH_SIZE cfg <= n \/
   forall id, stuck cfg (tables_of w) (s_now w.1) id -> unlocked w id ->
   bq_jobs (s_bull w'.1) webhook_delivery !! id =
   Some (default (waiting_job id) (bq_jobs (s_bull w.1) webhook_delivery !! id))).
Proof. exact (tick_recovers cfg w w' o). Qed.
End Recovery.

(** A manual retry whose job was never added: the delivery is pending and
    overdue, and the queue still remembers its failed job. *)
Definition lost_retry_world : mem_world :=
  demo_world 100000 (demo_tables PENDING [demo_attempt 1] None) ∅
    {["d1" := {| j_deliveryId := "d1"; j_state := JFailed |}]}.

Lemma reconciler_survives_witness :
  let r := run_with (serve reliable) (loop default_config 3) lost_retry_world in
  bq_jobs (s_bull r.2.1) webhook_delivery !! "d1" = Some {| j_deliveryId := "d1"; j_state := JFailed |} /\
  forall jid j, bq_jobs (s_bull r.2.1) webhook_delivery !! jid = Some j -> j_deliveryId j = "d1" -> jid = "d1".
Proof.
  intros r.
  destruct (reconciler_survives default_config 3 lost_retry_world r.2 r.1 (demo_idle _ _ _ _)
    (serve_exec reliable (loop default_config 3) lost_retry_world)) as (_ & _ & Hk & Hn).
  split; [apply Hk; vm_compute; reflexivity|].
  intros jid j Hj Hd. assert (is_Some (bq_jobs (s_bull lost_retry_world.1) webhook_delivery !! "d1")) as Hs
    by (eexists; vm_compute; reflexivity).
  pose proof (Hn "d1" Hs jid j Hj Hd) as H. cbn in H. apply lookup_singleton_Some in H as [H _]. exact (eq_sym H).
Defined.

Lemma reconciler_recovers_witness :
  let r := run_with (serve reliable) (tick default_config) overdue_world in
  bq_jobs (s_bull r.2.1) webhook_delivery !! "d1" = Some (waiting_job "d1").
Proof.
  intros r.
  destruct (reconciler_recovers default_config overdue_world r.2 r.1 (demo_idle _ _ _ _)) as (_ & n & Hc & H).
  - refine (serve_steady reliable (tick default_config) overdue_world _). vm_compute. reflexivity.
  - destruct H as [Hn|H].
    + exfalso. destruct Hc as (t0 & ids & _ & Hnd & -> & _ & Hids & _). change (500 <= Z.of_nat (length ids)) in Hn.
      assert (forall id, id ∈ ids -> id = "d1") as Hone.
      { intros id Hid. rewrite Forall_forall in Hids. destruct (Hids id Hid) as (d & Hd & _).
        cbn in Hd. by apply lookup_singleton_Some in Hd as [<- _]. }
      destruct ids as [|a [|b ids]]; cbn in Hn; [lia|lia|]. apply NoDup_cons in Hnd as [Hab _]. apply Hab.
      rewrite (Hone a (list_elem_of_here a (b :: ids))), (Hone b (list_elem_of_further b a _ (list_elem_of_here b ids))).
      apply list_elem_of_here.
    + apply (H "d1"); [|intros tid Htid; by inversion Htid].
      exists (demo_delivery FAILED 1 (Some 5000)). split; vm_compute; reflexivity.
Defined.
