(* ===== verification/Memo.v ===== *)
(** * Memoised calls

    [src/src/shared/memo.ts]: [memoTtl] wraps an asynchronous function in a
    cache with a lifetime and shares one call in flight between all callers.
    The closure's two variables are the state [memo]; callers and the settling
    of the wrapped call are the events of a machine, since many callers hold
    the same closure. *)

From S2P Require Import Prelude.
From Stdlib Require Import ZArith Lia.
From stdpp Require Import prelude list.

Open Scope Z_scope.

Section Memo.
(** The values and errors of [fn], the names of the callers, and [ttlMs]. *)
Context {T E : Type} (ttlMs : Z).

(** [cached], and [pending]: the callers that hold the pending promise. *)
Record memo := { m_cached : option (T * Z); m_pending : option (list nat) }.

Definition memo_init : memo := {| m_cached := None; m_pending := None |}.

(** What happens to the closure: a caller runs it at [now], or the call of
    [fn] in flight settles at [now]. *)
Inductive memo_event :=
| Call (now : Z) (caller : nat)
| Settle (now : Z) (r : E + T).

(** What is seen from outside: a caller's promise settles, a call of [fn]
    starts. *)
Inductive memo_output :=
| Answer (now : Z) (caller : nat) (r : E + T)
| Start (now : Z).

(** The closure's body, on a call; the two handlers of [fn()], on a settling.
    [None] is a settling without a call in flight, which does not happen. *)
Definition memoTtl (m : memo) (ev : memo_event) : option (list memo_output * memo) :=
  match ev with
  | Call now c =>
      match m_cached m with
      | Some (value, expiresAt) =>
          if now <? expiresAt then Some ([Answer now c (inr value)], m)
          else
            match m_pending m with
            | Some cs => Some ([], {| m_cached := m_cached m; m_pending := Some (cs ++ [c]) |})
            | None => Some ([Start now], {| m_cached := m_cached m; m_pending := Some [c] |})
            end
      | None =>
          match m_pending m with
          | Some cs => Some ([], {| m_cached := m_cached m; m_pending := Some (cs ++ [c]) |})
          | None => Some ([Start now], {| m_cached := m_cached m; m_pending := Some [c] |})
          end
      end
  | Settle now r =>
      match m_pending m with
      | None => None
      | Some cs => Some (map (fun c => Answer now c r) cs,
          {| m_cached := match r with inr value => Some (value, now + ttlMs) | inl _ => m_cached m end;
             m_pending := None |})
      end
  end.

(** A run of the machine, with everything seen. *)
Inductive memo_run : memo -> list memo_event -> list memo_output -> memo -> Prop :=
| run_nil m : memo_run m [] [] m
| run_snoc m evs outs m1 ev out m2 :
    memo_run m evs outs m1 -> memoTtl m1 ev = Some (out, m2) -> memo_run m (evs ++ [ev]) (outs ++ out) m2.

Definition event_time (ev : memo_event) : Z := match ev with Call now _ | Settle now _ => now end.

(** Counting: what started, what settled, who asked, who was answered. *)
Definition starts (outs : list memo_output) : nat :=
  length (List.filter (fun o => match o with Start _ => true | _ => false end) outs).
Definition settles (evs : list memo_event) : nat :=
  length (List.filter (fun ev => match ev with Settle _ _ => true | _ => false end) evs).

Definition asked (evs : list memo_event) : list nat :=
  omap (fun ev => match ev with Call _ c => Some c | _ => None end) evs.
Definition served (outs : list memo_output) : list nat :=
  omap (fun o => match o with Answer _ c _ => Some c | _ => None end) outs.

Definition waiting (m : memo) : list nat := default [] (m_pending m).
Definition in_flight (m : memo) : nat := match m_pending m with Some _ => 1 | None => 0 end.

(** [fn] settled with [r] at [t] during the run. *)
Definition settled_at (evs : list memo_event) (t : Z) (r : E + T) : Prop := Settle t r ∈ evs.

(** An answer is the result of a call of [fn] that settled at that moment, or
    a value no older than its lifetime. *)
Definition fresh_answer (evs : list memo_event) (o : memo_output) : Prop :=
  match o with
  | Start _ => True
  | Answer now _ r => exists t, settled_at evs t r /\ (t = now \/ ((exists v, r = inr v) /\ now < t + ttlMs))
  end.

Lemma fresh_answer_app evs evs' o : fresh_answer evs o -> fresh_answer (evs ++ evs') o.
Proof. destruct o as [now c r|]; [|done]. intros (t & Hs & H). exists t. split; [|done]. apply elem_of_app. by left. Qed.

(** The cache holds what [fn] last returned, with its deadline. *)
Definition cache_ok (evs : list memo_event) (m : memo) : Prop :=
  forall v d, m_cached m = Some (v, d) -> exists t, settled_at evs t (inr v) /\ d = t + ttlMs.

Lemma cache_ok_app evs evs' m : cache_ok evs m -> cache_ok (evs ++ evs') m.
Proof. intros Hc v d H. destruct (Hc v d H) as (t & Ht & ->). exists t. split; [|done]. apply elem_of_app. by left. Qed.

(** A call is a hit, or joins or starts the call in flight. *)
Lemma memo_call_inv m now c out m' :
  memoTtl m (Call now c) = Some (out, m') ->
  (exists v d, m_cached m = Some (v, d) /\ now < d /\ out = [Answer now c (inr v)] /\ m' = m) \/
  (m_cached m' = m_cached m /\ m_pending m' = Some (waiting m ++ [c]) /\
   out = match m_pending m with Some _ => [] | None => [Start now] end).
Proof.
  unfold memoTtl, waiting. destruct (m_cached m) as [[v d]|] eqn:Hv; [destruct (Z.ltb_spec now d)|];
    [intros [= <- <-]; left; by exists v, d|..]; destruct (m_pending m); intros [= <- <-]; right; by cbn.
Qed.

Lemma memo_step_fresh evs m ev out m' :
  cache_ok evs m -> memoTtl m ev = Some (out, m') ->
  cache_ok (evs ++ [ev]) m' /\ Forall (fresh_answer (evs ++ [ev])) out.
Proof.
  intros Hc Hs. destruct ev as [now c|now r].
  - pose proof (cache_ok_app evs [Call now c] m Hc) as Hc'.
    destruct (memo_call_inv _ _ _ _ _ Hs) as [(v & d & Hv & Hd & -> & ->)|(Hm & _ & ->)].
    + split; [done|]. repeat constructor. destruct (Hc' v d Hv) as (t & Ht & ->). exists t. eauto.
    + split; [by unfold cache_ok; rewrite Hm|]. destruct (m_pending m); by repeat constructor.
  - cbn in Hs. destruct (m_pending m) as [cs|]; [|done]. injection Hs as <- <-.
    assert (settled_at (evs ++ [Settle now r]) now r) as Hr by (apply elem_of_app; right; by left).
    split.
    + intros v d. cbn. destruct r as [e|v']; [by apply cache_ok_app|]. intros [= <- <-]. by exists now.
    + apply Forall_map, Forall_forall. intros c _. exists now. auto.
Qed.

Lemma served_all now r cs : served (map (fun c => Answer now c r) cs) = cs.
Proof. induction cs as [|c cs IH]; cbn; [done|]. by f_equal. Qed.

Lemma starts_all now r cs : starts (map (fun c => Answer now c r) cs) = 0%nat.
Proof. by induction cs. Qed.

Lemma memo_step_count m ev out m' :
  memoTtl m ev = Some (out, m') ->
  asked [ev] ++ waiting m ≡ₚ served out ++ waiting m' /\
  (starts out + in_flight m = settles [ev] + in_flight m')%nat.
Proof.
  destruct ev as [now c|now r]; intros Hs.
  - destruct (memo_call_inv _ _ _ _ _ Hs) as [(v & d & _ & _ & -> & ->)|(_ & Hp & ->)]; [done|].
    unfold waiting at 2. unfold in_flight. rewrite Hp. cbn. unfold waiting.
    destruct (m_pending m) as [cs|]; cbn; (split; [|done]); [|done]. by rewrite Permutation_app_comm.
  - cbn in Hs. unfold waiting, in_flight. destruct (m_pending m) as [cs|]; [|done]. injection Hs as <- <-. cbn.
    by rewrite served_all, starts_all, app_nil_r.
Qed.

Lemma memo_run_fresh m evs outs m' :
  memo_run m evs outs m' -> m = memo_init -> cache_ok evs m' /\ Forall (fresh_answer evs) outs.
Proof.
  induction 1 as [m|m evs outs m1 ev out m2 _ IH Hs]; intros ->; [split; [by intros v d|constructor]|].
  destruct (IH eq_refl) as [Hc Hf]. destruct (memo_step_fresh _ _ _ _ _ Hc Hs) as [Hc' Hf'].
  split; [done|]. apply Forall_app. split; [|done]. eapply Forall_impl; [exact Hf|]. intros o. apply fresh_answer_app.
Qed.

Lemma memo_run_count m evs outs m' :
  memo_run m evs outs m' -> m = memo_init ->
  asked evs ≡ₚ served outs ++ waiting m' /\ (starts outs = settles evs + in_flight m')%nat.
Proof.
  induction 1 as [m|m evs outs m1 ev out m2 _ IH Hs]; intros ->; [done|].
  destruct (IH eq_refl) as [Hp Hn]. destruct (memo_step_count _ _ _ _ Hs) as [Hp' Hn'].
  unfold asked, served, starts, settles in *. rewrite !omap_app, !List.filter_app, !length_app. split; [|lia].
  rewrite Hp, <- !app_assoc. apply Permutation_app_head. by rewrite <- Hp', Permutation_app_comm.
Qed.
End Memo.

Arguments memo T : clear implicits.
Arguments memo_event T E : clear implicits.
Arguments memo_output T E : clear implicits.

(** ** Properties *)

(** C39: one call at a time, and every caller is answered once. In any run of
    the memoised function, as many calls of [fn] have started as have settled,
    plus one exactly while a caller waits; and those who asked are those who
    were answered and those who wait, each as often. *)
Theorem memo_single_flight {T E : Type} (ttlMs : Z) (evs : list (memo_event T E)) outs (m : memo T) :
  memo_run ttlMs memo_init evs outs m ->
  (starts outs = settles evs + in_flight m)%nat /\ asked evs ≡ₚ served outs ++ waiting m.
Proof. intros H. destruct (memo_run_count ttlMs _ _ _ _ H eq_refl). done. Qed.

(** Two callers share a call, a third hits the cache, a fourth starts again. *)
Definition demo_events : list (memo_event Z unit) :=
  [Call 0 1; Call 5 2; Settle 10 (inr 7); Call 900 3; Call 1010 4; Settle 1020 (inl tt)].

Definition demo_outputs : list (memo_output Z unit) :=
  [Start 0; Answer 10 1 (inr 7); Answer 10 2 (inr 7); Answer 900 3 (inr 7); Start 1010;
   Answer 1020 4 (inl tt)].

Lemma demo_memo_run :
  memo_run 1000 memo_init demo_events demo_outputs {| m_cached := Some (7, 1010); m_pending := None |}.
Proof.
  apply (run_snoc 1000 _ [_; _; _; _; _] [_; _; _; _; _] {| m_cached := Some (7, 1010); m_pending := Some [4%nat] |} _ [_]); [|reflexivity].
  apply (run_snoc 1000 _ [_; _; _; _] [_; _; _; _] {| m_cached := Some (7, 1010); m_pending := None |} _ [_]); [|reflexivity].
  apply (run_snoc 1000 _ [_; _; _] [_; _; _] {| m_cached := Some (7, 1010); m_pending := None |} _ [_]); [|reflexivity].
  apply (run_snoc 1000 _ [_; _] [_] {| m_cached := None; m_pending := Some [1%nat; 2%nat] |} _ [_; _]); [|reflexivity].
  apply (run_snoc 1000 _ [_] [_] {| m_cached := None; m_pending := Some [1%nat] |} _ []); [|reflexivity].
  apply (run_snoc 1000 _ [] [] memo_init _ [_]); [constructor|reflexivity].
Qed.

Lemma memo_single_flight_witness : starts demo_outputs = 2%nat /\ asked demo_events ≡ₚ served demo_outputs.
Proof.
  destruct (memo_single_flight 1000 demo_events demo_outputs _ demo_memo_run) as [H1 H2].
  split; [exact H1|]. cbn [waiting m_pending default] in H2. rewrite app_nil_r in H2. exact H2.
Defined.

(** No stale answers. Every caller is answered with the result of a call
    of [fn] that settles at that moment, or with a value, never an error, that
    a call returned less than [ttlMs] ago. *)
Theorem memo_fresh {T E : Type} (ttlMs : Z) (evs : list (memo_event T E)) outs (m : memo T) now c r :
  memo_run ttlMs memo_init evs outs m -> Answer now c r ∈ outs ->
  exists t, Settle t r ∈ evs /\ (t = now \/ ((exists v, r = inr v) /\ now < t + ttlMs)).
Proof.
  intros H Hin. destruct (memo_run_fresh ttlMs _ _ _ _ H eq_refl) as [_ Hf].
  rewrite Forall_forall in Hf. exact (Hf _ Hin).
Qed.

Lemma memo_fresh_witness :
  exists t, Settle t (inr 7) ∈ demo_events /\ (t = 900 \/ ((exists v : Z, @inr unit Z 7 = inr v) /\ 900 < t + 1000)).
Proof.
  apply (memo_fresh 1000 demo_events demo_outputs _ 900 3 (inr 7) demo_memo_run).
  unfold demo_outputs. do 3 apply list_elem_of_further. apply list_elem_of_here.
Defined.
