(* ===== verification/ApiSpec.v ===== *)
(** * What the API promises

    The effects of the two writing routes of Api.v, on every branch and
    whatever fails: what a reply means for the tables and the queue, and what
    an error leaves. *)

From S2P Require Import Prelude Async Config Json Tables Queries Schema Redis Services Concrete Scripts Repo Frames Ingest WorkerSpec DeadLetter Api.
From Stdlib Require Import ZArith Lia String Ascii.
From stdpp Require Import prelude strings gmap.

Open Scope Z_scope.
Open Scope async_scope.

(** Nothing but counting the jobs of a queue. *)
Definition counting (c : cmd) : Prop := match c with JobCounts _ _ => True | _ => False end.

Section Events.
Context (is_uuid : string -> bool) (issues_of : json -> json) (cfg : Config).
Abbreviation check := (check_request is_uuid issues_of cfg).
Abbreviation post := (postEvents is_uuid issues_of cfg).

(** The event a valid request asks to store. *)
Definition accepted (T : tables) (rq : event_request) (p : IngestParams) : Prop :=
  exists key ep ty pl row, check rq = inr (key, ep, ty, pl) /\ endpoints T !! ep = Some row /\
    e_is_active row = true /\
    p = {| client_id := e_client_id row; idempotency_key := key; event_type := ty; payload := pl; endpoint_id := ep |}.

(** The errors of the route itself, each with its cause: [busy], more jobs
    waiting than the limit; [down ep], a failed read of the endpoint [ep]. *)
Inductive refusal (busy : Prop) (down : string -> Prop) (T : tables) (rq : event_request) : exn -> Prop :=
| ref_overload : busy -> refusal busy down T rq Errors.backpressure
| ref_request e : check rq = inl e -> refusal busy down T rq e
| ref_not_found key ep ty pl : check rq = inr (key, ep, ty, pl) -> endpoints T !! ep = None ->
    refusal busy down T rq (Errors.endpointNotFound ep)
| ref_storage key ep ty pl : check rq = inr (key, ep, ty, pl) -> down ep -> refusal busy down T rq Errors.storageUnavailable
| ref_inactive key ep ty pl row : check rq = inr (key, ep, ty, pl) -> endpoints T !! ep = Some row ->
    e_is_active row = false -> refusal busy down T rq (Errors.endpointInactive ep).

Section Wp.
Context {RS BS : Type} `{!RedisServer RS} `{!RedisLaws RS} `{!BullMQ BS} `{!BullMQLaws BS}.
Abbreviation world := (world RS BS).

Lemma wp_read_endpoint ep (w : world) :
  wp env (read_endpoint ep) (fun o w1 => db_same w w1 /\
    match o with
    | Returned (_, client, active) => exists row, endpoints (tables_of w) !! ep = Some row /\
        client = e_client_id row /\ active = e_is_active row
    | Threw e => (endpoints (tables_of w) !! ep = None /\ e = Errors.endpointNotFound ep) \/ e = Errors.storageUnavailable
    | Exited => False
    end) w.
Proof.
  unfold read_endpoint. apply wp_try_catch, wp_bind, wp_pg. intros n Hn. destruct w as [s l]. split; cbn.
  - intros rows p' tx' (ws & ((-> & ->) & _ & _) & -> & ->).
    assert (db_same (s, l) (with_pg {| pg_tables := apply_writes (pg_tables (s_pg s)) []; pg_locks := pg_locks (s_pg s) |}
      (with_now n s), with_tx (l_tx l) l)) as Hs by (repeat split; try (cbn in *; lia); cbn; by destruct (s_pg s)).
    unfold tables_of. cbn. destruct (endpoints _ !! ep) as [row|] eqn:Hrow; cbn.
    + apply wp_ret. split; [done|]. by exists row.
    + apply wp_throw, wp_throw. split; [done|]. by left.
  - intros e p' tx' He Hf.
    assert (db_same (s, l) (with_pg p' (with_now n s), with_tx tx' l)) as Hs.
    { destruct Hf as [-> [->|(rows & (ws & ((-> & _) & _ & _) & -> & _))]];
        repeat split; try (cbn in *; lia); cbn; by destruct (s_pg s). }
    destruct e; try done; apply wp_throw; (split; [done|by right]).
Qed.

(** The depth of the queue that the backpressure check sees, the one the memo
    remembers or else that of the moment, is above the limit. *)
Definition shedding (hit : option (gmap string Z)) (w : world) : bool :=
  let jobs := bq_jobs (s_bull w.1) webhook_delivery in
  let seen key := match hit with Some counts => default 0 (counts !! key) | None => count_jobs jobs key end in
  BACKPRESSURE_QUEUE_LIMIT cfg <? seen "wait" + seen "delayed".

Lemma wp_isOverloaded hit (w : world) :
  wp env (isOverloaded cfg hit) (fun o w1 => db_same w w1 /\
    match o with Returned over => over = shedding hit w | Threw e => foreign e | Exited => False end) w.
Proof.
  unfold isOverloaded. apply wp_bind. destruct hit as [counts|]; [by apply wp_ret, wp_ret|].
  apply (wp_await env (JobCounts webhook_delivery ["wait"; "delayed"])). intros r w1 He.
  assert (db_same w w1) as Hs by (by eapply quiet_db_same; [|exact He]).
  pose proof (env_foreign w (JobCounts webhook_delivery ["wait"; "delayed"])) as Hf. destruct r as [e|counts]; cbn [answer after].
  - split; [done|]. by eapply Hf.
  - destruct He as (s1 & (n & Hn & ->) & _ & H). apply wp_ret. split; [done|].
    pose proof (H "wait" ltac:(set_solver)) as Hw. pose proof (H "delayed" ltac:(set_solver)) as Hd.
    cbn in counts, Hw, Hd. unfold overloaded, shedding. rewrite Hw, Hd. by destruct w.
Qed.

(** How POST /v1/events ends. *)
Definition events_post (crash : bool) (hit : option (gmap string Z)) (down : string -> Prop) (rq : event_request) (w : world) (o : outcome exn reply) (w' : world) : Prop :=
  let T := tables_of w in let T' := tables_of w' in
  idle w' /\
  match o with
  | Returned r => shedding hit w = false /\ exists p res, accepted T rq p /\ r = event_reply res /\
      ((is_new res = true /\ exists ws, created T p res ws /\
          (T' = apply_writes T ws \/
           is_Some (bq_jobs (s_bull w'.1) webhook_delivery !! delivery_id res) /\
           exists t, T' = apply_write (apply_writes T ws) (WEnqueued (delivery_id res) t))) \/
       (is_new res = false /\ T' = T /\ delivery_of T (event_id res) (delivery_id res) (delivery_status res)))
  | Threw e => (T' = T /\ (foreign e \/ refusal (shedding hit w = true) down T rq e)) \/
      (foreign e /\ exists p res ws, accepted T rq p /\ created T p res ws /\ T' = apply_writes T ws)
  | Exited => crash = true /\ exists p res ws, accepted T rq p /\ created T p res ws /\ T' = apply_writes T ws
  end.

Lemma raises_ingestEvent p : raises foreign (ingestEvent cfg p).
Proof. raises_tac ltac:(first [exact I|assumption]). Qed.

(** The enqueueing after a stored event never fails the request. *)
Lemma wp_enqueue_caught id (w : world) :
  idle w ->
  wp env (try_catch (enqueueDelivery id) (fun _ : exn => log "error" "enqueue failed — reconciler will recover"))
    (fun o w' => o = Returned tt /\ idle w' /\
      (tables_of w' = tables_of w \/
       is_Some (bq_jobs (s_bull w'.1) webhook_delivery !! id) /\
       exists t, tables_of w' = apply_write (tables_of w) (WEnqueued id t))) w.
Proof.
  intros Hi. apply wp_try_catch. eapply wp_mono; [by apply wp_enqueueDelivery|].
  assert (forall (o : outcome exn unit) w1, enqueued_post id w o w1 -> idle w1 /\
    (tables_of w1 = tables_of w \/ is_Some (bq_jobs (s_bull w1.1) webhook_delivery !! id) /\
     exists t, tables_of w1 = apply_write (tables_of w) (WEnqueued id t))) as Hp.
  { intros o w1 (Hi1 & _ & _ & _ & [[HT _]|(t & _ & HT & Hb)]); (split; [done|]); [by left|]. right.
    rewrite Hb. split; [apply bq_add_has|by exists t]. }
  intros [[]|e|] w1 H1; [by split; [|apply (Hp _ _ H1)]| |by destruct H1 as (_ & _ & _ & [] & _)].
  eapply wp_mono; [apply wp_log|]. intros o w2 (-> & n & Hn & ->). split; [done|].
  destruct (Hp _ _ H1) as [Hi1 HT]. by destruct w1 as [[] []].
Qed.

Lemma wp_after_ingest (crash : bool) hit down rq p (w w1 : world) :
  shedding hit w = false -> idle w1 -> tables_of w1 = tables_of w -> accepted (tables_of w) rq p ->
  wp env (let* result := ingestEvent cfg p in
          (if is_new result then
             if crash then Exit
             else try_catch (enqueueDelivery (delivery_id result))
                    (fun _ : exn => log "error" "enqueue failed — reconciler will recover")
           else Ret tt) ;;;
          Ret (event_reply result)) (events_post crash hit down rq w) w1.
Proof using RedisLaws0 BullMQLaws0.
  intros Hsh Hi HT Hacc. apply wp_bind. eapply wp_mono.
  { apply wp_and; [by apply wp_ingestEvent|apply (wp_raises env foreign); [by intros; eapply env_foreign|apply raises_ingestEvent]]. }
  intros o w2 [(Hi2 & Hne & Ho) Hf]. rewrite HT in Ho. destruct o as [r|e|]; cbn [after]; [| |done].
  - destruct Ho as [[HT2 Ho]|(res & ws & Hc & HT2 & Hr)].
    + assert (is_new r = false /\ delivery_of (tables_of w) (event_id r) (delivery_id r) (delivery_status r)) as [Hn Hd].
      { by destruct Ho as [(H1 & _ & H2)|(H1 & _ & H2)]. }
      rewrite Hn. apply wp_bind, wp_ret, wp_ret. split; [done|]. split; [done|]. exists p, r. split; [done|]. split; [done|]. by right.
    + specialize (Hr r eq_refl) as <-. pose proof Hc as [Hn _]. rewrite Hn. destruct crash.
      * change (events_post true hit down rq w Exited w2). split; [done|]. split; [done|]. by exists p, r, ws.
      * apply wp_bind. eapply wp_mono; [by apply wp_enqueue_caught|]. intros o w3 (-> & Hi3 & H3). apply wp_ret.
        split; [done|]. split; [done|]. exists p, r. split; [done|]. split; [done|]. left. split; [done|]. exists ws. split; [done|].
        by rewrite HT2 in H3.
  - split; [done|]. destruct Ho as [[HT2 _]|(res & ws & Hc & HT2 & _)]; [left|right]; (split; [done|]); [by left|].
    by exists p, res, ws.
Qed.

Lemma wp_postEvents crash hit rq (w : world) :
  idle w -> wp env (post crash hit rq) (events_post crash hit (fun _ => True) rq w) w.
Proof using RedisLaws0 BullMQLaws0.
  intros Hi. unfold postEvents. apply wp_bind. eapply wp_mono.
  { apply wp_isOverloaded. }
  intros [over|e|] w1 [H1 Hf]; cbn [after]; [| |done]; last first.
  { split; [by eapply db_same_idle|]. left. split; [by apply db_same_tables|by left]. }
  assert (forall e w2, db_same w w2 -> foreign e \/ refusal (shedding hit w = true) (fun _ => True) (tables_of w) rq e ->
    events_post crash hit (fun _ => True) rq w (Threw e) w2) as Hthrow.
  { intros e w2 H2 He. split; [by eapply db_same_idle|]. left. split; [by apply db_same_tables|done]. }
  destruct over; [apply wp_throw, Hthrow; [done|right; by constructor]|].
  destruct (check rq) as [e|[[[key ep] ty] pl]] eqn:Hck; [apply wp_throw, Hthrow; [done|right; by constructor]|].
  apply wp_bind. eapply wp_mono; [apply wp_read_endpoint|].
  intros [[[i client] active]|e|] w2 [H2 Ho]; cbn [after]; [| |done]; rewrite (db_same_tables _ _ H1) in Ho;
    (assert (db_same w w2) as H by (by etrans)).
  - destruct Ho as (row & Hrow & -> & ->). destruct (e_is_active row) eqn:Hact; cbn [negb].
    + apply wp_after_ingest; [done|by eapply db_same_idle|by apply db_same_tables|]. by exists key, ep, ty, pl, row.
    + apply wp_throw, Hthrow; [done|]. right. by eapply ref_inactive.
  - apply Hthrow; [done|]. right. destruct Ho as [[Hn ->]| ->]; [by eapply ref_not_found|by eapply ref_storage].
Qed.

(** A failed read of the endpoint [ep], among the calls made. *)
Definition read_failed (tr : list (event resp exn)) (ep : string) : Prop :=
  exists e, Ev (Pg (POOL_QUERY (SelectEndpoint ep))) (inl e) ∈ tr.

Lemma witnessed_foreign (x : world * list (event resp exn)) c e x' : witnessed env x c (inl e) x' -> foreign e.
Proof. intros [He _]. by eapply env_foreign. Qed.

(** The 503 comes of that read and of nothing else. *)
Lemma wp_storage crash hit rq (x : world * list (event resp exn)) :
  wp (witnessed env) (post crash hit rq) (fun o x' => o = Threw Errors.storageUnavailable ->
    forall key ep ty pl, check rq = inr (key, ep, ty, pl) -> read_failed x'.2 ep) x.
Proof.
  unfold postEvents. apply wp_bind. eapply wp_mono.
  { apply (wp_raises (witnessed env) foreign); [by intros; eapply witnessed_foreign|].
    raises_tac ltac:(exact I). }
  intros [over|e|] x1 Hf; cbn [after]; [|by intros [= ->]|done]. destruct over; [by apply wp_throw|].
  destruct (check rq) as [e|[[[key ep] ty] pl]] eqn:Hck; [by apply wp_throw|].
  apply wp_bind. unfold read_endpoint. apply wp_try_catch, wp_bind, (wp_await (witnessed env) (Pg (POOL_QUERY (SelectEndpoint ep)))). intros r x2 He.
  assert (forall (p : io reply) (x3 : world * list (event resp exn)), raises (fun e => foreign e \/ exists id, e = Errors.endpointInactive id) p ->
    wp (witnessed env) p (fun o x' => o = Threw Errors.storageUnavailable ->
      forall key ep ty pl, check rq = inr (key, ep, ty, pl) -> read_failed x'.2 ep) x3) as Hrest.
  { intros p x3 Hp. eapply wp_mono; [eapply (wp_raises (witnessed env)); [|exact Hp]|].
    - intros. left. by eapply witnessed_foreign.
    - intros [a|e|] x4 He'; [done| |done]. intros [= ->]. by destruct He' as [|[id ?]]. }
  destruct r as [e|[|[[i client] active] rows]]; cbn [answer after].
  - pose proof (witnessed_foreign _ _ _ _ He) as Hfe. destruct He as [_ Htr].
    destruct e; try done; apply wp_throw; cbn; intros _ key' ep' ty' pl' [= <- <- <- <-];
      rewrite Htr; eexists; apply elem_of_app; right; by constructor.
  - by apply wp_throw, wp_throw.
  - apply wp_ret. cbn. rewrite <- Hck. apply Hrest. destruct (negb active); [right; by eexists|].
    raises_tac ltac:(first [assumption|left; exact I]).
Qed.
End Wp.
End Events.

(** ** The retry route *)

Section Retry.
Context {RS BS : Type} `{!RedisServer RS} `{!RedisLaws RS} `{!BullMQ BS} `{!BullMQLaws BS}.
Abbreviation world := (world RS BS).

Definition retry_job_id (id : string) (now : Z) : string := id ++s ":retry:" ++s show_Z now.

(** The queues once the retry's job is added. *)
Definition retry_added (id : string) (w w' : world) : Prop :=
  exists now, s_bull w'.1 = bq_add (s_bull w.1) webhook_delivery (retry_job_id id now) id.

(** The errors of the route itself, each with its cause. *)
Definition retry_refused (T : tables) (id : string) (e : exn) : Prop :=
  match deliveries T !! id with
  | None => e = Errors.deliveryNotFound id
  | Some d => d_status d <> DLQ /\ e = Errors.notInDlq (status_text (d_status d))
  end.

(** How POST /v1/dlq/:deliveryId/retry ends. *)
Definition retry_route_post (cfg : Config) (id : string) (w : world) (o : outcome exn reply) (w' : world) : Prop :=
  let T := tables_of w in let T' := tables_of w' in
  idle w' /\ s_sent w'.1 = s_sent w.1 /\
  match o with
  | Returned r => (exists t0, s_now w.1 <= t0 /\ T' = requeued id t0 T) /\ exists now,
      r = retry_reply cfg id (retry_job_id id now) /\
      s_bull w'.1 = bq_add (s_bull w.1) webhook_delivery (retry_job_id id now) id
  | Threw e => (T' = T /\ s_bull w'.1 = s_bull w.1 /\ (foreign e \/ retry_refused T id e)) \/
      (foreign e /\ (exists t0, s_now w.1 <= t0 /\ T' = requeued id t0 T) /\
       (s_bull w'.1 = s_bull w.1 \/ retry_added id w w'))
  | Exited => False
  end.

Lemma raises_retryFromDlq id : raises foreign (retryFromDlq id).
Proof. raises_tac ltac:(assumption). Qed.

(** A reply of the route is one about a delivery in the DLQ. *)
Lemma wp_postRetry_returned cfg id (w : world) :
  idle w -> wp env (postRetry cfg id) (fun o _ => forall r, o = Returned r ->
    (d_status <$> deliveries (tables_of w) !! id) = Some DLQ) w.
Proof.
  intros Hi. unfold postRetry. apply wp_bind. eapply wp_mono; [by apply wp_retry_post|].
  intros [res|e|] w1 [_ [_ Ho]]; cbn [after]; [|done|done].
  assert (res = RetryOk -> (d_status <$> deliveries (tables_of w) !! id) = Some DLQ) as Hok.
  { intros ->. destruct (d_status <$> deliveries (tables_of w) !! id) as [[]|]; try done;
      by destruct Ho as [_ [[=]|[e [=]]]]. }
  destruct res; [|by apply wp_throw..]. apply wp_bind. eapply wp_mono; [apply (wp_quiet date_now); quiet_tac|].
  intros [now|e|] w2 [Hne _]; cbn [after]; [|done|done].
  apply wp_bind. eapply wp_mono; [apply wp_quiet; quiet_tac|].
  intros [u|e|] w3 _; cbn [after]; [|done|done]. apply wp_ret. intros r _. by apply Hok.
Qed.

Lemma wp_postRetry cfg id (w : world) : idle w -> wp env (postRetry cfg id) (retry_route_post cfg id w) w.
Proof.
  intros Hi. unfold postRetry. apply wp_bind. eapply wp_mono.
  { apply wp_and; [by apply wp_retry_post|apply (wp_raises env foreign); [by intros; eapply env_foreign|apply raises_retryFromDlq]]. }
  intros o w1 [[(_ & Hb & Hs & _) [Hi1 Ho]] Hf].
  assert (match deliveries (tables_of w) !! id with
    | None => tables_of w1 = tables_of w /\ (o = Returned NotFound \/ exists e, o = Threw e)
    | Some d => (d_status d <> DLQ /\ tables_of w1 = tables_of w /\ (o = Returned (NotInDlq (d_status d)) \/ exists e, o = Threw e)) \/
        ((exists t0, s_now w.1 <= t0 /\ tables_of w1 = requeued id t0 (tables_of w)) /\ (o = Returned RetryOk \/ exists e, o = Threw e)) \/
        (tables_of w1 = tables_of w /\ exists e, o = Threw e)
    end) as Hcase.
  { destruct (deliveries (tables_of w) !! id) as [d|]; cbn in Ho; [|done].
    destruct (d_status d); try (left; destruct Ho; repeat split; done). right. destruct Ho as [(t0 & Ht & HT & Ho)|Ho]; [left|by right].
    split; [by exists t0|done]. }
  clear Ho. assert (forall e, tables_of w1 = tables_of w -> foreign e \/ retry_refused (tables_of w) id e ->
    retry_route_post cfg id w (Threw e) w1) as Hsame.
  { intros e HT He. split; [done|]. split; [done|]. by left. }
  unfold retry_refused in *. destruct (deliveries (tables_of w) !! id) as [d|] eqn:Hd.
  - destruct Hcase as [(Hst & HT & [-> |[e ->]])|[(HT & [-> |[e ->]])|(HT & e & ->)]]; cbn [after]; [|by apply Hsame; auto| | |by apply Hsame; auto].
    + apply wp_throw, Hsame; auto.
    + apply wp_bind. apply (wp_await env DateNow). intros r w2 (s2 & (n & Hn & ->) & He).
      destruct r as [e|now]; cbn in He; [by destruct He|]. destruct He as [-> ->]. cbn [answer after].
      apply wp_bind, wp_queue_add. intros n3 Hn3. destruct w1 as [s1 l1]. cbn in *. split; cbn [after].
      * apply wp_ret. split; [done|]. split; [done|]. split; [done|]. exists (now_ms (with_now n s1)). by rewrite <- Hb.
      * intros e He. split; (split; [done|]); (split; [done|]); right; (split; [done|]); (split; [done|]); [by left|right].
        exists (now_ms (with_now n s1)). by rewrite <- Hb.
    + split; [done|]. split; [done|]. right. split; [done|]. split; [done|]. by left.
  - destruct Hcase as [HT [-> |[e ->]]]; cbn [after]; [apply wp_throw|]; apply Hsame; auto.
Qed.
End Retry.

(** ** Properties *)

(** C18: what POST /v1/events means, on every branch. A 202 is sent only when
    the event, its PENDING delivery and the transition are committed, for the
    request that was checked and the client of its active endpoint, and then
    the delivery is marked enqueued only if its job is on the queue; a 200
    only for a duplicate, which is not stored again and whose delivery the
    reply names with its status; both only when the queue is not above the
    limit. An error of the route leaves everything as it was and has its cause:
    429 that the queue is above the limit ([shedding]), 400 and 413 that the
    request fails that check, 404 and 409 the endpoint, 503 that the read of
    this endpoint failed (the call is in the trace [tr] of the run). A failed
    service leaves the tables as they were, or with the complete event when
    only the answer was lost. No transaction is left open. *)
Theorem events_reply {RS BS : Type} `{!RedisServer RS} `{!RedisLaws RS} `{!BullMQ BS} `{!BullMQLaws BS}
    (is_uuid : string -> bool) (issues_of : json -> json) (cfg : Config) (crash : bool)
    (hit : option (gmap string Z)) (rq : event_request) (w w' : world RS BS) (tr : list (event resp exn))
    (o : outcome exn reply) :
  idle w -> exec (witnessed env) (postEvents is_uuid issues_of cfg crash hit rq) (w, []) o (w', tr) ->
  events_post is_uuid issues_of cfg crash hit (read_failed tr) rq w o w'.
Proof.
  intros Hi Hx. pose proof (wp_postEvents is_uuid issues_of cfg crash hit rq w Hi) as H. rewrite wp_exec in H.
  specialize (H _ _ (proj1 (witnessed_exec _ _ _ _ _ Hx))).
  pose proof (wp_storage is_uuid issues_of cfg crash hit rq (w, [])) as Hs. rewrite wp_exec in Hs. specialize (Hs _ _ Hx).
  destruct o as [r|e|]; [exact H| |exact H]. destruct H as [H1 [[HT [Hf|Hr]]|H2]]; (split; [exact H1|]); [by auto| |by auto].
  left. split; [exact HT|]. right. destruct Hr as [Hb|e He|k ep ty pl Hc Hep|k ep ty pl Hc _|k ep ty pl row Hc Hep Hact].
  - by constructor.
  - by constructor.
  - by econstructor.
  - eapply ref_storage; [exact Hc|]. by eapply Hs.
  - by eapply ref_inactive.
Qed.

(** A request for the endpoint [e1] under the key [k]. *)
Definition demo_request (k : string) : event_request := {|
  rq_idempotency_key := One k; rq_content_length := Some "57";
  rq_body := JObj [("endpoint_id", JStr "e1"); ("event_type", JStr "order.created");
                   ("payload", JObj [("id", JNum "1")])] |}.

Definition demo_post (hit : option (gmap string Z)) (rq : event_request) : io reply :=
  postEvents (fun _ => true) (fun _ => JNull) default_config false hit rq.

Definition demo_post_run (k : string) : outcome exn reply * mem_world :=
  run_with (serve reliable) (demo_post None (demo_request k)) (demo_world 1000 (demo_tables PENDING [] None) ∅ ∅).

Lemma events_reply_witness :
  let w := demo_world 1000 (demo_tables PENDING [] None) ∅ ∅ in
  let r := run_with (traced reliable) (demo_post None (demo_request "k2")) (w, []) in
  (exists x, r.1 = Returned x /\ rp_code x = 202) /\
  events_post (fun _ => true) (fun _ => JNull) default_config false None (read_failed r.2.2) (demo_request "k2") w r.1 r.2.1.
Proof.
  intros w r. split; [eexists; vm_compute; split; reflexivity|].
  exact (events_reply (fun _ => true) (fun _ => JNull) default_config false None (demo_request "k2") w r.2.1 r.2.2 r.1
    (demo_idle _ _ _ _) (traced_witnessed reliable (demo_post None (demo_request "k2")) w [])).
Defined.

(** What the client receives when the handler returns or throws. *)
Definition http_reply (o : outcome exn reply) : option reply :=
  match o with
  | Returned r => Some r
  | Threw e => Some (error_reply e None None)
  | Exited => None
  end.

(** The tables hold the new event of [p], its delivery and its transition, and
    nothing else is new. *)
Definition stored (T T' : tables) (p : IngestParams) : Prop :=
  exists res ws, created T p res ws /\
    (T' = apply_writes T ws \/ exists t, T' = apply_write (apply_writes T ws) (WEnqueued (delivery_id res) t)).

Lemma check_request_error is_uuid issues_of cfg rq e :
  check_request is_uuid issues_of cfg rq = inl e -> exists c n m d, e = AppError c n m d /\ (c = 400 \/ c = 413).
Proof.
  unfold check_request. destruct (rq_idempotency_key rq) as [|k|l]; [intros [= <-]; by eauto 8| |intros [= <-]; by eauto 8].
  destruct (String.eqb k ""); [intros [= <-]; by eauto 8|].
  destruct (255 <? String.length k)%nat; [intros [= <-]; by eauto 8|].
  destruct (js_gt _ _); [intros [= <-]; by eauto 8|].
  destruct (parse_event_body is_uuid (rq_body rq)) as [[[ep ty] pl]|]; [|intros [= <-]; by eauto 8].
  destruct (MAX_PAYLOAD_BYTES cfg <? _); [intros [= <-]; by eauto 8|done].
Qed.

Lemma refusal_code is_uuid issues_of cfg busy down T rq e :
  refusal is_uuid issues_of cfg busy down T rq e ->
  exists c n m d, e = AppError c n m d /\ c ∈ [400; 404; 409; 413; 429; 503].
Proof.
  destruct 1 as [|e He| | |]; try (eexists _, _, _, _; split; [reflexivity|set_solver]).
  destruct (check_request_error _ _ _ _ _ He) as (c & n & m & d & -> & Hc).
  exists c, n, m, d. split; [done|]. destruct Hc as [-> | ->]; set_solver.
Qed.

Lemma foreign_reply e : foreign e -> error_reply e None None =
  {| rp_code := 500; rp_headers := [];
     rp_body := error_body "INTERNAL_ERROR" "An unexpected error occurred" (JObj []) |}.
Proof. by destruct e. Qed.

(** C19: the status of POST /v1/events can be relied on. It is one of nine; 202
    means that the event is stored with its delivery; 200, a 4xx and 503 mean
    that the request changed no table; only after a 500 is it open whether the
    event was stored. *)
Theorem events_status {RS BS : Type} `{!RedisServer RS} `{!RedisLaws RS} `{!BullMQ BS} `{!BullMQLaws BS}
    (is_uuid : string -> bool) (issues_of : json -> json) (cfg : Config) (crash : bool)
    (hit : option (gmap string Z)) (rq : event_request) (w w' : world RS BS) (o : outcome exn reply) (r : reply) :
  idle w -> exec env (postEvents is_uuid issues_of cfg crash hit rq) w o w' -> http_reply o = Some r ->
  rp_code r ∈ [200; 202; 400; 404; 409; 413; 429; 500; 503] /\
  (rp_code r = 202 -> exists p, accepted is_uuid issues_of cfg (tables_of w) rq p /\
     stored (tables_of w) (tables_of w') p) /\
  (rp_code r <> 202 -> rp_code r <> 500 -> tables_of w' = tables_of w) /\
  (rp_code r = 500 -> tables_of w' = tables_of w \/ exists p, accepted is_uuid issues_of cfg (tables_of w) rq p /\
     stored (tables_of w) (tables_of w') p) /\
  rp_headers r = (if rp_code r =? 429 then [("Retry-After", "5")] else []).
Proof.
  intros Hi Hx Hr. pose proof (wp_postEvents is_uuid issues_of cfg crash hit rq w Hi) as H. rewrite wp_exec in H.
  destruct (H _ _ Hx) as [_ Ho]. destruct o as [r'|e|]; [| |done]; injection Hr as <-.
  - destruct Ho as (_ & p & res & Hacc & -> & [(Hn & ws & Hc & HT)|(Hn & HT & _)]); unfold event_reply; rewrite Hn; cbn.
    + assert (stored (tables_of w) (tables_of w') p) as Hs.
      { exists res, ws. split; [done|]. destruct HT as [HT|[_ HT]]; auto. }
      split; [set_solver|]. split; [by exists p|]. by repeat split.
    + split; [set_solver|]. by repeat split.
  - destruct Ho as [[HT [Hf|Hf]]|(Hf & p & res & ws & Hacc & Hc & HT)].
    + rewrite foreign_reply by done. cbn. split; [set_solver|]. repeat split; auto; done.
    + destruct (refusal_code _ _ _ _ _ _ _ _ Hf) as (c & n & m & d & -> & Hin). cbn.
      assert (c <> 202 /\ c <> 500) as [H1 H2] by set_solver.
      split; [set_solver|]. repeat split; auto; done.
    + rewrite foreign_reply by done. cbn. split; [set_solver|]. repeat split; [done|done|].
      intros _. right. exists p. split; [done|]. exists res, ws. auto.
Qed.

Lemma events_status_witness :
  exists r, http_reply (demo_post_run "k2").1 = Some r /\ rp_code r = 202 /\
  exists p, stored (demo_tables PENDING [] None) (tables_of (demo_post_run "k2").2) p.
Proof.
  assert (exists r, http_reply (demo_post_run "k2").1 = Some r /\ rp_code r = 202) as (r & Hr & Hc)
    by (eexists; vm_compute; split; reflexivity).
  exists r. split; [exact Hr|]. split; [exact Hc|].
  destruct (events_status (fun _ => true) (fun _ => JNull) default_config false None (demo_request "k2")
    (demo_world 1000 (demo_tables PENDING [] None) ∅ ∅) (demo_post_run "k2").2 (demo_post_run "k2").1 r (demo_idle _ _ _ _)
    (serve_exec reliable (demo_post None (demo_request "k2")) _) Hr) as (_ & H & _).
  destruct (H Hc) as (p & _ & Hs). exists p. exact Hs.
Defined.

Lemma issues_isOverloaded cfg hit : issues counting (isOverloaded cfg hit).
Proof. issues_tac ltac:(exact I). Qed.

(** The count an event brings. *)
Definition counted (ev : event resp exn) : option (gmap string Z) :=
  match ev with
  | Ev c r => match c return exn + resp c -> option (gmap string Z) with
              | JobCounts _ _ => fun r => match r with inr counts => Some counts | inl _ => None end
              | _ => fun _ => None
              end r
  end.

(** A request that fails a check only counts, and does not return. *)
Lemma postEvents_refused is_uuid issues_of cfg crash hit rq e :
  check_request is_uuid issues_of cfg rq = inl e ->
  issues counting (postEvents is_uuid issues_of cfg crash hit rq) /\
  forall tr, wp trace_env (postEvents is_uuid issues_of cfg crash hit rq) (fun o _ => forall r, o <> Returned r) tr.
Proof.
  intros He. unfold postEvents. rewrite He. split.
  - apply issues_bind; [apply issues_isOverloaded|]. by intros [].
  - intros tr. apply wp_bind. eapply wp_mono.
    { apply (wp_issues trace_env counting (fun _ => True)); [done|apply issues_isOverloaded|done]. }
    intros [over|err|] tr1 [Hne _]; cbn [after]; [|done|done]. by destruct over; apply wp_throw.
Qed.

(** Load is shed at the edge. When the queue depth exceeds the limit, be
    it the memo's or a fresh count, POST /v1/events fails with 429 and asks
    nothing of Redis or PostgreSQL: its only call, if any, is the count. The
    same holds for a request that fails a check: its only call is the count,
    and it gets no reply but an error. *)
Theorem events_shed_first (is_uuid : string -> bool) (issues_of : json -> json) (cfg : Config) (crash : bool)
    (hit : option (gmap string Z)) (rq : event_request) (tr : list (event resp exn)) (o : outcome exn reply) :
  behaves (postEvents is_uuid issues_of cfg crash hit rq) tr o ->
  (forall counts, overloaded cfg counts = true ->
     hit = Some counts \/ (hit = None /\ exists ev, head tr = Some ev /\ counted ev = Some counts) ->
     o = Threw Errors.backpressure /\ (length tr <= 1)%nat /\ Forall (fun ev => counting (asked_of ev)) tr) /\
  (forall e, check_request is_uuid issues_of cfg rq = inl e ->
     Forall (fun ev => counting (asked_of ev)) tr /\ forall r, o <> Returned r).
Proof.
  intros Hb. split.
  - intros counts Hov [-> |[-> (ev & Hev & Hc)]].
    + unfold behaves, postEvents in Hb.
      change (bind (isOverloaded cfg (Some counts)) ?f) with (f (overloaded cfg counts)) in Hb.
      cbn beta in Hb. rewrite Hov in Hb. destruct Hb as [-> ->]. split; [done|]. split; [cbn; lia|constructor].
    + destruct Hb as (r & tr1 & -> & Hx). destruct (exec_trace_prefix _ _ _ _ Hx) as [tr2 ->].
      injection Hev as <-. destruct r as [e|x]; [done|]. injection Hc as ->.
      cbn [bind] in Hx. change (bind (Ret ?a) ?f) with (f a) in Hx. cbn beta in Hx. rewrite Hov in Hx.
      destruct Hx as [-> ->]. split; [done|]. split; [cbn; lia|by repeat constructor].
  - intros e He. destruct (postEvents_refused is_uuid issues_of cfg crash hit rq e He) as [H1 H2].
    split; [by eapply behaves_issues|]. specialize (H2 []). rewrite wp_exec in H2. by apply (H2 o tr).
Qed.

(** A queue 60000 jobs deep, as the memo remembers it. *)
Definition deep : gmap string Z := {["wait" := 60000]}.

Lemma events_shed_first_witness :
  let r := run_with (traced reliable) (demo_post (Some deep) (demo_request "k2"))
             (demo_world 1000 (demo_tables PENDING [] None) ∅ ∅, []) in
  r.1 = Threw Errors.backpressure /\ (length r.2.2 <= 1)%nat.
Proof.
  intros r.
  destruct (events_shed_first (fun _ => true) (fun _ => JNull) default_config false (Some deep) (demo_request "k2") r.2.2 r.1
    (traced_exec reliable (demo_post (Some deep) (demo_request "k2")) _ [])) as [H _].
  destruct (H deep) as (Ho & Hl & _); [vm_compute; reflexivity|left; reflexivity|]. split; [exact Ho|exact Hl].
Defined.

(** C20: what a manual retry over HTTP means. A 202 is sent only when the
    delivery was in the DLQ and is PENDING with its transition committed, and
    a job of its own, under an id made of the delivery's and the time, has
    been added: a waiting job of that delivery unless the queue remembers the
    id. A refusal names its cause and changes nothing. When a service fails,
    either nothing is changed, or the delivery is PENDING, with its job or
    without. *)
Theorem postRetry_spec {RS BS : Type} `{!RedisServer RS} `{!RedisLaws RS} `{!BullMQ BS} `{!BullMQLaws BS}
    (cfg : Config) (id : string) (w w' : world RS BS) (o : outcome exn reply) :
  idle w -> exec env (postRetry cfg id) w o w' ->
  retry_route_post cfg id w o w' /\
  forall r, o = Returned r -> rp_code r = 202 /\ (d_status <$> deliveries (tables_of w) !! id) = Some DLQ /\
    exists now, r = retry_reply cfg id (retry_job_id id now) /\
      (bq_jobs (s_bull w.1) webhook_delivery !! retry_job_id id now = None ->
       bq_jobs (s_bull w'.1) webhook_delivery !! retry_job_id id now = Some {| j_deliveryId := id; j_state := JWait |}).
Proof.
  intros Hi Hx. pose proof (wp_postRetry cfg id w Hi) as H. rewrite wp_exec in H. specialize (H _ _ Hx).
  split; [exact H|]. intros r ->. destruct H as (_ & _ & (t0 & _ & HT) & now & -> & Hb). split; [done|]. split.
  - pose proof (wp_postRetry_returned cfg id w Hi) as H. rewrite wp_exec in H. by eapply (H _ _ Hx).
  - exists now. split; [done|]. intros Hnone. rewrite Hb, bq_add_jobs, decide_True, Hnone by done.
    by rewrite lookup_insert_eq.
Qed.

Lemma postRetry_spec_witness :
  let w := demo_world 1000 (demo_tables DLQ [demo_attempt 1] None) ∅ {["d1" := {| j_deliveryId := "d1"; j_state := JFailed |}]} in
  let r := run_with (serve reliable) (postRetry default_config "d1") w in
  exists x, r.1 = Returned x /\ retry_route_post default_config "d1" w (Returned x) r.2.
Proof.
  intros w r.
  destruct (postRetry_spec default_config "d1" w r.2 r.1 (demo_idle _ _ _ _)
    (serve_exec reliable (postRetry default_config "d1") w)) as [H _].
  assert (exists x, r.1 = Returned x) as [x Hr] by (eexists; vm_compute; reflexivity).
  exists x. split; [exact Hr|]. rewrite Hr in H. exact H.
Defined.
