(* ===== verification/Posts.v ===== *)
(** * Posting events under concurrency

    Requests to POST /v1/events (src/src/api/routes/events.ts) and flows of the
    engine, interleaved call by call. Section [Rows]: the rows of one
    idempotency key; [Agreement]: what the session that posts the key and all
    the others owe each other, and that every call keeps it; [Posting]: what
    the post of the key promises; then what becomes of each of many posts
    under keys of their own. *)

From S2P Require Import Prelude Async Interleave Json Config Tables Queries Schema Redis Services Concrete Scripts Repo Ingest.
From S2P Require Lock TokenBucket.
From S2P Require Import CircuitBreaker Frames Signature Worker WorkerSpec DeadLetter Api Endpoints AuditTrail Concurrency Mutex ApiSpec Invariants Ledger.
From Stdlib Require Import ZArith Lia String.
From stdpp Require Import prelude strings gmap.

Open Scope Z_scope.
Open Scope async_scope.

(** ** The rows of a key *)

Section Rows.
Context (key : string).

(** The events under the key, of whatever client. *)
Definition posted (T : tables) : gmap string event_row := filter (fun x => ev_idempotency_key x.2 = key) (events T).

(** Those among the insertions of a transaction. *)
Definition of_key (es : list (string * event_row)) : list (string * event_row) :=
  filter (fun x => ev_idempotency_key x.2 = key) es.

Lemma posted_same T T' : events T' = events T -> posted T' = posted T.
Proof. unfold posted. by intros ->. Qed.

(** Insertions under other keys, at ids no row of the key has. *)
Lemma posted_others T ws :
  of_key (new_events ws) = [] -> (forall id e, (id, e) ∈ new_events ws -> events T !! id = None) ->
  posted (apply_writes T ws) = posted T.
Proof.
  intros Hk Hf. unfold posted. rewrite apply_writes_events.
  assert (forall id e, (id, e) ∈ new_events ws -> filter (fun x => ev_idempotency_key x.2 = key) (events T) !! id = None) as Hf'.
  { intros id e H. apply map_lookup_filter_None. left. by eapply Hf. }
  revert Hk Hf'. generalize (events T). generalize (new_events ws). clear Hf. intros es. induction es as [|[id e] es IH]; intros m Hk Hf'; [done|].
  cbn [foldl fst snd]. unfold of_key in Hk. rewrite filter_cons in Hk. cbn in Hk. destruct (decide _) as [|Hne]; [done|].
  assert (filter (fun x => ev_idempotency_key x.2 = key) (<[id := e]> m) = filter (fun x => ev_idempotency_key x.2 = key) m) as E.
  { apply map_filter_insert_not'; [done|]. intros y Hy Hyk.
    specialize (Hf' id e ltac:(by left)). apply map_lookup_filter_None in Hf' as [Hf'|Hf']; [congruence|]. by apply (Hf' y). }
  rewrite IH, E; [done|done|]. intros i x Hx. rewrite E. eapply Hf'. right. exact Hx.
Qed.

(** Not more rows than insertions. *)
Lemma posted_size T ws :
  (size (posted (apply_writes T ws)) <= size (posted T) + length (of_key (new_events ws)))%nat.
Proof.
  unfold posted. rewrite apply_writes_events. generalize (events T), (new_events ws). intros m es.
  revert m. induction es as [|[id e] es IH]; intros m; cbn [foldl fst snd]; [unfold of_key; cbn; lia|].
  etrans; [apply IH|]. unfold of_key. rewrite filter_cons. cbn.
  destruct (decide _) as [Hk|Hne].
  - rewrite map_filter_insert_True by done. cbn. rewrite map_size_insert. destruct (_ !! id); cbn; lia.
  - rewrite map_filter_insert_False by done. rewrite map_filter_delete.
    apply Nat.add_le_mono_r, map_subseteq_size, delete_subseteq.
Qed.

(** One insertion under a key that has no row. *)
Lemma posted_first T ws id e :
  posted T = ∅ -> new_events ws = [(id, e)] -> ev_idempotency_key e = key -> posted (apply_writes T ws) = {[id := e]}.
Proof.
  intros HT Hw He. unfold posted in *. rewrite apply_writes_events, Hw. cbn.
  by rewrite map_filter_insert_True, HT by done.
Qed.

Lemma posted_none T id e : posted T = ∅ -> events T !! id = Some e -> ev_idempotency_key e <> key.
Proof.
  intros HT He Hk. assert (posted T !! id = Some e) as H by (by apply map_lookup_filter_Some).
  by rewrite HT, lookup_empty in H.
Qed.
End Rows.

(** ** The agreement *)

Section Agreement.
Context {RS BS : Type} `{!RedisServer RS} `{!RedisLaws RS} `{!BullMQ BS}.
Abbreviation shared := (shared RS BS).
Abbreviation T_of s := (pg_tables (s_pg s)).

(** A key, and the session that may post it. *)
Context (key : string) (t : nat).

(** No entry of the cache is for the key. *)
Definition uncached (s : shared) : Prop := forall client, rs_keys (s_redis s) (now_ms s) !! idemRedisKey client key = None.

(** What an open transaction has inserted. *)
Definition drafts (l : session) : list (string * event_row) := new_events (default [] (tx_writes <$> l_tx l)).

(** Inserted rows are new, under locks that keep their ids from others; only
    the session [t] has rows of the key, one at most, stored or not. *)
Record drafts_ok (s : shared) (l : session) : Prop := {
  dr_fresh id e : (id, e) ∈ drafts l -> held s (l_tid l) (LEventId id) /\ events (T_of s) !! id = None;
  dr_others : l_tid l <> t -> of_key key (drafts l) = [];
  dr_once : l_tid l = t -> (size (posted key (T_of s)) + length (of_key key (drafts l)) <= 1)%nat
}.

(** The others leave the rows and the cache of the key alone. *)
Definition untouched (l : session) (s s' : shared) : Prop :=
  l_tid l = t -> posted key (T_of s') = posted key (T_of s) /\ (uncached s -> uncached s').

#[export] Instance untouched_preorder l : PreOrder (untouched l).
Proof.
  split; [by intros s Ht|]. intros s1 s2 s3 H1 H2 Ht. destruct (H1 Ht) as [E1 K1], (H2 Ht) as [E2 K2].
  split; [by rewrite E2|auto].
Qed.

Definition separated (l1 l2 : session) : Prop := l_tid l1 <> l_tid l2.

#[export] Instance separated_sym : Symmetric separated.
Proof. unfold separated. intros l1 l2. congruence. Qed.

Abbreviation keeps := (guar exclusive drafts_ok untouched separated).

(** A step that adds events only under locks of the session's own. *)
Lemma posts_keep (s s' : shared) (l l' : session) :
  exclusive s -> exclusive s' -> drafts_ok s' l' -> l_tid l' = l_tid l ->
  (forall k t', (k, t') ∈ pg_locks (s_pg s) -> t' <> l_tid l -> (k, t') ∈ pg_locks (s_pg s')) ->
  (forall id, events (T_of s) !! id = None -> events (T_of s') !! id = None \/ held s (l_tid l) (LEventId id)) ->
  (l_tid l <> t -> posted key (T_of s') = posted key (T_of s) /\ (uncached s -> uncached s')) ->
  keeps (s, l) (s', l').
Proof.
  intros Hx Hx' Hl' Ht Hlk Hev Hp. split; [done|]. split; [done|]. cbn. intros l2 Hne [Hf Ho H1].
  unfold separated in *. split; [|split; [|congruence]]; cbn in *.
  - constructor; [|exact Ho|].
    + intros id e Hin. destruct (Hf id e Hin) as [Hh Hn]. split; [apply Hlk; [done|congruence]|].
      destruct (Hev id Hn) as [?|Hh']; [done|]. destruct Hne. exact (Hx _ _ _ Hh' Hh).
    + intros E. destruct (Hp ltac:(congruence)) as [-> _]. by apply H1.
  - intros E. apply Hp. congruence.
Qed.

(** What a call must respect: the session [t] posts the key at most once, the
    others do not, and leave its cache entries alone. *)
Definition avoids (c : cmd) : Prop :=
  match c with
  | Redis (RCmd (GET _)) => True
  | Redis (RCmd c) => forall client, idemRedisKey client key ∉ rcmd_keys c
  | Redis (EVALSHA _ keys _) => forall client, idemRedisKey client key ∉ keys
  | Pg (CLIENT_QUERY (InsertEvent _ k _ _)) => k <> key
  | Pg (POOL_QUERY (InsertEvent _ _ _ _)) => False
  | _ => True
  end.

Definition may_call (s : shared) (l : session) (c : cmd) : Prop :=
  if decide (l_tid l = t) then
    match c with
    | Pg (CLIENT_QUERY (InsertEvent _ k _ _)) => k = key -> posted key (T_of s) = ∅ /\ of_key key (drafts l) = []
    | Pg (POOL_QUERY (InsertEvent _ _ _ _)) => False
    | _ => True
    end
  else avoids c.

Lemma avoids_may s l c : avoids c -> may_call s l c.
Proof.
  intros H. unfold may_call. destruct (decide _); [|done]. destruct c as [|[| | | | |q|q]| | | | | | | | | | | | |]; try done; by destruct q.
Qed.

(** Keys that are free stay free while time passes. *)
Lemma uncached_exec (s s' : shared) :
  s_now s <= s_now s' ->
  (s_redis s' = s_redis s \/ exists rc, avoids (Redis rc) /\ s_redis s' = (rs_exec (s_redis s) (now_ms s') rc).2) ->
  uncached s -> uncached s'.
Proof using RedisLaws0.
  intros Hn Hr Hu client. apply ms_of_ts_mono in Hn. fold (now_ms s) (now_ms s') in Hn.
  assert (rs_keys (s_redis s) (now_ms s') !! idemRedisKey client key = None) as Hold
    by (by rewrite (rs_expiry _ (now_ms s)), live_lookup, Hu).
  destruct Hr as [-> |(rc & Ha & ->)]; [exact Hold|]. rewrite <- Hold. destruct rc as [c|sha keys args|sc|].
  - destruct (rs_cmd (s_redis s) (now_ms s') c) as (_ & -> & _). destruct c; try (by apply redis_doc_frame).
    cbn. by repeat case_match.
  - by apply rs_evalsha_keys.
  - by destruct (rs_script_load (s_redis s) (now_ms s') sc) as (_ & -> & _).
  - by rewrite rs_ping.
Qed.

(** ** Every call keeps the agreement *)

Lemma stmt_events now T b q r ws :
  stmt_ok now T b q r ws ->
  new_events ws = [] \/
  exists client ty pl id e, q = InsertEvent client (ev_idempotency_key e) ty pl /\ new_events ws = [(id, e)] /\
    events T !! id = None /\ LEventId id ∈ stmt_locks q r.
Proof.
  intros H. destruct (is_insert q) eqn:Hq; [|left; by eapply stmt_inserts_nothing].
  destruct q as [| | | | | | | | | |client k ty pl| |ev ep| | | |]; try discriminate Hq; cbn in H |- *.
  - destruct H as [(_ & _ & ->)|(_ & id & Hid & -> & ->)]; [by left|right].
    eexists client, ty, pl, id, _. split; [|split; [reflexivity|split; [done|cbn; set_solver]]]. reflexivity.
  - left. by destruct H as (d & _ & _ & ->).
Qed.

Lemma view_none T ws id : events (apply_writes T ws) !! id = None -> events T !! id = None.
Proof.
  rewrite apply_writes_events. generalize (new_events ws). intros es. revert T.
  assert (forall (m : gmap string event_row), is_Some (m !! id) -> is_Some (foldl (fun m x => <[x.1 := x.2]> m) m es !! id)) as H.
  { induction es as [|x es IH]; intros m Hm; [done|]. cbn. apply IH. apply lookup_insert_is_Some'. by right. }
  intros T Hn. destruct (events T !! id) eqn:E; [|done]. destruct (H (events T)) as [? ?]; [by rewrite E|congruence].
Qed.

Lemma committed_event T ws id :
  events T !! id = None -> events (apply_writes T ws) !! id = None \/ exists e, (id, e) ∈ new_events ws.
Proof.
  rewrite apply_writes_events. generalize (events T), (new_events ws). intros m es. revert m.
  induction es as [|[i e] es IH]; intros m Hm; [by left|]. cbn. destruct (decide (i = id)) as [-> |Hne].
  - right. exists e. by left.
  - destruct (IH (<[i := e]> m)) as [H|[e' H]]; [by rewrite lookup_insert_ne|by left|right]. exists e'. by right.
Qed.

Lemma of_key_app es1 es2 : of_key key (es1 ++ es2) = of_key key es1 ++ of_key key es2.
Proof. apply filter_app. Qed.

(** A step that changes no table and goes on with the transaction. *)
Lemma same_keeps (s s' : shared) l l' :
  exclusive s -> drafts_ok s l -> s_pg s' = s_pg s -> l_tid l' = l_tid l ->
  (l_tx l' = l_tx l \/ drafts l' = []) -> (l_tid l <> t -> uncached s -> uncached s') -> keeps (s, l) (s', l').
Proof.
  intros Hx [Hf Ho H1] Hp Ht Hd Hu.
  assert (drafts l' = drafts l \/ drafts l' = []) as Hd' by (destruct Hd as [E|E]; [left; unfold drafts; by rewrite E|by right]).
  apply posts_keep; rewrite ?Hp; try done; [unfold exclusive; by rewrite Hp| |auto|auto].
  constructor; unfold held; rewrite ?Hp, ?Ht.
  - intros id e Hin. destruct Hd' as [E|E]; rewrite E in Hin; [by apply (Hf id e)|by apply elem_of_nil in Hin].
  - intros Hne. destruct Hd' as [-> | ->]; [by apply Ho|done].
  - intros E. specialize (H1 E). destruct Hd' as [-> | ->]; [done|]. cbn. lia.
Qed.

(** The end of a transaction, with its writes or without. *)
Lemma end_keeps (s s' : shared) l l' ws :
  exclusive s -> drafts_ok s l -> (ws = [] \/ ws = default [] (tx_writes <$> l_tx l)) ->
  s_pg s' = committed (s_pg s) (l_tid l) ws -> l_tid l' = l_tid l -> l_tx l' = None ->
  (l_tid l <> t -> uncached s -> uncached s') -> keeps (s, l) (s', l').
Proof.
  intros Hx [Hf Ho H1] Hws Hp Ht Htx Hu. destruct (release_exclusive s s' (l_tid l) _ Hx Hp) as [Hx' Hlk].
  assert (T_of s' = apply_writes (T_of s) ws) as HT by by rewrite Hp.
  assert (forall id e, (id, e) ∈ new_events ws -> (id, e) ∈ drafts l) as Hin by (by destruct Hws as [-> | ->]; [intros ? ? ?%elem_of_nil|]).
  assert (l_tid l <> t -> of_key key (new_events ws) = []) as Hk by (by destruct Hws as [-> | ->]; [|apply Ho]).
  assert (length (of_key key (new_events ws)) <= length (of_key key (drafts l)))%nat as Hl
    by (destruct Hws as [-> | ->]; [cbn; lia|done]).
  assert (drafts l' = []) as Hd by (unfold drafts; by rewrite Htx).
  apply posts_keep; try done.
  - constructor; rewrite ?Hd; [by intros ? ? ?%elem_of_nil|done|]. intros E. rewrite Ht in E. specialize (H1 E).
    rewrite HT. pose proof (posted_size key (T_of s) ws). cbn. lia.
  - intros id Hn. rewrite HT. destruct (committed_event (T_of s) ws id Hn) as [?|[e He]]; [by left|right].
    by apply (Hf id e), Hin.
  - intros Hne. split; [|auto]. rewrite HT. apply posted_others; [auto|]. intros id e H%Hin. by apply (Hf id e).
Qed.

(** A statement of an open transaction. *)
Lemma statement_keeps (s s' : shared) l l' x q r ws :
  exclusive s -> drafts_ok s l -> may_call s l (Pg (CLIENT_QUERY q)) -> l_tx l = Some x ->
  stmt_runs (tx_start x) (s_pg s) (tx_view (s_pg s) x) (l_tid l) q r ws ->
  s_pg s' = {| pg_tables := T_of s; pg_locks := map (fun k => (k, l_tid l)) (stmt_locks q r) ++ pg_locks (s_pg s) |} ->
  l_tid l' = l_tid l -> l_tx l' = Some {| tx_start := tx_start x; tx_writes := tx_writes x ++ ws |} ->
  (l_tid l <> t -> uncached s -> uncached s') -> keeps (s, l) (s', l').
Proof.
  intros Hx [Hf Ho H1] Ha Htx (Hok & _ & Hnb) Hp Ht Htx' Hu.
  assert (T_of s' = T_of s) as HT by by rewrite Hp.
  assert (drafts l = new_events (tx_writes x)) as Hd by (unfold drafts; by rewrite Htx).
  assert (drafts l' = drafts l ++ new_events ws) as Hd' by (rewrite Hd; unfold drafts; rewrite Htx'; apply new_events_app).
  assert (forall k, k ∈ stmt_locks q r \/ held s (l_tid l) k -> held s' (l_tid l) k) as Hh.
  { intros k Hk. unfold held. rewrite Hp. cbn. apply elem_of_app.
    destruct Hk as [Hk|Hk]; [left; by apply (list_elem_of_fmap_2 (fun k => (k, l_tid l)))|by right]. }
  apply posts_keep; rewrite ?HT; try done.
  - unfold exclusive. rewrite Hp. by apply (locks_grow s).
  - constructor; rewrite ?Ht, ?HT, Hd'.
    + intros id e [Hin|Hin]%elem_of_app; [destruct (Hf id e Hin); auto|].
      destruct (stmt_events _ _ _ _ _ _ Hok) as [E|(c & ty & pl & id' & e' & _ & E & Hn & Hl)]; rewrite E in Hin; [by apply elem_of_nil in Hin|].
      apply list_elem_of_singleton in Hin as [= -> ->]. split; [apply Hh; by left|]. by eapply view_none.
    + intros Hne. rewrite of_key_app, (Ho Hne). cbn.
      destruct (stmt_events _ _ _ _ _ _ Hok) as [-> |(c & ty & pl & id & e & -> & -> & _)]; [done|].
      unfold may_call in Ha. rewrite decide_False in Ha by done. unfold of_key. rewrite filter_cons. cbn in Ha |- *. by rewrite decide_False.
    + intros E. rewrite of_key_app, length_app.
      destruct (stmt_events _ _ _ _ _ _ Hok) as [-> |(c & ty & pl & id & e & -> & -> & _)]; [rewrite Nat.add_0_r; by apply H1|].
      unfold may_call in Ha. rewrite decide_True in Ha by done. unfold of_key at 2. rewrite filter_cons. cbn in Ha |- *.
      destruct (decide _) as [Hk|]; [|rewrite Nat.add_0_r; by apply H1]. destruct (Ha Hk) as [-> ->]. rewrite map_size_empty. cbn. lia.
  - intros k t' Hk _. rewrite Hp. apply elem_of_app. by right.
  - auto.
  - auto.
Qed.

(** An autocommitted statement. *)
Lemma posts_pool_keeps (s s' : shared) l l' now q r ws :
  exclusive s -> drafts_ok s l -> may_call s l (Pg (POOL_QUERY q)) ->
  stmt_runs now (s_pg s) (T_of s) (l_tid l) q r ws ->
  s_pg s' = {| pg_tables := apply_writes (T_of s) ws; pg_locks := pg_locks (s_pg s) |} ->
  l_tid l' = l_tid l -> l_tx l' = l_tx l -> (l_tid l <> t -> uncached s -> uncached s') -> keeps (s, l) (s', l').
Proof.
  intros Hx [Hf Ho H1] Ha (Hok & _) Hp Ht Htx Hu.
  assert (new_events ws = []) as Hw.
  { destruct (stmt_events _ _ _ _ _ _ Hok) as [?|(c & ty & pl & id & e & -> & _)]; [done|].
    unfold may_call in Ha. by destruct (decide _). }
  assert (events (T_of s') = events (T_of s)) as HE by (rewrite Hp; cbn; by rewrite apply_writes_events, Hw).
  assert (drafts l' = drafts l) as Hd by (unfold drafts; by rewrite Htx).
  assert (posted key (T_of s') = posted key (T_of s)) as HP by by apply posted_same.
  apply posts_keep; rewrite ?Hp; try done; [unfold exclusive; by rewrite Hp| |rewrite Hp in HE; cbn in HE |- *; rewrite HE; auto|].
  - constructor; unfold held; rewrite ?Hd, ?Ht, ?HE, ?HP; [|done|done]. rewrite Hp. exact Hf.
  - rewrite Hp in HP. cbn in HP. auto.
Qed.

Lemma call_keeps (s s' : shared) l l' c r :
  exclusive s -> drafts_ok s l -> may_call s l c -> env (s, l) c r (s', l') -> keeps (s, l) (s', l').
Proof using RedisLaws0.
  intros Hx Hl Ha He. destruct (env_parts _ _ _ _ He) as (Hn & _ & Hr & _). cbn in Hn, Hr.
  assert (l_tid l <> t -> uncached s -> uncached s') as Hu.
  { intros Hne. apply uncached_exec; [done|]. destruct Hr as [?|(rc & -> & Hr)]; [by left|right]. exists rc. split; [|done].
    unfold may_call in Ha. by rewrite decide_False in Ha. }
  destruct (env_pg _ _ _ _ _ _ He) as [Ht Hc]. clear He Hr.
  destruct c as [c|c|q nm d i|q ty|i ts tk| | |m|rq| | | |sc|sc sha|lv m];
    try solve [destruct Hc as [Hp Htx]; apply same_keeps; auto].
  destruct Hc as (n & p' & tx' & _ & Hp & Htx & Hc).
  assert (s_pg s' = s_pg s -> l_tx l' = l_tx l -> keeps (s, l) (s', l')) as Hsame by (intros; apply same_keeps; auto).
  destruct c as [| | | | |q|q]; cbn in Hc.
  - destruct r, Hc; apply Hsame; congruence.
  - destruct r; [done|]. destruct Hc; apply Hsame; congruence.
  - assert (s_pg s' = s_pg s) as E by (destruct r, Hc; congruence).
    assert (drafts l' = []) as Hd by (unfold drafts; rewrite Htx; destruct r, Hc as [_ ->]; done). apply same_keeps; auto.
  - destruct r as [e|r]; [destruct Hc as [[E|E] E']|destruct Hc as [E E']];
      (eapply end_keeps; [done|done| |rewrite Hp; exact E|done|congruence|done]); auto.
  - assert (p' = committed (s_pg s) (l_tid l) [] /\ tx' = None) as [E E'] by by destruct r.
    eapply end_keeps; [done|done|by left|rewrite Hp; exact E|done|congruence|done].
  - destruct r as [e|r]; [destruct Hc; apply Hsame; congruence|].
    destruct Hc as (x & ws & Hx1 & Hrun & E & E'). eapply statement_keeps; [done..|congruence|done|congruence|done].
  - assert (forall r ws, stmt_runs n (s_pg s) (T_of s) (l_tid l) q r ws ->
      p' = {| pg_tables := apply_writes (T_of s) ws; pg_locks := pg_locks (s_pg s) |} -> tx' = l_tx l ->
      keeps (s, l) (s', l')) as Hpool.
    { intros r0 ws Hrun E E'. eapply posts_pool_keeps; [done|done|exact Ha|exact Hrun|congruence|done|congruence|done]. }
    destruct r as [e|r].
    + destruct Hc as [E' [E|(r & ws & Hrun & E & _)]]; [apply Hsame; congruence|by eapply Hpool].
    + destruct Hc as (ws & Hrun & E & E'). by eapply Hpool.
Qed.

Lemma dies_post_keeps (w w' : world RS BS) : exclusive w.1 -> drafts_ok w.1 w.2 -> dies w w' -> keeps w w'.
Proof.
  destruct w as [s l], w' as [s' l']. intros Hx Hl [= -> ->]. eapply end_keeps; [done|done|by left|done|done|done|]. done.
Qed.
End Agreement.

(** ** The session of the key *)

Section Posting.
Context {RS BS : Type} `{!RedisServer RS} `{!RedisLaws RS} `{!BullMQ BS}.
Abbreviation shared := (shared RS BS).
Abbreviation T_of s := (pg_tables (s_pg s)).
Context (key : string) (t : nat).
Abbreviation rely := (rg env exclusive (drafts_ok key t) (untouched key t) separated).
Abbreviation later := (meanwhile exclusive (drafts_ok key t) (untouched key t)).

Lemma rely_ret {A} (a : A) (Q : outcome exn A -> shared * session -> Prop) w : Q (Returned a) w -> rely (Ret a) Q w.
Proof. done. Qed.

Lemma rely_elsewhere_key {A} (p : io A) w : awaits True (avoids key) p -> rely p (fun _ _ => True) w.
Proof using RedisLaws0.
  apply rg_awaits. intros c s l r [s' l'] Hc Hs Hl He. eapply call_keeps; [done|done| |exact He]. by apply avoids_may.
Qed.

(** With no row of the key in_draft, a call that avoids it changes none. *)
Lemma step_avoids (s s' : shared) l l' c r :
  exclusive s -> drafts_ok key t s l -> l_tid l = t -> of_key key (drafts l) = [] -> avoids key c ->
  env (s, l) c r (s', l') ->
  l_tid l' = t /\ of_key key (drafts l') = [] /\ posted key (T_of s') = posted key (T_of s) /\
  (uncached key s -> uncached key s').
Proof using RedisLaws0.
  intros Hx [Hf _ H1] Ht Hd Ha He.
  assert (drafts_ok key (S t) s l) as Hl by (constructor; [exact Hf|done|lia]).
  destruct (call_keeps key (S t) s s' l l' c r Hx Hl (avoids_may key (S t) s l c Ha) He) as (_ & [_ Ho _] & Hg).
  destruct (env_pg _ _ _ _ _ _ He) as [Ht' _]. cbn in Ho.
  destruct (Hg {| l_tid := S t; l_tx := None; l_sha := l_sha l |}) as (_ & Hr & _).
  - unfold separated. cbn. lia.
  - constructor; cbn; [by intros ? ? ?%elem_of_nil|done|]. intros _. specialize (H1 Ht). lia.
  - split; [congruence|]. split; [apply Ho; lia|]. by apply Hr.
Qed.

(** What a part of the post leaves when it avoids the key. *)
Definition passed (w : shared * session) {A} (E : Prop) (p : io A) (o : outcome exn A) (w' : shared * session) : Prop :=
  l_tid w'.2 = t /\ of_key key (drafts w'.2) = [] /\ posted key (T_of w'.1) = posted key (T_of w.1) /\
  (uncached key w.1 -> uncached key w'.1) /\
  match o with
  | Returned _ => True
  | Threw e => forall F : exn -> Prop, (forall e, foreign e -> F e) -> raises F p -> F e
  | Exited => E
  end.

Lemma rely_passed {A} (E : Prop) (p : io A) w :
  l_tid w.2 = t -> of_key key (drafts w.2) = [] -> awaits E (avoids key) p -> rely p (passed w E p) w.
Proof using RedisLaws0.
  intros Ht Hd Hp.
  enough (forall w0, l_tid w0.2 = t -> of_key key (drafts w0.2) = [] ->
    posted key (T_of w0.1) = posted key (T_of w.1) -> (uncached key w.1 -> uncached key w0.1) ->
    rely p (passed w E p) w0) as H by by apply H.
  clear Ht Hd. induction p as [a|e| |c k IH]; intros w0 Ht Hd HP Hu; [by repeat split| |by repeat split|].
  { repeat (split; [done|]). by intros F HF. }
  destruct Hp as [Hc Hk]. intros s1 (Hx & Hl & Ho) r [s2 l2] He. split.
  { eapply call_keeps; [done|done|by apply avoids_may|exact He]. }
  destruct (Ho Ht) as [E1 U1].
  destruct (step_avoids s1 s2 _ l2 c r Hx Hl Ht Hd Hc He) as (Ht2 & Hd2 & E2 & U2).
  eapply rg_mono; [apply (IH r (Hk r) (s2, l2)); cbn; [done|done|congruence|auto]|].
  intros o w' (P1 & P2 & P3 & P4 & P5). repeat (split; [done|]). destruct o; [done| |done]. intros F HF Hr. apply (P5 F HF), Hr.
  destruct r as [e'|]; [by eapply HF, env_foreign|done].
Qed.

(** A call of the post's own. *)
Lemma rely_own (c : cmd) Q s l :
  l_tid l = t ->
  (forall s1, later (s, l) s1 -> posted key (T_of s1) = posted key (T_of s) -> (uncached key s -> uncached key s1) ->
     may_call key t s1 l c /\ forall r s2 l2, env (s1, l) c r (s2, l2) -> Q (answer r) (s2, l2)) ->
  rely (await c) Q (s, l).
Proof using RedisLaws0.
  intros Ht H. apply rg_perform. intros s1 Hs1 r [s2 l2] He. destruct Hs1 as (Hx & Hl & Ho). cbn in Hl, Ho, He.
  destruct (Ho Ht) as [E U]. destruct (H s1) as [Ha HQ]; [by split|done|done|].
  split; [by eapply call_keeps|by eapply HQ].
Qed.

(** A command on the database of the post's own. *)
Lemma rely_own_pg (c : pgcmd) Q s l :
  l_tid l = t ->
  (forall s1 : shared, posted key (T_of s1) = posted key (T_of s) -> may_call key t s1 l (Pg c) /\
     forall n (s2 : shared) (l2 : session), l_tid l2 = t ->
       (forall r, pg_answers n (s_pg s1) (l_tid l) (l_tx l) c r (s_pg s2) (l_tx l2) -> Q (Returned r) (s2, l2)) /\
       (forall e, foreign e -> pg_fails n (s_pg s1) (l_tid l) (l_tx l) c (s_pg s2) (l_tx l2) -> Q (Threw e) (s2, l2))) ->
  rely (pg c) Q (s, l).
Proof using RedisLaws0.
  intros Ht H. apply (rely_own (Pg c)); [done|]. intros s1 _ HP _. destruct (H s1 HP) as [Ha HQ]. split; [done|].
  intros r s2 l2 He. destruct (env_pg _ _ _ _ _ _ He) as [Ht2 (n & p' & tx' & _ & <- & <- & Hr)].
  destruct (HQ n s2 l2) as [Hok Hno]; [congruence|]. destruct r as [e|r]; [|by apply Hok].
  apply Hno; [by eapply env_foreign|done].
Qed.

Section Ingestion.
Context (cfg : Config) (p : IngestParams) (Hp : idempotency_key p = key).

(** The row is what was posted. *)
Definition as_posted (e : event_row) : Prop :=
  ev_idempotency_key e = key /\ ev_client_id e = client_id p /\ ev_event_type e = event_type p /\ ev_payload e = payload p.

Definition stored_once (s : shared) (ev : string) : Prop := exists e, posted key (T_of s) = {[ev := e]} /\ as_posted e.

(** Where the ingestion may fail: nothing is stored, or the one event. *)
Definition failing (o : outcome exn IngestResult) (w : shared * session) : Prop :=
  l_tid w.2 = t /\ match o with
  | Returned r => of_key key (drafts w.2) = [] /\ is_new r = true /\ stored_once w.1 (event_id r)
  | Threw e => foreign e /\ (posted key (T_of w.1) = ∅ \/ exists ev, stored_once w.1 ev)
  | Exited => False
  end.

(** And nothing is left to commit. *)
Definition ended (o : outcome exn IngestResult) (w : shared * session) : Prop := failing o w /\ of_key key (drafts w.2) = [].

Lemma failing_same o (w w' : shared * session) :
  l_tid w'.2 = t -> posted key (T_of w'.1) = posted key (T_of w.1) -> drafts w'.2 = [] -> failing o w -> ended o w'.
Proof.
  intros Ht E Hd [_ H]. split; [split; [done|]|by rewrite Hd]. destruct o as [r|e|]; [| |done]; unfold stored_once in *; rewrite E; [|done].
  rewrite Hd. by destruct H as (_ & H).
Qed.

Lemma ended_same o (w w' : shared * session) :
  l_tid w'.2 = t -> posted key (T_of w'.1) = posted key (T_of w.1) -> drafts w'.2 = drafts w.2 -> ended o w -> ended o w'.
Proof.
  intros Ht E Hd [[_ H] Hk]. split; [split; [done|]|by rewrite Hd].
  destruct o as [r|e|]; [| |done]; unfold stored_once in *; rewrite E; [|done]. by rewrite Hd.
Qed.

Definition in_draft (s : shared) (l : session) (id : string) : Prop :=
  l_tid l = t /\ posted key (T_of s) = ∅ /\
  exists x e, l_tx l = Some x /\ new_events (tx_writes x) = [(id, e)] /\ as_posted e.

(** A statement after the event's insertion inserts no other. *)
Lemma rely_next q Q s l id :
  in_draft s l id -> match q with InsertEvent _ _ _ _ => False | _ => True end ->
  (forall r s2 l2 now T b ws, in_draft s2 l2 id -> stmt_ok now T b q r ws -> Q (Returned r) (s2, l2)) ->
  (forall e w, foreign e -> l_tid w.2 = t -> posted key (T_of w.1) = ∅ -> Q (Threw e) w) ->
  rely (client_query q) Q (s, l).
Proof using RedisLaws0.
  intros (Ht & HP & x & e & Hx & Hw & He) Hq Hok Hno. apply rely_own_pg; [done|]. intros s1 E. split.
  { unfold may_call. rewrite decide_True by done. by destruct q. }
  intros n s2 l2 Ht2. split.
  - intros r (x' & ws & Hx' & (Hr & _) & Hp2 & Htx2). rewrite Hx in Hx'. injection Hx' as <-.
    eapply Hok; [|exact Hr]. split; [done|]. split; [rewrite Hp2; cbn; congruence|].
    eexists _, e. split; [exact Htx2|]. split; [|done]. cbn. rewrite new_events_app, Hw.
    destruct (stmt_events _ _ _ _ _ _ Hr) as [-> |(c & ty & pl & i & e' & -> & _)]; [by rewrite app_nil_r|done].
  - intros e' Hf [Hp2 _]. apply Hno; [done|done|]. cbn. rewrite Hp2. congruence.
Qed.

Lemma rely_post_statements s l x :
  l_tid l = t -> posted key (T_of s) = ∅ -> l_tx l = Some x -> tx_writes x = [] ->
  rely (ingest_statements p) (fun o w => l_tid w.2 = t /\ posted key (T_of w.1) = ∅ /\ match o with
    | Returned r => is_new r = true /\ in_draft w.1 w.2 (event_id r)
    | Threw e => foreign e
    | Exited => False
    end) (s, l).
Proof using RedisLaws0 Hp.
  intros Ht HP Htx Hx. unfold ingest_statements. apply rg_bind, rely_own_pg; [done|]. intros s1 E. rewrite HP in E. split.
  { unfold may_call. rewrite decide_True by done. intros _. split; [done|]. unfold drafts. rewrite Htx. cbn. by rewrite Hx. }
  intros n s2 l2 Ht2. split; [|intros e Hf [Hp2 _]; cbn; rewrite Hp2; done].
  intros r (x' & ws & Hx' & (Hr & _) & Hp2 & Htx2). rewrite Htx in Hx'. injection Hx' as <-.
  assert (posted key (T_of s2) = ∅) as HP2 by (rewrite Hp2; done).
  unfold tx_view in Hr. rewrite Hx in Hr, Htx2. cbn in Hr. destruct Hr as [((id & e & He & Hk) & _)|(_ & id & _ & -> & ->)].
  { exfalso. apply (posted_none key _ _ _ E He). unfold same_event_key in Hk. apply andb_true_iff in Hk as [_ Hk].
    apply String.eqb_eq in Hk. congruence. }
  assert (in_draft s2 l2 id) as Hd.
  { split; [done|]. split; [done|]. eexists _, _. split; [exact Htx2|]. split; [reflexivity|]. by repeat split. }
  apply rg_bind. eapply rely_next; [exact Hd|done| |by intros e [s' l'] Hf H1 H2].
  intros ds s3 l3 now T b ws Hd3 (d & _ & -> & _). apply rg_bind. eapply rely_next; [exact Hd3|done| |by intros e [s' l'] Hf H1 H2].
  intros [] s4 l4 now' T' b' ws' Hd4 _. split; [apply Hd4|]. split; [apply Hd4|]. by split.
Qed.

Lemma rely_post_commit s l r :
  in_draft s l (event_id r) -> is_new r = true ->
  rely (pg COMMIT) (fun o w => match o with
    | Returned _ => ended (Returned r) w | Threw e => failing (Threw e) w | Exited => False end) (s, l).
Proof using RedisLaws0.
  intros (Ht & HP & x & e & Hx & Hw & He) Hn. apply rely_own_pg; [done|]. intros s1 E. rewrite HP in E. split.
  { unfold may_call. by rewrite decide_True. }
  intros n s2 l2 Ht2.
  assert (forall ws, ws = tx_writes x -> s_pg s2 = committed (s_pg s1) (l_tid l) ws -> stored_once s2 (event_id r)) as Hst.
  { intros ws -> Hp2. exists e. split; [|done]. rewrite Hp2. by apply posted_first; [| |apply He]. }
  rewrite Hx. split.
  - intros _ [Hp2 Htx2]. specialize (Hst _ eq_refl Hp2).
    assert (drafts l2 = []) as Hd by (unfold drafts; by rewrite Htx2).
    split; [split; [done|]|]; cbn [snd]; by rewrite Hd.
  - intros er Hf [[Hp2|Hp2] _]; (split; [done|]); (split; [done|]); [left; cbn [fst]; by rewrite Hp2|right; eexists; by eapply Hst].
Qed.

(** The caching of the key. *)
Lemma rely_post_cache k v ex o s l :
  ended o (s, l) -> rely (detach (redis (SET k v ex false))) (fun o' w => o' = Returned tt /\ ended o w) (s, l).
Proof using RedisLaws0.
  intros [Ho Hd]. pose proof (proj1 Ho) as Ht. cbn in Ht, Hd. unfold detach. apply rg_try_catch, rg_bind.
  apply (rely_own (Redis (RCmd (SET k v ex false)))); [done|].
  intros s1 _ E _. split; [unfold may_call; by rewrite decide_True|].
  intros r s2 l2 He. destruct (env_pg _ _ _ _ _ _ He) as [Ht2 [Hp2 Htx2]].
  assert (ended o (s2, l2)) as H2.
  { apply (ended_same o (s, l)); cbn [fst snd]; [congruence|by rewrite Hp2, E|unfold drafts; by rewrite Htx2|by split]. }
  by destruct r as [e|x].
Qed.

Lemma rely_post_rollback (e : exn) w :
  failing (Threw e) w -> rely (pg ROLLBACK ;;; Throw e) ended w.
Proof using RedisLaws0.
  destruct w as [s l]. intros Ho. pose proof (proj1 Ho) as Ht. cbn in Ht. apply rg_bind, rely_own_pg; [done|]. intros s1 E. split.
  { unfold may_call. by rewrite decide_True. }
  intros n s2 l2 Ht2.
  assert (forall e', foreign e' -> s_pg s2 = committed (s_pg s1) (l_tid l) [] -> l_tx l2 = None -> ended (Threw e') (s2, l2)) as H.
  { intros e' Hf Hp2 Htx2. apply (failing_same _ (s, l)); cbn; [done|by rewrite Hp2|unfold drafts; by rewrite Htx2|].
    destruct Ho as (_ & _ & Ho). by split. }
  split; [intros _ [Hp2 Htx2]; apply H; [by destruct Ho as (_ & ? & _)|done..]|intros e' Hf [Hp2 Htx2]; by apply H].
Qed.

Lemma rely_post_release o w :
  ended o w -> rely (pg CLIENT_RELEASE) (fun fo w' => match fo with Returned _ => ended o w' | _ => False end) w.
Proof using RedisLaws0.
  destruct w as [s l]. intros [Ho Hd]. pose proof (proj1 Ho) as Ht. cbn in Ht, Hd. apply rely_own_pg; [done|]. intros s1 E. split.
  { unfold may_call. by rewrite decide_True. }
  intros n s2 l2 Ht2. split; [|by intros e _ []]. intros _ [Hp2 Htx2].
  apply (ended_same o (s, l)); cbn [fst snd]; [done|by rewrite Hp2, E|unfold drafts; by rewrite Htx2|by split].
Qed.

(** Nothing of the key is stored, cached or drafted. *)
Definition ready (w : shared * session) : Prop :=
  l_tid w.2 = t /\ of_key key (drafts w.2) = [] /\ posted key (T_of w.1) = ∅ /\ uncached key w.1.

Lemma ready_passed w {A} E (q : io A) o w' : ready w -> passed w E q o w' -> ready w'.
Proof. intros (_ & _ & H3 & H4) (P1 & P2 & P3 & P4 & _). split; [done|]. split; [done|]. split; [congruence|auto]. Qed.

Lemma ready_failing w (e : exn) : ready w -> foreign e -> ended (Threw e) w.
Proof. intros (H1 & H2 & H3 & _) Hf. split; [|done]. split; [done|]. split; [done|]. by left. Qed.

(** A part of the post before the key is used. *)
Lemma rely_ready {A} E (q : io A) w :
  ready w -> awaits E (avoids key) q -> rely q (fun o w' => ready w' /\
    match o with
    | Returned _ => True
    | Threw e => forall F : exn -> Prop, (forall e, foreign e -> F e) -> raises F q -> F e
    | Exited => E
    end) w.
Proof using RedisLaws0.
  intros Hw Hq. eapply rg_mono; [apply (rely_passed E); [apply Hw|apply Hw|exact Hq]|].
  intros o w' H. split; [by eapply ready_passed|apply H].
Qed.

(** The cache has no answer. *)
Lemma rely_post_get w :
  ready w ->
  rely (redis (GET (idemRedisKey (client_id p) key))) (fun o w' => ready w' /\
    match o with Returned r => r = None | Threw e => foreign e | Exited => False end) w.
Proof using RedisLaws0.
  destruct w as [s l]. intros (Ht & Hd & HP & Hu). cbn in Ht, Hd, HP, Hu.
  apply (rely_own (Redis (RCmd (GET (idemRedisKey (client_id p) key))))); [done|].
  intros s1 (Hx & Hl & _) E U. split; [by apply avoids_may|]. intros r s2 l2 He.
  destruct (step_avoids s1 s2 l l2 _ r Hx Hl Ht Hd I He) as (Ht2 & Hd2 & E2 & U2).
  split; [split; [done|]; split; [done|]; split; [cbn; congruence|auto]|]. destruct r as [e|x]; [by eapply env_foreign|]. cbn.
  destruct (env_redis_answer _ _ _ _ He) as [Hx2 _]. destruct (env_parts _ _ _ _ He) as (Hn & _). cbn in Hn.
  destruct (rs_cmd (s_redis s1) (now_ms s2) (GET (idemRedisKey (client_id p) key))) as (H1 & _ & _).
  pose proof (eq_trans (eq_sym H1) Hx2) as Hg. cbn in Hg.
  rewrite (rs_expiry _ (now_ms s1)), live_lookup, (U Hu) in Hg by by apply ms_of_ts_mono. by injection Hg as <-.
Qed.

(** The statements between BEGIN and the caching. *)
Lemma rely_post_body w :
  ready w ->
  rely (pg BEGIN ;;;
    let* r := ingest_statements p in
    pg COMMIT ;;;
    detach (redis (SET (idemRedisKey (client_id p) key) (event_id r) (Some (EX (IDEM_TTL_SECONDS cfg))) false)) ;;;
    Ret r) (fun o w => match o with Returned r => ended (Returned r) w | Threw e => failing (Threw e) w | Exited => False end) w.
Proof using RedisLaws0 Hp.
  destruct w as [s l]. intros (Ht & Hd & HP & _). cbn in Ht, HP. apply rg_bind, rely_own_pg; [done|].
  intros s1 E. split; [unfold may_call; by rewrite decide_True|]. intros n s2 l2 Ht2. split; last first.
  { intros e Hf [Hp2 _]. split; [done|]. split; [done|]. left. cbn. rewrite Hp2. congruence. }
  intros _ [Hp2 Htx]. apply rg_bind. eapply rg_mono; [eapply rely_post_statements; [done|rewrite Hp2; congruence|exact Htx|done]|].
  intros [r|e|] [s3 l3] (H1 & H2 & H3); [|by repeat split; [..|left]|done]. destruct H3 as [Hn Hd3].
  apply rg_bind. eapply rg_mono; [by apply rely_post_commit|]. intros [[]|e|] [s4 l4] H4; [|done|done].
  apply rg_bind. eapply rg_mono; [by apply rely_post_cache|]. by intros o w' [-> H5].
Qed.

Lemma rely_post_ingest w : ready w -> rely (ingestEvent cfg p) ended w.
Proof using RedisLaws0 Hp.
  intros Hw. unfold ingestEvent. rewrite Hp. apply rg_bind. eapply rg_mono; [by apply rely_post_get|].
  intros [c|e|] w1 [Hw1 Ho]; [subst c|by apply ready_failing|done]. cbn [cached_result].
  apply rg_bind, rely_ret, rg_bind. eapply rg_mono; [apply (rely_ready False (pg CONNECT)); [done|by split; [|intros []]]|].
  intros [[]|e|] w2 [Hw2 Hf]; [|apply ready_failing; [done|apply (Hf foreign); [done|by intros [e'|x]]]|done].
  apply rg_try_finally, rg_try_catch. eapply rg_mono; [by apply rely_post_body|].
  intros [r|e|] w3 H3; [|eapply rg_mono; [by apply rely_post_rollback|]|done].
  - eapply rg_mono; [by apply rely_post_release|]. by intros [].
  - intros o w4 H4. pose proof H4 as [[_ Ho] _]. destruct o as [r|e'|]; [| |done];
      (eapply rg_mono; [by apply rely_post_release|]; by intros []).
Qed.
End Ingestion.

(** ** The route *)

(** The errors of a request that stores nothing. *)
Definition turned_down (e : exn) : Prop :=
  foreign e \/ exists c n m d, e = AppError c n m d /\ c ∈ [400; 404; 409; 413; 429; 503].

Lemma turned_down_app c n m d : bool_decide (c ∈ [400; 404; 409; 413; 429; 503]) = true -> turned_down (AppError c n m d).
Proof. intros H%bool_decide_eq_true. right. by exists c, n, m, d. Qed.

Section Route.
Context (is_uuid : string -> bool) (issues_of : json -> json) (cfg : Config).
Context (crash : bool) (hit : option (gmap string Z)) (rq : event_request).

Lemma check_request_key k ep ty pl :
  check_request is_uuid issues_of cfg rq = inr (k, ep, ty, pl) -> rq_idempotency_key rq = One k.
Proof.
  unfold check_request. destruct (rq_idempotency_key rq) as [|k'|l]; [done| |done].
  destruct (String.eqb k' ""); [done|]. destruct (255 <? String.length k')%nat; [done|]. destruct (js_gt _ _); [done|].
  destruct (parse_event_body is_uuid (rq_body rq)) as [[[ep' ty'] pl']|]; [|done].
  destruct (MAX_PAYLOAD_BYTES cfg <? _); [done|]. by intros [= <- _ _ _].
Qed.

(** The row is what the request says. *)
Definition row_of (e : event_row) : Prop :=
  exists ep, check_request is_uuid issues_of cfg rq = inr (key, ep, ev_event_type e, ev_payload e) /\ ev_idempotency_key e = key.

Definition posts_one (T : tables) (ev : string) : Prop := exists e, posted key T = {[ev := e]} /\ row_of e.

Definition post_promise (o : outcome exn reply) (w : shared * session) : Prop :=
  match o with
  | Returned r => exists res, r = event_reply res /\ is_new res = true /\ posts_one (T_of w.1) (event_id res)
  | Threw e => (posted key (T_of w.1) = ∅ /\ turned_down e) \/ (foreign e /\ exists ev, posts_one (T_of w.1) ev)
  | Exited => True
  end.

Lemma rely_post w :
  rq_idempotency_key rq = One key -> ready w ->
  rely (postEvents is_uuid issues_of cfg crash hit rq) post_promise w.
Proof using RedisLaws0.
  intros Hkey Hw. unfold postEvents.
  assert (forall e w, ready w -> turned_down e -> post_promise (Threw e) w) as Hno by (intros e w' H He; left; split; [apply H|done]).
  apply rg_bind. eapply rg_mono; [apply (rely_ready True (isOverloaded cfg hit)); [done|issues_tac ltac:(exact I)]|].
  intros [over|e|] w1 [Hw1 Hf]; [|apply Hno; [done|left]|done].
  2: { apply (Hf foreign); [done|]. raises_tac ltac:(assumption). }
  destruct over; [apply Hno; [done|]; by apply turned_down_app|].
  destruct (check_request is_uuid issues_of cfg rq) as [e|[[[k ep] ty] pl]] eqn:Hc.
  { apply Hno; [done|]. destruct (check_request_error _ _ _ _ _ Hc) as (c & n & m & d & -> & [-> | ->]); by apply turned_down_app. }
  pose proof (check_request_key _ _ _ _ Hc) as Hk. rewrite Hkey in Hk. injection Hk as <-.
  apply rg_bind. eapply rg_mono; [apply (rely_ready True (read_endpoint ep)); [done|issues_tac ltac:(exact I)]|].
  intros [[[i client] active]|e|] w2 [Hw2 Hf2]; [|apply Hno; [done|]|done].
  2: { apply (Hf2 turned_down); [by left|]. raises_tac ltac:(first [assumption|by apply turned_down_app]). }
  destruct active; [|apply Hno; [done|]; by apply turned_down_app].
  cbn [negb]. apply rg_bind. eapply rg_mono; [apply rely_post_ingest; [done|exact Hw2]|].
  assert (forall T ev, (exists e, posted key T = {[ev := e]} /\
    as_posted {| client_id := client; idempotency_key := key; event_type := ty; payload := pl; endpoint_id := ep |} e) -> posts_one T ev) as Hone.
  { intros T ev (e & HP & H1 & _ & H3 & H4). exists e. split; [done|]. exists ep. cbn in H3, H4. rewrite H3, H4. by split. }
  intros [res|e|] w3 [[Ht H3] Hd]; [|destruct H3 as [Hf3 [H3|[ev H3]]]; [left; split; [done|by left]|right; split; [done|exists ev; by apply Hone]]|done].
  destruct H3 as (_ & Hn & H3). rewrite Hn. apply rg_bind. destruct crash; [exact I|].
  set (q := try_catch (enqueueDelivery (delivery_id res)) _).
  eapply rg_mono; [apply (rely_passed False q); [exact Ht|exact Hd|unfold q; issues_tac ltac:(exact I)]|].
  assert (raises foreign q) as Hq by (unfold q; raises_tac ltac:(assumption)).
  intros [[]|e|] w4 (_ & _ & E & _ & Hf4); [|right; split; [by apply (Hf4 foreign)|]|done].
  - apply rely_ret. exists res. split; [done|]. split; [done|]. apply Hone. unfold stored_once in H3. rewrite <- E in H3. exact H3.
  - exists (event_id res). apply Hone. unfold stored_once in H3. rewrite <- E in H3. exact H3.
Qed.
End Route.
End Posting.

(** ** Everyone else *)

(** Keys that are not taken for one another, in the table or in the cache. *)
Definition keys_apart (k k' : string) : Prop := k <> k' /\ forall c c', idemRedisKey c k <> idemRedisKey c' k'.

#[export] Instance keys_apart_sym : Symmetric keys_apart.
Proof. intros k k' [H1 H2]. split; [congruence|]. intros c c' E. by apply (H2 c' c). Qed.

Lemma ingest_avoids cfg p key : keys_apart key (idempotency_key p) -> awaits True (avoids key) (ingestEvent cfg p).
Proof.
  intros [H1 H2]. issues_tac ltac:(first [exact I | cbn; congruence |
    cbn; intros client E%list_elem_of_singleton; by eapply H2 ]).
Qed.

Lemma post_avoids is_uuid issues_of cfg crash hit rq key :
  (forall k, rq_idempotency_key rq = One k -> keys_apart key k) ->
  awaits True (avoids key) (postEvents is_uuid issues_of cfg crash hit rq).
Proof.
  intros H. unfold postEvents. apply issues_bind; [issues_tac ltac:(exact I)|]. intros [|]; [done|].
  destruct (check_request is_uuid issues_of cfg rq) as [e|[[[k ep] ty] pl]] eqn:Hc; [done|].
  apply issues_bind; [issues_tac ltac:(exact I)|]. intros [[i client] active]. destruct (negb active); [done|].
  apply issues_bind; [apply ingest_avoids, H; by eapply check_request_key|]. intros res.
  issues_tac ltac:(exact I).
Qed.

Lemma elsewhere_avoids key c : elsewhere c -> avoids key c.
Proof.
  destruct c as [[c|sha keys args|sc|]|[| | | | |q|q]| | | | | | | | | | | | |]; cbn; try done.
  - intros H. by destruct c.
  - by destruct q.
  - by destruct q.
Qed.

(** ** Many requests side by side *)

Section Calls.
Context {RS BS : Type} `{!RedisServer RS} `{!RedisLaws RS} `{!BullMQ BS}.
Context (is_uuid : string -> bool) (issues_of : json -> json) (cfg : Config) (crash : bool).
Context (hmac : string -> string -> string).
Abbreviation T_of s := (pg_tables (s_pg s)).

(** A request, with what the memo of the queue's counts holds for it, or a
    flow of the engine. *)
Inductive call := Post (hit : option (gmap string Z)) (rq : event_request) | Engine (f : flow).

Definition call_prog (c : call) : io (option reply) :=
  match c with
  | Post hit rq => let* r := postEvents is_uuid issues_of cfg crash hit rq in Ret (Some r)
  | Engine f => flow_prog cfg hmac f ;;; Ret None
  end.

(** The key a call may post. *)
Definition key_of (c : call) : option string :=
  match c with
  | Post _ rq => match rq_idempotency_key rq with One k => Some k | _ => None end
  | Engine (FIngest p) => Some (idempotency_key p)
  | Engine _ => None
  end.

Definition launched (calls : list (call * session)) : list (io (option reply) * session) :=
  (fun c => (call_prog c.1, c.2)) <$> calls.

(** Sessions of their own without a transaction, and keys of their own. *)
Record own_calls (calls : list (call * session)) : Prop := {
  oc_idle c : c ∈ calls -> l_tx c.2 = None;
  oc_tids : NoDup ((fun c => l_tid c.2) <$> calls);
  oc_keys i j c d k k' : calls !! i = Some c -> calls !! j = Some d -> i <> j ->
    key_of c.1 = Some k -> key_of d.1 = Some k' -> keys_apart k k'
}.

Lemma call_avoids c key :
  (forall k, key_of c = Some k -> keys_apart key k) -> awaits True (avoids key) (call_prog c).
Proof.
  destruct c as [hit rq|f]; cbn [call_prog key_of]; intros H; (apply issues_bind; [|done]).
  - apply post_avoids. intros k E. apply H. by rewrite E.
  - destruct (is_ingest f) eqn:Hf.
    + destruct f as [p| | | | | | |]; try discriminate Hf. cbn [flow_prog]. apply issues_bind; [|done]. by apply ingest_avoids, H.
    + eapply issues_mono; [|by apply flow_elsewhere]. intros c. apply elsewhere_avoids.
Qed.

(** A process keeps its session. *)
Lemma session_kept {A} (st st' : system (cmd := cmd) (resp := resp) (exn := exn) (A := A) (S := shared RS BS) (L := session)) i p l :
  rtc (sys_move env dies) st st' -> st.2 !! i = Some (p, l) -> exists p' l', st'.2 !! i = Some (p', l') /\ l_tid l' = l_tid l.
Proof.
  intros H. revert p l. induction H as [st|st st1 st' Hm _ IH]; intros p l E; [by exists p, l|].
  destruct Hm as [s1 ts j c k m r s2 m' Hj He|s1 ts j c k m s2 m' Hj Hd]; cbn in E, IH;
    (destruct (decide (j = i)) as [-> |Hne]; [|by apply (IH p l); rewrite list_lookup_insert_ne]);
    rewrite E in Hj; injection Hj as -> ->;
    (edestruct IH as (p' & l' & E' & Ht'); [by rewrite list_lookup_insert_eq by (by eapply lookup_lt_Some)|]); exists p', l';
    (split; [exact E'|]); rewrite Ht'.
  - by destruct (env_pg _ _ _ _ _ _ He) as [-> _].
  - by injection Hd as -> ->.
Qed.

Section One.
Context (calls : list (call * session)) (i : nat) (hit : option (gmap string Z)) (rq : event_request) (l : session) (key : string).
Context (Hown : own_calls calls) (Hi : calls !! i = Some (Post hit rq, l)) (Hkey : rq_idempotency_key rq = One key).
Abbreviation promise := (post_promise key is_uuid issues_of cfg rq).

(** What the end of each call promises. *)
Definition ends_well (j : nat) (o : outcome exn (option reply)) (w : shared RS BS * session) : Prop :=
  j = i -> match o with
    | Returned (Some r) => promise (Returned r) w
    | Returned None => False
    | Threw e => promise (Threw e) w
    | Exited => True
    end.

Lemma drafts_idle (m : session) : l_tx m = None -> drafts m = [].
Proof. intros E. unfold drafts. by rewrite E. Qed.

Lemma launched_fits (s : shared RS BS) :
  exclusive s -> posted key (T_of s) = ∅ -> uncached key s ->
  fits_all env exclusive (drafts_ok key (l_tid l)) (untouched key (l_tid l)) separated ends_well (s, launched calls).
Proof using RedisLaws0 Hown Hi Hkey.
  intros Hx HP Hu. apply fits_start; [apply _|done| |].
  - intros j p m Hj. apply list_lookup_fmap_Some_1 in Hj as ([c m0] & [= -> ->] & Hj).
    pose proof (oc_idle _ Hown _ (list_elem_of_lookup_2 _ _ _ Hj)) as Hm%drafts_idle. cbn in Hm. cbn [fst snd]. split.
    { constructor; rewrite ?Hm; [by intros ? ? ?%elem_of_nil|done|]. intros _. rewrite HP, map_size_empty. cbn. lia. }
    destruct (decide (j = i)) as [-> |Hne].
    + rewrite Hi in Hj. injection Hj as <- <-. cbn [call_prog]. apply rg_bind. eapply rg_mono.
      { apply (rely_post key (l_tid l)); [exact Hkey|]. repeat split; cbn; [by rewrite Hm|done|exact Hu]. }
      by intros [r|e|] w Hw _.
    + eapply rg_mono; [apply rely_elsewhere_key, call_avoids|by intros o w _ ->].
      intros k Hk. eapply (oc_keys _ Hown i j); [exact Hi|exact Hj|congruence| |exact Hk]. cbn. by rewrite Hkey.
  - intros a b t u Ha Hb Hne. apply list_lookup_fmap_Some_1 in Ha as (c & -> & Ha).
    apply list_lookup_fmap_Some_1 in Hb as (d & -> & Hb). unfold separated. cbn. intros E. apply Hne.
    eapply (NoDup_lookup _ _ _ (l_tid c.2) (oc_tids _ Hown)); rewrite list_lookup_fmap; [by rewrite Ha|].
    rewrite Hb. cbn. by rewrite E.
Qed.

(** A request under a key of its own, among others: never two events of the
    key, and at its end what it is answered is so. *)
Lemma post_outcome (s s' : shared RS BS) ts' :
  exclusive s -> posted key (T_of s) = ∅ -> uncached key s ->
  rtc (sys_move env dies) (s, launched calls) (s', ts') ->
  (size (posted key (T_of s')) <= 1)%nat /\
  forall p l', ts' !! i = Some (p, l') ->
    (forall a, p = Ret a -> exists r, a = Some r /\ promise (Returned r) (s', l')) /\
    (forall e, p = Throw e -> promise (Threw e) (s', l')).
Proof using RedisLaws0 Hown Hi Hkey.
  intros Hx HP Hu Hrun. pose proof (launched_fits s Hx HP Hu) as Hfit.
  assert (fits_all env exclusive (drafts_ok key (l_tid l)) (untouched key (l_tid l)) separated ends_well (s', ts')) as (_ & Hf & _).
  { refine (fits_steps env dies exclusive (drafts_ok key (l_tid l)) (untouched key (l_tid l)) separated _ _ _ _ Hrun Hfit).
    intros w w'. apply dies_post_keeps. }
  assert (exists p l', ts' !! i = Some (p, l') /\ l_tid l' = l_tid l) as (p & l' & Hi' & Ht').
  { apply (session_kept _ _ i (call_prog (Post hit rq)) l Hrun). cbn. unfold launched. by rewrite list_lookup_fmap, Hi. }
  destruct (Hf i _ Hi') as [[_ _ H1] Hp]. cbn in H1, Hp. split; [specialize (H1 Ht'); lia|].
  intros p2 l2 E. rewrite Hi' in E. injection E as <- <-.
  assert (forall s0 : shared RS BS, untouched key (l_tid l) l' s0 s' -> posted key (T_of s0) = posted key (T_of s')) as Hsame
    by (intros s0 H; symmetry; by apply H).
  split.
  - intros a ->. destruct Hp as [Hp|(s0 & HR & Hp)]; [done|]. specialize (Hp eq_refl). destruct a as [r|]; [|done].
    exists r. split; [done|]. destruct Hp as (res & Hr & Hn & e & HP' & He). exists res. split; [done|]. split; [done|].
    exists e. split; [|done]. cbn in *. by rewrite <- (Hsame s0 HR).
  - intros e ->. destruct Hp as [Hp|(s0 & HR & Hp)]; [done|]. specialize (Hp eq_refl). cbn in Hp |- *.
    unfold posts_one in *. by rewrite <- (Hsame s0 HR).
Qed.
End One.
End Calls.
