(* ===== verification/ReadApi.v ===== *)
(** * The listing and detail routes

    GET /v1/deliveries, GET /v1/deliveries/:id (src/src/api/routes/deliveries.ts)
    and GET /v1/dlq (src/src/api/routes/dlq.ts): the query strings zod parses,
    the cursor in and out, and the JSON of the rows. *)

From S2P Require Import Prelude Async Config Json Parse Dates Tables Queries Schema Redis Services Concrete Repo Frames.
From S2P Require Import Cursor Listing Api.
From Stdlib Require Import ZArith Lia String Ascii.
From stdpp Require Import prelude strings gmap.

Open Scope Z_scope.
Open Scope async_scope.

(** ** Strings *)

(** White space of [trim], among the code units below 256. *)
Definition js_space (c : ascii) : bool :=
  let n := nat_of_ascii c in ((9 <=? n) && (n <=? 13) || (n =? 32) || (n =? 160))%nat.

Fixpoint trim_start (s : string) : string :=
  match s with
  | String c r => if js_space c then trim_start r else s
  | EmptyString => ""
  end.

(** White space only. *)
Fixpoint blank (s : string) : bool :=
  match s with String c r => js_space c && blank r | EmptyString => true end.

Fixpoint trim_end (s : string) : string :=
  match s with
  | String c r => if blank s then "" else String c (trim_end r)
  | EmptyString => ""
  end.

Definition str_trim (s : string) : string := trim_end (trim_start s).

(** [toUpperCase] on ASCII letters. The other units it changes occur in no
    status. *)
Definition upper (c : ascii) : ascii :=
  let n := nat_of_ascii c in if ((97 <=? n) && (n <=? 122))%nat then ascii_of_nat (n - 32) else c.

Fixpoint str_upper (s : string) : string :=
  match s with String c r => String (upper c) (str_upper r) | EmptyString => "" end.

(** [/^[0-9a-f]{8}-[0-9a-f]{4}-[0-9a-f]{4}-[0-9a-f]{4}-[0-9a-f]{12}$/i]. *)
Fixpoint all_hex (s : string) : bool :=
  match s with String c r => bool_decide (is_Some (hex_value c)) && all_hex r | EmptyString => true end.

Definition is_delivery_id (s : string) : bool :=
  let words := str_split "-" s in
  bool_decide (map String.length words = [8; 4; 4; 4; 12]%nat) && forallb all_hex words.

(** ** Query strings *)

Record list_query := {
  q_status : http_header; q_endpoint_id : http_header; q_from : http_header; q_to : http_header;
  q_limit : http_header; q_cursor : http_header
}.

Record list_params := {
  p_status : list string; p_endpoint_id : option string; p_from : option jsnum; p_to : option jsnum;
  p_limit : Z; p_cursor : option string
}.

Definition VALID_STATUSES : list string := map status_text [PENDING; DELIVERING; DELIVERED; FAILED; DLQ].

(** [z.string().optional()]: a repeated parameter is an array, no string. *)
Definition optional_string (v : http_header) : option (option string) :=
  match v with Absent => Some None | One s => Some (Some s) | Many _ => None end.

Definition status_filter (v : option string) : list string :=
  match v with
  | None | Some "" => []
  | Some s => filter (fun s => s ∈ VALID_STATUSES) (map (fun s => str_upper (str_trim s)) (str_split "," s))
  end.

Section Routes.
(** The platform; [new Date(s)], [Number(s)], zod's UUID test, and the issues
    it reports for a query. *)
Context (pf : platform) (new_Date : string -> jsnum) (Number : string -> jsnum) (is_uuid : string -> bool).
Context (query_issues : list_query -> json).

(** [v ? new Date(v) : undefined]. *)
Definition date_param (v : option string) : option jsnum :=
  match v with None | Some "" => None | Some s => Some (new_Date s) end.

Definition uuid_param (v : http_header) : option (option string) :=
  match v with
  | Absent => Some None
  | One s => if is_uuid s then Some (Some s) else None
  | Many _ => None
  end.

(** [z.coerce.number().int().min(1).max(200).default(50)]. An array of several
    texts is NaN. *)
Definition limit_param (v : http_header) : option Z :=
  match v with
  | Absent => Some 50
  | One s => match Number s with Num n => if (1 <=? n) && (n <=? 200) then Some n else None | NaN => None end
  | Many _ => None
  end.

(** [listQuerySchema.safeParse] of deliveries.ts; [.catch(50)] makes the limit
    total. *)
Definition parse_list_query (q : list_query) : option list_params :=
  status ← optional_string (q_status q);
  endpoint_id ← uuid_param (q_endpoint_id q);
  from ← optional_string (q_from q);
  to_ ← optional_string (q_to q);
  cursor ← optional_string (q_cursor q);
  Some {| p_status := status_filter status; p_endpoint_id := endpoint_id;
          p_from := date_param from; p_to := date_param to_;
          p_limit := default 50 (limit_param (q_limit q)); p_cursor := cursor |}.

(** [cursorStr ? decodeCursor(cursorStr) : null]. *)
Definition cursor_param (v : option string) : exn + option Cursor :=
  match v with
  | None | Some "" => inr None
  | Some s => match decodeCursor pf s with inl e => inl e | inr c => inr (Some c) end
  end.

Definition list_filters (p : list_params) : DeliveryListFilters := {|
  f_statuses := Some (p_status p);
  f_endpointId := match p_endpoint_id p with None | Some "" => None | e => e end;
  f_from := p_from p; f_to := p_to p |}.

(** ** Rows as JSON *)

Definition list_row_fields (r : DeliveryListRow) : list (string * json) :=
  [("id", JStr (lr_id r)); ("event_id", JStr (lr_event_id r)); ("endpoint_id", JStr (lr_endpoint_id r));
   ("event_type", JStr (lr_event_type r)); ("status", JStr (status_text (lr_status r)));
   ("attempt_count", num_json (lr_attempt_count r)); ("next_attempt_at", opt_json date_json (lr_next_attempt_at r));
   ("created_at", date_json (lr_created_at r)); ("updated_at", date_json (lr_updated_at r))].

Definition list_row_json (r : DeliveryListRow) : json := JObj (list_row_fields r).
Definition dlq_row_json (r : DlqRow) : json :=
  JObj (list_row_fields (dlq_row r) ++ [("dlq_entered_at", date_json (dlq_entered_at r))]).

(** [encodeCursor({ updatedAt: last.updated_at.toISOString(), id: last.id })]. *)
Definition cursor_of (r : DeliveryListRow) : Cursor := {|
  c_updatedAt := toISOString (ms_of_ts (lr_updated_at r)); c_id := lr_id r |}.

Definition next_cursor (last_row : option DeliveryListRow) (hasMore : bool) : json :=
  match last_row with
  | Some r => if hasMore then JStr (encodeCursor (cursor_of r)) else JNull
  | None => JNull
  end.

Definition page_reply (data : list json) (next : json) : reply := {|
  rp_code := 200; rp_headers := []; rp_body := JObj [("data", JArr data); ("next_cursor", next)] |}.

(** ** The handlers *)

Definition getDeliveries (q : list_query) : io reply :=
  match parse_list_query q with
  | None => Throw (AppError 400 "VALIDATION_ERROR" "Invalid query parameters" (JObj [("issues", query_issues q)]))
  | Some p =>
      match cursor_param (p_cursor p) with
      | inl e => Throw e
      | inr cursor =>
          let* result := list_deliveries (list_filters p) cursor (p_limit p) in
          let '(rows, hasMore) := (result : list DeliveryListRow * bool) in
          Ret (page_reply (map list_row_json rows) (next_cursor (last rows) hasMore))
      end
  end.

(** GET /v1/dlq: only [cursor] and [limit] of the query are read. *)
Definition getDlq (q : list_query) : io reply :=
  match (cursor ← optional_string (q_cursor q); limit ← limit_param (q_limit q); Some (cursor, limit)) with
  | None => Throw (Errors.validationError (query_issues q))
  | Some (cursorParam, limit) =>
      match cursor_param cursorParam with
      | inl e => Throw e
      | inr cursor =>
          let* result := listDlq ((fun c => (new_Date (c_updatedAt c), c_id c)) <$> cursor) limit in
          let '(rows, hasMore) := (result : list DlqRow * bool) in
          Ret (page_reply (map dlq_row_json rows) (next_cursor (dlq_row <$> last rows) hasMore))
      end
  end.

Definition attempt_json (a : AttemptDetail) : json :=
  JObj [("attempt_number", num_json (ad_attempt_number a)); ("outcome", JStr (outcome_text (ad_outcome a)));
        ("http_status", opt_json num_json (ad_http_status a));
        ("response_body", opt_json JStr (ad_response_body a));
        ("error_message", opt_json JStr (ad_error_message a)); ("latency_ms", num_json (ad_latency_ms a));
        ("started_at", date_json (ad_started_at a)); ("finished_at", date_json (ad_finished_at a))].

Definition transition_json (x : TransitionDetail) : json :=
  JObj [("from_status", opt_json (fun s => JStr (status_text s)) (td_from_status x));
        ("to_status", JStr (status_text (td_to_status x))); ("actor", JStr (actor_text (td_actor x)));
        ("reason", JStr (td_reason x)); ("created_at", date_json (td_created_at x))].

(** The object [getDetail] returns. *)
Definition detail_json (d : DeliveryDetail) : json :=
  let r := dd_row d in
  JObj [("id", JStr (de_id r)); ("status", JStr (status_text (de_status r)));
        ("attempt_count", num_json (de_attempt_count r));
        ("next_attempt_at", opt_json date_json (de_next_attempt_at r));
        ("created_at", date_json (de_created_at r)); ("updated_at", date_json (de_updated_at r));
        ("event", JObj [("id", JStr (de_event_id r)); ("event_type", JStr (de_event_type r));
                        ("payload", de_payload r); ("received_at", date_json (de_received_at r))]);
        ("endpoint", JObj [("id", JStr (de_endpoint_id r)); ("url", JStr (de_endpoint_url r))]);
        ("attempts", JArr (map attempt_json (dd_attempts d)));
        ("transitions", JArr (map transition_json (dd_transitions d)))].

(** GET /v1/deliveries/:id. *)
Definition getDelivery (id : string) : io reply :=
  if is_delivery_id id then
    let* detail := getDetail id in
    match (detail : option DeliveryDetail) with
    | None => Throw (Errors.deliveryNotFound id)
    | Some d => Ret {| rp_code := 200; rp_headers := []; rp_body := detail_json d |}
    end
  else Throw (Errors.deliveryNotFound id).
End Routes.
