(* ===== verification/Pagination.v ===== *)
(** * Keyset pagination

    Walking the pages of GET /v1/deliveries from cursor to cursor. Section
    [Keyset]: a sorted listing cut at a key; section [Walk]: the pages a client
    gets by following [next_cursor], as pure data; section [Client]: the same
    walk as calls of the route. A cursor holds milliseconds and the rows hold
    microseconds, so a page starts after the key of the last row cut down to
    its millisecond. *)

From S2P Require Import Prelude Async Config Json Parse Dates Tables Queries Schema Redis Services Concrete Repo Frames.
From S2P Require Import Cursor Listing Api ReadApi.
From Stdlib Require Import ZArith Lia String Ascii.
From stdpp Require Import prelude strings gmap sorting.

Open Scope Z_scope.
Open Scope async_scope.

Lemma StronglySorted_filter {A} (R : A -> A -> Prop) (P : A -> bool) l :
  StronglySorted R l -> StronglySorted R (filter P l).
Proof.
  induction l as [|x l IH]; [done|]. rewrite StronglySorted_cons. intros [Hx Hl].
  rewrite filter_cons. destruct (decide (P x)); [|auto]. apply StronglySorted_cons. split; [|auto].
  rewrite Forall_forall in *. intros y [_ Hy]%list_elem_of_filter. auto.
Qed.

Lemma StronglySorted_impl {A} (R S : A -> A -> Prop) l :
  (forall x y, R x y -> S x y) -> StronglySorted R l -> StronglySorted S l.
Proof. intros H. induction 1 as [|x l Hl IH Hx]; constructor; [done|]. eapply Forall_impl; eauto. Qed.

(** ** A sorted list cut at a key *)

Section Keyset.
Context {A : Type} (key : A -> keyset).

Abbreviation sorted := (StronglySorted (newer_row key)).

Definition older_than (k : option keyset) (x : A) : bool :=
  match k with Some k => bool_decide (key_lt (key x) k) | None => true end.

(** Sorted, with no key twice. *)
Definition descending : list A -> Prop := StronglySorted (fun x y => key_lt (key y) (key x)).

Lemma descending_sorted l : descending l -> sorted l.
Proof. apply StronglySorted_impl. intros x y H. by right. Qed.

Lemma sorted_descending l : NoDup (key <$> l) -> sorted l -> descending l.
Proof.
  intros Hn Hs. induction Hs as [|x l Hl IH Hx]; [constructor|]. apply NoDup_cons in Hn as [Hni Hn].
  constructor; [by apply IH|]. rewrite Forall_forall in *. intros y Hy. destruct (Hx y Hy) as [He|]; [|done].
  destruct Hni. unfold newer_row in *. rewrite He. by apply list_elem_of_fmap_2.
Qed.

Lemma newest_first_sorted l : sorted (newest_first key l).
Proof. apply (StronglySorted_merge_sort (newer_row key)). Qed.

Lemma newest_first_perm l : newest_first key l ≡ₚ l.
Proof. apply merge_sort_Permutation. Qed.

(** Rows with different keys have one sorted order. *)
Definition keyed (l : list A) : Prop := forall x y, x ∈ l -> y ∈ l -> key x = key y -> x = y.

Lemma sorted_unique l l' : keyed l -> sorted l -> sorted l' -> l ≡ₚ l' -> l = l'.
Proof.
  intros Hk H1 H2 Hp. apply (StronglySorted_unique_strong (newer_row key)); try done.
  intros x y Hx Hy Hxy Hyx. apply Hk; [done|by rewrite Hp|]. by apply (anti_symm newer).
Qed.

(** Sorting and selecting commute. *)
Lemma newest_first_filter (P : A -> bool) l : keyed l ->
  newest_first key (filter P l) = filter P (newest_first key l).
Proof.
  intros Hk. apply sorted_unique.
  - intros x y. rewrite !newest_first_perm, !list_elem_of_filter. intros [_ Hx] [_ Hy]. by apply Hk.
  - apply newest_first_sorted.
  - apply StronglySorted_filter, newest_first_sorted.
  - by rewrite !newest_first_perm.
Qed.

(** Cutting a sorted list at a key drops a prefix. *)
Lemma cut_suffix k l : sorted l ->
  exists skipped, l = skipped ++ filter (older_than (Some k)) l /\ Forall (fun x => ~ key_lt (key x) k) skipped.
Proof.
  induction l as [|x l IH]; intros Hs; [by exists []|]. apply StronglySorted_cons in Hs as [Hx Hl].
  destruct (IH Hl) as (sk & Hsk & Hf). cbn [older_than] in *. rewrite filter_cons.
  destruct (decide (bool_decide (key_lt (key x) k))) as [Hd|Hd].
  - apply bool_decide_unpack in Hd. exists []. split; [|constructor]. cbn. f_equal.
    assert (filter (fun y => bool_decide (key_lt (key y) k)) l = l) as ->; [|done].
    apply filter_all. rewrite Forall_forall in Hx. apply Forall_forall. intros y Hy. apply bool_decide_pack.
    destruct (Hx y Hy) as [<-|Hlt]; [done|by eapply key_lt_trans].
  - exists (x :: sk). split; [by rewrite <- app_comm_cons, <- Hsk|]. constructor; [|done].
    intros H. apply Hd. by apply bool_decide_pack.
Qed.
End Keyset.

(** ** Following the cursors *)

Section Walk.
Context {A : Type} (key : A -> keyset).
(** The key the cursor of a row stands for: never beyond the row itself. *)
Context (cutoff : A -> keyset) (Hcut : forall x, ~ key_lt (key x) (cutoff x)).
Context (page_size : nat).

(** The listing from a cursor on. *)
Definition rest_of (l : list A) (from : option keyset) : list A := filter (older_than key from) l.

(** The rows of the pages, and whether the last page was reached. *)
Fixpoint walk (fuel : nat) (l : list A) (from : option keyset) : list A * bool :=
  match fuel with
  | O => ([], false)
  | S n =>
      let rest := rest_of l from in
      let page := take page_size rest in
      match last page with
      | Some r =>
          if (page_size <? length rest)%nat
          then let '(rows, done) := walk n l (Some (cutoff r)) in (page ++ rows, done)
          else (page, true)
      | None => (page, true)
      end
  end.

(** The part of the listing a cursor jumps over. *)
Definition jumped (rows : list A) (x : A) : Prop :=
  exists r, r ∈ rows /\ key_lt (key x) (key r) /\ ~ key_lt (key x) (cutoff r).

(** After a page, what is left is a suffix of what the page left. *)
Lemma next_rest l from page r tail :
  StronglySorted (newer_row key) l -> rest_of l from = (page ++ [r]) ++ tail ->
  exists skipped, tail = skipped ++ rest_of l (Some (cutoff r)) /\
    Forall (fun x => ~ key_lt (key x) (cutoff r)) skipped.
Proof using Hcut.
  intros Hs Hr.
  assert (exists pre, l = pre ++ rest_of l from) as [pre Hl].
  { destruct from as [k|]; [|exists []; unfold rest_of; by rewrite (filter_all (older_than key None)) by (by apply Forall_true)].
    destruct (cut_suffix key k l Hs) as (pre & Hl & _). by exists pre. }
  rewrite Hr in Hl. rewrite app_assoc in Hl.
  assert (StronglySorted (newer_row key) tail) as Ht by (rewrite Hl in Hs; by eapply StronglySorted_app_1_r).
  destruct (cut_suffix key (cutoff r) tail Ht) as (sk & Hsk & Hf). exists sk. split; [|done].
  rewrite Hsk at 1. f_equal. unfold rest_of. rewrite Hl, filter_app.
  rewrite (filter_none _ (pre ++ page ++ [r])); [done|]. apply Forall_forall. intros x Hx Hd.
  apply bool_decide_unpack in Hd. apply (Hcut r).
  assert (newer (key x) (key r)) as [He|Hlt].
  { rewrite app_assoc in Hx, Hl. apply elem_of_app in Hx as [Hx|Hx].
    - rewrite Hl, <- app_assoc in Hs. apply (StronglySorted_app_1_elem_of _ _ _ x r) in Hs; [done|done|set_solver].
    - apply list_elem_of_singleton in Hx as ->. by left. }
  - by rewrite <- He.
  - by eapply key_lt_trans.
Qed.

Lemma walk_spec fuel l from :
  (0 < page_size)%nat -> descending key l -> (length (rest_of l from) < fuel)%nat ->
  let '(rows, done) := walk fuel l from in
  done = true /\ rows `sublist_of` rest_of l from /\
  forall x, x ∈ rest_of l from -> x ∈ rows \/ jumped rows x.
Proof using Hcut.
  intros Hk Hd. pose proof (descending_sorted _ _ Hd) as Hs. revert from. induction fuel as [|n IH]; intros from Hn; [lia|]. cbn [walk].
  set (rest := rest_of l from) in *. pose proof (take_drop page_size rest) as Hpage.
  set (page := take page_size rest) in *. set (tail := drop page_size rest) in *.
  destruct (last page) as [r|] eqn:Hlast; last first.
  { apply last_None in Hlast. assert (rest = []) as ->.
    { destruct rest as [|x rest']; [done|]. unfold page in Hlast. by destruct page_size; [lia|]. }
    rewrite Hlast. split; [done|]. split; [done|]. by intros x Hx%elem_of_nil. }
  destruct (Nat.ltb_spec page_size (length rest)) as [Hlt|Hge].
  - apply last_Some in Hlast as [page' Hp].
    destruct (next_rest l from page' r tail Hs) as (sk & Ht & Hsk); [by rewrite <- Hp|].
    specialize (IH (Some (cutoff r))). destruct (walk n l (Some (cutoff r))) as [rows done].
    assert (length tail = length rest - page_size)%nat as Hlen by (unfold tail; by rewrite length_drop).
    assert (length (rest_of l (Some (cutoff r))) <= length tail)%nat by (rewrite Ht, length_app; lia).
    destruct IH as (-> & Hsub & Hmiss); [lia|]. split; [done|]. rewrite <- Hpage. split.
    + apply sublist_app; [done|]. rewrite Ht. by apply sublist_inserts_l.
    + intros x. rewrite Ht, !elem_of_app. intros [Hx|[Hx|Hx]].
      * by left; left.
      * right. exists r. rewrite elem_of_app. split; [left; rewrite Hp; set_solver|]. rewrite Forall_forall in Hsk.
        split; [|by apply Hsk].
        assert (descending key rest) as Hdr by by apply StronglySorted_filter.
        rewrite <- Hpage in Hdr. apply (StronglySorted_app_1_elem_of _ _ _ r x) in Hdr; [done|rewrite Hp; set_solver|rewrite Ht; set_solver].
      * destruct (Hmiss x Hx) as [H'|(r' & H' & H'')]; [by left; right|]. right. exists r'. set_solver.
  - split; [done|]. assert (page = rest) as -> by (unfold page; by apply take_ge). split; [done|]. by left.
Qed.
End Walk.

(** ** The cursors of the route *)

Lemma utf8_valid_pad w n : utf8_valid (pad w n) = true.
Proof.
  revert n. induction w as [|w IH]; intros n; [done|]. cbn [pad]. apply utf8_valid_app; [apply IH|].
  pose proof (Z.mod_pos_bound n 10 ltac:(lia)) as H.
  assert (n mod 10 = 0 \/ n mod 10 = 1 \/ n mod 10 = 2 \/ n mod 10 = 3 \/ n mod 10 = 4 \/ n mod 10 = 5 \/
          n mod 10 = 6 \/ n mod 10 = 7 \/ n mod 10 = 8 \/ n mod 10 = 9) as Hd by lia.
  repeat destruct Hd as [-> |Hd]; try reflexivity. by rewrite Hd.
Qed.

Lemma utf8_valid_iso ms : utf8_valid (toISOString ms) = true.
Proof.
  unfold toISOString. destruct (civil_from_days _) as [[y m] d].
  assert (utf8_valid (year_text y) = true) as Hy by (unfold year_text; repeat case_match; utf8_tac utf8_valid_pad).
  utf8_tac utf8_valid_pad; exact Hy.
Qed.

Lemma encodeCursor_nonempty c : encodeCursor c <> "".
Proof. unfold encodeCursor. by destruct c. Qed.

(** The key a row's cursor stands for. *)
Definition cutoff (r : DeliveryListRow) : keyset := (ts_of_ms (ms_of_ts (lr_updated_at r)), lr_id r).

Lemma cutoff_not_after r : ~ key_lt (row_key r) (cutoff r).
Proof.
  unfold key_lt, row_key, cutoff, ts_of_ms, ms_of_ts. cbn. pose proof (div_bounds (lr_updated_at r) 1000 ltac:(lia)).
  intros [H'|[_ H']]; [lia|by apply str_lt_irrefl in H'].
Qed.

(** A row jumped over has the millisecond of the row it follows. *)
Lemma jumped_same_ms rows x : jumped row_key cutoff rows x ->
  exists r, r ∈ rows /\ key_lt (row_key x) (row_key r) /\ ms_of_ts (lr_updated_at x) = ms_of_ts (lr_updated_at r).
Proof.
  intros (r & Hr & Hlt & Hn). exists r. split; [done|]. split; [done|].
  unfold key_lt, row_key, cutoff, ts_of_ms, ms_of_ts in *. cbn in *.
  pose proof (div_bounds (lr_updated_at r) 1000 ltac:(lia)). pose proof (div_bounds (lr_updated_at x) 1000 ltac:(lia)).
  apply Decidable.not_or in Hn as [Hn _]. destruct Hlt as [Hlt|[Hlt _]]; lia.
Qed.

(** ** The listing as one list *)

(** Times of four-digit years, and ids of well-formed text, as UUIDs are. *)
Definition printable_rows (t : tables) : Prop :=
  forall id d, deliveries t !! id = Some d ->
    four_digit_years (ms_of_ts (d_updated_at d) / 86400000) /\ utf8_valid id = true.

Definition listing (t : tables) (filters : DeliveryListFilters) : list DeliveryListRow :=
  newest_first row_key (filter (selected filters) (list_rows t)).

Lemma elem_of_list_rows t r : r ∈ list_rows t ->
  exists d, deliveries t !! lr_id r = Some d /\ lr_updated_at r = d_updated_at d.
Proof.
  unfold list_rows. rewrite list_elem_of_omap. intros ([id d] & Hin & Hr). apply elem_of_map_to_list in Hin.
  unfold list_row in Hr. destruct (events t !! _) as [ev|]; [|done]. injection Hr as <-. by exists d.
Qed.

Lemma list_rows_ids t : NoDup (lr_id <$> list_rows t).
Proof.
  unfold list_rows. pose proof (NoDup_fst_map_to_list (deliveries t)) as H. revert H.
  generalize (map_to_list (deliveries t)) as l. induction l as [|[id d] l IH]; intros H; [constructor|].
  apply NoDup_cons in H as [Hni Hn]. cbn [omap list_omap]. unfold list_row at 1.
  destruct (events t !! d_event_id d) as [ev|]; cbn; [|by apply IH]. apply NoDup_cons. split; [|by apply IH].
  rewrite list_elem_of_fmap. intros (r & -> & Hr). apply Hni. rewrite list_elem_of_omap in Hr.
  destruct Hr as ([id' d'] & Hin & Hr). unfold list_row in Hr. destruct (events t !! d_event_id d'); [|done].
  injection Hr as <-. cbn. by apply (list_elem_of_fmap_2 fst _ (id', d')).
Qed.

Lemma list_rows_keyed t : keyed row_key (list_rows t).
Proof.
  intros x y Hx Hy [= _ He]. pose proof (list_rows_ids t) as Hn.
  apply list_elem_of_lookup in Hx as [i Hi], Hy as [j Hj].
  assert (i = j) as ->; [|congruence].
  eapply (NoDup_lookup _ _ _ (lr_id x) Hn); rewrite list_lookup_fmap; [by rewrite Hi|rewrite Hj; cbn; by rewrite He].
Qed.

Lemma listing_descending t f : descending row_key (listing t f).
Proof.
  apply sorted_descending; [|apply newest_first_sorted]. unfold listing. rewrite newest_first_perm.
  apply (NoDup_fmap_1 snd). rewrite <- list_fmap_compose.
  eapply sublist_NoDup; [apply (list_rows_ids t)|]. apply fmap_sublist, sublist_filter.
Qed.

(** ** Walking with the route *)

Section Client.
Context (pf : platform) (new_Date : string -> jsnum) (Number : string -> jsnum) (is_uuid : string -> bool).
Context (query_issues : list_query -> json).
Abbreviation parse := (parse_list_query new_Date Number is_uuid).
Abbreviation get := (getDeliveries pf new_Date Number is_uuid query_issues).

Definition with_cursor (q : list_query) (c : http_header) : list_query := {|
  q_status := q_status q; q_endpoint_id := q_endpoint_id q; q_from := q_from q; q_to := q_to q;
  q_limit := q_limit q; q_cursor := c |}.

(** The two fields of a page. *)
Definition page_body (r : reply) : list json * json :=
  match rp_body r with
  | JObj fs => (match field "data" fs with Some (JArr l) => l | _ => [] end, default JNull (field "next_cursor" fs))
  | _ => ([], JNull)
  end.

(** A client that asks for page after page until [next_cursor] is null, at
    most [fuel] times: the rows, and whether it came to the end. *)
Fixpoint fetch_all (fuel : nat) (q : list_query) (cursor : http_header) : io (list json * bool) :=
  match fuel with
  | O => Ret ([], false)
  | S n =>
      let* r := get (with_cursor q cursor) in
      let '(data, next) := page_body r in
      match next with
      | JStr c => let* rest := fetch_all n q (One c) in
                  let '(rows, done) := (rest : list json * bool) in Ret (data ++ rows, done)
      | _ => Ret (data, true)
      end
  end.

(** A parsed limit is in range, however it was given. *)
Lemma parse_limit q p : parse q = Some p -> 1 <= p_limit p <= 200.
Proof.
  unfold parse_list_query. intros Hq.
  repeat match type of Hq with context [?x ≫= _] => destruct x eqn:?; cbn in *; [|done] end.
  injection Hq as <-. cbn. unfold limit_param. destruct (q_limit q); cbn; [lia| |lia].
  destruct (Number value); cbn; [lia|]. destruct (Z.leb_spec 1 z), (Z.leb_spec z 200); cbn; lia.
Qed.

(** The cursor of a request, and the key it stands for. *)
Inductive at_key (t : tables) : http_header -> option keyset -> Prop :=
| at_start : at_key t Absent None
| at_row r : r ∈ list_rows t -> at_key t (One (encodeCursor (cursor_of r))) (Some (cutoff r)).

Lemma at_key_remaining t f read c from : reads_iso read -> printable_rows t -> at_key t c from ->
  exists s cur, optional_string c = Some s /\ cursor_param pf s = inr cur /\
    remaining read t f cur = rest_of row_key (listing t f) from.
Proof.
  intros Hread Hp [|r Hr].
  - exists None, None. split; [done|]. split; [done|]. unfold remaining, rest_of, listing.
    rewrite (filter_all (older_than row_key None)) by by apply Forall_true.
    f_equal. apply list_filter_iff. intros x. cbn [beyond]. by rewrite andb_true_r.
  - destruct (elem_of_list_rows _ _ Hr) as (d & Hd & Hu). destruct (Hp _ _ Hd) as [Hy Hi].
    exists (Some (encodeCursor (cursor_of r))), (Some (cursor_of r)). split; [done|]. split.
    + unfold cursor_param. destruct (encodeCursor (cursor_of r)) as [|ch e] eqn:E; [by apply encodeCursor_nonempty in E|].
      rewrite <- E. unfold encodeCursor. erewrite decodeCursor_printed; [done|done|apply cursor_json_valid; [apply utf8_valid_iso|exact Hi]|done].
    + unfold remaining, rest_of, listing.
      assert (keyed row_key (filter (selected f) (list_rows t))) as Hk.
      { intros x y [_ Hx]%list_elem_of_filter [_ Hy']%list_elem_of_filter. by apply (list_rows_keyed t). }
      rewrite <- (newest_first_filter row_key (older_than row_key (Some (cutoff r)))) by done.
      f_equal. rewrite list_filter_filter. apply list_filter_iff. intros x.
      rewrite andb_True. cbn [beyond older_than cursor_of c_updatedAt c_id].
      rewrite (read_toISOString read Hread) by by rewrite Hu. unfold cutoff. tauto.
Qed.

Section Wp.
Context {RS BS : Type} `{!RedisServer RS} `{!RedisLaws RS} `{!BullMQ BS}.
Abbreviation world := (world RS BS).

(** The page a request gets. *)
Lemma wp_page q c from p (w : world) :
  parse (with_cursor q Absent) = Some p -> date_ok (p_from p) -> date_ok (p_to p) ->
  printable_rows (tables_of w) -> at_key (tables_of w) c from ->
  wp env (get (with_cursor q c)) (fun o w1 => db_same w w1 /\ forall r, o = Returned r ->
    let rest := rest_of row_key (listing (tables_of w) (list_filters p)) from in
    let page := take (Z.to_nat (p_limit p)) rest in
    r = page_reply (map list_row_json page) (next_cursor (last page) (p_limit p <? Z.of_nat (length rest)))) w.
Proof.
  intros Hq Hf Ht Hrows Hc.
  assert (exists s, optional_string c = Some s) as [s Hs] by (destruct Hc; eauto).
  assert (parse (with_cursor q c) = Some {| p_status := p_status p; p_endpoint_id := p_endpoint_id p; p_from := p_from p;
    p_to := p_to p; p_limit := p_limit p; p_cursor := s |}) as Hp.
  { unfold parse_list_query in *. cbn [with_cursor q_status q_endpoint_id q_from q_to q_limit q_cursor optional_string] in *.
    rewrite Hs. repeat match type of Hq with context [?x ≫= _] => destruct x eqn:?; cbn in *; [|done] end.
    by injection Hq as <-. }
  pose proof (parse_limit _ _ Hq) as Hl.
  unfold getDeliveries. rewrite Hp. cbn [p_cursor p_limit].
  assert (exists cur, cursor_param pf s = inr cur /\ forall read, reads_iso read ->
    remaining read (tables_of w) (list_filters p) cur = rest_of row_key (listing (tables_of w) (list_filters p)) from) as (cur & Hcur & Hrem).
  { destruct (at_key_remaining (tables_of w) (list_filters p) read_text c from) as (s' & cur & Hs' & Hcur & _); [apply read_text_iso|done..|].
    rewrite Hs in Hs'. injection Hs' as <-. exists cur. split; [done|]. intros read Hread.
    destruct (at_key_remaining (tables_of w) (list_filters p) read c from) as (s' & cur' & Hs' & Hcur' & Hr); [done..|].
    rewrite Hs in Hs'. injection Hs' as <-. rewrite Hcur in Hcur'. by injection Hcur' as <-. }
  rewrite Hcur. apply wp_bind. eapply wp_mono; [apply wp_list_deliveries; [lia|done..]|].
  intros [[rows more]|e|] w1 [H1 Ho]; cbn [after]; [|by split|done].
  destruct Ho as (read & Hread & -> & ->). apply wp_ret. split; [done|]. intros r [= <-].
  change (list_filters {| p_status := p_status p; p_endpoint_id := p_endpoint_id p; p_from := p_from p;
    p_to := p_to p; p_limit := p_limit p; p_cursor := s |}) with (list_filters p). by rewrite Hrem.
Qed.

Lemma page_body_reply data next : page_body (page_reply data next) = (data, next).
Proof. reflexivity. Qed.

Lemma wp_fetch_all fuel q c from p (w : world) :
  parse (with_cursor q Absent) = Some p -> date_ok (p_from p) -> date_ok (p_to p) ->
  printable_rows (tables_of w) -> at_key (tables_of w) c from ->
  wp env (fetch_all fuel q c) (fun o w1 => db_same w w1 /\ forall res, o = Returned res ->
    let '(rows, done) := walk row_key cutoff (Z.to_nat (p_limit p)) fuel (listing (tables_of w) (list_filters p)) from in
    res = (map list_row_json rows, done)) w.
Proof.
  intros Hq Hf Ht Hrows. revert c from w Hrows. induction fuel as [|n IH]; intros c from w Hrows Hc.
  { apply wp_ret. split; [done|]. by intros res [= <-]. }
  cbn [fetch_all walk]. apply wp_bind. eapply wp_mono; [by apply wp_page|].
  intros [r|e|] w1 [H1 Ho]; cbn [after]; [|by split|by split]. specialize (Ho r eq_refl). cbv zeta in Ho. subst r.
  rewrite page_body_reply. set (rest := rest_of row_key _ from) in *. set (page := take _ rest) in *.
  assert ((p_limit p <? Z.of_nat (length rest)) = (Z.to_nat (p_limit p) <? length rest)%nat \/ last page = None) as Hmore.
  { destruct (Z.ltb_spec (p_limit p) (Z.of_nat (length rest))), (Nat.ltb_spec (Z.to_nat (p_limit p)) (length rest)); auto; try lia.
    right. unfold page. by replace (Z.to_nat (p_limit p)) with O by lia. }
  destruct (last page) as [r|] eqn:Hlast; cbn [next_cursor]; last first.
  { apply wp_ret. split; [done|]. by intros res [= <-]. }
  destruct Hmore as [-> |?]; [|done].
  destruct (_ <? _)%nat eqn:Hlt; last first.
  { apply wp_ret. split; [done|]. by intros res [= <-]. }
  apply wp_bind. eapply wp_mono.
  { apply (IH _ (Some (cutoff r))); [by rewrite (db_same_tables _ _ H1)|]. rewrite (db_same_tables _ _ H1). constructor.
    assert (r ∈ page) as Hr by (apply last_Some in Hlast as [l ->]; set_solver).
    apply elem_of_take in Hr as (i & Hi & _). apply list_elem_of_lookup_2 in Hi. unfold rest, rest_of, listing in Hi.
    rewrite list_elem_of_filter, newest_first_perm, list_elem_of_filter in Hi. apply Hi. }
  intros [res|e|] w2 [H2 Hres]; cbn [after]; [|split; [by etrans|done]..].
  specialize (Hres res eq_refl). rewrite (db_same_tables _ _ H1) in Hres.
  destruct (walk _ _ _ n _ _) as [rows done]. subst res. apply wp_ret. split; [by etrans|].
  intros res [= <-]. by rewrite map_app.
Qed.
End Wp.

(** C27: following [next_cursor] from page to page comes to an end and lists the
    deliveries of the filters, newest first. When nothing changes meanwhile,
    at most as many requests as there are deliveries, and one more, reach a
    null cursor; the pages put together hold no delivery twice, are in the
    order of the listing, and hold every delivery but those whose
    [updated_at] lies in the same millisecond as that of a row listed before
    them. *)
Theorem pages_walk {RS BS : Type} `{!RedisServer RS} `{!RedisLaws RS} `{!BullMQ BS}
    (q : list_query) (p : list_params) (fuel : nat) (w w' : world RS BS) (data : list json) (done : bool) :
  parse (with_cursor q Absent) = Some p -> date_ok (p_from p) -> date_ok (p_to p) -> printable_rows (tables_of w) ->
  let L := listing (tables_of w) (list_filters p) in
  (length L < fuel)%nat ->
  exec env (fetch_all fuel q Absent) w (Returned (data, done)) w' ->
  db_same w w' /\ done = true /\
  exists rows, data = map list_row_json rows /\ rows `sublist_of` L /\
    forall x, x ∈ L -> x ∈ rows \/
      exists r, r ∈ rows /\ key_lt (row_key x) (row_key r) /\ ms_of_ts (lr_updated_at x) = ms_of_ts (lr_updated_at r).
Proof.
  intros Hq Hf Ht Hrows L Hfuel Hx.
  pose proof (wp_fetch_all fuel q Absent None p w Hq Hf Ht Hrows (at_start _)) as H. rewrite wp_exec in H.
  destruct (H _ _ Hx) as [Hs Ho]. specialize (Ho _ eq_refl). split; [done|]. fold L in Ho.
  assert (rest_of row_key L None = L) as HL by (apply filter_all; by apply Forall_true).
  pose proof (walk_spec row_key cutoff cutoff_not_after (Z.to_nat (p_limit p)) fuel L None) as Hw. rewrite HL in Hw.
  destruct (walk _ _ _ fuel L None) as [rows b]. injection Ho as -> ->.
  destruct Hw as (-> & Hsub & Hmiss); [pose proof (parse_limit _ _ Hq); lia|apply listing_descending|done|].
  split; [done|]. exists rows. split; [done|]. split; [done|]. intros x Hin.
  destruct (Hmiss x Hin) as [?|?]; [by left|]. right. by apply jumped_same_ms.
Qed.
End Client.

(** ** Witnesses *)

Definition plain_Date (s : string) : jsnum := match parse_iso s with Some ms => Num ms | None => NaN end.
Definition plain_Number (s : string) : jsnum := match read_Z s with Some z => Num z | None => NaN end.

Definition status_query (limit : string) : list_query := {|
  q_status := One "pending, delivered"; q_endpoint_id := Absent; q_from := Absent; q_to := Absent;
  q_limit := One limit; q_cursor := Absent |}.

(** Deliveries of one event with the given times, in microseconds. *)
Definition timed (st : status) (ts : Z) : delivery_row := {|
  d_event_id := "v1"; d_endpoint_id := "e1"; d_status := st; d_attempt_count := 0;
  d_next_attempt_at := None; d_enqueued := true; d_created_at := 0; d_updated_at := ts |}.

Definition timed_tables (ds : list (string * delivery_row)) : tables := {|
  endpoints := endpoints (demo_tables PENDING [] None); events := events (demo_tables PENDING [] None);
  deliveries := list_to_map ds; delivery_attempts := []; delivery_transitions := [] |}.

Definition five_deliveries : tables := timed_tables
  [("d1", timed PENDING 9000); ("d2", timed DELIVERED 7000); ("d3", timed FAILED 8000);
   ("d4", timed PENDING 3000); ("d5", timed PENDING 3000)].

Abbreviation demo_fetch := (fetch_all demo_platform plain_Date plain_Number (fun _ => true) (fun _ => JNull)).

Lemma timed_printable ds :
  Forall (fun '(id, d) => four_digit_years (ms_of_ts (d_updated_at d) / 86400000) /\ utf8_valid id = true) ds ->
  printable_rows (timed_tables ds).
Proof.
  intros H id d Hd. cbn in Hd. apply elem_of_list_to_map_2 in Hd. rewrite Forall_forall in H. by apply (H (id, d)).
Qed.

Lemma pages_walk_witness :
  let w := demo_world 1000 five_deliveries ∅ ∅ in
  let r := run_with (serve reliable) (demo_fetch 5 (status_query "2") Absent) w in
  exists rows, r.1 = Returned (map list_row_json rows, true) /\ length rows = 4%nat.
Proof.
  intros w r. destruct r.1 as [[data done]| |] eqn:Ho; [|vm_compute in Ho; discriminate Ho..].
  pose proof (serve_exec reliable (demo_fetch 5 (status_query "2") Absent) w) as Hx. fold r in Hx. rewrite Ho in Hx.
  destruct (parse_list_query plain_Date plain_Number (fun _ => true) (with_cursor (status_query "2") Absent)) as [p|] eqn:Hp;
    [|vm_compute in Hp; discriminate Hp].
  assert (length (listing (tables_of w) (list_filters p)) < 5)%nat as Hlen.
  { vm_compute in Hp. injection Hp as <-. vm_compute. lia. }
  destruct (pages_walk demo_platform plain_Date plain_Number (fun _ => true) (fun _ => JNull)
    (status_query "2") p 5 w r.2 data done Hp) as (_ & -> & rows & Hd & Hsub & Hall); [|..].
  - vm_compute in Hp. by injection Hp as <-.
  - vm_compute in Hp. by injection Hp as <-.
  - apply timed_printable. repeat constructor; vm_compute; by intros.
  - exact Hlen.
  - exact Hx.
  - exists rows. split; [by rewrite Hd|].
    rewrite <- (length_map list_row_json), <- Hd.
    assert (length (match r.1 with Returned (d, _) => d | _ => [] end) = 4%nat) as Hl by (vm_compute; reflexivity).
    by rewrite Ho in Hl.
Defined.

(** Two deliveries touched within one millisecond, on pages of one: the second
    is on no page. *)
Example page_skips :
  let w := demo_world 1000 (timed_tables [("d1", timed PENDING 5400); ("d2", timed PENDING 5000)]) ∅ ∅ in
  exists d1, (run_with (serve reliable) (demo_fetch 5 (status_query "1") Absent) w).1 = Returned ([d1], true) /\
    length (listing (tables_of w) {| f_statuses := Some ["PENDING"]; f_endpointId := None; f_from := None; f_to := None |}) = 2%nat.
Proof. eexists. split; vm_compute; reflexivity. Qed.
