(* ===== verification/ReadSpec.v ===== *)
(** * What the read API answers

    The listings and the detail view of ReadApi.v on every branch: what a
    reply shows of the tables, and what each error means. None of them changes
    anything. *)

From S2P Require Import Prelude Async Config Json Parse Dates Tables Queries Schema Redis Services Concrete Repo Frames.
From S2P Require Import Signature Cursor Listing Api AuditTrail ReadApi Pagination.
From Stdlib Require Import ZArith Lia String Ascii.
From stdpp Require Import prelude strings gmap sorting.

Open Scope Z_scope.
Open Scope async_scope.

(** ** The story a detail view tells *)

(** The transitions lead by permitted moves from one status to another. *)
Fixpoint story (from : option status) (trs : list TransitionDetail) (to : option status) : Prop :=
  match trs with
  | [] => from = to
  | x :: trs => td_from_status x = from /\ permitted from (td_to_status x) (td_reason x) (td_actor x) = true /\
      story (Some (td_to_status x)) trs to
  end.

Lemma path_story from trs to : path from trs to -> story from (map transition_detail trs) to.
Proof. revert from. induction trs as [|r trs IH]; intros from; cbn; [done|]. intros (-> & Hl & Hp). auto. Qed.

Lemma StronglySorted_map {A B} (f : A -> B) (R : A -> A -> Prop) (S : B -> B -> Prop) l :
  (forall x y, R x y -> S (f x) (f y)) -> StronglySorted R l -> StronglySorted S (map f l).
Proof.
  intros H. induction 1 as [|x l Hl IH Hx]; cbn; constructor; [done|]. apply Forall_map.
  eapply Forall_impl; [exact Hx|]. cbn. auto.
Qed.

Lemma seqZ_sorted m n : StronglySorted Z.le (seqZ m n).
Proof.
  unfold seqZ. apply (StronglySorted_map _ lt); [lia|]. generalize O as k. induction (Z.to_nat n) as [|i IH]; intros k; cbn; constructor; [done|].
  apply Forall_forall. intros x Hx%elem_of_seq. lia.
Qed.

(** The numbers of the attempts, in the order they are shown. *)
Lemma attempt_details_numbers T id n :
  map a_attempt_number (attempts_of T id) = seqZ 1 n -> map ad_attempt_number (attempt_details T id) = seqZ 1 n.
Proof.
  intros H. apply (StronglySorted_unique Z.le).
  - apply (StronglySorted_map _ by_number); [done|]. apply (StronglySorted_merge_sort by_number).
  - apply seqZ_sorted.
  - rewrite <- H. unfold attempt_details, attempts_of. rewrite merge_sort_Permutation. change map with (@fmap list _). rewrite <- list_fmap_compose. done.
Qed.

(** A delivery that is there is shown, and its view tells its whole story. *)
Lemma audit_detail T id :
  audit T -> match detail_of T id with
  | None => deliveries T !! id = None
  | Some v => exists d, deliveries T !! id = Some d /\
      de_status (dd_row v) = d_status d /\ de_attempt_count (dd_row v) = d_attempt_count d /\
      map ad_attempt_number (dd_attempts v) = seqZ 1 (d_attempt_count d) /\
      story None (dd_transitions v) (Some (d_status d))
  end.
Proof.
  intros [Hh _ _ Hr _ _ _]. unfold detail_of, find_detail. destruct (deliveries T !! id) as [d|] eqn:Hd; [|done].
  destruct (Hr _ _ Hd) as [[ev Hev] [e He]]. cbn. rewrite Hev. cbn. rewrite He. cbn. exists d.
  destruct (Hh _ _ Hd) as [_ Hn Hp _ _]. repeat split; [by apply attempt_details_numbers|by apply path_story].
Qed.

(** A reply of the detail view [r] shows the delivery [id] and its story. *)
Definition tells (T : tables) (id : string) (r : reply) : Prop :=
  exists d v, deliveries T !! id = Some d /\ detail_of T id = Some v /\
    r = {| rp_code := 200; rp_headers := []; rp_body := detail_json v |} /\
    de_status (dd_row v) = d_status d /\ de_attempt_count (dd_row v) = d_attempt_count d /\
    map ad_attempt_number (dd_attempts v) = seqZ 1 (d_attempt_count d) /\
    story None (dd_transitions v) (Some (d_status d)).

(** On any tables, a reply shows the delivery as its row and the rows of the
    logs are. *)
Definition shows (T : tables) (id : string) (r : reply) : Prop :=
  exists d v, deliveries T !! id = Some d /\ detail_of T id = Some v /\
    r = {| rp_code := 200; rp_headers := []; rp_body := detail_json v |} /\
    de_status (dd_row v) = d_status d /\ de_attempt_count (dd_row v) = d_attempt_count d.

Lemma detail_shown T id v : detail_of T id = Some v -> exists d, deliveries T !! id = Some d /\
  de_status (dd_row v) = d_status d /\ de_attempt_count (dd_row v) = d_attempt_count d.
Proof.
  unfold detail_of, find_detail. destruct (deliveries T !! id) as [d|]; [|done]. cbn.
  destruct (events T !! d_event_id d); [|done]. cbn. destruct (endpoints T !! d_endpoint_id d); [|done]. cbn.
  intros [= <-]. by exists d.
Qed.

Lemma wp_getDelivery_shown {RS BS : Type} `{!RedisServer RS} `{!RedisLaws RS} `{!BullMQ BS} (id : string) (w : world RS BS) :
  wp env (getDelivery id) (fun o w' => db_same w w' /\
    match o with
    | Returned r => shows (tables_of w) id r
    | Threw e => foreign e \/
        (e = Errors.deliveryNotFound id /\ (is_delivery_id id = false \/ detail_of (tables_of w) id = None))
    | Exited => False
    end) w.
Proof.
  unfold getDelivery. destruct (is_delivery_id id).
  2:{ apply wp_throw. split; [done|]. right. auto. }
  apply wp_bind. eapply wp_mono; [apply wp_getDetail|].
  intros [r|e|] w1 [H1 Ho]; cbn [after]; [subst r|by split; [|left]|done].
  destruct (detail_of (tables_of w) id) as [v|] eqn:Hv.
  - apply wp_ret. split; [done|]. destruct (detail_shown _ _ _ Hv) as (d & Hd & H). by exists d, v.
  - apply wp_throw. split; [done|]. right. auto.
Qed.

Lemma wp_getDelivery {RS BS : Type} `{!RedisServer RS} `{!RedisLaws RS} `{!BullMQ BS} (id : string) (w : world RS BS) :
  audit (tables_of w) ->
  wp env (getDelivery id) (fun o w' => db_same w w' /\
    match o with
    | Returned r => tells (tables_of w) id r
    | Threw e => foreign e \/
        (e = Errors.deliveryNotFound id /\ (is_delivery_id id = false \/ deliveries (tables_of w) !! id = None))
    | Exited => False
    end) w.
Proof.
  intros Ha. pose proof (audit_detail _ id Ha) as Hd. eapply wp_mono; [apply wp_getDelivery_shown|].
  intros [r|e|] w1 [H1 Ho]; (split; [done|]); [|destruct Ho as [?|(-> & [?|Hn])]; [by left|right; auto|]|done].
  - destruct Ho as (d & v & Hrow & Hv & -> & H2). rewrite Hv in Hd. destruct Hd as (d' & Hd & H). by exists d', v.
  - right. split; [done|]. right. by rewrite Hn in Hd.
Qed.

(** C28: GET /v1/deliveries/:id shows a delivery and its whole story. On the
    tables the engine keeps (those of [audit_reachable]), a 200 has the row of
    that id with its attempts numbered from 1 to its attempt count and its
    transitions in order, a path of permitted moves that ends in its status; the
    error is DELIVERY_NOT_FOUND for a text that is no id, without any query,
    and for an id that is not there, else one of the services'. Nothing is
    written. *)
Theorem getDelivery_spec {RS BS : Type} `{!RedisServer RS} `{!RedisLaws RS} `{!BullMQ BS}
    (id : string) (w w' : world RS BS) (o : outcome exn reply) :
  audit (tables_of w) -> exec env (getDelivery id) w o w' ->
  db_same w w' /\
  match o with
  | Returned r => exists d v, deliveries (tables_of w) !! id = Some d /\ detail_of (tables_of w) id = Some v /\
      r = {| rp_code := 200; rp_headers := []; rp_body := detail_json v |} /\
      de_status (dd_row v) = d_status d /\ de_attempt_count (dd_row v) = d_attempt_count d /\
      map ad_attempt_number (dd_attempts v) = seqZ 1 (d_attempt_count d) /\
      story None (dd_transitions v) (Some (d_status d))
  | Threw e => foreign e \/
      (e = Errors.deliveryNotFound id /\ (is_delivery_id id = false \/ deliveries (tables_of w) !! id = None))
  | Exited => False
  end.
Proof. intros Ha. revert o w'. apply wp_exec. by apply wp_getDelivery. Qed.

(** ** The listings *)

Section Listings.
Context (pf : platform) (new_Date Number : string -> jsnum) (is_uuid : string -> bool) (query_issues : list_query -> json).

(** The errors of the listing of deliveries, each with its cause. *)
Definition list_refused (q : list_query) (e : exn) : Prop :=
  match parse_list_query new_Date Number is_uuid q with
  | None => e = AppError 400 "VALIDATION_ERROR" "Invalid query parameters" (JObj [("issues", query_issues q)])
  | Some p => cursor_param pf (p_cursor p) = inl e /\ exists m d, e = INVALID_CURSOR m d
  end.

Lemma cursor_param_error v e : cursor_param pf v = inl e -> exists m d, e = INVALID_CURSOR m d.
Proof.
  unfold cursor_param. destruct v as [[|c s]|]; try done. destruct (decodeCursor pf (String c s)) eqn:E; [|done].
  intros [= <-]. by apply decodeCursor_error in E.
Qed.

Lemma limit_param_range (num : string -> jsnum) v n : limit_param num v = Some n -> 1 <= n <= 200.
Proof.
  unfold limit_param. destruct v as [|s|]; [by intros [= <-]| |done]. destruct (num s) as [|z]; [done|].
  destruct (Z.leb_spec 1 z), (Z.leb_spec z 200); cbn; try done. intros [= <-]. lia.
Qed.

Lemma dlq_rows_status t r : r ∈ dlq_rows t -> lr_status (dlq_row r) = DLQ.
Proof.
  unfold dlq_rows. rewrite list_elem_of_omap. intros (x & _ & H). case_bool_decide as Hs; [|done].
  destruct (entered_dlq t (lr_id x)); [|done]. by injection H as <-.
Qed.

(** GET /v1/deliveries answers one page of the listing. A reply has the
    first [limit] deliveries, between 1 and 200, of those the filters select
    that lie beyond the cursor, newest first, and a cursor to the last of them
    just when there are more. A query that does not parse is a
    VALIDATION_ERROR and a cursor that does not decode an INVALID_CURSOR; any
    other error is one of the services' or an invalid date. Nothing is
    written. *)
Theorem getDeliveries_spec {RS BS : Type} `{!RedisServer RS} `{!RedisLaws RS} `{!BullMQ BS}
    (q : list_query) (w w' : world RS BS) (o : outcome exn reply) :
  (forall p, parse_list_query new_Date Number is_uuid q = Some p -> date_ok (p_from p) /\ date_ok (p_to p)) ->
  exec env (getDeliveries pf new_Date Number is_uuid query_issues q) w o w' ->
  db_same w w' /\
  match o with
  | Returned r => exists p cursor read, parse_list_query new_Date Number is_uuid q = Some p /\ 1 <= p_limit p <= 200 /\
      cursor_param pf (p_cursor p) = inr cursor /\ reads_iso read /\
      let rest := remaining read (tables_of w) (list_filters p) cursor in
      let page := take (Z.to_nat (p_limit p)) rest in
      r = page_reply (map list_row_json page) (next_cursor (last page) (p_limit p <? Z.of_nat (length rest)))
  | Threw e => foreign e \/ list_refused q e
  | Exited => False
  end.
Proof.
  intros Hok. revert o w'. apply wp_exec. unfold getDeliveries, list_refused.
  destruct (parse_list_query new_Date Number is_uuid q) as [p|] eqn:Hp; [|apply wp_throw; split; [done|by right]].
  destruct (cursor_param pf (p_cursor p)) as [e|cursor] eqn:Hc.
  { apply wp_throw. split; [done|]. right. split; [done|]. by eapply cursor_param_error. }
  destruct (Hok p eq_refl) as [Hf Ht]. pose proof (parse_limit new_Date Number is_uuid _ _ Hp) as Hl.
  apply wp_bind. eapply wp_mono; [apply wp_list_deliveries; [lia|done..]|].
  intros [[rows more]|e|] w1 [H1 Ho]; cbn [after]; [|by split; [|left]|done].
  destruct Ho as (read & Hread & -> & ->). apply wp_ret. split; [done|]. exists p, cursor, read. done.
Qed.

(** GET /v1/dlq answers one page of the deliveries in the DLQ, with the
    time of their last move there, in the order of the listing; its limit is
    not defaulted but refused outside 1 to 200. Errors and cursors are as for
    the listing of deliveries. *)
Theorem getDlq_spec {RS BS : Type} `{!RedisServer RS} `{!RedisLaws RS} `{!BullMQ BS}
    (q : list_query) (w w' : world RS BS) (o : outcome exn reply) :
  exec env (getDlq pf new_Date Number query_issues q) w o w' ->
  db_same w w' /\
  match o with
  | Returned r => exists limit c cursor, optional_string (q_cursor q) = Some c /\ limit_param Number (q_limit q) = Some limit /\
      1 <= limit <= 200 /\ cursor_param pf c = inr cursor /\
      let rest := dlq_remaining (tables_of w) ((fun c => (new_Date (c_updatedAt c), c_id c)) <$> cursor) in
      let page := take (Z.to_nat limit) rest in
      Forall (fun r => lr_status (dlq_row r) = DLQ) page /\
      r = page_reply (map dlq_row_json page) (next_cursor (dlq_row <$> last page) (limit <? Z.of_nat (length rest)))
  | Threw e => foreign e \/ e = Errors.validationError (query_issues q) \/ exists m d, e = INVALID_CURSOR m d
  | Exited => False
  end.
Proof.
  revert o w'. apply wp_exec. unfold getDlq.
  destruct (optional_string (q_cursor q)) as [c|] eqn:Hc; cbn [mbind option_bind]; [|apply wp_throw; split; [done|by right; left]].
  destruct (limit_param Number (q_limit q)) as [limit|] eqn:Hl; cbn [mbind option_bind]; [|apply wp_throw; split; [done|by right; left]].
  destruct (cursor_param pf c) as [e|cursor] eqn:Hcur.
  { apply wp_throw. split; [done|]. right; right. by eapply cursor_param_error. }
  pose proof (limit_param_range _ _ _ Hl) as Hr. apply wp_bind. eapply wp_mono; [apply wp_listDlq; lia|].
  intros [[rows more]|e|] w1 [H1 Ho]; cbn [after]; [|by split; [|left]|done].
  destruct Ho as [-> ->]. apply wp_ret. split; [done|]. exists limit, c, cursor. do 4 (split; [done|]). cbv zeta. split; [|done].
  apply Forall_take, Forall_forall. intros r Hin. unfold dlq_remaining in Hin.
  rewrite newest_first_perm, list_elem_of_filter in Hin. by apply dlq_rows_status with (tables_of w), Hin.
Qed.
End Listings.

(** ** Witnesses *)

Lemma demo_audit : audit (tables_of attempted_run.2).
Proof. exact (proj1 (sys_steps_audit default_config toy_hmac _ _ ingested_steps (blank_audit _ blank_world_blank))). Qed.

Lemma getDelivery_spec_witness :
  exists r d, (run_with (serve reliable) (getDelivery first_id) attempted_run.2).1 = Returned r /\
    deliveries (tables_of attempted_run.2) !! first_id = Some d /\ d_status d = FAILED.
Proof.
  pose proof (serve_exec reliable (getDelivery first_id) attempted_run.2) as Hx.
  destruct (getDelivery_spec first_id attempted_run.2 _ _ demo_audit Hx) as [_ Ho].
  destruct (run_with (serve reliable) (getDelivery first_id) attempted_run.2).1 as [r|e|] eqn:E;
    [|vm_compute in E; discriminate E..].
  destruct Ho as (d & v & Hd & _). exists r, d. split; [reflexivity|]. split; [exact Hd|].
  assert ((d_status <$> deliveries (tables_of attempted_run.2) !! first_id) = Some FAILED) as Hs by (vm_compute; reflexivity).
  rewrite Hd in Hs. injection Hs as Hs. exact Hs.
Defined.

Definition demo_list : io reply :=
  getDeliveries demo_platform plain_Date plain_Number (fun _ => true) (fun _ => JNull) (status_query "2").

Lemma getDeliveries_spec_witness :
  let w := demo_world 1000 five_deliveries ∅ ∅ in
  exists r rows next, (run_with (serve reliable) demo_list w).1 = Returned r /\
    r = page_reply (map list_row_json rows) next /\ (length rows <= 200)%nat.
Proof.
  intros w. pose proof (serve_exec reliable demo_list w) as Hx.
  destruct (getDeliveries_spec demo_platform plain_Date plain_Number (fun _ => true) (fun _ => JNull) (status_query "2")
    w _ _ ltac:(intros x H; vm_compute in H; injection H as <-; done) Hx) as [_ Ho].
  destruct (run_with (serve reliable) demo_list w).1 as [r|e|] eqn:E; [|vm_compute in E; discriminate E..].
  destruct Ho as (p & cursor & read & _ & Hl & _ & _ & Hr). eexists r, _, _. split; [reflexivity|]. split; [exact Hr|].
  rewrite length_take. lia.
Defined.

Definition dlq_query : list_query := {|
  q_status := Absent; q_endpoint_id := Absent; q_from := Absent; q_to := Absent; q_limit := One "1"; q_cursor := Absent |}.

Definition demo_dlq : io reply := getDlq demo_platform plain_Date plain_Number (fun _ => JNull) dlq_query.

Lemma getDlq_spec_witness :
  let w := demo_world 1000 (demo_tables DLQ [demo_attempt 1] None) ∅ ∅ in
  exists r rows next, (run_with (serve reliable) demo_dlq w).1 = Returned r /\
    r = page_reply (map dlq_row_json rows) next /\ Forall (fun x => lr_status (dlq_row x) = DLQ) rows.
Proof.
  intros w. pose proof (serve_exec reliable demo_dlq w) as Hx.
  destruct (getDlq_spec demo_platform plain_Date plain_Number (fun _ => JNull) dlq_query w _ _ Hx) as [_ Ho].
  destruct (run_with (serve reliable) demo_dlq w).1 as [r|e|] eqn:E; [|vm_compute in E; discriminate E..].
  destruct Ho as (limit & c & cursor & _ & _ & _ & _ & Hf & Hr). eexists r, _, _. split; [reflexivity|]. split; [exact Hr|exact Hf].
Defined.
