(* ===== verification/Monitor.v ===== *)
(** * Statistics and health

    GET /v1/stats (src/src/api/routes/stats.ts) and the health checks of
    src/src/api/app.ts. What a memo answers at once is an argument, as in
    Api.v. *)

From S2P Require Import Prelude Async Config Json Parse Dates Tables Queries Schema Redis Services Concrete Repo Frames.
From S2P Require Import Listing Api.
From Stdlib Require Import ZArith Lia String.
From stdpp Require Import prelude strings gmap.

Open Scope Z_scope.
Open Scope async_scope.

(** ** stats.ts *)

(** [obj[k] = v]: a key that is there keeps its place. *)
Fixpoint obj_set {V} (k : string) (v : V) (fs : list (string * V)) : list (string * V) :=
  match fs with
  | [] => [(k, v)]
  | (k', v') :: fs => if String.eqb k k' then (k, v) :: fs else (k', v') :: obj_set k v fs
  end.

Definition obj_get {V} (k : string) (fs : list (string * V)) : option V :=
  snd <$> find (fun x => String.eqb k x.1) fs.

Record DbStats := { counts : list (string * Z); oldest_pending_age : option Z }.

Definition no_counts : list (string * Z) :=
  [("PENDING", 0); ("DELIVERING", 0); ("DELIVERED", 0); ("FAILED", 0); ("DLQ", 0)].

Definition count_rows (rows : list (status * Z)) : list (string * Z) :=
  foldl (fun acc row => obj_set (status_text row.1) row.2 acc) no_counts rows.

(** The age is kept in microseconds. *)
Definition getDbStats (hit : option DbStats) : io DbStats :=
  match hit with
  | Some st => Ret st
  | None =>
      let* results := promise_all (pool_query (Select SelectStatusCounts))
                                  (pool_query (Select (SelectOldest PENDING))) in
      let '(countsResult, ageResult) := (results : list (status * Z) * list (option Z)) in
      Ret {| counts := count_rows countsResult;
             oldest_pending_age := match ageResult with age :: _ => age | [] => None end |}
  end.

Record QueueDepths := { webhook_delivery_counts : gmap string Z; webhook_dlq_counts : gmap string Z }.

Definition delivery_types : list string := ["wait"; "active"; "delayed"; "failed"].
Definition dlq_types : list string := ["wait"; "active"].

Definition getQueueStats (hit : option QueueDepths) : io QueueDepths :=
  match hit with
  | Some q => Ret q
  | None =>
      let* results := promise_all (await (JobCounts webhook_delivery delivery_types))
                                  (await (JobCounts webhook_dlq dlq_types)) in
      let '(delivery, dlq) := (results : gmap string Z * gmap string Z) in
      Ret {| webhook_delivery_counts := delivery; webhook_dlq_counts := dlq |}
  end.

(** The object of the counts asked for. *)
Definition counts_json (types : list string) (m : gmap string Z) : json :=
  JObj (omap (fun ty => (fun n => (ty, num_json n)) <$> m !! ty) types).

Section Stats.
(** How JavaScript prints a number of microseconds as seconds. *)
Context (seconds_text : Z -> string) (cfg : Config).

Definition stats_reply (db : DbStats) (queues : QueueDepths) : reply := {|
  rp_code := 200; rp_headers := [];
  rp_body := JObj
    [("deliveries", JObj (map (fun x => (x.1, num_json x.2)) (counts db)));
     ("queues", JObj [("webhook-delivery", counts_json delivery_types (webhook_delivery_counts queues));
                      ("webhook-dlq", counts_json dlq_types (webhook_dlq_counts queues))]);
     ("oldest_pending_age_s", opt_json (fun us => JNum (seconds_text us)) (oldest_pending_age db));
     ("backpressure_active", JBool (overloaded cfg (webhook_delivery_counts queues)))] |}.

Definition getStats (db_hit : option DbStats) (queue_hit : option QueueDepths) : io reply :=
  let* results := promise_all (getDbStats db_hit) (getQueueStats queue_hit) in
  let '(db, queues) := (results : DbStats * QueueDepths) in
  Ret (stats_reply db queues).
End Stats.

(** ** app.ts: health *)

Definition healthz : io reply :=
  Ret {| rp_code := 200; rp_headers := []; rp_body := JObj [("ok", JBool true)] |}.

Definition health_text (ok : bool) : json := JStr (if ok then "ok" else "error").

Definition readyz_reply (postgres redis : bool) : reply := {|
  rp_code := if postgres && redis then 200 else 503; rp_headers := [];
  rp_body := JObj [("postgres", health_text postgres); ("redis", health_text redis)] |}.

Definition readyz : io reply :=
  let* postgres := try_catch (pool_query (Select SelectOne) ;;; Ret true) (fun _ => Ret false) in
  let* redis := try_catch (await (Redis PING) ;;; Ret true) (fun _ => Ret false) in
  Ret (readyz_reply postgres redis).

(** ** What the counts are *)

Definition statuses : list status := [PENDING; DELIVERING; DELIVERED; FAILED; DLQ].

Lemma status_text_inj a b : status_text a = status_text b -> a = b.
Proof. destruct a, b; done. Qed.

(** The last count of a status, or what it was before. *)
Lemma obj_set_texts (f : status -> Z) st n l :
  NoDup l -> st ∈ l ->
  obj_set (status_text st) n (map (fun s => (status_text s, f s)) l) =
  map (fun s => (status_text s, if decide (s = st) then n else f s)) l.
Proof.
  induction 1 as [|s l Hs Hl IH]; intros Hin; [by apply elem_of_nil in Hin|]. cbn [map obj_set].
  destruct (String.eqb_spec (status_text st) (status_text s)) as [E|E].
  - apply status_text_inj in E as <-. rewrite decide_True by done. f_equal. apply map_ext_in.
    intros s' Hs'%list_elem_of_In. by rewrite decide_False by (intros ->; exact (Hs Hs')).
  - assert (s <> st) by (by intros ->). rewrite decide_False by done. f_equal. apply IH.
    apply elem_of_cons in Hin as [->|]; done.
Qed.

Lemma statuses_nodup : NoDup statuses.
Proof. by apply (bool_decide_eq_true_1 _). Qed.

Lemma statuses_all st : st ∈ statuses.
Proof. unfold statuses. destruct st; set_solver. Qed.

(** What a run of rows makes of the counts. *)
Definition latest (f : status -> Z) (rows : list (status * Z)) (s : status) : Z :=
  foldl (fun acc row => if decide (s = row.1) then row.2 else acc) (f s) rows.

Lemma count_rows_latest rows f :
  foldl (fun acc row => obj_set (status_text row.1) row.2 acc) (map (fun s => (status_text s, f s)) statuses) rows =
  map (fun s => (status_text s, latest f rows s)) statuses.
Proof.
  revert f. induction rows as [|[st n] rows IH]; intros f; [done|]. cbn [foldl fst snd].
  rewrite obj_set_texts by (apply statuses_nodup || apply statuses_all). rewrite IH. apply map_ext. intros s.
  unfold latest. cbn [foldl fst snd]. by destruct (decide (s = st)).
Qed.

Lemma latest_absent f rows s : s ∉ rows.*1 -> latest f rows s = f s.
Proof.
  revert f. induction rows as [|[st n] rows IH]; intros f H; [done|]. cbn in H. rewrite not_elem_of_cons in H.
  unfold latest. cbn. rewrite decide_False by apply H. apply IH, H.
Qed.

Lemma latest_present f rows s n : NoDup rows.*1 -> (s, n) ∈ rows -> latest f rows s = n.
Proof.
  revert f. induction rows as [|[st m] rows IH]; intros f Hn Hin; [by apply elem_of_nil in Hin|].
  cbn in Hn. apply NoDup_cons in Hn as [Hst Hn]. unfold latest. cbn [foldl fst snd].
  apply elem_of_cons in Hin as [[= -> ->]|Hin].
  - rewrite decide_True by done. change (latest (fun _ => m) rows st = m). by apply latest_absent.
  - destruct (decide (s = st)); [change (latest (fun _ => m) rows s = n)|change (latest f rows s = n)]; by apply IH.
Qed.

(** The answer of the grouped count fills the record exactly. *)
Lemma count_rows_exact t rows :
  NoDup rows.*1 -> (forall st n, (st, n) ∈ rows <-> n = count_status t st /\ 0 < n) ->
  count_rows rows = map (fun s => (status_text s, count_status t s)) statuses.
Proof.
  intros Hn Hr. unfold count_rows. change no_counts with (map (fun s => (status_text s, (fun _ => 0) s)) statuses).
  rewrite count_rows_latest. apply map_ext. intros s. f_equal.
  destruct (decide (0 < count_status t s)) as [Hc|Hc].
  - apply latest_present; [done|]. by apply Hr.
  - rewrite latest_absent; [unfold count_status in *; lia|]. intros [[s' n] [-> H]]%list_elem_of_fmap. apply Hr in H. cbn in *. lia.
Qed.

(** Every delivery has one of the five statuses. *)
Lemma counts_total t : foldr Z.add 0 (map (count_status t) statuses) = Z.of_nat (size (deliveries t)).
Proof.
  rewrite <- length_map_to_list. unfold count_status, with_status. generalize (map_to_list (deliveries t)) as l.
  induction l as [|[id d] l IH]; [done|]. cbn [map statuses foldr] in *. rewrite !filter_cons. cbn [snd].
  destruct (d_status d) eqn:E; repeat case_decide; try done; cbn [length]; lia.
Qed.

(** ** Runs *)

Section Runs.
Context {RS BS : Type} `{!RedisServer RS} `{!RedisLaws RS} `{!BullMQ BS}.
Abbreviation world := (world RS BS).

(** The statistics of the tables, at some moment from [t0] on. *)
Definition db_stats_of (T : tables) (t0 : Z) (db : DbStats) : Prop :=
  counts db = map (fun s => (status_text s, count_status T s)) statuses /\
  exists now, t0 <= now /\ oldest_pending_age db = (fun m => now - m) <$> min_created (with_status T PENDING).

Lemma wp_getDbStats (w : world) :
  wp env (getDbStats None) (fun o w1 => db_same w w1 /\
    match o with Returned db => db_stats_of (tables_of w) (s_now w.1) db | Threw e => foreign e | Exited => False end) w.
Proof.
  unfold getDbStats. apply wp_bind, wp_promise_all, wp_select.
  - intros rows w1 H1 [Hn Hrows] _. apply wp_select.
    + intros ages w2 H2 Hage _. apply wp_ret. split; [by etrans|]. split; [by apply count_rows_exact|].
      cbn in Hage. rewrite (db_same_tables _ _ H1) in Hage. subst ages. exists (s_now w2.1). split; [|done].
      destruct H1 as (_ & _ & _ & _ & H1), H2 as (_ & _ & _ & _ & H2). lia.
    + intros e w2 H2 He. split; [by etrans|done].
  - intros e w1 H1 He. apply wp_select; intros x w2 H2 **; (split; [by etrans|done]).
Qed.

(** A count of jobs by itself. *)
Definition counted (w : world) (q : queue) (types : list string) (m : gmap string Z) : Prop :=
  forall ty, ty ∈ types -> m !! ty = Some (count_jobs (bq_jobs (s_bull w.1) q) ty).

Lemma wp_job_counts q types Q (w : world) :
  (forall m w1, db_same w w1 -> s_bull w1.1 = s_bull w.1 -> counted w q types m -> Q (Returned m) w1) ->
  (forall e w1, db_same w w1 -> s_bull w1.1 = s_bull w.1 -> foreign e -> Q (Threw e) w1) ->
  wp env (await (JobCounts q types)) Q w.
Proof.
  intros HR HT. apply wp_perform. intros r w1 He.
  assert (db_same w w1) as Hs by (by eapply quiet_db_same; [|exact He]).
  pose proof (env_foreign w (JobCounts q types)) as Hf. destruct He as (s1 & (n & Hn & ->) & H).
  destruct w as [s l], r as [e|m]; cbn in *.
  - destruct H as (_ & Hfe & ->). by apply HT.
  - destruct H as [-> H]. by apply HR.
Qed.

Definition queue_stats_of (w : world) (q : QueueDepths) : Prop :=
  counted w webhook_delivery delivery_types (webhook_delivery_counts q) /\
  counted w webhook_dlq dlq_types (webhook_dlq_counts q).

Lemma counted_bull (w w' : world) q types m : s_bull w'.1 = s_bull w.1 -> counted w' q types m -> counted w q types m.
Proof. intros H Hc ty Hin. rewrite <- H. by apply Hc. Qed.

Lemma wp_getQueueStats (w : world) :
  wp env (getQueueStats None) (fun o w1 => db_same w w1 /\
    match o with Returned q => queue_stats_of w q | Threw e => foreign e | Exited => False end) w.
Proof.
  unfold getQueueStats. apply wp_bind, wp_promise_all, wp_job_counts.
  - intros m1 w1 H1 Hb Hm1. apply wp_job_counts.
    + intros m2 w2 H2 _ Hm2. apply wp_ret. split; [by etrans|]. split; [done|]. by eapply counted_bull.
    + intros e w2 H2 _ He. split; [by etrans|done].
  - intros e w1 H1 _ He. apply wp_job_counts; intros x w2 H2 **; (split; [by etrans|done]).
Qed.

(** Calls on the database leave the queues alone. *)
Lemma wp_getDbStats_bull (w : world) : wp env (getDbStats None) (fun _ w1 => s_bull w1.1 = s_bull w.1) w.
Proof.
  eapply wp_mono; [apply (wp_issues env (fun c => match c with Pg _ => True | _ => False end)
    (fun w1 => s_bull w1.1 = s_bull w.1))|].
  - intros w1 c r w2 Hc H1 (s1 & (n & Hn & ->) & H). destruct w1 as [s l], c; try done. destruct r; cbn in *.
    + by destruct H as (_ & _ & p' & tx' & _ & ->).
    + by destruct H as (p' & tx' & _ & ->).
  - issues_tac ltac:(exact I).
  - done.
  - by intros o w1 [_ H].
Qed.

(** The flag of the statistics is the test that sheds load. *)
Lemma overloaded_counts cfg (w : world) q :
  queue_stats_of w q ->
  let waiting ty := count_jobs (bq_jobs (s_bull w.1) webhook_delivery) ty in
  overloaded cfg (webhook_delivery_counts q) = (BACKPRESSURE_QUEUE_LIMIT cfg <? waiting "wait" + waiting "delayed").
Proof.
  intros [H _] waiting. unfold overloaded. rewrite (H "wait"), (H "delayed") by (unfold delivery_types; set_solver). done.
Qed.

Lemma wp_getStats seconds_text cfg (w : world) :
  wp env (getStats seconds_text cfg None None) (fun o w' => db_same w w' /\
    match o with
    | Returned r => exists db q, r = stats_reply seconds_text cfg db q /\
        db_stats_of (tables_of w) (s_now w.1) db /\ queue_stats_of w q
    | Threw e => foreign e
    | Exited => False
    end) w.
Proof.
  unfold getStats. apply wp_bind, wp_promise_all.
  eapply wp_mono; [apply wp_and; [apply wp_getDbStats|apply wp_getDbStats_bull]|].
  intros [db|e|] w1 [[H1 Hdb] Hb]; [| |done]; (eapply wp_mono; [apply wp_getQueueStats|]);
    intros [q|e'|] w2 [H2 Hq]; try done; try (split; [by etrans|done]).
  apply wp_ret. split; [by etrans|]. exists db, q. split; [done|]. split; [done|].
  destruct Hq; split; by eapply counted_bull.
Qed.

End Runs.

(** The statistics are exact. A reply of GET /v1/stats, both memos being
    out of date, has the number of deliveries of each of the five statuses,
    none left out, which add up to the number of deliveries; the age of the
    oldest PENDING delivery; the depths of both queues; and a flag that is set
    just when the depth of the delivery queue would shed an event. Nothing is
    written, and an error is one of the services'. *)
Theorem stats_spec {RS BS : Type} `{!RedisServer RS} `{!RedisLaws RS} `{!BullMQ BS}
    (seconds_text : Z -> string) (cfg : Config) (w w' : world RS BS) (o : outcome exn reply) :
  exec env (getStats seconds_text cfg None None) w o w' ->
  db_same w w' /\
  match o with
  | Returned r => exists db q, r = stats_reply seconds_text cfg db q /\
      db_stats_of (tables_of w) (s_now w.1) db /\ queue_stats_of w q /\
      foldr Z.add 0 (counts db).*2 = Z.of_nat (size (deliveries (tables_of w))) /\
      let waiting ty := count_jobs (bq_jobs (s_bull w.1) webhook_delivery) ty in
      overloaded cfg (webhook_delivery_counts q) = (BACKPRESSURE_QUEUE_LIMIT cfg <? waiting "wait" + waiting "delayed")
  | Threw e => foreign e
  | Exited => False
  end.
Proof.
  intros Hx. pose proof (wp_getStats seconds_text cfg w) as H. rewrite wp_exec in H. destruct (H _ _ Hx) as [H1 Ho].
  split; [done|]. destruct o as [r|e|]; [|done..]. destruct Ho as (db & q & Hr & Hdb & Hq). exists db, q.
  do 3 (split; [done|]). split; [|by apply overloaded_counts]. destruct Hdb as [-> _]. by rewrite <- counts_total.
Qed.

Lemma stats_spec_witness :
  let w := demo_world 1000 (demo_tables PENDING [] None) ∅ {["d1" := {| j_deliveryId := "d1"; j_state := JWait |}]} in
  exists r db, (run_with (serve reliable) (getStats show_Z default_config None None) w).1 = Returned r /\
    db_stats_of (tables_of w) (s_now w.1) db /\ foldr Z.add 0 (counts db).*2 = 1.
Proof.
  intros w.
  destruct (stats_spec show_Z default_config w _ _ (serve_exec reliable (getStats show_Z default_config None None) w))
    as [_ Ho].
  destruct (run_with (serve reliable) (getStats show_Z default_config None None) w).1 as [r|e|] eqn:E;
    [|vm_compute in E; discriminate E..].
  destruct Ho as (db & q & _ & Hdb & _ & Hsum & _). exists r, db. split; [reflexivity|]. split; [exact Hdb|]. exact Hsum.
Defined.

(** GET /readyz asks PostgreSQL, then Redis, whatever the first answers;
    it never fails, answers 200 just when both did, else 503, and names the
    state of each. *)
Theorem readyz_spec (tr : list (event resp exn)) (o : outcome exn reply) :
  behaves readyz tr o ->
  exists pg redis, tr = [Ev (Pg (POOL_QUERY (Select SelectOne))) pg; Ev (Redis PING) redis] /\
    let up {A} (r : exn + A) := match r with inr _ => true | inl _ => false end in
    o = Returned (readyz_reply (up pg) (up redis)).
Proof.
  intros (r1 & tr1 & -> & Hx). destruct r1 as [e1|x1], Hx as (r2 & tr2 & -> & Hx), r2 as [e2|x2], Hx as [-> ->];
    by eexists _, _.
Qed.

Lemma readyz_spec_witness :
  let r := run_with (traced reliable) readyz (demo_world 1000 (demo_tables PENDING [] None) ∅ ∅, []) in
  length r.2.2 = 2%nat /\ r.1 = Returned (readyz_reply true true).
Proof.
  intros r. destruct (readyz_spec r.2.2 r.1 (traced_exec reliable readyz _ [])) as (pg & redis & Htr & _).
  split; [rewrite Htr; reflexivity|vm_compute; reflexivity].
Defined.
