(* ===== verification/Types.v ===== *)
(** * The types of the dashboard's answers

    src/dashboard/src/types.ts: the interfaces under which the dashboard reads
    what the API answers. [apiGet] casts the parsed body to the interface and
    nothing checks it, so whether the routes of src/src/api/ keep the types is
    a property of the two programs together. An interface is a value of [wire];
    [has_type] says which JSON values have it. *)

From S2P Require Import Prelude Async Config Json Parse Dates Tables Queries Schema Redis Services Concrete Repo.
From S2P Require Import Cursor Listing Api Endpoints ReadApi Pagination ReadSpec Monitor.
From Stdlib Require Import ZArith Lia String.
From stdpp Require Import prelude strings gmap.

Open Scope Z_scope.
Open Scope async_scope.

#[local] Set Warnings "-register-all".

(** ** TypeScript's types *)

Inductive wire :=
| TString | TNumber | TBoolean | TNull | TUnknown
| TArray (t : wire)
| TRecord (t : wire)
| TObject (fields : list (string * wire))
| TOr (t u : wire).

(** A property may be more than the type names, but not fewer. *)
Fixpoint has_type (t : wire) (v : json) {struct t} : bool :=
  match t with
  | TString => match v with JStr _ => true | _ => false end
  | TNumber => match v with JNum _ => true | _ => false end
  | TBoolean => match v with JBool _ => true | _ => false end
  | TNull => match v with JNull => true | _ => false end
  | TUnknown => true
  | TArray t => match v with JArr l => forallb (has_type t) l | _ => false end
  | TRecord t => match v with JObj fs => forallb (fun f => has_type t f.2) fs | _ => false end
  | TObject fields =>
      match v with
      | JObj fs => forallb (fun p => match field p.1 fs with Some x => has_type p.2 x | None => false end) fields
      | _ => false
      end
  | TOr t u => has_type t v || has_type u v
  end.

Definition or_null (t : wire) : wire := TOr t TNull.

(** [interface B extends A { fields }]. *)
Definition extends (a : list (string * wire)) (fields : list (string * wire)) : list (string * wire) := a ++ fields.

(** ** types.ts *)

Definition StatsResponse_type : wire := TObject
  [("deliveries", TRecord TNumber); ("queues", TRecord (TRecord TNumber));
   ("oldest_pending_age_s", or_null TNumber); ("backpressure_active", TBoolean)].

Definition DeliveryListItem_fields : list (string * wire) :=
  [("id", TString); ("event_id", TString); ("endpoint_id", TString); ("event_type", TString); ("status", TString);
   ("attempt_count", TNumber); ("next_attempt_at", or_null TString); ("created_at", TString); ("updated_at", TString)].

Definition DeliveryListResponse_type : wire := TObject
  [("data", TArray (TObject DeliveryListItem_fields)); ("next_cursor", or_null TString)].

Definition AttemptDetail_type : wire := TObject
  [("attempt_number", TNumber); ("outcome", TString); ("http_status", or_null TNumber);
   ("response_body", or_null TString); ("error_message", or_null TString); ("latency_ms", TNumber);
   ("started_at", TString); ("finished_at", TString)].

Definition TransitionDetail_type : wire := TObject
  [("from_status", or_null TString); ("to_status", TString); ("actor", TString); ("reason", or_null TString);
   ("created_at", TString)].

(** What [DeliveryDetail] says itself. *)
Definition DeliveryDetail_own : list (string * wire) :=
  [("event", TObject [("id", TString); ("event_type", TString); ("payload", TUnknown); ("received_at", TString)]);
   ("endpoint", TObject [("id", TString); ("url", TString)]);
   ("attempts", TArray AttemptDetail_type); ("transitions", TArray TransitionDetail_type)].

Definition DeliveryDetail_type : wire := TObject (extends DeliveryListItem_fields DeliveryDetail_own).

Definition DlqItem_type : wire := TObject (extends DeliveryListItem_fields [("dlq_entered_at", TString)]).

Definition DlqResponse_type : wire := TObject [("data", TArray DlqItem_type); ("next_cursor", or_null TString)].

Definition Endpoint_type : wire := TObject
  [("id", TString); ("client_id", TString); ("url", TString); ("is_active", TBoolean)].

(** ** Typing rules *)

Lemma opt_json_type {A} t (f : A -> json) (o : option A) :
  (forall x, has_type t (f x) = true) -> has_type (or_null t) (opt_json f o) = true.
Proof. intros H. destruct o as [x|]; cbn; [by rewrite H|]. by rewrite orb_true_r. Qed.

Lemma array_type {A} t (f : A -> json) l :
  (forall x, has_type t (f x) = true) -> has_type (TArray t) (JArr (map f l)) = true.
Proof. intros H. cbn. apply forallb_forall. intros v (x & <- & _)%in_map_iff. apply H. Qed.

(** ** The rows *)

Lemma list_item_type r : has_type (TObject DeliveryListItem_fields) (list_row_json r) = true.
Proof. destruct r as [i e n t s a [x|] c u]; reflexivity. Qed.

Lemma dlq_item_type r : has_type DlqItem_type (dlq_row_json r) = true.
Proof. destruct r as [[i e n t s a [x|] c u] d]; reflexivity. Qed.

Lemma endpoint_type r : has_type Endpoint_type (endpoint_json r) = true.
Proof. reflexivity. Qed.

Lemma attempt_type a : has_type AttemptDetail_type (attempt_json a) = true.
Proof. by destruct a as [n o [h|] [b|] [e|] l s f]. Qed.

Lemma transition_type x : has_type TransitionDetail_type (transition_json x) = true.
Proof. by destruct x as [[f|] t a r c]. Qed.

Lemma page_type {A} t (f : A -> json) n (next : json) (rows : list A) :
  (forall r, has_type t (f r) = true) -> has_type n next = true ->
  has_type (TObject [("data", TArray t); ("next_cursor", n)]) (rp_body (page_reply (map f rows) next)) = true.
Proof.
  intros Hf Hn. unfold page_reply, rp_body. change (has_type (TArray t) (JArr (map f rows)) && (has_type n next && true) = true).
  by rewrite array_type, Hn.
Qed.

Lemma next_cursor_type r more : has_type (or_null TString) (next_cursor r more) = true.
Proof. by destruct r as [r|], more. Qed.

(** The parts of a detail that its interface writes out hold; what it takes
    from a list item does not. *)
Lemma detail_type v :
  has_type (TObject DeliveryDetail_own) (detail_json v) = true /\ has_type DeliveryDetail_type (detail_json v) = false.
Proof.
  split; [|reflexivity].
  change (has_type (TArray AttemptDetail_type) (JArr (map attempt_json (dd_attempts v))) &&
    (has_type (TArray TransitionDetail_type) (JArr (map transition_json (dd_transitions v))) && true) = true).
  by rewrite (array_type _ _ _ attempt_type), (array_type _ _ _ transition_type).
Qed.

Lemma counts_type types m : has_type (TRecord TNumber) (counts_json types m) = true.
Proof.
  cbn. apply forallb_forall. intros p (ty & _ & Hp)%list_elem_of_In%list_elem_of_omap.
  destruct (m !! ty); [by injection Hp as <-|done].
Qed.

Lemma stats_type seconds_text cfg db q : has_type StatsResponse_type (rp_body (stats_reply seconds_text cfg db q)) = true.
Proof.
  set (deliveries := JObj (map (fun x => (x.1, num_json x.2)) (counts db))).
  change (has_type (TRecord TNumber) deliveries &&
    ((has_type (TRecord TNumber) (counts_json delivery_types (webhook_delivery_counts q)) &&
      (has_type (TRecord TNumber) (counts_json dlq_types (webhook_dlq_counts q)) && true)) &&
     (has_type (or_null TNumber) (opt_json (fun us => JNum (seconds_text us)) (oldest_pending_age db)) && true)) = true).
  rewrite !counts_type, opt_json_type by done. rewrite andb_true_r. cbn. apply forallb_forall.
  by intros p (x & <- & _)%in_map_iff.
Qed.

(** ** The routes the dashboard reads *)

(** A call that goes on with [f] in a world that may have changed. *)
Lemma wp_bind_any {W A B} (env : W -> forall c, exn + resp c -> W -> Prop) (p : io A) (f : A -> io B)
    (Q : outcome exn B -> W -> Prop) w :
  (forall a w1, wp env (f a) Q w1) -> (forall e w1, Q (Threw e) w1) -> (forall w1, Q Exited w1) ->
  wp env (let* a := p in f a) Q w.
Proof.
  intros Hf Ht He. apply wp_bind. apply wp_exec. intros [a|e|] w' _; cbn; auto.
Qed.

Inductive read_request :=
| ReadList (q : list_query) | ReadDlq (q : list_query) | ReadDetail (id : string)
| ReadEndpoints (client_id : http_header) | ReadStats (db_hit : option DbStats) (queue_hit : option QueueDepths).

(** The type argument of the dashboard's [apiGet]. *)
Definition declared (r : read_request) : wire :=
  match r with
  | ReadList _ => DeliveryListResponse_type
  | ReadDlq _ => DlqResponse_type
  | ReadDetail _ => DeliveryDetail_type
  | ReadEndpoints _ => TObject [("data", TArray Endpoint_type)]
  | ReadStats _ _ => StatsResponse_type
  end.

(** What of it the answers have. *)
Definition kept (r : read_request) : wire :=
  match r with ReadDetail _ => TObject DeliveryDetail_own | _ => declared r end.

Section Reads.
Context (pf : platform) (new_Date Number : string -> jsnum) (is_uuid : string -> bool).
Context (query_issues : list_query -> json) (pg_array : list string -> string) (seconds_text : Z -> string) (cfg : Config).

Definition answer_read (r : read_request) : io reply :=
  match r with
  | ReadList q => getDeliveries pf new_Date Number is_uuid query_issues q
  | ReadDlq q => getDlq pf new_Date Number query_issues q
  | ReadDetail id => getDelivery id
  | ReadEndpoints c => getEndpoints pg_array c
  | ReadStats d q => getStats seconds_text cfg d q
  end.

Definition typed_reply (r : read_request) (a : reply) : Prop :=
  rp_code a = 200 /\ has_type (kept r) (rp_body a) = true /\
  (has_type (declared r) (rp_body a) = false <-> exists id, r = ReadDetail id).

Lemma typed_whole r a :
  rp_code a = 200 -> kept r = declared r -> (forall id, r <> ReadDetail id) ->
  has_type (declared r) (rp_body a) = true -> typed_reply r a.
Proof. intros Hc Hk Hr Ht. split; [done|]. rewrite Hk, Ht. split; [done|]. split; [done|]. by intros [id Hd%Hr]. Qed.

Lemma wp_answer_read {W} (env : W -> forall c, exn + resp c -> W -> Prop) (r : read_request) (w : W) :
  wp env (answer_read r) (fun o _ => match o with Returned a => typed_reply r a | _ => True end) w.
Proof.
  destruct r as [q|q|id|c|d q]; cbn [answer_read].
  - unfold getDeliveries. destruct (parse_list_query _ _ _ q); [|done]. destruct (cursor_param _ _); [done|].
    apply wp_bind_any; [|done..]. intros [rows more] w1. apply typed_whole; try done.
    apply page_type; [apply list_item_type|apply next_cursor_type].
  - unfold getDlq. destruct (optional_string _ ≫= _) as [[v limit]|]; [|done]. destruct (cursor_param _ _); [done|].
    apply wp_bind_any; [|done..]. intros [rows more] w1. apply typed_whole; try done.
    apply page_type; [apply dlq_item_type|apply next_cursor_type].
  - unfold getDelivery. destruct (is_delivery_id id); [|done]. apply wp_bind_any; [|done..]. intros [v|] w1; [|done].
    destruct (detail_type v) as [H1 H2]. split; [done|]. cbn [kept declared rp_body]. rewrite H1, H2.
    split; [done|]. split; [by exists id|done].
  - unfold getEndpoints. apply wp_bind_any; [|done..]. intros rows w1. apply typed_whole; try done.
    change (has_type (TArray Endpoint_type) (JArr (map endpoint_json rows)) && true = true). by rewrite array_type.
  - unfold getStats. apply wp_bind_any; [|done..]. intros [db qs] w1. apply typed_whole; try done. apply stats_type.
Qed.

(** C40: the API and the dashboard agree on the types of what they exchange.
    Whatever a database, a queue or a memo answers, a handler of a route the
    dashboard reads that returns answers 200 with a body that has the type the
    dashboard reads it under; but for the detail of a delivery, which has the
    properties its interface writes out and lacks some of those it extends,
    always. *)
Theorem reads_typed {W} (env : W -> forall c, exn + resp c -> W -> Prop) (r : read_request) (w w' : W) (a : reply) :
  exec env (answer_read r) w (Returned a) w' ->
  rp_code a = 200 /\ has_type (kept r) (rp_body a) = true /\
  (has_type (declared r) (rp_body a) = false <-> exists id, r = ReadDetail id).
Proof. intros H. pose proof (wp_answer_read env r w) as Hw. rewrite wp_exec in Hw. exact (Hw _ _ H). Qed.
End Reads.

Definition demo_read (r : read_request) : io reply :=
  answer_read demo_platform plain_Date plain_Number (fun _ => true) (fun _ => JNull) (fun _ => "") show_Z default_config r.

Lemma reads_typed_witness :
  let w := demo_world 1000 (demo_tables DLQ [demo_attempt 1] None) ∅ ∅ in
  let r := ReadDlq dlq_query in
  exists a, (run_with (serve reliable) (demo_read r) w).1 = Returned a /\ has_type DlqResponse_type (rp_body a) = true /\
    has_type (TObject (extends DeliveryListItem_fields [("x", TString)])) (rp_body a) = false.
Proof.
  intros w r. pose proof (serve_exec reliable (demo_read r) w) as Hx.
  destruct (run_with (serve reliable) (demo_read r) w).1 as [a|e|] eqn:E; [|vm_compute in E; discriminate E..].
  exists a. split; [reflexivity|]. split.
  - exact (proj1 (proj2 (reads_typed demo_platform plain_Date plain_Number (fun _ => true) (fun _ => JNull) (fun _ => "")
      show_Z default_config _ r w _ a Hx))).
  - vm_compute in E. injection E as <-. reflexivity.
Defined.
