(* ===== verification/LoadTest.v ===== *)
(** * The load tests

    src/loadtest/: what the k6 scripts baseline.js, abuse.js, backpressure.js and
    saturation.js send, how they judge the answers, and what their counts say of
    the tables. Section [Scripts]: lib.js and the scripts; [Arrival]: their
    requests as the API reads them; [Keys]: the keys of different iterations;
    then the run of a test against the API, and the buckets of saturation.js.
    What k6 itself does (starting users, measuring, thresholds) is not
    modelled. *)

From S2P Require Import Prelude Async Interleave Json Config Parse Tables Queries Schema Redis Services Concrete Scripts Repo Ingest.
From S2P Require Import Frames Signature DeadLetter Api Endpoints AuditTrail Concurrency ApiSpec Ledger Monitor Posts.
From Stdlib Require Import ZArith Lia String Ascii DecimalString DecimalFacts DecimalPos.
From stdpp Require Import prelude strings gmap.

Open Scope Z_scope.
Open Scope async_scope.

(** ** The scripts *)

(** [__VU] and [__ITER] of an iteration, and its [Date.now()]. *)
Record moment := { m_vu : Z; m_iter : Z; m_now : Z }.

Record request_params := { headers : list (string * string); tags : list (string * string) }.
Record k6_request := { k_url : string; k_body : string; k_params : request_params }.
Record response := { r_status : Z; r_headers : list (string * string); r_body : string }.

Section Scripts.
(** [__ENV], and how the language prints the number a text says. *)
Context (env : string -> option string) (print_number : string -> string).

(** [__ENV.X || d]. *)
Definition env_or (name d : string) : string := match env name with None | Some "" => d | Some v => v end.

Definition BASE_URL : string := env_or "BASE_URL" "http://localhost:3000".
Definition ENDPOINT_ID : string := env_or "ENDPOINT_ID" "".
Definition CLIENT_ID : string := env_or "CLIENT_ID" "loadtest".

Definition uniqueIdemKey (m : moment) (uuid : string) : string :=
  show_Z (m_vu m) ++s "-" ++s show_Z (m_iter m) ++s "-" ++s uuid.

Definition event_body (eventType : string) (payload : json) (endpointId : string) : json :=
  JObj [("client_id", JStr CLIENT_ID); ("event_type", JStr eventType); ("payload", payload); ("endpoint_id", JStr endpointId)].

Definition buildEventBody (eventType : string) (payload : option json) (m : moment) : string :=
  stringify (event_body eventType (default (JObj [("ts", num_json (m_now m))]) payload) ENDPOINT_ID).

Definition postParams (ts : option (list (string * string))) (key : string) : request_params := {|
  headers := [("Content-Type", "application/json"); ("Idempotency-Key", key)]; tags := default [] ts |}.

(** [params.headers['Idempotency-Key'] = key]. *)
Definition with_key (key : string) (p : request_params) : request_params := {|
  headers := obj_set "Idempotency-Key" key (headers p); tags := tags p |}.

Definition post_event (body : string) (params : request_params) : k6_request := {|
  k_url := BASE_URL ++s "/v1/events"; k_body := body; k_params := params |}.

(** saturation.js: the label of a virtual user. *)
Definition vuBucket (vu : Z) : string :=
  if vu <=? 500 then "0500" else if vu <=? 1000 then "1000" else if vu <=? 2000 then "2000"
  else if vu <=? 3000 then "3000" else "4000".

(** The default functions up to their request; [u1] and [u2] are the answers
    of [uuidv4]. *)
Definition baseline_post (m : moment) (u1 : string) : k6_request :=
  post_event (buildEventBody "payment.completed" (Some (JObj [("amount", num_json 100); ("currency", JStr "USD")])) m)
    (postParams (Some [("name", "post_event")]) (uniqueIdemKey m u1)).

Definition abuse_post (endpointId : string) (m : moment) (u1 u2 : string) : k6_request :=
  post_event (stringify (event_body "abuse.test" (JObj [("ts", num_json (m_now m)); ("vu", num_json (m_vu m))]) endpointId))
    (with_key (uniqueIdemKey m u2) (postParams (Some [("name", "abuse_ingest")]) (uniqueIdemKey m u1))).

Definition backpressure_post (m : moment) (u1 u2 : string) : k6_request :=
  post_event (stringify (event_body "backpressure.probe" (JObj [("ts", num_json (m_now m))]) ENDPOINT_ID))
    (with_key (uniqueIdemKey m u2) (postParams (Some [("name", "bp_event")]) (uniqueIdemKey m u1))).

Definition saturation_post (m : moment) (u1 u2 : string) : k6_request :=
  let bucket := vuBucket (m_vu m) in
  post_event (stringify (event_body "saturation.probe"
      (JObj [("ts", num_json (m_now m)); ("vu", num_json (m_vu m)); ("bucket", JStr bucket)]) ENDPOINT_ID))
    (with_key (uniqueIdemKey m u2) (postParams (Some [("name", "saturation_event"); ("vu_bucket", bucket)]) (uniqueIdemKey m u1))).

(** *** The checks *)

Definition status_2xx (r : response) : bool := (200 <=? r_status r) && (r_status r <? 300).

(** [j.delivery_id] is read from any value but [null]. *)
Definition has_delivery_id (r : response) : bool :=
  match JSON_parse print_number (r_body r) with
  | Some (JObj fs) =>
      match field "delivery_id" fs with
      | Some (JStr _) => true
      | _ => match field "id" fs with Some (JStr _) => true | _ => false end
      end
  | _ => false
  end.

Definition accepted_or_shed (r : response) : bool := (r_status r =? 202) || (r_status r =? 200) || (r_status r =? 429).
Definition has_retry_after (r : response) : bool :=
  negb (r_status r =? 429) || match obj_get "Retry-After" (r_headers r) with Some _ => true | None => false end.

(** [check(res, sets)]. *)
Definition check (r : response) (cs : list (response -> bool)) : bool := forallb (fun c => c r) cs.

Definition baseline_checks : list (response -> bool) := [status_2xx; has_delivery_id].
Definition abuse_checks : list (response -> bool) := [status_2xx].
Definition backpressure_checks : list (response -> bool) := [accepted_or_shed; has_retry_after].
Definition saturation_checks : list (response -> bool) := [status_2xx].

(** What backpressure.js adds to its counters of 429s and of 202s, and how
    long each script then sleeps, in milliseconds. *)
Definition backpressure_counters (r : response) : Z * Z :=
  if r_status r =? 429 then (1, 0) else if (r_status r =? 202) || (r_status r =? 200) then (0, 1) else (0, 0).

Definition backpressure_pause (r : response) : Z := if r_status r =? 429 then 5000 else 0.

(** *** The setups: the value kept, or the text of the error *)

(** baseline.js asks again while the stack boots; [answers i] is the answer to
    the request [i], and the value the number of sleeps of two seconds. *)
Fixpoint await_healthy (answers : nat -> response) (tries i : nat) : option nat :=
  match tries with
  | O => None
  | S tries => if r_status (answers i) =? 200 then Some i else await_healthy answers tries (S i)
  end.

Definition baseline_setup (answers : nat -> response) : string + nat :=
  match await_healthy answers 30 0 with
  | Some i => inr i
  | None => let res := answers 29%nat in
            inl ("Healthcheck failed after 30 attempts (" ++s show_Z (r_status res) ++s "): " ++s r_body res)
  end.

Definition backpressure_setup (res : response) : string + unit :=
  if String.eqb ENDPOINT_ID "" then inl "ENDPOINT_ID env var is required"
  else if r_status res =? 200 then inr tt else inl ("Stack not healthy: " ++s show_Z (r_status res)).

Definition saturation_setup (res : response) : string + unit :=
  if String.eqb ENDPOINT_ID "" then inl "ENDPOINT_ID env var is required for saturation test."
  else if r_status res =? 200 then inr tt else inl ("Stack not healthy: " ++s show_Z (r_status res)).

Definition CHAOS_URL : string :=
  env_or "RECEIVER_URL" "http://test-receiver:4000" ++s "/chaos?error_rate=0.30&timeout_rate=0.05".

Definition abuse_endpoint : json :=
  JObj [("client_id", JStr CLIENT_ID); ("url", JStr CHAOS_URL); ("signing_secret", JStr "whsec_test_receiver_secret")].

(** [String(v)]. *)
Fixpoint js_String (v : json) : string :=
  match v with
  | JNull => "null"
  | JBool b => if b then "true" else "false"
  | JNum t => t
  | JStr s => s
  | JArr l => str_join "," (map (fun v => match v with JNull => "" | v => js_String v end) l)
  | JObj _ => "[object Object]"
  end.

(** The id of the endpoint, as every iteration gets it. *)
Definition abuse_setup (res : response) : string + string :=
  if status_2xx res then
    match JSON_parse print_number (r_body res) with
    | None => inl "SyntaxError"
    | Some JNull => inl "TypeError"
    | Some (JObj fs) => inr (match field "id" fs with Some v => js_String v | None => "undefined" end)
    | Some _ => inr "undefined"
    end
  else inl ("Failed to create chaos endpoint (" ++s show_Z (r_status res) ++s "): " ++s r_body res).
End Scripts.

(** The healthcheck passes at the first of 30 answers that is a 200. *)
Lemma await_healthy_spec answers tries i n :
  await_healthy answers tries i = Some n <->
  (i <= n < i + tries)%nat /\ r_status (answers n) = 200 /\ forall j, (i <= j < n)%nat -> r_status (answers j) <> 200.
Proof.
  revert i. induction tries as [|tries IH]; intros i; cbn; [split; [done|]; intros [H _]; lia|].
  destruct (Z.eqb_spec (r_status (answers i)) 200) as [H|H].
  - split; [intros [= <-]; split; [lia|]; split; [done|]; intros j Hj; lia|].
    intros (H1 & H2 & H3). destruct (decide (i = n)) as [-> |Hne]; [done|]. destruct (H3 i); [lia|done].
  - rewrite IH. split; intros (H1 & H2 & H3).
    + split; [lia|]. split; [done|]. intros j Hj. destruct (decide (j = i)) as [-> |]; [done|]. apply H3. lia.
    + destruct (decide (i = n)) as [-> |Hne]; [done|]. split; [lia|]. split; [done|]. intros j Hj. apply H3. lia.
Qed.

(** ** The numbers of an iteration as texts *)

Lemma span_digits_uint u : span_digits (NilEmpty.string_of_uint u) = (NilEmpty.string_of_uint u, "").
Proof. induction u as [|u IH|u IH|u IH|u IH|u IH|u IH|u IH|u IH|u IH|u IH]; cbn; rewrite ?IH; done. Qed.

(** A positive number has no leading zero. *)
Lemma to_uint_head p u : Pos.to_uint p <> Decimal.D0 u.
Proof.
  intros E. pose proof (DecimalPos.Unsigned.to_of (Pos.to_uint p)) as H. rewrite DecimalPos.Unsigned.of_to in H. cbn [N.to_uint] in H.
  pose proof (DecimalPos.Unsigned.to_uint_nonzero p) as Hz. rewrite E in H, Hz. unfold Decimal.unorm in H.
  destruct (Decimal.nzhead (Decimal.D0 u)) as [|d|d|d|d|d|d|d|d|d|d] eqn:Hh; try discriminate H; [by apply Hz|].
  by apply DecimalFacts.nzhead_nonzero in Hh.
Qed.

(** How a number that is not negative is printed. *)
Lemma show_Z_cases n : 0 <= n ->
  show_Z n = "0" \/ exists u, show_Z n = NilEmpty.string_of_uint u /\ u <> Decimal.Nil /\ forall d, u <> Decimal.D0 d.
Proof.
  destruct n as [|p|p]; [by left| |lia]. intros _. right. exists (Pos.to_uint p).
  split; [|split; [apply DecimalPos.Unsigned.to_uint_nonnil|apply to_uint_head]].
  unfold show_Z. cbn. unfold NilZero.string_of_uint. pose proof (DecimalPos.Unsigned.to_uint_nonnil p). by destruct (Pos.to_uint p).
Qed.

Lemma number_show n : 0 <= n -> parse_number (show_Z n) = Some (show_Z n, "").
Proof.
  intros [-> |(u & -> & Hn & Hd)]%show_Z_cases; [done|]. unfold parse_number.
  assert (parse_int (NilEmpty.string_of_uint u) = Some (NilEmpty.string_of_uint u, "")) as Hi.
  { pose proof (span_digits_uint u) as Hs. destruct u; try done; try (by destruct (Hd u)); cbn in Hs |- *;
      rewrite span_digits_uint; done. }
  assert (match NilEmpty.string_of_uint u with
          | String c r => if Ascii.eqb c "-" then ("-", r) else ("", NilEmpty.string_of_uint u)
          | EmptyString => ("", "")
          end = ("", NilEmpty.string_of_uint u)) as -> by (by destruct u).
  cbn [mbind option_bind]. rewrite Hi. cbn. by rewrite str_app_nil_r.
Qed.

Lemma digits_uint u : Api.digits (NilEmpty.string_of_uint u) = NilEmpty.string_of_uint u.
Proof. induction u as [|u IH|u IH|u IH|u IH|u IH|u IH|u IH|u IH|u IH|u IH]; cbn; rewrite ?IH; done. Qed.

Lemma parseInt_show n : 0 <= n -> parseInt (show_Z n) = Num n.
Proof.
  intros Hn. pose proof (read_show_Z n) as Hr. destruct (show_Z_cases n Hn) as [E|(u & E & Hu & _)]; rewrite E in Hr |- *.
  - cbn in Hr. injection Hr as <-. done.
  - unfold parseInt. rewrite <- (digits_uint u) in Hr.
    assert (match skip_spaces (NilEmpty.string_of_uint u) with
            | String c r => if Ascii.eqb c "-" then None else if Ascii.eqb c "+" then None else Some (String c r)
            | EmptyString => None
            end = Some (NilEmpty.string_of_uint u)) as Hs by (by destruct u).
    destruct (skip_spaces (NilEmpty.string_of_uint u)) as [|c r]; [done|].
    destruct (Ascii.eqb c "-"); [done|]. destruct (Ascii.eqb c "+"); [done|]. injection Hs as ->.
    destruct (Api.digits (NilEmpty.string_of_uint u)) as [|c' r'] eqn:Hd; [by rewrite digits_uint in Hd; destruct u|].
    rewrite Hr. f_equal. lia.
Qed.

(** ** The keys of different iterations *)

Fixpoint lacks (x : ascii) (s : string) : bool :=
  match s with String c r => negb (Ascii.eqb c x) && lacks x r | EmptyString => true end.

Lemma lacks_app x a b : lacks x (a ++s b) = lacks x a && lacks x b.
Proof. induction a as [|c a IH]; [done|]. rewrite str_app_cons. cbn [lacks]. by rewrite IH, andb_assoc. Qed.

Lemma lacks_uint x u : x = ":"%char \/ x = "-"%char -> lacks x (NilEmpty.string_of_uint u) = true.
Proof.
  intros Hx. induction u as [|u IH|u IH|u IH|u IH|u IH|u IH|u IH|u IH|u IH|u IH]; [done|..]; cbn [NilEmpty.string_of_uint lacks];
    rewrite IH; by destruct Hx as [-> | ->].
Qed.

Lemma lacks_show x n : x = ":"%char \/ x = "-"%char -> 0 <= n -> lacks x (show_Z n) = true.
Proof. intros Hx [-> |(u & -> & _)]%show_Z_cases; [by destruct Hx as [-> | ->]|by apply lacks_uint]. Qed.

(** Texts are split at the first mark, and at the last. *)
Lemma lacks_first x a b s t :
  lacks x a = true -> lacks x b = true -> (a ++s String x s = b ++s String x t)%string -> a = b /\ s = t.
Proof.
  revert b. induction a as [|c a IH]; intros [|c' b]; cbn; intros Ha Hb H.
  - by injection H.
  - injection H as <- _. by rewrite Ascii.eqb_refl in Hb.
  - injection H as -> _. by rewrite Ascii.eqb_refl in Ha.
  - injection H as -> H. apply andb_true_iff in Ha as [_ Ha], Hb as [_ Hb]. by destruct (IH b Ha Hb H) as [-> ->].
Qed.

Lemma lacks_last x a b s t :
  lacks x s = true -> lacks x t = true -> (a ++s String x s = b ++s String x t)%string -> s = t.
Proof.
  intros Hs Ht. revert b. induction a as [|c a IH]; intros [|c' b]; cbn; intros H.
  - by injection H.
  - injection H as _ ->. rewrite lacks_app in Hs. cbn in Hs. by rewrite Ascii.eqb_refl, andb_false_r in Hs.
  - injection H as _ <-. rewrite lacks_app in Ht. cbn in Ht. by rewrite Ascii.eqb_refl, andb_false_r in Ht.
  - injection H as _ H. by apply (IH b).
Qed.

(** A moment of a run, and what [uuidv4] answers: no colon. *)
Definition proper_moment (m : moment) : Prop := 0 <= m_vu m /\ 0 <= m_iter m /\ 0 <= m_now m.

Lemma key_lacks_colon m u : proper_moment m -> lacks ":" u = true -> lacks ":" (uniqueIdemKey m u) = true.
Proof. intros (H1 & H2 & _) Hu. unfold uniqueIdemKey. by rewrite !lacks_app, !lacks_show, Hu by auto. Qed.

(** Iterations of different users or numbers have keys that nothing confuses,
    even if the random parts were the same. *)
Lemma iteration_keys_apart m m' u u' :
  proper_moment m -> proper_moment m' -> lacks ":" u = true -> lacks ":" u' = true ->
  (m_vu m, m_iter m) <> (m_vu m', m_iter m') -> keys_apart (uniqueIdemKey m u) (uniqueIdemKey m' u').
Proof.
  intros Hm Hm' Hu Hu' Hne.
  assert (uniqueIdemKey m u <> uniqueIdemKey m' u') as Hk.
  { destruct Hm as (H1 & H2 & _), Hm' as (H1' & H2' & _). unfold uniqueIdemKey. intros E. apply Hne.
    apply lacks_first in E as [E1 E]; [|by apply lacks_show; auto..]. cbn in E.
    apply lacks_first in E as [E2 _]; [|by apply lacks_show; auto..]. apply show_Z_inj in E1, E2. congruence. }
  split; [done|]. intros c c' E. apply Hk. unfold idemRedisKey in E.
  apply (lacks_last ":" ("wh:idem:" ++s c) ("wh:idem:" ++s c')); [by apply key_lacks_colon..|].
  by rewrite !str_app_assoc.
Qed.

(** ** An iteration at the API *)

Inductive k6_script := Baseline | Abuse (endpointId : string) | Backpressure | Saturation.

Record iteration := { it_script : k6_script; it_moment : moment; it_u1 : string; it_u2 : string }.

Section Arrival.
Context (env : string -> option string) (print_number : string -> string).
(** A safe integer reads back as it is printed. *)
Context (Hprint : forall n, 0 <= n -> print_number (show_Z n) = show_Z n).

Definition post_of (it : iteration) : k6_request :=
  match it_script it with
  | Baseline => baseline_post env (it_moment it) (it_u1 it)
  | Abuse endpointId => abuse_post env endpointId (it_moment it) (it_u1 it) (it_u2 it)
  | Backpressure => backpressure_post env (it_moment it) (it_u1 it) (it_u2 it)
  | Saturation => saturation_post env (it_moment it) (it_u1 it) (it_u2 it)
  end.

Definition iteration_passes (it : iteration) (r : response) : bool :=
  check r match it_script it with
          | Baseline => baseline_checks print_number
          | Abuse _ => abuse_checks
          | Backpressure => backpressure_checks
          | Saturation => saturation_checks
          end.

(** The API's reading of a request: Node presents a header once, and Fastify
    parses the body. *)
Definition header (name : string) (hs : list (string * string)) : http_header :=
  match obj_get name hs with Some v => One v | None => Absent end.

Definition arrives (k : k6_request) : option event_request :=
  body ← JSON_parse print_number (k_body k);
  Some {| rq_idempotency_key := header "Idempotency-Key" (headers (k_params k));
          rq_content_length := Some (show_Z (byteLength (k_body k))); rq_body := body |}.

(** And k6's reading of the reply. *)
Definition response_of (r : reply) : response := {|
  r_status := rp_code r; r_headers := rp_headers r; r_body := stringify (rp_body r) |}.

(** *** What is sent *)

Definition it_key (it : iteration) : string :=
  uniqueIdemKey (it_moment it) (match it_script it with Baseline => it_u1 it | _ => it_u2 it end).

Definition it_type (it : iteration) : string :=
  match it_script it with
  | Baseline => "payment.completed" | Abuse _ => "abuse.test"
  | Backpressure => "backpressure.probe" | Saturation => "saturation.probe"
  end.

Definition it_payload (it : iteration) : json :=
  let m := it_moment it in
  match it_script it with
  | Baseline => JObj [("amount", num_json 100); ("currency", JStr "USD")]
  | Abuse _ => JObj [("ts", num_json (m_now m)); ("vu", num_json (m_vu m))]
  | Backpressure => JObj [("ts", num_json (m_now m))]
  | Saturation => JObj [("ts", num_json (m_now m)); ("vu", num_json (m_vu m)); ("bucket", JStr (vuBucket (m_vu m)))]
  end.

Definition it_target (it : iteration) : string :=
  match it_script it with Abuse endpointId => endpointId | _ => ENDPOINT_ID env end.

Definition it_body (it : iteration) : json := event_body env (it_type it) (it_payload it) (it_target it).

Definition request_of (it : iteration) : event_request := {|
  rq_idempotency_key := One (it_key it); rq_content_length := Some (show_Z (byteLength (stringify (it_body it))));
  rq_body := it_body it |}.

Lemma printed_show n : 0 <= n -> printed print_number (show_Z n).
Proof using Hprint. intros Hn. split; [by apply number_show|by apply Hprint]. Qed.

(** The API reads what was sent. *)
Lemma post_arrives it : proper_moment (it_moment it) -> arrives (post_of it) = Some (request_of it).
Proof using Hprint.
  intros (Hv & _ & Hn). assert (k_body (post_of it) = stringify (it_body it)) as Hb by (by destruct it as [[] m u1 u2]).
  unfold arrives, request_of. rewrite Hb, parse_stringify.
  - cbn. f_equal. f_equal. by destruct it as [[] m u1 u2].
  - pose proof (printed_show _ Hv). pose proof (printed_show _ Hn). pose proof (printed_show 100 ltac:(lia)).
    destruct it as [[] m u1 u2]; cbn -[show_Z printed] in *; tauto.
Qed.

Lemma byteLength_nonneg s : 0 <= byteLength s.
Proof. induction s as [|c s IH]; cbn [byteLength]; [done|]. destruct (nat_of_ascii c <? 128)%nat; lia. Qed.

Lemma byteLength_app a b : byteLength (a ++s b) = byteLength a + byteLength b.
Proof. induction a as [|c a IH]; [done|]. rewrite str_app_cons. cbn [byteLength]. rewrite IH. lia. Qed.

(** A value is no longer than an object it is in. *)
Lemma join_length sep w ws : w ∈ ws -> byteLength w <= byteLength (str_join sep ws).
Proof.
  induction ws as [|x ws IH]; [by intros ?%elem_of_nil|]. intros [-> |Hw]%elem_of_cons.
  - destruct ws as [|y ws]; [done|]. change (str_join sep (x :: y :: ws)) with (x ++s sep ++s str_join sep (y :: ws)).
    rewrite !byteLength_app. pose proof (byteLength_nonneg sep). pose proof (byteLength_nonneg (str_join sep (y :: ws))). lia.
  - specialize (IH Hw). destruct ws as [|y ws]; [by apply elem_of_nil in Hw|].
    change (str_join sep (x :: y :: ws)) with (x ++s sep ++s str_join sep (y :: ws)).
    rewrite !byteLength_app. pose proof (byteLength_nonneg sep). pose proof (byteLength_nonneg x). lia.
Qed.

Lemma field_length k v fs : (k, v) ∈ fs -> byteLength (stringify v) <= byteLength (stringify (JObj fs)).
Proof.
  intros H. cbn [stringify]. rewrite !byteLength_app.
  set (f := fun '(k, v) => (json_quote k ++s ":" ++s stringify v)%string).
  assert (byteLength (f (k, v)) <= byteLength (str_join "," (map f fs))) as Hj by (by apply join_length, (list_elem_of_fmap_2 f)).
  change (f (k, v)) with (json_quote k ++s ":" ++s stringify v)%string in Hj.
  rewrite !byteLength_app in Hj. pose proof (byteLength_nonneg (json_quote k)).
  pose proof (byteLength_nonneg ":"). pose proof (byteLength_nonneg "{"). pose proof (byteLength_nonneg "}"). lia.
Qed.

Lemma payload_length it : byteLength (stringify (it_payload it)) <= byteLength (stringify (it_body it)).
Proof. apply (field_length "payload"). do 2 right. left. Qed.

Section Form.
Context (is_uuid : string -> bool) (issues_of : json -> json) (cfg : Config).

(** No request of a load test is refused for its form: with a UUID as the
    target, it is what the script says, as long as the limits allow its size. *)
Lemma load_request_checked it :
  is_uuid (it_target it) = true -> (0 < String.length (it_key it) <= 255)%nat ->
  byteLength (stringify (it_body it)) <= MAX_PAYLOAD_BYTES cfg ->
  check_request is_uuid issues_of cfg (request_of it) = inr (it_key it, it_target it, it_type it, it_payload it).
Proof.
  intros Hu Hk Hb. pose proof (payload_length it) as Hp. unfold check_request. cbn [rq_idempotency_key request_of].
  destruct (String.eqb_spec (it_key it) "") as [E|_]; [rewrite E in Hk; cbn in Hk; lia|].
  destruct (Nat.ltb_spec 255 (String.length (it_key it))); [lia|].
  change (default "0" (rq_content_length (request_of it))) with (show_Z (byteLength (stringify (it_body it)))).
  rewrite parseInt_show by apply byteLength_nonneg. cbn [js_gt]. rewrite (proj2 (Z.ltb_ge _ _) Hb).
  assert (parse_event_body is_uuid (rq_body (request_of it)) = Some (it_target it, it_type it, it_payload it)) as ->.
  { unfold parse_event_body. cbn [rq_body request_of it_body event_body].
    change (field "endpoint_id" _) with (Some (JStr (it_target it))). change (field "event_type" _) with (Some (JStr (it_type it))).
    change (field "payload" _) with (Some (it_payload it)). cbv iota beta.
    destruct it as [[] m u1 u2]; cbn [it_payload it_script it_target] in *; rewrite Hu; done. }
  cbv iota. rewrite (proj2 (Z.ltb_ge _ _)) by lia. done.
Qed.

(** What the row of an iteration says. *)
Lemma load_row it e :
  row_of (it_key it) is_uuid issues_of cfg (request_of it) e -> ev_event_type e = it_type it /\ ev_payload e = it_payload it.
Proof.
  intros (ep & H & _). unfold check_request in H. cbn [rq_idempotency_key request_of] in H.
  destruct (String.eqb (it_key it) ""); [done|]. destruct (255 <? String.length (it_key it))%nat; [done|].
  destruct (js_gt _ _); [done|].
  destruct (parse_event_body is_uuid (rq_body (request_of it))) as [[[ep' ty'] pl']|] eqn:Hb; [|done].
  destruct (MAX_PAYLOAD_BYTES cfg <? _); [done|]. injection H as _ <- <-.
  unfold parse_event_body in Hb. cbn [rq_body request_of it_body event_body] in Hb.
  change (field "endpoint_id" _) with (Some (JStr (it_target it))) in Hb. change (field "event_type" _) with (Some (JStr (it_type it))) in Hb.
  change (field "payload" _) with (Some (it_payload it)) in Hb. cbv iota beta in Hb.
  destruct (it_payload it); try done. destruct (_ && _); [|done]. by injection Hb as _ <- <-.
Qed.
End Form.
End Arrival.

(** ** The judgement of a reply *)

Lemma error_reply_headers e : turned_down e ->
  let r := error_reply e None None in
  rp_code r ∈ [400; 404; 409; 413; 429; 500; 503] /\ rp_headers r = (if rp_code r =? 429 then [("Retry-After", "5")] else []).
Proof.
  intros [Hf|(c & n & m & d & -> & Hc)].
  - rewrite (foreign_reply e Hf). split; [cbn; set_solver|done].
  - cbn. split; [set_solver|done].
Qed.

Section Judge.
Context (print_number : string -> string).

Lemma judge_accepted it res : is_new res = true -> iteration_passes print_number it (response_of (event_reply res)) = true.
Proof.
  intros Hn.
  assert (r_status (response_of (event_reply res)) = 202) as Hs by (cbn; by rewrite Hn).
  assert (has_delivery_id print_number (response_of (event_reply res)) = true) as Hd.
  { unfold has_delivery_id. cbn [r_body response_of]. rewrite parse_stringify; [done|]. by repeat split. }
  assert (status_2xx (response_of (event_reply res)) = true) as H2 by (unfold status_2xx; by rewrite Hs).
  unfold iteration_passes, check. destruct (it_script it); cbn [forallb baseline_checks abuse_checks backpressure_checks saturation_checks]; rewrite ?H2, ?Hd; try done.
  unfold accepted_or_shed, has_retry_after. by rewrite Hs.
Qed.

(** Only backpressure.js takes a refusal, and only a 429, which has the header
    it asks for. *)
Lemma judge_refused it e : turned_down e ->
  let r := error_reply e None None in
  iteration_passes print_number it (response_of r) = match it_script it with Backpressure => rp_code r =? 429 | _ => false end.
Proof.
  intros He r. destruct (error_reply_headers e He) as [Hc Hh]. fold r in Hc, Hh.
  assert (status_2xx (response_of r) = false) as H2.
  { unfold status_2xx. cbn [r_status response_of]. apply andb_false_iff. right. apply Z.ltb_ge.
    repeat (apply elem_of_cons in Hc as [-> |Hc]; [lia|]). by apply elem_of_nil in Hc. }
  unfold iteration_passes, check. destruct (it_script it); cbn [forallb baseline_checks abuse_checks backpressure_checks saturation_checks]; rewrite ?H2; try done.
  unfold accepted_or_shed, has_retry_after. cbn [r_status r_headers response_of]. rewrite Hh.
  destruct (Z.eqb_spec (rp_code r) 429) as [-> |]; [done|].
  assert ((rp_code r =? 202) = false /\ (rp_code r =? 200) = false) as [-> ->]; [|done].
  repeat (apply elem_of_cons in Hc as [-> |Hc]; [done|]). by apply elem_of_nil in Hc.
Qed.
End Judge.

(** ** Counting the rows of many keys *)

Section Count.
Context (T : tables).

Definition rows_of (keys : list string) : gmap string event_row := filter (fun x => ev_idempotency_key x.2 ∈ keys) (events T).

Lemma rows_sum keys : NoDup keys -> size (rows_of keys) = sum_list_with (fun k => size (posted k T)) keys.
Proof.
  induction 1 as [|k keys Hk Hnd IH]; cbn [sum_list_with].
  - apply map_size_empty_iff, map_eq. intros i. rewrite lookup_empty. apply map_lookup_filter_None. right.
    by intros x _ ?%elem_of_nil.
  - rewrite <- IH. unfold rows_of, posted. rewrite <- map_size_disj_union.
    + f_equal. apply map_eq. intros i. apply option_eq. intros x.
      rewrite lookup_union_Some_raw, !map_lookup_filter_Some, map_lookup_filter_None. cbn. rewrite elem_of_cons.
      destruct (events T !! i) as [y|] eqn:E; [|naive_solver]. split.
      * intros [[= ->] [Hx|Hx]]; [by left|]. destruct (decide (ev_idempotency_key x = k)) as [Hy|Hy]; [by left|right].
        split; [|done]. right. by intros z [= ->].
      * naive_solver.
    + apply map_disjoint_spec. intros i x y [H1 H2]%map_lookup_filter_Some [H3 H4]%map_lookup_filter_Some. cbn in *. congruence.
Qed.

Definition is_202 (a : option reply) : bool := match a with Some r => rp_code r =? 202 | None => false end.
(** No answer, or one that leaves it open whether the event is stored. *)
Definition is_open (a : option reply) : bool := match a with Some r => rp_code r =? 500 | None => true end.

Lemma rows_between keys answers :
  NoDup keys ->
  Forall2 (fun k a => (size (posted k T) <= 1)%nat /\ (is_202 a = true -> size (posted k T) = 1%nat) /\
    (is_202 a = false -> is_open a = false -> size (posted k T) = 0%nat)) keys answers ->
  (length (List.filter is_202 answers) <= size (rows_of keys) <=
   length (List.filter is_202 answers) + length (List.filter is_open answers))%nat.
Proof.
  intros Hnd H. rewrite rows_sum by done. clear Hnd.
  induction H as [|k a keys answers (H1 & H2 & H3) _ IH]; cbn [sum_list_with List.filter]; [cbn; lia|].
  destruct (is_202 a) eqn:E2, (is_open a) eqn:Eo; cbn [length]; try specialize (H2 eq_refl); try specialize (H3 eq_refl eq_refl); lia.
Qed.
End Count.

(** ** A load test against the API *)

Section Run.
Context {RS BS : Type} `{!RedisServer RS} `{!RedisLaws RS} `{!BullMQ BS}.
Context (env : string -> option string) (print_number : string -> string).
Context (is_uuid : string -> bool) (issues_of : json -> json) (cfg : Config) (crash : bool).
Context (hmac : string -> string -> string).
Abbreviation T_of s := (pg_tables (s_pg s)).

(** An iteration, what the memo of the queue's counts answers it, and the
    session of its handler. *)
Abbreviation run := (iteration * option (gmap string Z) * session)%type.
Definition it_of (x : run) : iteration := x.1.1.

(** The calls of a test, and flows of the engine beside it. *)
Definition test_calls (runs : list run) (engine : list (flow * session)) : list (call * session) :=
  ((fun x => (Post x.1.2 (request_of env (it_of x)), x.2)) <$> runs) ++ ((fun f => (Engine f.1, f.2)) <$> engine).

(** Users and numbers identify the iterations; nothing else ingests; every
    call has a session of its own. *)
Record load_test (runs : list run) (engine : list (flow * session)) : Prop := {
  lt_moments x : x ∈ runs -> proper_moment (it_moment (it_of x)) /\
    lacks ":" (it_u1 (it_of x)) = true /\ lacks ":" (it_u2 (it_of x)) = true;
  lt_distinct : NoDup ((fun x => (m_vu (it_moment (it_of x)), m_iter (it_moment (it_of x)))) <$> runs);
  lt_engine f : f ∈ engine -> is_ingest f.1 = false;
  lt_idle c : c ∈ test_calls runs engine -> l_tx c.2 = None;
  lt_tids : NoDup ((fun c => l_tid c.2) <$> test_calls runs engine)
}.

Lemma test_call runs engine i c :
  test_calls runs engine !! i = Some c ->
  (exists x, runs !! i = Some x /\ c = (Post x.1.2 (request_of env (it_of x)), x.2)) \/
  (exists f, f ∈ engine /\ c = (Engine f.1, f.2)).
Proof.
  unfold test_calls. intros [H|[_ H]]%lookup_app_Some; apply list_lookup_fmap_Some_1 in H as (x & -> & H); [left|right]; exists x; [done|].
  split; [by eapply list_elem_of_lookup_2|done].
Qed.

Lemma runs_keys_apart runs engine i j x y :
  load_test runs engine -> runs !! i = Some x -> runs !! j = Some y -> i <> j -> keys_apart (it_key (it_of x)) (it_key (it_of y)).
Proof.
  intros Ht Hx Hy Hne. destruct (lt_moments _ _ Ht x) as (Hm & U1 & U2); [by eapply list_elem_of_lookup_2|].
  destruct (lt_moments _ _ Ht y) as (Hm' & U1' & U2'); [by eapply list_elem_of_lookup_2|].
  apply iteration_keys_apart; [done|done|by destruct (it_script _)|by destruct (it_script _)|].
  intros E. apply Hne. eapply (NoDup_lookup _ i j _ (lt_distinct _ _ Ht)); rewrite list_lookup_fmap, ?Hx, ?Hy; cbn; [reflexivity|].
  f_equal. by symmetry.
Qed.

Lemma test_own_calls runs engine : load_test runs engine -> own_calls (test_calls runs engine).
Proof.
  intros Ht. constructor; [apply Ht|apply Ht|]. intros i j c d k k' Hc Hd Hne Hk Hk'.
  apply test_call in Hc as [(x & Hx & ->)|([f l] & Hf & ->)]; apply test_call in Hd as [(y & Hy & ->)|([f' l'] & Hf' & ->)].
  - injection Hk as <-. injection Hk' as <-. by eapply runs_keys_apart.
  - apply (lt_engine _ _ Ht) in Hf'. by destruct f'.
  - apply (lt_engine _ _ Ht) in Hf. by destruct f.
  - apply (lt_engine _ _ Ht) in Hf. by destruct f.
Qed.

(** What the client of a call is answered, so far. *)
Definition answer_of (t : io (option reply) * session) : option reply :=
  match t.1 with Ret (Some r) => Some r | Throw e => Some (error_reply e None None) | _ => None end.

(** The event of an iteration, and nothing else under its key. *)
Definition stored_event (T : tables) (it : iteration) : Prop :=
  exists ev e, posted (it_key it) T = {[ev := e]} /\ ev_event_type e = it_type it /\ ev_payload e = it_payload it.

(** What an iteration is answered, how its script judges it, and what is so. *)
Definition judged (T : tables) (it : iteration) (r : reply) : Prop :=
  (rp_code r = 202 /\ iteration_passes print_number it (response_of r) = true /\ stored_event T it) \/
  (rp_code r ∈ [400; 404; 409; 413; 429; 500; 503] /\
   iteration_passes print_number it (response_of r) = match it_script it with Backpressure => rp_code r =? 429 | _ => false end /\
   (posted (it_key it) T = ∅ \/ (rp_code r = 500 /\ stored_event T it))).

Context (runs : list run) (engine : list (flow * session)) (Htest : load_test runs engine).
Context (s s' : shared RS BS) (ts' : list (io (option reply) * session)).
Context (Hx : exclusive s) (Hfree : forall x, x ∈ runs -> posted (it_key (it_of x)) (T_of s) = ∅ /\ uncached (it_key (it_of x)) s).
Context (Hrun : rtc (sys_move Services.env dies) (s, launched is_uuid issues_of cfg crash hmac (test_calls runs engine)) (s', ts')).

Lemma iteration_judged i x :
  runs !! i = Some x -> (size (posted (it_key (it_of x)) (T_of s')) <= 1)%nat /\
  forall t r, ts' !! i = Some t -> answer_of t = Some r -> judged (T_of s') (it_of x) r.
Proof using RedisLaws0 Htest Hx Hfree Hrun.
  intros Hi. destruct (Hfree x) as [HP Hu]; [by eapply list_elem_of_lookup_2|].
  assert (test_calls runs engine !! i = Some (Post x.1.2 (request_of env (it_of x)), x.2)) as Hc.
  { unfold test_calls. rewrite lookup_app_l by (rewrite length_fmap; by eapply lookup_lt_Some). by rewrite list_lookup_fmap, Hi. }
  destruct (post_outcome is_uuid issues_of cfg crash hmac _ i _ _ _ (it_key (it_of x)) (test_own_calls _ _ Htest) Hc eq_refl s s' ts'
    Hx HP Hu Hrun) as [Hsize Hends]. split; [done|]. intros [p l'] r Ht Ha. destruct (Hends p l' Ht) as [Hret Hthrow].
  assert (forall T ev, posts_one (it_key (it_of x)) is_uuid issues_of cfg (request_of env (it_of x)) T ev -> stored_event T (it_of x)) as Hst.
  { intros T ev (e & HP' & He). exists ev, e. split; [done|]. by eapply load_row. }
  destruct p as [[r'|]|e| |c k]; try done; cbn in Ha; injection Ha as <-.
  - left. destruct (Hret _ eq_refl) as (r & [= <-] & res & -> & Hn & Hev). split; [cbn; by rewrite Hn|].
    split; [by apply judge_accepted|]. by eapply Hst.
  - right. specialize (Hthrow _ eq_refl).
    assert (turned_down e) as Hd by (destruct Hthrow as [[_ ?]|[? _]]; [done|by left]).
    split; [by apply error_reply_headers|]. split; [by apply judge_refused|].
    destruct Hthrow as [[H _]|[Hf [ev H]]]; [by left|right]. split; [by rewrite (foreign_reply e Hf)|by eapply Hst].
Qed.

(** C30: what a load test counts. Let any number of iterations of the scripts,
    of different users or numbers, and any flows of the engine that do not
    ingest run interleaved call by call, with any answers, failures and deaths
    of processes, from tables and a cache without a trace of the iterations'
    keys. Then an iteration has one event at most, and is never taken for a
    duplicate. Answered 202, it passes its script's check, and its event is
    stored as it was sent. Any other answer fails the check, except a 429 to
    backpressure.js, which passes it; and there is no event then, unless the
    answer is a 500. So the rows of the test are at least the 202s, and at most
    these and the iterations without an answer or with a 500: zero-loss.sh
    compares them with all iterations. *)
Theorem zero_loss :
  (forall i x, runs !! i = Some x -> (size (posted (it_key (it_of x)) (T_of s')) <= 1)%nat /\
    forall t r, ts' !! i = Some t -> answer_of t = Some r -> judged (T_of s') (it_of x) r) /\
  let answers := answer_of <$> take (length runs) ts' in
  (length (List.filter is_202 answers) <= size (rows_of (T_of s') ((fun x => it_key (it_of x)) <$> runs)) <=
   length (List.filter is_202 answers) + length (List.filter is_open answers))%nat.
Proof using RedisLaws0 Htest Hx Hfree Hrun.
  split; [exact iteration_judged|]. intros answers.
  assert (length ts' = length (test_calls runs engine)) as Hlen.
  { assert (forall st st', rtc (sys_move Services.env dies) st st' ->
      length st'.2 = length (st.2 : list (io (option reply) * session))) as H
      by (induction 1 as [|st st1 st' Hm _ IH]; [done|]; rewrite IH; by eapply sys_move_length).
    pose proof (H _ _ Hrun) as Hl. cbn [snd] in Hl. unfold launched in Hl. by rewrite length_fmap in Hl. }
  apply rows_between.
  - apply NoDup_alt. intros i j k Hi Hj. apply list_lookup_fmap_Some_1 in Hi as (x & -> & Hi).
    apply list_lookup_fmap_Some_1 in Hj as (y & E & Hj). destruct (decide (i = j)) as [|Hne]; [done|].
    by destruct (runs_keys_apart _ _ _ _ _ _ Htest Hi Hj Hne).
  - apply Forall2_same_length_lookup_2.
    { unfold answers. rewrite !length_fmap, length_take, Hlen. unfold test_calls. rewrite length_app, !length_fmap. lia. }
    intros i k a Hk Ha. apply list_lookup_fmap_Some_1 in Hk as (x & -> & Hk).
    unfold answers in Ha. apply list_lookup_fmap_Some_1 in Ha as (t & -> & Ht). apply lookup_take_Some in Ht as [Ht _].
    destruct (iteration_judged i x Hk) as [H1 H2]. specialize (H2 t). split; [done|].
    assert (forall T, stored_event T (it_of x) -> size (posted (it_key (it_of x)) T) = 1%nat) as Hone
      by (intros T (ev & e & -> & _); apply map_size_singleton).
    destruct (answer_of t) as [r|]; [|by split]. cbn. destruct (H2 r Ht eq_refl) as [(Hc & _ & Hs)|(Hc & _ & Hs)].
    + split; [auto|]. rewrite Hc. done.
    + split.
      * intros E%Z.eqb_eq. exfalso. rewrite E in Hc. repeat (apply elem_of_cons in Hc as [Hc|Hc]; [done|]). by apply elem_of_nil in Hc.
      * intros _ Ho%Z.eqb_neq. destruct Hs as [-> |[? _]]; [apply map_size_empty|done].
Qed.
End Run.

(** ** Witness: two users and a sweep

    The iterations of a user of baseline.js and of one of backpressure.js,
    interleaved with a sweep; uuidv4 answers both the same. *)

Definition demo_env (name : string) : option string := if String.eqb name "ENDPOINT_ID" then Some "e1" else None.

Definition demo_iteration (sc : k6_script) (vu : Z) : iteration := {|
  it_script := sc; it_moment := {| m_vu := vu; m_iter := 0; m_now := 1000 |}; it_u1 := "u1"; it_u2 := "u2" |}.

Definition demo_runs : list (iteration * option (gmap string Z) * session) :=
  [(demo_iteration Baseline 1, None, demo_tid 1); (demo_iteration Backpressure 2, None, demo_tid 2)].

Definition demo_engine : list (flow * session) := [(FSweep 10, demo_tid 3)].

Definition demo_start := (demo_world 1000 (demo_tables PENDING [] None) ∅ ∅).1.

Definition demo_test : system :=
  run_schedule (serve reliable) ([0; 1; 2; 0; 1; 0; 1; 2; 0; 1; 0; 1] ++ repeat 0 12 ++ repeat 1 12 ++ repeat 2 6)%nat
    (demo_start, launched (fun _ => true) (fun _ => JNull) default_config false (fun _ _ => "")
      (test_calls demo_env demo_runs demo_engine)).

Lemma demo_load_test : load_test demo_env demo_runs demo_engine.
Proof.
  constructor.
  - intros x Hx. repeat (apply elem_of_cons in Hx as [-> |Hx]; [by repeat split|]). by apply elem_of_nil in Hx.
  - apply (bool_decide_unpack _); vm_compute; exact I.
  - intros f [-> |Hf]%elem_of_cons; [done|by apply elem_of_nil in Hf].
  - intros c Hc. repeat (apply elem_of_cons in Hc as [-> |Hc]; [done|]). by apply elem_of_nil in Hc.
  - apply (bool_decide_unpack _); vm_compute; exact I.
Qed.

Lemma demo_free x : x ∈ demo_runs -> posted (it_key (it_of x)) (pg_tables (s_pg demo_start)) = ∅ /\ uncached (it_key (it_of x)) demo_start.
Proof.
  intros Hx. split.
  - repeat (apply elem_of_cons in Hx as [-> |Hx]; [vm_compute; reflexivity|]). by apply elem_of_nil in Hx.
  - intros client. cbn. unfold live. by rewrite map_filter_empty.
Qed.

Lemma zero_loss_witness :
  let T := pg_tables (s_pg demo_test.1) in
  size (rows_of T ((fun x => it_key (it_of x)) <$> demo_runs)) = 2%nat /\ stored_event T (demo_iteration Backpressure 2).
Proof.
  intros T.
  assert (exclusive demo_start) as Hx by (by intros k t1 t2 ?%elem_of_nil).
  assert (rtc (sys_move env dies) (demo_start, launched (fun _ => true) (fun _ => JNull) default_config false (fun _ _ => "")
    (test_calls demo_env demo_runs demo_engine)) demo_test) as Hrun by apply run_schedule_moves, serve_env.
  destruct (answer_of <$> take 2 demo_test.2) as [|a1 [|a2 [|a3 as_]]] eqn:E; try (vm_compute in E; discriminate E).
  assert (is_202 a1 = true /\ is_202 a2 = true /\ is_open a1 = false /\ is_open a2 = false) as (A1 & A2 & O1 & O2)
    by (vm_compute in E; injection E as <- <-; repeat split; reflexivity).
  pose proof demo_load_test as Hl. pose proof demo_free as Hf. subst T. revert E Hrun. generalize demo_test. intros [s' ts'] E Hrun.
  cbn [fst snd] in E |- *.
  pose proof (zero_loss demo_env id (fun _ => true) (fun _ => JNull) default_config false (fun _ _ => "") demo_runs demo_engine
    Hl demo_start s' ts' Hx Hf Hrun) as [H1 H2].
  cbv zeta in H2. change (length demo_runs) with 2%nat in H2. rewrite E in H2. cbn [List.filter] in H2.
  rewrite A1, A2, O1, O2 in H2. cbn [length] in H2. split; [lia|].
  destruct (H1 1%nat (demo_iteration Backpressure 2, None, demo_tid 2) eq_refl) as [_ H3].
  destruct ts' as [|t1 [|t2 ts']]; try discriminate E. cbn in E. injection E as E1 E2.
  destruct a2 as [r|]; [|discriminate A2]. destruct (H3 t2 r eq_refl E2) as [(_ & _ & Hs)|(Hc & _)]; [exact Hs|].
  apply Z.eqb_eq in A2. rewrite A2 in Hc. exfalso.
  repeat (apply elem_of_cons in Hc as [Hc|Hc]; [done|]). by apply elem_of_nil in Hc.
Defined.

(** ** The setups *)

(** baseline.js starts at the first of 30 healthchecks that is answered 200,
    and fails when none is. *)
Theorem baseline_setup_starts (answers : nat -> response) (n : nat) :
  baseline_setup answers = inr n <->
  (n < 30)%nat /\ r_status (answers n) = 200 /\ forall i, (i < n)%nat -> r_status (answers i) <> 200.
Proof.
  unfold baseline_setup. destruct (await_healthy answers 30 0) as [m|] eqn:E.
  - apply await_healthy_spec in E as (H1 & H2 & H3). split.
    + intros [= ->]. split; [lia|]. split; [done|]. intros i Hi. apply H3. lia.
    + intros (G1 & G2 & G3). f_equal. destruct (Nat.lt_trichotomy m n) as [H|[H|H]]; [by destruct (G3 m H)|done|by destruct (H3 n); [lia|]].
  - split; [done|]. intros (G1 & G2 & G3). assert (await_healthy answers 30 0 = Some n) as H; [|congruence].
    apply await_healthy_spec. split; [lia|]. split; [done|]. intros j Hj. apply G3. lia.
Qed.

(** The endpoint abuse.js registers is the one it posts to: a registration
    that is answered 201 gives its id to every iteration. *)
Theorem abuse_posts_to_its_endpoint print_number env (row : EndpointRow) m u1 u2 :
  abuse_setup print_number (response_of (row_reply 201 [row])) = inr (er_id row) /\
  it_target env {| it_script := Abuse (er_id row); it_moment := m; it_u1 := u1; it_u2 := u2 |} = er_id row.
Proof.
  split; [|done]. unfold abuse_setup. change (status_2xx (response_of (row_reply 201 [row]))) with true. cbv iota.
  cbn [r_body response_of]. rewrite parse_stringify; [done|]. by repeat split.
Qed.

Lemma env_or_nonempty env name d : d <> "" -> env_or env name d <> "".
Proof. unfold env_or. intros Hd. by destruct (env name) as [[|c r]|]. Qed.

(** What it registers is well-formed, if its URL is one. *)
Lemma abuse_endpoint_accepted is_url env :
  (String.length (CLIENT_ID env) <= 255)%nat -> is_url (CHAOS_URL env) = true ->
  createSchema is_url (abuse_endpoint env) = Some (CLIENT_ID env, CHAOS_URL env, Some "whsec_test_receiver_secret").
Proof.
  intros Hl Hu. assert (CLIENT_ID env <> "") as Hn by by apply env_or_nonempty.
  change (createSchema is_url (abuse_endpoint env)) with
    (if (1 <=? String.length (CLIENT_ID env))%nat && (String.length (CLIENT_ID env) <=? 255)%nat && is_url (CHAOS_URL env)
     then Some (CLIENT_ID env, CHAOS_URL env, Some "whsec_test_receiver_secret") else None).
  rewrite Hu, (proj2 (Nat.leb_le _ _) Hl). by destruct (CLIENT_ID env).
Qed.

(** ** The buckets of saturation.js *)

(** [options]: the seconds and the target of each stage. *)
Definition saturation_stages : list (Z * Z) :=
  [(60, 500); (120, 500); (60, 1000); (120, 1000); (60, 2000); (120, 2000); (60, 3000); (120, 3000);
   (60, 4000); (120, 4000); (30, 0)].

(** The label of a user is the least target with a place for it. *)
Theorem bucket_is_target (vu : Z) : 1 <= vu <= 4000 ->
  exists n, read_Z (vuBucket vu) = Some n /\ vu <= n /\ n ∈ saturation_stages.*2 /\
    forall t, t ∈ saturation_stages.*2 -> vu <= t -> n <= t.
Proof.
  intros Hv. unfold vuBucket.
  destruct (Z.leb_spec vu 500); [exists 500|destruct (Z.leb_spec vu 1000); [exists 1000|
    destruct (Z.leb_spec vu 2000); [exists 2000|destruct (Z.leb_spec vu 3000); [exists 3000|exists 4000]]]];
    (split; [reflexivity|]; split; [lia|]; split; [cbn; set_solver|]; intros t Ht Hle;
     unfold saturation_stages in Ht; cbn in Ht; repeat (apply elem_of_cons in Ht as [-> |Ht]; [lia|]); by apply elem_of_nil in Ht).
Qed.

(** But it is the user's number, and the users of the first stages stay: while
    a stage has [n] users, its samples carry every label up to its own, so the
    samples of a label come from stages of every larger target. *)
Theorem buckets_mix (n t : Z) : n ∈ saturation_stages.*2 -> t ∈ saturation_stages.*2 -> 0 < t <= n ->
  exists vu, 1 <= vu <= n /\ read_Z (vuBucket vu) = Some t.
Proof.
  intros Hn Ht Hle. exists t. split; [lia|]. unfold saturation_stages in Ht. cbn in Ht.
  repeat (apply elem_of_cons in Ht as [-> |Ht]; [first [reflexivity|lia]|]). by apply elem_of_nil in Ht.
Qed.
