(* ===== verification/Receiver.v ===== *)
(** * The test receiver

    src/src/test-receiver/index.ts, the customer's side of a delivery: the
    request log, and the routes as a machine over the module's state. A route
    answers at once, later, piece by piece or never ([answer]). Numbers read
    from a request are integers or NaN, but for the rates of the chaos knobs. *)

From S2P Require Import Prelude Async Config Json Parse Dates Tables Queries Schema Redis Services Concrete Scripts.
From S2P Require Lock TokenBucket.
From S2P Require Import CircuitBreaker Repo Signature Worker Cursor.
From Stdlib Require Import ZArith QArith Lia String.
From stdpp Require Import prelude strings gmap.

Open Scope Z_scope.

(** ** State *)

Record LoggedRequest := {
  lg_id : option string; lg_attempt : option jsnum; lg_ts : option jsnum; lg_path : string;
  lg_body : json; lg_validSignature : bool; lg_receivedAt : string
}.

Record ChaosConfig := { errorRate : Q; timeoutRate : Q; slowDripMs : Q }.

Definition no_chaos : ChaosConfig := {| errorRate := 0; timeoutRate := 0; slowDripMs := 0 |}.

Record receiver := {
  requestLog : list LoggedRequest; flapCounts : gmap string Z; chaosConfig : ChaosConfig
}.

Definition started : receiver := {| requestLog := []; flapCounts := ∅; chaosConfig := no_chaos |}.

(** ** Requests and answers *)

Record incoming := {
  in_path : string; in_query : list (string * string); in_headers : list (string * string); in_body : string
}.

Inductive answer :=
| Reply (code : Z) (body : json)
| After (ms : Z) (code : Z) (body : json)
| Drip (interval : Q) (chunks : list json)
| Never.

Inductive route :=
| POST_ok
| POST_fail (status : string)
| POST_timeout (ms : string)
| POST_flap (n : string)
| POST_chaos
| GET_requests
| POST_reset.

(** [n || d]. *)
Definition num_or (n : jsnum) (d : Z) : Z := match n with NaN => d | Num z => if z =? 0 then d else z end.

(** A header that is there and not empty. *)
Definition header_number (Number : string -> jsnum) (v : option string) : option jsnum :=
  match v with None | Some "" => None | Some s => Some (Number s) end.

Section Receiver.
(** The platform ([Buffer] and number printing), [Number], its finite values,
    the HMAC and the secret. *)
Context (pf : platform) (Number : string -> jsnum) (finite : string -> option Q).
Context (hmac : string -> string -> string) (SIGNING_SECRET : string).

(** A parameter given once is a text; a repeated one is an array. *)
Definition query_text (rq : incoming) (name : string) : option string :=
  match filter (fun x => x.1 = name) (in_query rq) with [(_, v)] => Some v | _ => None end.

Definition queryNumber (rq : incoming) (name : string) : option Q :=
  match query_text rq name with Some s => finite s | None => None end.

(** The body as JSON, else as text. *)
Definition parsedBody (rawBody : string) : json :=
  if String.eqb rawBody "" then JNull
  else
    let text := buffer_utf8 pf rawBody in
    match JSON_parse (pf_number pf) text with Some v => v | None => JStr text end.

(** The entry of a request that arrives at [now]. *)
Definition logged (now : Z) (rq : incoming) : LoggedRequest := {|
  lg_id := header "x-webhook-id" (in_headers rq);
  lg_attempt := header_number Number (header "x-webhook-attempt" (in_headers rq));
  lg_ts := header_number Number (header "x-webhook-timestamp" (in_headers rq));
  lg_path := in_path rq; lg_body := parsedBody (in_body rq);
  lg_validSignature := validSignature Number hmac SIGNING_SECRET (in_headers rq) (buffer_utf8 pf (in_body rq));
  lg_receivedAt := toISOString now |}.

Definition with_log (e : LoggedRequest) (s : receiver) : receiver := {|
  requestLog := requestLog s ++ [e]; flapCounts := flapCounts s; chaosConfig := chaosConfig s |}.
Definition with_flap (key : string) (n : Z) (s : receiver) : receiver := {|
  requestLog := requestLog s; flapCounts := <[key := n]> (flapCounts s); chaosConfig := chaosConfig s |}.
Definition with_chaos (c : ChaosConfig) (s : receiver) : receiver := {|
  requestLog := requestLog s; flapCounts := flapCounts s; chaosConfig := c |}.

Definition ok_body (fs : list (string * json)) : json := JObj (("ok", JBool true) :: fs).
Definition failed_body (fs : list (string * json)) : json := JObj (("failed", JBool true) :: fs).
Definition num (z : Z) : json := JNum (show_Z z).

(** [/flap/:n]: the first [n] requests of a delivery fail. *)
Definition flap (n : Z) (id : option string) (s : receiver) : receiver * answer :=
  let key := default "unknown" id in
  let priorFailures := default 0 (flapCounts s !! key) in
  if priorFailures <? n then
    (with_flap key (priorFailures + 1) s,
     Reply 503 (failed_body [("failureNumber", num (priorFailures + 1)); ("of", num n)]))
  else (s, Reply 200 (ok_body [("recoveredAfterFailures", num priorFailures)])).

(** The knobs the query sets; the others stay. *)
Definition new_knobs (rq : incoming) (c : ChaosConfig) : ChaosConfig := {|
  errorRate := default (errorRate c) (queryNumber rq "error_rate");
  timeoutRate := default (timeoutRate c) (queryNumber rq "timeout_rate");
  slowDripMs := default (slowDripMs c) (queryNumber rq "slow_drip_ms") |}.

Definition below (a b : Q) : bool := negb (Qle_bool b a).

(** What a draw of [Math.random()] decides. *)
Definition chaos_answer (c : ChaosConfig) (roll : Q) : answer :=
  if below roll (timeoutRate c) then Never
  else if below roll (timeoutRate c + errorRate c) then Reply 500 (JObj [("chaos", JStr "error_rate")])
  else if below 0 (slowDripMs c) then
    Drip (slowDripMs c / 4) (map (fun i => JObj [("chunk", num (Z.of_nat i))]) (seq 0 4))
  else Reply 200 (ok_body []).

Definition chaos (roll : Q) (rq : incoming) (s : receiver) : receiver * answer :=
  let c := new_knobs rq (chaosConfig s) in (with_chaos c s, chaos_answer c roll).

(** The part of a webhook route behind the signature check. *)
Definition accept (rt : route) (roll : Q) (rq : incoming) (id : option string) (s : receiver) : receiver * answer :=
  match rt with
  | POST_fail st => let status := num_or (Number st) 500 in
      (s, Reply status (failed_body [("status", num status)]))
  | POST_timeout ms => let delayMs := num_or (Number ms) 0 in
      (s, After delayMs 200 (ok_body [("delayedMs", num delayMs)]))
  | POST_flap n => flap (num_or (Number n) 0) id s
  | POST_chaos => chaos roll rq s
  | _ => (s, Reply 200 (ok_body []))
  end.

Definition num_json_opt (n : option jsnum) : json :=
  match n with Some (Num z) => num z | _ => JNull end.

Definition entry_json (e : LoggedRequest) : json :=
  JObj [("id", opt_json JStr (lg_id e)); ("attempt", num_json_opt (lg_attempt e)); ("ts", num_json_opt (lg_ts e));
        ("path", JStr (lg_path e)); ("body", lg_body e); ("validSignature", JBool (lg_validSignature e));
        ("receivedAt", JStr (lg_receivedAt e))].

(** The entries GET /_requests answers with. *)
Definition requests_of (rq : incoming) (s : receiver) : list LoggedRequest :=
  match query_text rq "webhook_id" with
  | Some webhookId => filter (fun e => lg_id e = Some webhookId) (requestLog s)
  | None => requestLog s
  end.

(** One request, at [now] in milliseconds, with the draw it would take. *)
Definition serve_request (now : Z) (roll : Q) (rt : route) (rq : incoming) (s : receiver) : receiver * answer :=
  match rt with
  | GET_requests => (s, Reply 200 (JObj [("requests", JArr (map entry_json (requests_of rq s)))]))
  | POST_reset => (started, Reply 200 (JObj [("reset", JBool true)]))
  | _ =>
      let entry := logged now rq in
      let s := with_log entry s in
      if lg_validSignature entry then accept rt roll rq (lg_id entry) s
      else (s, Reply 401 (JObj [("error", JStr "invalid_signature")]))
  end.

(** Several requests, one after the other. *)
Fixpoint serve_all (l : list (Z * Q * route * incoming)) (s : receiver) : receiver * list answer :=
  match l with
  | [] => (s, [])
  | (now, roll, rt, rq) :: l =>
      let '(s1, a) := serve_request now roll rt rq s in
      let '(s2, rest) := serve_all l s1 in (s2, a :: rest)
  end.

(** ** What the receiver guarantees *)

Definition webhook_route (rt : route) : bool := match rt with GET_requests | POST_reset => false | _ => true end.

(** Every webhook request is logged, once and last, whatever it is answered. *)
Lemma serve_logs now roll rt rq s :
  webhook_route rt = true ->
  requestLog (serve_request now roll rt rq s).1 = requestLog s ++ [logged now rq].
Proof.
  intros H. destruct rt; try done; cbn [serve_request]; destruct (lg_validSignature _); try done.
  unfold accept, flap. by destruct (_ <? _).
Qed.

(** A request with a wrong signature is rejected and changes no knob and no
    counter. *)
Lemma serve_unsigned now roll rt rq s :
  webhook_route rt = true -> lg_validSignature (logged now rq) = false ->
  serve_request now roll rt rq s = (with_log (logged now rq) s, Reply 401 (JObj [("error", JStr "invalid_signature")])).
Proof. intros H Hv. by destruct rt; try done; cbn [serve_request]; rewrite Hv. Qed.

(** ** Recovery *)

(** The code of an immediate answer. *)
Definition answer_code (a : answer) : option Z := match a with Reply c _ => Some c | _ => None end.

(** Signed requests of one delivery to [/flap/:n], at any times. *)
Definition flap_request (n id : string) (x : Z * Q * route * incoming) : Prop :=
  let '(now, roll, rt, rq) := x in
  rt = POST_flap n /\ header "x-webhook-id" (in_headers rq) = Some id /\ lg_validSignature (logged now rq) = true.

(** One such request. *)
Lemma serve_flap now roll n id rq s :
  flap_request n id (now, roll, POST_flap n, rq) ->
  let f := num_or (Number n) 0 in
  let prior := default 0 (flapCounts s !! id) in
  exists s' a, serve_request now roll (POST_flap n) rq s = (s', a) /\
    answer_code a = Some (if prior <? f then 503 else 200) /\
    default 0 (flapCounts s' !! id) = (if prior <? f then prior + 1 else prior).
Proof.
  intros (_ & Hid & Hv) f prior. cbn [serve_request]. rewrite Hv. unfold accept, flap. cbn [logged lg_id]. rewrite Hid.
  change (default 0 (flapCounts (with_log (logged now rq) s) !! default "unknown" (Some id))) with prior. fold f.
  destruct (prior <? f); eexists _, _; (split; [reflexivity|]); (split; [done|]); [|done].
  cbn. by rewrite lookup_insert_eq.
Qed.

Lemma flap_run n id l s :
  Forall (flap_request n id) l ->
  let f := num_or (Number n) 0 in
  let prior := default 0 (flapCounts s !! id) in
  map answer_code (serve_all l s).2 =
  replicate (Nat.min (Z.to_nat (f - prior)) (length l)) (Some 503) ++
  replicate (length l - Z.to_nat (f - prior)) (Some 200).
Proof.
  intros H. revert s. induction H as [|[[[now roll] rt] rq] l Hx Hl IH]; intros s f prior.
  { cbn. by rewrite Nat.min_0_r. }
  pose proof Hx as [-> _]. destruct (serve_flap _ _ _ _ _ s Hx) as (s1 & a & Ha & Hc & Hn). fold f prior in Hc, Hn.
  cbn [serve_all]. rewrite Ha. specialize (IH s1). cbv zeta in IH. fold f in IH. rewrite Hn in IH.
  destruct (serve_all l s1) as [s2 rest]. cbn [snd map length] in *. rewrite Hc, IH.
  destruct (Z.ltb_spec prior f).
  - by replace (Z.to_nat (f - prior)) with (S (Z.to_nat (f - (prior + 1)))) by lia.
  - replace (Z.to_nat (f - prior)) with O by lia. cbn. by rewrite Nat.sub_0_r.
Qed.
End Receiver.

(** ** Properties *)

(** The request of the worker, as it arrives. *)
Definition arrives (path : string) (query : list (string * string)) (r : http_request) : incoming := {|
  in_path := path; in_query := query; in_headers := h_headers r; in_body := h_body r |}.

(** The value [outboundBody] prints. *)
Definition outbound (d : DeliveryForWorker) : json :=
  JObj [("event_id", JStr (eventId d)); ("event_type", JStr (eventType d));
        ("created_at", JStr (toISOString (receivedAt d))); ("data", payload d)].

Lemma signed_text_not_empty (z : Z) : show_Z z <> "".
Proof. intros E. pose proof (read_show_Z z) as H. by rewrite E in H. Qed.

(** C33: what the worker sends is what its customer reads. The request of an
    attempt, received by a holder of the endpoint's secret, is logged as
    correctly signed, with the delivery's id, the number of the attempt, the
    second it was signed and, after parsing, the very event: its id, type,
    time and payload. *)
Theorem receiver_reads_worker (pf : platform) (Number : string -> jsnum) (hmac : string -> string -> string)
    (cfg : Config) (deliveryId path : string) (query : list (string * string)) (d : DeliveryForWorker) (sent_at now : Z) :
  (forall z, Number (show_Z z) = Num z) -> deliveryId <> "" ->
  hmac (signingSecret d) (signed_payload (Num (sent_at / 1000)) (outboundBody d)) <> "" ->
  utf8_valid (outboundBody d) = true -> printable (pf_number pf) (payload d) ->
  logged pf Number hmac (signingSecret d) now (arrives path query (attempt_request cfg hmac deliveryId d sent_at)) = {|
    lg_id := Some deliveryId; lg_attempt := Some (Num (attemptNumber d)); lg_ts := Some (Num (sent_at / 1000));
    lg_path := path; lg_body := outbound d; lg_validSignature := true; lg_receivedAt := toISOString now |}.
Proof.
  intros HN Hid Hh Hu Hp. unfold logged, arrives, attempt_request, delivery_request. cbn [in_path in_headers in_body h_headers h_body].
  rewrite buffer_utf8_valid by done. f_equal.
  - unfold header_number. cbn. pose proof (signed_text_not_empty (attemptNumber d)) as Hne.
    destruct (show_Z (attemptNumber d)) eqn:E; [done|]. by rewrite <- E, HN.
  - unfold header_number. cbn. pose proof (signed_text_not_empty (sent_at / 1000)) as Hne.
    destruct (show_Z (sent_at / 1000)) eqn:E; [done|]. by rewrite <- E, HN.
  - unfold parsedBody. rewrite buffer_utf8_valid by done. unfold outboundBody at 1. cbn [stringify].
    change (String.eqb ("{" ++s ?x) "") with false. cbn iota. unfold outboundBody. rewrite parse_stringify; [done|]. cbn. tauto.
  - apply signed_accepted; done.
Qed.

Lemma receiver_reads_worker_witness :
  let d := {| dw_id := "d1"; dw_status := PENDING; attemptCount := 1; endpointId := "e1";
    endpointUrl := "http://receiver/ok"; signingSecret := "k"; endpointActive := true; eventId := "v1";
    eventType := "order.created"; payload := JObj [("id", JNum "1")]; receivedAt := 0 |} in
  let rq := arrives "/ok" [] (attempt_request default_config toy_hmac "d1" d 5000) in
  lg_validSignature (logged demo_platform decimal_Number toy_hmac "k" 6000 rq) = true /\
  (serve_request demo_platform decimal_Number (fun _ => None) toy_hmac "k" 6000 0 POST_ok rq started).2 =
    Reply 200 (JObj [("ok", JBool true)]).
Proof.
  intros d rq.
  assert (lg_validSignature (logged demo_platform decimal_Number toy_hmac "k" 6000 rq) = true) as H.
  { refine (f_equal lg_validSignature
      (receiver_reads_worker demo_platform decimal_Number toy_hmac default_config "d1" "/ok" [] d 5000 6000 _ _ _ _ _)).
    - intros z. unfold decimal_Number. rewrite read_show_Z. reflexivity.
    - discriminate.
    - discriminate.
    - vm_compute. reflexivity.
    - cbn. repeat split. }
  split; [exact H|]. cbn [serve_request]. rewrite H. reflexivity.
Defined.

(** An endpoint that fails [n] times recovers. Signed requests of one
    delivery to [/flap/:n], at whatever times, are answered 503 until [n] of
    them have failed since the last reset and 200 from then on. *)
Theorem flap_recovers (pf : platform) (Number : string -> jsnum) (finite : string -> option Q)
    (hmac : string -> string -> string) (secret n id : string) (l : list (Z * Q * route * incoming)) (s : receiver) :
  Forall (flap_request pf Number hmac secret n id) l -> flapCounts s !! id = None ->
  let f := Z.to_nat (num_or (Number n) 0) in
  map answer_code (serve_all pf Number finite hmac secret l s).2 =
  replicate (Nat.min f (length l)) (Some 503) ++ replicate (length l - f) (Some 200).
Proof.
  intros Hl Hs f. rewrite (flap_run pf Number finite hmac secret n id l s Hl), Hs. cbn [from_option].
  by rewrite Z.sub_0_r.
Qed.

Definition flap_demo (now : Z) : Z * Q * route * incoming :=
  (now, 0%Q, POST_flap "2",
   {| in_path := "/flap/2"; in_query := [];
      in_headers := buildWebhookHeaders "d1" 1 5 (sign toy_hmac "k" (Num 5) "{}"); in_body := "{}" |}).

Lemma flap_recovers_witness :
  map answer_code (serve_all demo_platform decimal_Number (fun _ => None) toy_hmac "k" (map flap_demo [1; 2; 3; 4]) started).2 =
  [Some 503; Some 503; Some 200; Some 200].
Proof.
  rewrite (flap_recovers demo_platform decimal_Number (fun _ => None) toy_hmac "k" "2" "d1" (map flap_demo [1; 2; 3; 4]) started).
  - vm_compute. reflexivity.
  - repeat constructor.
  - reflexivity.
Defined.

(** The receiver never accepts what is not signed with its secret. A
    webhook request is logged once, whatever its route, with the verdict of
    the check; when the check fails the answer is 401 and neither the failure
    counters nor the chaos knobs move. *)
Theorem unsigned_rejected (pf : platform) (Number : string -> jsnum) (finite : string -> option Q)
    (hmac : string -> string -> string) (secret : string) (now : Z) (roll : Q) (rt : route) (rq : incoming) (s : receiver) :
  webhook_route rt = true ->
  let '(s', a) := serve_request pf Number finite hmac secret now roll rt rq s in
  requestLog s' = requestLog s ++ [logged pf Number hmac secret now rq] /\
  (validSignature Number hmac secret (in_headers rq) (buffer_utf8 pf (in_body rq)) = false ->
   answer_code a = Some 401 /\ flapCounts s' = flapCounts s /\ chaosConfig s' = chaosConfig s).
Proof.
  intros H. pose proof (serve_logs pf Number finite hmac secret now roll rt rq s H) as Hl.
  pose proof (serve_unsigned pf Number finite hmac secret now roll rt rq s H) as Hu.
  destruct (serve_request _ _ _ _ _ _ _ _ _ _) as [s' a]. split; [done|]. intros Hv. specialize (Hu Hv). by injection Hu as -> ->.
Qed.

Lemma unsigned_rejected_witness :
  let rq := {| in_path := "/flap/2"; in_query := []; in_headers := [("x-webhook-id", "d1")]; in_body := "{}" |} in
  answer_code (serve_request demo_platform decimal_Number (fun _ => None) toy_hmac "k" 7 0 (POST_flap "2") rq started).2 = Some 401.
Proof.
  intros rq.
  pose proof (unsigned_rejected demo_platform decimal_Number (fun _ => None) toy_hmac "k" 7 0 (POST_flap "2") rq started eq_refl) as H.
  destruct (serve_request _ _ _ _ _ _ _ _ _ _) as [s' a]. exact (proj1 (proj2 H eq_refl)).
Defined.
