(* ===== verification/Dashboard.v ===== *)
(** * The dashboard

    src/dashboard/src/: the requests its components make and what they keep
    of the answers. Section [Requests]: the filters as a query of the read
    API; [Errors]: the API's errors as they arrive; [Table] and [DlqView]: the
    two lists with their overlapping polls, pages and retries, as step
    relations over their state and the requests in flight; [Poll]: the hook
    that repeats a request while the page is visible. Each event runs on the
    state as last rendered. What is drawn is in Views.v. *)

From S2P Require Import Prelude Async Config Json Parse Dates Tables Queries Schema Redis Services Repo.
From S2P Require Import Cursor Listing Api ReadApi.
From Stdlib Require Import ZArith Lia String Ascii.
From stdpp Require Import prelude strings gmap.

Open Scope Z_scope.

(** ** Filters *)

Record Filters := { fl_statuses : list string; fl_endpoint_id : string; fl_from : string; fl_to : string }.

Definition EMPTY_FILTERS : Filters := {| fl_statuses := []; fl_endpoint_id := ""; fl_from := ""; fl_to := "" |}.

Definition ALL_STATUSES : list string := ["PENDING"; "DELIVERING"; "DELIVERED"; "FAILED"; "DLQ"].

Definition toggleStatus (s : string) (value : Filters) : Filters := {|
  fl_statuses := if bool_decide (s ∈ fl_statuses value) then filter (fun x => x <> s) (fl_statuses value)
                 else fl_statuses value ++ [s];
  fl_endpoint_id := fl_endpoint_id value; fl_from := fl_from value; fl_to := fl_to value |}.

(** ** Text *)

Definition shortId (id : string) : string := str_take 8 id.

Definition truncate (s : option string) (n : nat) : string :=
  match s with
  | None | Some "" => "—"
  | Some s => if (n <? String.length s)%nat then str_take n s ++s "…" else s
  end.

(** [relTime], at [now] for a date at [t]. *)
Definition relTime (now t : Z) : string :=
  let diff := now - t in
  if diff <? 60000 then show_Z (diff / 1000) ++s "s ago"
  else if diff <? 3600000 then show_Z (diff / 60000) ++s "m ago"
  else show_Z (diff / 3600000) ++s "h ago".

(** ** App.tsx *)

Inductive Tab := tab_deliveries | tab_dlq.

Record app := { ap_tab : Tab; ap_filters : Filters; ap_selectedId : option string }.

Inductive app_event := ClickTab (t : Tab) | ChangeFilters (f : Filters) | SelectRow (id : string) | ClosePanel.

Definition app_step (a : app) (e : app_event) : app :=
  match e with
  | ClickTab t => {| ap_tab := t; ap_filters := ap_filters a; ap_selectedId := ap_selectedId a |}
  | ChangeFilters f => {| ap_tab := ap_tab a; ap_filters := f; ap_selectedId := None |}
  | SelectRow id => {| ap_tab := ap_tab a; ap_filters := ap_filters a; ap_selectedId := Some id |}
  | ClosePanel => {| ap_tab := ap_tab a; ap_filters := ap_filters a; ap_selectedId := None |}
  end.

(** ** Requests *)

Definition params : Type := list (string * string).

Section Requests.
(** [new Date] of the text of a datetime-local input. *)
Context (local_Date : string -> jsnum).

(** [if (v) p[name] = new Date(v).toISOString()]. *)
Definition date_entry (name v : string) (p : params) : exn + params :=
  match v with
  | "" => inr p
  | _ => match iso_of (local_Date v) with inl e => inl e | inr s => inr (p ++ [(name, s)]) end
  end.

Definition buildParams (filters : Filters) (cursor : option string) : exn + params :=
  let p := [("limit", "50")] in
  let p := match fl_statuses filters with [] => p | ss => p ++ [("status", str_join "," ss)] end in
  let p := match fl_endpoint_id filters with "" => p | e => p ++ [("endpoint_id", e)] end in
  match date_entry "from" (fl_from filters) p with
  | inl e => inl e
  | inr p =>
      match date_entry "to" (fl_to filters) p with
      | inl e => inl e
      | inr p => inr (match cursor with None | Some "" => p | Some c => p ++ [("cursor", c)] end)
      end
  end.

(** The query the API gets: [URLSearchParams] carries names and values as they
    are. *)
Definition sent (p : params) (name : string) : http_header :=
  match find (fun x => String.eqb x.1 name) p with Some x => One x.2 | None => Absent end.

Definition query_of (p : params) : list_query := {|
  q_status := sent p "status"; q_endpoint_id := sent p "endpoint_id"; q_from := sent p "from"; q_to := sent p "to";
  q_limit := sent p "limit"; q_cursor := sent p "cursor" |}.

(** ** What the API makes of them *)

(** A filter as the user means it. *)
Definition meant_date (v : string) : option jsnum := match v with "" => None | _ => Some (local_Date v) end.

Definition meant (filters : Filters) (cursor : option string) : list_params := {|
  p_status := fl_statuses filters;
  p_endpoint_id := match fl_endpoint_id filters with "" => None | e => Some e end;
  p_from := meant_date (fl_from filters); p_to := meant_date (fl_to filters);
  p_limit := 50; p_cursor := match cursor with Some "" => None | c => c end |}.

Lemma status_filter_join ss :
  ss <> [] -> Forall (fun s => s ∈ ALL_STATUSES) ss -> status_filter (Some (str_join "," ss)) = ss.
Proof.
  intros Hne H. unfold status_filter. destruct (str_join "," ss) as [|c t] eqn:E.
  { destruct H as [|s ss Hs Hss]; [done|]. exfalso. assert (s <> "") as Hs' by (unfold ALL_STATUSES in Hs; set_solver).
    destruct ss; cbn in E; destruct s; done. }
  rewrite <- E, (str_split_join "," ss); [|done|].
  - assert (Forall (fun s => str_upper (str_trim s) = s /\ s ∈ VALID_STATUSES) ss) as Hv.
    { eapply Forall_impl; [exact H|]. intros s Hs. unfold ALL_STATUSES in Hs. repeat (apply elem_of_cons in Hs as [-> |Hs]; [split; [done|by apply (bool_decide_unpack _)]|]).
      by apply elem_of_nil in Hs. }
    clear -Hv. induction Hv as [|s ss [Hu Hin] Hv IH]; [done|]. cbn [map]. rewrite Hu, filter_cons, decide_True by done. by f_equal.
  - eapply Forall_impl; [exact H|]. intros s Hs. unfold ALL_STATUSES in Hs.
    repeat (apply elem_of_cons in Hs as [-> |Hs]; [done|]). by apply elem_of_nil in Hs.
Qed.

(** An input that is empty or holds a date with a year of four digits. *)
Definition date_input (v : string) : Prop :=
  v = "" \/ exists ms, local_Date v = Num ms /\ four_digit_years (ms / 86400000).

Lemma toISOString_not_empty ms : toISOString ms <> "".
Proof.
  intros E%(f_equal String.length). unfold toISOString in E. destruct (civil_from_days _) as [[y m] d].
  rewrite !str_app_length in E. cbn in E. lia.
Qed.

(** A date input is sent as a text the API reads as the same date. *)
Lemma date_entry_sent (new_Date : string -> jsnum) name v p :
  (forall ms, four_digit_years (ms / 86400000) -> new_Date (toISOString ms) = Num ms) -> date_input v ->
  exists o, date_entry name v p = inr (match o with Some s => p ++ [(name, s)] | None => p end) /\
    date_param new_Date o = meant_date v.
Proof.
  intros Hn Hv. destruct v as [|c v]; [by exists None|]. destruct Hv as [Hv|(ms & Hms & Hy)]; [done|].
  exists (Some (toISOString ms)). unfold date_entry, meant_date. rewrite Hms. split; [done|].
  unfold date_param. pose proof (toISOString_not_empty ms) as Hne. destruct (toISOString ms) eqn:E; [done|].
  by rewrite <- E, Hn.
Qed.

(** C36: the dashboard's filters are understood. Whatever statuses, endpoint,
    dates and cursor are set, the parameters can be built and the API parses
    them back to exactly what the user chose: those statuses, that endpoint,
    the same instants, the limit 50 and the cursor. *)
Theorem query_understood (new_Date Number : string -> jsnum) (is_uuid : string -> bool)
    (filters : Filters) (cursor : option string) :
  Number "50" = Num 50 ->
  (forall ms, four_digit_years (ms / 86400000) -> new_Date (toISOString ms) = Num ms) ->
  Forall (fun s => s ∈ ALL_STATUSES) (fl_statuses filters) ->
  (fl_endpoint_id filters = "" \/ is_uuid (fl_endpoint_id filters) = true) ->
  date_input (fl_from filters) -> date_input (fl_to filters) ->
  exists ps, buildParams filters cursor = inr ps /\
    parse_list_query new_Date Number is_uuid (query_of ps) = Some (meant filters cursor).
Proof.
  intros HN Hn Hs He Hf Ht. unfold buildParams.
  set (p1 := match fl_statuses filters with [] => _ | _ => _ end).
  set (p2 := match fl_endpoint_id filters with EmptyString => p1 | _ => _ end).
  destruct (date_entry_sent new_Date "from" (fl_from filters) p2 Hn Hf) as (from & -> & Hfrom).
  set (p3 := match from with Some s => p2 ++ _ | None => p2 end).
  destruct (date_entry_sent new_Date "to" (fl_to filters) p3 Hn Ht) as (to_ & -> & Hto).
  eexists. split; [reflexivity|]. unfold meant. rewrite <- Hfrom, <- Hto. clear Hfrom Hto Hf Ht Hn.
  assert (limit_param Number (One "50") = Some 50) as Hl by (cbn; by rewrite HN).
  assert (match fl_statuses filters with [] => [] | ss => status_filter (Some (str_join "," ss)) end = fl_statuses filters) as Hss.
  { destruct (fl_statuses filters) eqn:E; [done|]. by apply status_filter_join. }
  assert (match fl_endpoint_id filters with "" => True | e => uuid_param is_uuid (One e) = Some (Some e) end) as Hu.
  { unfold uuid_param. destruct (fl_endpoint_id filters); [done|]. by destruct He as [| ->]. }
  unfold parse_list_query, query_of. subst p3 p2 p1.
  destruct (fl_statuses filters) as [|s ss], (fl_endpoint_id filters) as [|c e], from, to_, cursor as [[|c' cu]|];
    cbn -[status_filter limit_param uuid_param date_param str_join] in *; rewrite ?Hu; cbn -[status_filter limit_param date_param str_join];
    rewrite ?Hss, ?Hl; reflexivity.
Qed.
End Requests.

(** A browser in Berlin, for one summer date. *)
Definition berlin_Date (s : string) : jsnum :=
  match s with "2026-06-26T00:00" => Num 1782424800000 | _ => NaN end.

Lemma query_understood_witness :
  let filters := {| fl_statuses := ["FAILED"; "DLQ"]; fl_endpoint_id := "1d2e"; fl_from := "2026-06-26T00:00"; fl_to := "" |} in
  exists ps, buildParams berlin_Date filters (Some "bmV4dA==") = inr ps /\
    parse_list_query (fun s => match parse_iso s with Some ms => Num ms | None => NaN end)
      (fun s => match read_Z s with Some n => Num n | None => NaN end) (fun s => String.eqb s "1d2e") (query_of ps) =
    Some (meant berlin_Date filters (Some "bmV4dA==")).
Proof.
  apply query_understood.
  - reflexivity.
  - intros ms H. by rewrite parse_toISOString.
  - repeat constructor; by apply (bool_decide_unpack _).
  - by right.
  - right. exists 1782424800000. split; [reflexivity|]. split; by vm_compute.
  - by left.
Defined.

(** ** Errors *)

(** What [fetch] resolves to; a body that is no JSON is [None]. *)
Record response := { rs_status : Z; rs_statusText : string; rs_body : option json }.

Inductive fetch_error :=
| ApiError (message : string) (status : Z) (code details : option json)
| OtherError (message : string).

Section Errors.
(** [String(v)] of a value that is no text. *)
Context (text_of : json -> string).

(** [v?.name]: the properties of [null] and of texts, numbers and lists are
    undefined. *)
Definition prop (name : string) (v : option json) : option json :=
  match v with Some (JObj fs) => field name fs | _ => None end.

Definition text_or (v : option json) (d : string) : string :=
  match v with None | Some JNull => d | Some (JStr s) => s | Some v => text_of v end.

Definition apiFetch (res : response) : fetch_error + json :=
  if (200 <=? rs_status res) && (rs_status res <? 300) then
    match rs_body res with Some v => inr v | None => inl (OtherError "SyntaxError") end
  else
    match default (JObj [("error", JObj [("message", JStr (rs_statusText res))])]) (rs_body res) with
    | JNull => inl (OtherError "TypeError")
    | body =>
        let err := prop "error" (Some body) in
        inl (ApiError (text_or (prop "message" err) (rs_statusText res)) (rs_status res) (prop "code" err) (prop "details" err))
    end.

(** The text of the toast of a failed retry. *)
Definition retry_message (e : fetch_error) : string :=
  match e with
  | ApiError m _ (Some (JStr "NOT_IN_DLQ")) details =>
      "Not in DLQ — current status: " ++s text_or (prop "current_status" details) "?"
  | ApiError m _ _ _ => m
  | OtherError m => m
  end.

(** A reply of the API, over the wire. *)
Definition received (statusText : string) (r : reply) : response := {|
  rs_status := rp_code r; rs_statusText := statusText; rs_body := Some (rp_body r) |}.

(** An error of the API reaches the user as it was raised. The dashboard
    raises it with its message, status, code and details; a refused retry is
    shown with the status the delivery has. *)
Theorem api_error_shown (statusText : string) (code : Z) (name m : string) (details : json) (st : status) (id : string) :
  ~ 200 <= code < 300 ->
  apiFetch (received statusText (error_reply (AppError code name m details) None None)) =
    inl (ApiError m code (Some (JStr name)) (Some details)) /\
  (forall e, apiFetch (received statusText (error_reply (Errors.notInDlq (status_text st)) None None)) = inl e ->
     retry_message e = "Not in DLQ — current status: " ++s status_text st) /\
  (forall e, apiFetch (received statusText (error_reply (Errors.deliveryNotFound id) None None)) = inl e ->
     retry_message e = "Delivery " ++s id ++s " not found").
Proof.
  intros Hc. split; [|split].
  - unfold apiFetch, received. cbn [rs_status rs_body error_reply rp_code rp_body].
    replace ((200 <=? code) && (code <? 300)) with false; [done|]. symmetry. apply andb_false_iff.
    destruct (Z.leb_spec 200 code); [right; apply Z.ltb_ge; lia|by left].
  - by intros e [= <-].
  - by intros e [= <-].
Qed.

Lemma api_error_shown_witness :
  apiFetch (received "Conflict" (error_reply (AppError 409 "X" "no" (JObj [])) None None)) =
    inl (ApiError "no" 409 (Some (JStr "X")) (Some (JObj []))).
Proof. apply (api_error_shown "Conflict" 409 "X" "no" (JObj []) DELIVERED "d1"). lia. Defined.
End Errors.

(** ** api.ts: usePoll *)

(** The states of the hook, whether the page is visible, and the requests in
    flight, numbered in the order they were made. *)
Record poll {T : Type} := {
  po_data : option T; po_error : option string; po_visible : bool; po_next : nat; po_pending : list nat
}.
Arguments poll : clear implicits.

Section Poll.
Context {T : Type} (message_of : fetch_error -> string).

(** [run]. *)
Definition run_poll (s : poll T) : poll T :=
  if po_visible s then {|
    po_data := po_data s; po_error := po_error s; po_visible := true; po_next := S (po_next s);
    po_pending := po_pending s ++ [po_next s] |}
  else s.

(** The effect at the mounting of the component. *)
Definition mount_poll (visible : bool) : poll T :=
  run_poll {| po_data := None; po_error := None; po_visible := visible; po_next := 0; po_pending := [] |}.

Definition poll_ok (d : T) (rest : list nat) (s : poll T) : poll T := {|
  po_data := Some d; po_error := None; po_visible := po_visible s; po_next := po_next s; po_pending := rest |}.
Definition poll_failed (e : fetch_error) (rest : list nat) (s : poll T) : poll T := {|
  po_data := po_data s; po_error := Some (message_of e); po_visible := po_visible s; po_next := po_next s; po_pending := rest |}.

Definition set_visible (v : bool) (s : poll T) : poll T := {|
  po_data := po_data s; po_error := po_error s; po_visible := v; po_next := po_next s; po_pending := po_pending s |}.

(** What the request [k] may be answered with. *)
Context (answers : nat -> T -> Prop).

Inductive poll_step (s : poll T) : poll T -> Prop :=
| po_tick : poll_step s (run_poll s)
| po_hide : poll_step s (set_visible false s)
| po_show : poll_step s (run_poll (set_visible true s))
| po_answered l1 k l2 d : po_pending s = l1 ++ k :: l2 -> answers k d -> poll_step s (poll_ok d (l1 ++ l2) s)
| po_rejected l1 k l2 e : po_pending s = l1 ++ k :: l2 -> poll_step s (poll_failed e (l1 ++ l2) s).

(** What is kept is an answer to a request that was made, and a request in
    flight was made once. *)
Record poll_inv (s : poll T) : Prop := {
  pi_data d : po_data s = Some d -> exists k, (k < po_next s)%nat /\ answers k d;
  pi_made k : k ∈ po_pending s -> (k < po_next s)%nat;
  pi_once : NoDup (po_pending s)
}.

Lemma run_poll_inv s : poll_inv s -> poll_inv (run_poll s).
Proof.
  intros [Hd Hm Ho]. unfold run_poll. destruct (po_visible s); [|done]. split; cbn.
  - intros d (k & Hk & Ha)%Hd. exists k. split; [lia|done].
  - intros k [Hk| ->%list_elem_of_singleton]%elem_of_app; [|lia]. specialize (Hm k Hk). lia.
  - apply NoDup_app. split; [done|]. split; [|apply NoDup_singleton]. intros k Hk ->%list_elem_of_singleton. specialize (Hm _ Hk). lia.
Qed.

Lemma poll_step_inv s s' : poll_inv s -> poll_step s s' -> poll_inv s'.
Proof.
  intros Hs Hst. pose proof Hs as [Hd Hm Ho].
  destruct Hst as [| | |l1 k l2 d Hp Ha|l1 k l2 e Hp]; [by apply run_poll_inv|by split|apply run_poll_inv; by split|..].
  all: rewrite Hp in Hm, Ho; rewrite <- Permutation_middle in Ho; apply NoDup_cons in Ho as [_ Ho].
  all: split; cbn; [|intros i Hi; apply Hm; rewrite elem_of_app, elem_of_cons; apply elem_of_app in Hi; tauto|done].
  - intros d' [= <-]. exists k. split; [|done]. apply Hm. rewrite elem_of_app, elem_of_cons. auto.
  - done.
Qed.
End Poll.

(** A poll shows an answer to one of its requests, and makes none while the
    page is hidden. *)
Theorem poll_shows {T : Type} (message_of : fetch_error -> string) (answers : nat -> T -> Prop) (visible : bool) (s : poll T) :
  rtc (poll_step message_of answers) (mount_poll visible) s ->
  (forall d, po_data s = Some d -> exists k, (k < po_next s)%nat /\ answers k d) /\ NoDup (po_pending s) /\
  (po_visible s = false -> run_poll s = s).
Proof.
  intros H. assert (poll_inv answers s) as [Hd _ Ho].
  { apply (rtc_ind_r (poll_inv answers) (mount_poll visible)) in H; [done| |].
    - apply run_poll_inv. split; cbn; [done|by intros k ?%elem_of_nil|constructor].
    - intros x y _ Hxy Hx. by eapply poll_step_inv. }
  split; [done|]. split; [done|]. unfold run_poll. by intros ->.
Qed.

Lemma poll_shows_witness : run_poll (mount_poll (T := nat) false) = mount_poll false.
Proof. by apply (poll_shows (fun _ => "") (fun k d => d = k) false (mount_poll false) (rtc_refl _ _)). Defined.

(** Nothing orders the answers: an older one that arrives late replaces a
    newer one. *)
Theorem poll_goes_back : exists s s' : poll nat,
  rtc (poll_step (fun _ => "") (fun k d => d = k)) (mount_poll true) s /\ poll_step (fun _ => "") (fun k d => d = k) s s' /\
  po_data s = Some 1%nat /\ po_data s' = Some 0%nat.
Proof.
  set (s1 := run_poll (mount_poll (T := nat) true)). exists (poll_ok 1%nat [0%nat] s1), (poll_ok 0%nat [] (poll_ok 1%nat [0%nat] s1)).
  split; [|split; [by apply (po_answered _ _ _ [] 0%nat [])|done]].
  eapply rtc_l; [apply po_tick|]. apply rtc_once, (po_answered _ _ _ [0%nat] 1%nat []); done.
Qed.

(** ** DeliveryTable.tsx *)

Section Table.
Context {Row : Type} (local_Date : string -> jsnum).

(** A page as the API answers it. *)
Record DeliveryListResponse := { pg_data : list Row; pg_next_cursor : option string }.

(** A request in flight: the first page, asked by one run of the effect, or
    the next page. *)
Inductive table_request :=
| FirstPage (effect : nat) (p : params)
| NextPage (p : params).

Record table := {
  tb_rows : list Row; tb_nextCursor : option string; tb_loading : bool; tb_error : option string;
  tb_filters : Filters; tb_effect : nat; tb_pending : list table_request
}.

Definition mounted (f : Filters) (p : params) : table := {|
  tb_rows := []; tb_nextCursor := None; tb_loading := false; tb_error := None;
  tb_filters := f; tb_effect := 0; tb_pending := [FirstPage 0 p] |}.

Definition tb_issue (r : table_request) (loading : bool) (s : table) : table := {|
  tb_rows := tb_rows s; tb_nextCursor := tb_nextCursor s; tb_loading := loading; tb_error := tb_error s;
  tb_filters := tb_filters s; tb_effect := tb_effect s; tb_pending := tb_pending s ++ [r] |}.

Definition tb_settle (rest : list table_request) (s : table) : table := {|
  tb_rows := tb_rows s; tb_nextCursor := tb_nextCursor s; tb_loading := tb_loading s; tb_error := tb_error s;
  tb_filters := tb_filters s; tb_effect := tb_effect s; tb_pending := rest |}.

(** The [then] of [fetch1]: nothing when its effect was cancelled. *)
Definition on_first (effect : nat) (r : DeliveryListResponse) (s : table) : table :=
  if (effect =? tb_effect s)%nat then {|
    tb_rows := pg_data r; tb_nextCursor := pg_next_cursor r; tb_loading := tb_loading s; tb_error := None;
    tb_filters := tb_filters s; tb_effect := tb_effect s; tb_pending := tb_pending s |}
  else s.

Definition with_error (m : string) (s : table) : table := {|
  tb_rows := tb_rows s; tb_nextCursor := tb_nextCursor s; tb_loading := tb_loading s; tb_error := Some m;
  tb_filters := tb_filters s; tb_effect := tb_effect s; tb_pending := tb_pending s |}.

Definition on_first_error (effect : nat) (m : string) (s : table) : table :=
  if (effect =? tb_effect s)%nat then with_error m s else s.

(** The rest of [loadMore] once its page is there. *)
Definition on_next (r : DeliveryListResponse) (s : table) : table := {|
  tb_rows := tb_rows s ++ pg_data r; tb_nextCursor := pg_next_cursor r; tb_loading := false; tb_error := tb_error s;
  tb_filters := tb_filters s; tb_effect := tb_effect s; tb_pending := tb_pending s |}.

Definition not_loading (s : table) : table := {|
  tb_rows := tb_rows s; tb_nextCursor := tb_nextCursor s; tb_loading := false; tb_error := tb_error s;
  tb_filters := tb_filters s; tb_effect := tb_effect s; tb_pending := tb_pending s |}.

(** What the effect depends on. *)
Definition effect_deps (f : Filters) : string * string * string * string :=
  (str_join "," (fl_statuses f), fl_endpoint_id f, fl_from f, fl_to f).

(** New filters: the effect is cancelled and runs again. *)
Definition refiltered (f : Filters) (p : params) (s : table) : table := {|
  tb_rows := tb_rows s; tb_nextCursor := tb_nextCursor s; tb_loading := tb_loading s; tb_error := tb_error s;
  tb_filters := f; tb_effect := S (tb_effect s); tb_pending := tb_pending s ++ [FirstPage (S (tb_effect s)) p] |}.

(** [loadMore] is there to be clicked, and goes on. *)
Definition can_load_more (s : table) : option string :=
  match tb_error s, tb_nextCursor s with
  | None, Some c => if String.eqb c "" || tb_loading s then None else Some c
  | _, _ => None
  end.

Inductive table_step (s : table) : table -> Prop :=
| tb_poll p : buildParams local_Date (tb_filters s) None = inr p ->
    table_step s (tb_issue (FirstPage (tb_effect s) p) (tb_loading s) s)
| tb_click c p : can_load_more s = Some c -> buildParams local_Date (tb_filters s) (Some c) = inr p ->
    table_step s (tb_issue (NextPage p) true s)
| tb_filter f p : effect_deps f <> effect_deps (tb_filters s) -> buildParams local_Date f None = inr p ->
    table_step s (refiltered f p s)
| tb_first l1 l2 e p r : tb_pending s = l1 ++ FirstPage e p :: l2 ->
    table_step s (on_first e r (tb_settle (l1 ++ l2) s))
| tb_first_error l1 l2 e p m : tb_pending s = l1 ++ FirstPage e p :: l2 ->
    table_step s (on_first_error e m (tb_settle (l1 ++ l2) s))
| tb_next l1 l2 p r : tb_pending s = l1 ++ NextPage p :: l2 ->
    table_step s (on_next r (tb_settle (l1 ++ l2) s))
| tb_next_error l1 l2 p m : tb_pending s = l1 ++ NextPage p :: l2 ->
    table_step s (not_loading (with_error m (tb_settle (l1 ++ l2) s))).

Definition is_next (r : table_request) : bool := match r with NextPage _ => true | _ => false end.

(** A request of a run of the effect asks for the filters of that run. *)
Definition current (s : table) (r : table_request) : Prop :=
  match r with
  | FirstPage e p => (e <= tb_effect s)%nat /\
      (e = tb_effect s -> buildParams local_Date (tb_filters s) None = inr p)
  | NextPage _ => True
  end.

Record table_ok (s : table) : Prop := {
  tk_loading : length (filter is_next (tb_pending s)) = (if tb_loading s then 1 else 0)%nat;
  tk_current : Forall (current s) (tb_pending s)
}.

Lemma mounted_ok f p : buildParams local_Date f None = inr p -> table_ok (mounted f p).
Proof. intros H. split; [done|]. repeat constructor. by intros _. Qed.

Lemma table_step_ok s s' : table_ok s -> table_step s s' -> table_ok s'.
Proof.
  intros [Hl Hc] Hs. destruct Hs as [p Hp|c p Hm Hp|f p _ Hp|l1 l2 e p r Hl12|l1 l2 e p m Hl12|l1 l2 p r Hl12|l1 l2 p m Hl12].
  - split; cbn; [by rewrite filter_app, length_app, Hl, Nat.add_0_r|].
    apply Forall_app. split; [done|]. repeat constructor. by intros _.
  - split; cbn; [|apply Forall_app; split; [done|by repeat constructor]].
    rewrite filter_app, length_app, Hl. unfold can_load_more in Hm. destruct (tb_error s), (tb_nextCursor s); try done.
    destruct (tb_loading s); [|done]. by rewrite orb_true_r in Hm.
  - split; cbn; [by rewrite filter_app, length_app, Hl, Nat.add_0_r|].
    apply Forall_app. split; [|repeat constructor; by intros _].
    eapply Forall_impl; [exact Hc|]. intros [e q|q]; cbn; [|done]. intros [He _]. split; [lia|]. lia.
  - rewrite Hl12, filter_app, length_app in Hl. rewrite Hl12, Forall_app, Forall_cons in Hc. destruct Hc as (H1 & _ & H2).
    unfold on_first. cbn [tb_settle tb_effect]. destruct (_ =? _)%nat; (split; cbn; [by rewrite filter_app, length_app|by apply Forall_app]).
  - rewrite Hl12, filter_app, length_app in Hl. rewrite Hl12, Forall_app, Forall_cons in Hc. destruct Hc as (H1 & _ & H2).
    unfold on_first_error. cbn [tb_settle tb_effect]. destruct (_ =? _)%nat; (split; cbn; [by rewrite filter_app, length_app|by apply Forall_app]).
  - rewrite Hl12, filter_app, length_app in Hl. rewrite Hl12, Forall_app, Forall_cons in Hc. destruct Hc as (H1 & _ & H2).
    split; cbn; [|by apply Forall_app]. rewrite filter_app, length_app. rewrite filter_cons, decide_True in Hl by done. cbn in Hl. destruct (tb_loading s); lia.
  - rewrite Hl12, filter_app, length_app in Hl. rewrite Hl12, Forall_app, Forall_cons in Hc. destruct Hc as (H1 & _ & H2).
    split; cbn; [|by apply Forall_app]. rewrite filter_app, length_app. rewrite filter_cons, decide_True in Hl by done. cbn in Hl. destruct (tb_loading s); lia.
Qed.
End Table.

(** The polling of the delivery table is race-free. Whatever the order in
    which polls, pages and errors arrive and filters change, at most one next
    page is in flight and just then the button is off; and a first page is
    shown only when it was asked for the filters of now: the answer of an
    effect that was cancelled changes nothing. *)
Theorem table_polls {Row : Type} (local_Date : string -> jsnum) (f : Filters) (p : params) (s : @table Row) :
  buildParams local_Date f None = inr p -> rtc (table_step local_Date) (mounted f p) s ->
  length (filter is_next (tb_pending s)) = (if tb_loading s then 1 else 0)%nat /\
  forall l1 e q l2 (r : DeliveryListResponse), tb_pending s = l1 ++ FirstPage e q :: l2 ->
    let s' := on_first e r (tb_settle (l1 ++ l2) s) in
    (e = tb_effect s -> buildParams local_Date (tb_filters s) None = inr q /\ tb_rows s' = pg_data r) /\
    (e <> tb_effect s -> tb_rows s' = tb_rows s /\ tb_nextCursor s' = tb_nextCursor s).
Proof.
  intros Hp Hs. assert (table_ok local_Date s) as [Hl Hc].
  { apply (rtc_ind_r (table_ok local_Date) (mounted f p)) in Hs; [done|by apply mounted_ok|].
    intros x y _ Hxy Hx. by eapply table_step_ok. }
  split; [done|]. intros l1 e q l2 r Hpen. rewrite Hpen, Forall_app, Forall_cons in Hc. destruct Hc as (_ & [_ He] & _).
  unfold on_first. cbn [tb_settle tb_effect]. split.
  - intros ->. rewrite Nat.eqb_refl. split; [by apply He|done].
  - intros Hne. apply Nat.eqb_neq in Hne. by rewrite Hne.
Qed.

Definition pending_only : Filters := toggleStatus "PENDING" EMPTY_FILTERS.
Definition pending_params : params := [("limit", "50"); ("status", "PENDING")].

(** The filters change while the next page of the old ones is under way. *)
Lemma mixed_run :
  rtc (table_step (fun _ => NaN)) (mounted EMPTY_FILTERS [("limit", "50")]) {|
    tb_rows := ["pending"; "delivered"]; tb_nextCursor := None; tb_loading := false; tb_error := None;
    tb_filters := pending_only; tb_effect := 1; tb_pending := [] |}.
Proof.
  eapply rtc_l; [apply (tb_first _ _ [] [] 0 [("limit", "50")] {| pg_data := ["first"]; pg_next_cursor := Some "c" |}); reflexivity|].
  eapply rtc_l; [apply (tb_click _ _ "c" [("limit", "50"); ("cursor", "c")]); reflexivity|].
  eapply rtc_l; [apply (tb_filter _ _ pending_only pending_params); [discriminate|reflexivity]|].
  eapply rtc_l; [apply (tb_first _ _ [NextPage [("limit", "50"); ("cursor", "c")]] [] 1 pending_params
    {| pg_data := ["pending"]; pg_next_cursor := None |}); reflexivity|].
  eapply rtc_l; [apply (tb_next _ _ [] [] [("limit", "50"); ("cursor", "c")] {| pg_data := ["delivered"]; pg_next_cursor := None |}); reflexivity|].
  reflexivity.
Qed.

Definition mixed_table : @table string := {|
  tb_rows := ["pending"; "delivered"]; tb_nextCursor := None; tb_loading := false; tb_error := None;
  tb_filters := pending_only; tb_effect := 1; tb_pending := [] |}.

Lemma table_polls_witness : length (filter is_next (tb_pending mixed_table)) = 0%nat.
Proof. exact (proj1 (table_polls (fun _ => NaN) EMPTY_FILTERS [("limit", "50")] mixed_table eq_refl mixed_run)). Defined.

(** [loadMore] does not notice that the filters have changed: the page of the
    old filters is appended to the rows of the new ones. *)
Theorem table_mixes_filters :
  exists s : @table string, rtc (table_step (fun _ => NaN)) (mounted EMPTY_FILTERS [("limit", "50")]) s /\
    tb_filters s = pending_only /\ tb_pending s = [] /\ tb_rows s = ["pending"; "delivered"].
Proof. eexists. split; [exact mixed_run|done]. Qed.

(** ** DlqView.tsx *)

Section DlqView.
Context {Row : Type} (row_id : Row -> string) (text_of : json -> string).

Inductive dlq_request :=
| DlqFirst
| DlqNext (cursor : string)
| DlqRetry (id : string).

Record dlq_view := {
  dq_rows : list Row; dq_nextCursor : option string; dq_loadingMore : bool; dq_toast : option string;
  dq_retrying : gset string; dq_error : option string; dq_pending : list dlq_request
}.

Definition dlq_mounted : dlq_view := {|
  dq_rows := []; dq_nextCursor := None; dq_loadingMore := false; dq_toast := None;
  dq_retrying := ∅; dq_error := None; dq_pending := [DlqFirst] |}.

Definition dq_issue (r : dlq_request) (s : dlq_view) : dlq_view := {|
  dq_rows := dq_rows s; dq_nextCursor := dq_nextCursor s; dq_loadingMore := dq_loadingMore s; dq_toast := dq_toast s;
  dq_retrying := dq_retrying s; dq_error := dq_error s; dq_pending := dq_pending s ++ [r] |}.

Definition dq_settle (rest : list dlq_request) (s : dlq_view) : dlq_view := {|
  dq_rows := dq_rows s; dq_nextCursor := dq_nextCursor s; dq_loadingMore := dq_loadingMore s; dq_toast := dq_toast s;
  dq_retrying := dq_retrying s; dq_error := dq_error s; dq_pending := rest |}.

(** The poll: the first page replaces the rows. *)
Definition on_dlq_page (data : list Row) (next : option string) (s : dlq_view) : dlq_view := {|
  dq_rows := data; dq_nextCursor := next; dq_loadingMore := dq_loadingMore s; dq_toast := dq_toast s;
  dq_retrying := dq_retrying s; dq_error := None; dq_pending := dq_pending s |}.
Definition on_dlq_error (m : string) (s : dlq_view) : dlq_view := {|
  dq_rows := dq_rows s; dq_nextCursor := dq_nextCursor s; dq_loadingMore := dq_loadingMore s; dq_toast := dq_toast s;
  dq_retrying := dq_retrying s; dq_error := Some m; dq_pending := dq_pending s |}.

Definition set_loadingMore (b : bool) (s : dlq_view) : dlq_view := {|
  dq_rows := dq_rows s; dq_nextCursor := dq_nextCursor s; dq_loadingMore := b; dq_toast := dq_toast s;
  dq_retrying := dq_retrying s; dq_error := dq_error s; dq_pending := dq_pending s |}.
Definition on_dlq_more (data : list Row) (next : option string) (s : dlq_view) : dlq_view := {|
  dq_rows := dq_rows s ++ data; dq_nextCursor := next; dq_loadingMore := false; dq_toast := dq_toast s;
  dq_retrying := dq_retrying s; dq_error := dq_error s; dq_pending := dq_pending s |}.

(** The three parts of [retry]. *)
Definition begin_retry (id : string) (s : dlq_view) : dlq_view := {|
  dq_rows := dq_rows s; dq_nextCursor := dq_nextCursor s; dq_loadingMore := dq_loadingMore s; dq_toast := dq_toast s;
  dq_retrying := {[id]} ∪ dq_retrying s; dq_error := dq_error s; dq_pending := dq_pending s |}.
Definition retry_done (id : string) (s : dlq_view) : dlq_view := {|
  dq_rows := filter (fun r => row_id r <> id) (dq_rows s); dq_nextCursor := dq_nextCursor s;
  dq_loadingMore := dq_loadingMore s; dq_toast := dq_toast s;
  dq_retrying := dq_retrying s ∖ {[id]}; dq_error := dq_error s; dq_pending := dq_pending s |}.
Definition retry_failed (id : string) (e : fetch_error) (s : dlq_view) : dlq_view := {|
  dq_rows := dq_rows s; dq_nextCursor := dq_nextCursor s; dq_loadingMore := dq_loadingMore s;
  dq_toast := Some (retry_message text_of e);
  dq_retrying := dq_retrying s ∖ {[id]}; dq_error := dq_error s; dq_pending := dq_pending s |}.
Definition clear_toast (s : dlq_view) : dlq_view := {|
  dq_rows := dq_rows s; dq_nextCursor := dq_nextCursor s; dq_loadingMore := dq_loadingMore s; dq_toast := None;
  dq_retrying := dq_retrying s; dq_error := dq_error s; dq_pending := dq_pending s |}.

Inductive dlq_step (s : dlq_view) : dlq_view -> Prop :=
| dq_poll : dlq_step s (dq_issue DlqFirst s)
| dq_poll_ok l1 l2 data next : dq_pending s = l1 ++ DlqFirst :: l2 ->
    dlq_step s (on_dlq_page data next (dq_settle (l1 ++ l2) s))
| dq_poll_error l1 l2 m : dq_pending s = l1 ++ DlqFirst :: l2 -> dlq_step s (on_dlq_error m (dq_settle (l1 ++ l2) s))
| dq_more c : dq_nextCursor s = Some c -> c <> "" -> dq_loadingMore s = false ->
    dlq_step s (set_loadingMore true (dq_issue (DlqNext c) s))
| dq_more_ok l1 l2 c data next : dq_pending s = l1 ++ DlqNext c :: l2 ->
    dlq_step s (on_dlq_more data next (dq_settle (l1 ++ l2) s))
| dq_more_error l1 l2 c : dq_pending s = l1 ++ DlqNext c :: l2 ->
    dlq_step s (set_loadingMore false (dq_settle (l1 ++ l2) s))
| dq_retry r : r ∈ dq_rows s -> row_id r ∉ dq_retrying s ->
    dlq_step s (begin_retry (row_id r) (dq_issue (DlqRetry (row_id r)) s))
| dq_retry_ok l1 l2 id : dq_pending s = l1 ++ DlqRetry id :: l2 -> dlq_step s (retry_done id (dq_settle (l1 ++ l2) s))
| dq_retry_error l1 l2 id e : dq_pending s = l1 ++ DlqRetry id :: l2 ->
    dlq_step s (retry_failed id e (dq_settle (l1 ++ l2) s))
| dq_toast_timeout : dlq_step s (clear_toast s).

(** The deliveries whose retry is in flight. *)
Definition retries (l : list dlq_request) : list string :=
  omap (fun r => match r with DlqRetry id => Some id | _ => None end) l.
Definition nexts (l : list dlq_request) : list string :=
  omap (fun r => match r with DlqNext c => Some c | _ => None end) l.

Record dlq_view_ok (s : dlq_view) : Prop := {
  vk_retrying id : id ∈ dq_retrying s <-> id ∈ retries (dq_pending s);
  vk_once : NoDup (retries (dq_pending s));
  vk_more : length (nexts (dq_pending s)) = (if dq_loadingMore s then 1 else 0)%nat
}.

(** Taking a retry out of the list leaves the others. *)
Lemma retry_out (A B : list string) id :
  NoDup (A ++ id :: B) -> NoDup (A ++ B) /\ forall id', id' ∈ A ++ B <-> id' ∈ A ++ id :: B /\ id' <> id.
Proof.
  intros H. rewrite <- Permutation_middle in H. apply NoDup_cons in H as [Hni H]. split; [done|].
  intros id'. rewrite <- Permutation_middle, elem_of_cons. split; [|tauto]. intros Hin. split; [by right|by intros ->].
Qed.

Ltac requests :=
  unfold retries, nexts in *; rewrite ?omap_app in *; cbn [omap list_omap] in *; rewrite ?app_nil_r in *.

Lemma dlq_step_ok s s' : dlq_view_ok s -> dlq_step s s' -> dlq_view_ok s'.
Proof.
  intros [Hr Ho Hm] Hs.
  destruct Hs as [|l1 l2 data next Hp|l1 l2 m Hp|c Hc Hne Hl|l1 l2 c data next Hp|l1 l2 c Hp|r Hin Hni
    |l1 l2 id Hp|l1 l2 id e Hp|]; try rewrite Hp in *;
    (split; cbn [dq_retrying dq_pending dq_loadingMore dq_issue dq_settle on_dlq_page on_dlq_error set_loadingMore on_dlq_more
       begin_retry retry_done retry_failed clear_toast]); requests; try done.
  - rewrite length_app, Hm, Hl. done.
  - rewrite length_app in *. cbn in Hm. destruct (dq_loadingMore s); lia.
  - rewrite length_app in *. cbn in Hm. destruct (dq_loadingMore s); lia.
  - intros id. rewrite elem_of_union, elem_of_singleton, elem_of_app, list_elem_of_singleton, Hr. tauto.
  - rewrite Hr in Hni. apply NoDup_app. split; [done|]. split; [|apply NoDup_singleton].
    intros x Hx ->%list_elem_of_singleton. done.
  - intros id'. rewrite elem_of_difference, elem_of_singleton, Hr. by rewrite (proj2 (retry_out _ _ _ Ho)).
  - apply (proj1 (retry_out _ _ _ Ho)).
  - intros id'. rewrite elem_of_difference, elem_of_singleton, Hr. by rewrite (proj2 (retry_out _ _ _ Ho)).
  - apply (proj1 (retry_out _ _ _ Ho)).
Qed.
End DlqView.

(** The DLQ view retries a delivery once at a time. Whatever polls, pages,
    retries, answers and errors come in whatever order, the buttons that are
    off are exactly those of the deliveries with a retry in flight, none has
    two, at most one next page is in flight, and a retry that succeeded takes
    its row away and turns its button on again. *)
Theorem dlq_view_retries {Row : Type} (row_id : Row -> string) (text_of : json -> string) (s : @dlq_view Row) :
  rtc (dlq_step row_id text_of) dlq_mounted s ->
  (forall id, id ∈ dq_retrying s <-> DlqRetry id ∈ dq_pending s) /\ NoDup (retries (dq_pending s)) /\
  length (nexts (dq_pending s)) = (if dq_loadingMore s then 1 else 0)%nat /\
  forall l1 id l2, dq_pending s = l1 ++ DlqRetry id :: l2 ->
    let s' := retry_done row_id id (dq_settle (l1 ++ l2) s) in
    id ∉ dq_retrying s' /\ id ∉ (row_id <$> dq_rows s') /\ (forall r, r ∈ dq_rows s -> row_id r <> id -> r ∈ dq_rows s').
Proof.
  intros Hs. assert (dlq_view_ok s) as [Hr Ho Hm].
  { apply (rtc_ind_r dlq_view_ok dlq_mounted) in Hs; [done| |].
    - split; [|constructor|done]. intros id. cbn. set_solver.
    - intros x y _ Hxy Hx. by eapply dlq_step_ok. }
  assert (forall id l, id ∈ retries l <-> DlqRetry id ∈ l) as Hret.
  { intros id l. unfold retries. rewrite list_elem_of_omap. split; [intros ([| |i] & Hin & [= <-])|intros H]; [done|by exists (DlqRetry id)]. }
  split; [intros id; by rewrite Hr, Hret|]. split; [done|]. split; [done|].
  intros l1 id l2 Hp s'. split; [cbn; set_solver|]. split.
  - intros (r & Hid & Hin)%list_elem_of_fmap. cbn in Hin. apply list_elem_of_filter in Hin as [Hne _]. congruence.
  - intros r Hin Hne. cbn. apply list_elem_of_filter. done.
Qed.

(** Two deliveries are shown, the first is being retried. *)
Definition retrying_view : dlq_view :=
  begin_retry "d1" (dq_issue (DlqRetry "d1") (on_dlq_page ["d1"; "d2"] None (dq_settle [] dlq_mounted))).

Lemma retry_run : rtc (dlq_step (fun r : string => r) (fun _ => "")) dlq_mounted retrying_view.
Proof.
  eapply rtc_l; [apply (dq_poll_ok _ _ _ [] [] ["d1"; "d2"] None); reflexivity|].
  eapply rtc_l; [apply (dq_retry _ _ _ "d1"); cbn; set_solver|]. reflexivity.
Qed.

Lemma dlq_view_retries_witness :
  "d1" ∈ dq_retrying retrying_view /\
  dq_rows (retry_done (fun r => r) "d1" (dq_settle [] retrying_view)) = ["d2"].
Proof.
  destruct (dlq_view_retries (fun r : string => r) (fun _ => "") retrying_view retry_run) as (H & _).
  split; [apply H; left|reflexivity].
Defined.
