(* ===== verification/Server.v ===== *)
(** * The API as one server

    src/src/api/app.ts: [buildApp], the routes of all the files of
    src/src/api/routes under their prefix, the error handler around them, and
    what every request does to the database. At the end the requests of the
    dashboard (src/dashboard/src/api.ts and the proxy before it) find their
    routes. *)

From S2P Require Import Prelude Async Config Json Parse Dates Tables Queries Schema Redis Services Concrete Scripts Repo.
From S2P Require Import Frames Ingest DeadLetter Cursor Listing Api Endpoints AuditTrail ApiSpec ReadApi Pagination ReadSpec Monitor Dashboard.
From S2P Require Import Signature.
From Stdlib Require Import ZArith Lia Ascii String.
From stdpp Require Import prelude strings gmap.

Open Scope Z_scope.
Open Scope async_scope.

#[local] Set Warnings "-register-all".

(** ** Requests *)

(** A request as Fastify presents it: the path cut at its slashes and decoded,
    the query by names, the headers that are looked at, the text of the body. *)
Record incoming := {
  in_method : string; in_path : list string; in_query : string -> http_header;
  in_idempotency_key : http_header; in_content_type : option string; in_content_length : option string;
  in_text : string
}.

(** A segment of a route: a text, or a parameter. *)
Inductive segment := Lit (s : string) | Param.

(** The values of the parameters of a pattern that the path has the form of. *)
Fixpoint match_path (pattern : list segment) (path : list string) : option (list string) :=
  match pattern, path with
  | [], [] => Some []
  | Lit s :: pattern, p :: path => if String.eqb s p then match_path pattern path else None
  | Param :: pattern, p :: path => ps ← match_path pattern path; Some (p :: ps)
  | _, _ => None
  end.

(** Two patterns no path has the form of both. *)
Fixpoint apart (p q : list segment) : bool :=
  match p, q with
  | [], [] => false
  | Lit s :: p, Lit t :: q => negb (String.eqb s t) || apart p q
  | Param :: p, _ :: q | _ :: p, Param :: q => apart p q
  | _, _ => true
  end.

(** What the libraries and the platform are to the API, and the answers of its
    memos at the moment of a request ([None]: not at once). *)
Record surroundings := {
  su_platform : platform; su_new_Date : string -> jsnum; su_Number : string -> jsnum;
  su_is_uuid : string -> bool; su_is_url : string -> bool;
  su_issues : json -> json; su_query_issues : list_query -> json;
  su_pg_array : list string -> string; su_seconds_text : Z -> string;
  su_find : list (string * list segment) -> incoming -> option (nat * list string);
    (** Fastify's router: the place of the route, and its parameters *)
  su_parse : incoming -> exn + json;   (** Fastify's parsing of a body; [JNull] when there is none to parse *)
  su_not_found : incoming -> reply;    (** Fastify's answer when no route is found *)
  su_code : exn -> option string; su_validation : exn -> option json;  (** properties of an error *)
  su_counts : option (gmap string Z); su_db_stats : option DbStats; su_depths : option QueueDepths;
  su_crash : bool                      (** the test switch CRASH_AFTER_COMMIT *)
}.

(** A path without the cases the router treats on its own: empty segments, and
    parameters above its limit of 100. *)
Definition plain (path : list string) : Prop :=
  Forall (fun s => s <> "" /\ (String.length s <= 100)%nat) path.

(** A GET route serves HEAD requests as well. *)
Definition serves (m : string) (rq : incoming) : Prop := in_method rq = m \/ m = "GET" /\ in_method rq = "HEAD".

(** What Fastify documents: the route found is one of the list, for the method
    and of the form of the path, and with one the search does not fail; a GET
    has no body to parse, and neither has a request of length 0 without a
    content type, while an empty text sent as JSON is the error
    FST_ERR_CTP_EMPTY_JSON_BODY, which is no validation error. *)
Record fastify (su : surroundings) : Prop := {
  fy_found rs rq i ps : su_find su rs rq = Some (i, ps) ->
    exists m p, rs !! i = Some (m, p) /\ serves m rq /\ match_path p (in_path rq) = Some ps;
  fy_finds rs rq i m p ps : plain (in_path rq) -> rs !! i = Some (m, p) -> in_method rq = m ->
    match_path p (in_path rq) = Some ps -> su_find su rs rq <> None;
  fy_get rq : in_method rq = "GET" -> su_parse su rq = inr JNull;
  fy_none rq : in_content_type rq = None -> in_content_length rq = Some "0" -> in_text rq = "" ->
    su_parse su rq = inr JNull;
  fy_empty rq : in_method rq = "POST" -> in_content_type rq = Some "application/json" -> in_text rq = "" ->
    exists e, su_parse su rq = inl e /\ foreign e /\ su_code su e = Some "FST_ERR_CTP_EMPTY_JSON_BODY" /\
      su_validation su e = None
}.

Section Server.
Context (su : surroundings) (cfg : Config).

Record api_route := { rt_method : string; rt_pattern : list segment; rt_handler : list string -> incoming -> json -> io reply }.

Definition list_query_of (rq : incoming) : list_query := {|
  q_status := in_query rq "status"; q_endpoint_id := in_query rq "endpoint_id"; q_from := in_query rq "from";
  q_to := in_query rq "to"; q_limit := in_query rq "limit"; q_cursor := in_query rq "cursor" |}.

Definition event_request_of (rq : incoming) (body : json) : event_request := {|
  rq_idempotency_key := in_idempotency_key rq; rq_content_length := in_content_length rq; rq_body := body |}.

Definition param (ps : list string) : string := default "" (head ps).

Definition healthRoutes : list api_route := [
  {| rt_method := "GET"; rt_pattern := [Lit "healthz"]; rt_handler := fun _ _ _ => healthz |};
  {| rt_method := "GET"; rt_pattern := [Lit "readyz"]; rt_handler := fun _ _ _ => readyz |}].

Definition endpointsRoutes : list api_route := [
  {| rt_method := "POST"; rt_pattern := [Lit "endpoints"];
     rt_handler := fun _ _ body => postEndpoints (su_is_url su) (su_issues su) cfg body |};
  {| rt_method := "GET"; rt_pattern := [Lit "endpoints"];
     rt_handler := fun _ rq _ => getEndpoints (su_pg_array su) (in_query rq "client_id") |};
  {| rt_method := "PATCH"; rt_pattern := [Lit "endpoints"; Param];
     rt_handler := fun ps _ body => patchEndpoint (su_is_url su) (su_issues su) (param ps) body |}].

Definition eventsRoutes : list api_route := [
  {| rt_method := "POST"; rt_pattern := [Lit "events"];
     rt_handler := fun _ rq body => postEvents (su_is_uuid su) (su_issues su) cfg (su_crash su) (su_counts su) (event_request_of rq body) |}].

Definition dlqRoutes : list api_route := [
  {| rt_method := "GET"; rt_pattern := [Lit "dlq"];
     rt_handler := fun _ rq _ => getDlq (su_platform su) (su_new_Date su) (su_Number su) (su_query_issues su) (list_query_of rq) |};
  {| rt_method := "POST"; rt_pattern := [Lit "dlq"; Param; Lit "retry"]; rt_handler := fun ps _ _ => postRetry cfg (param ps) |}].

Definition deliveriesRoutes : list api_route := [
  {| rt_method := "GET"; rt_pattern := [Lit "deliveries"];
     rt_handler := fun _ rq _ => getDeliveries (su_platform su) (su_new_Date su) (su_Number su) (su_is_uuid su)
                                 (su_query_issues su) (list_query_of rq) |};
  {| rt_method := "GET"; rt_pattern := [Lit "deliveries"; Param]; rt_handler := fun ps _ _ => getDelivery (param ps) |}].

Definition statsRoutes : list api_route := [
  {| rt_method := "GET"; rt_pattern := [Lit "stats"];
     rt_handler := fun _ _ _ => getStats (su_seconds_text su) cfg (su_db_stats su) (su_depths su) |}].

(** [app.register(routes, { prefix })]. *)
Definition register (prefix : string) (rs : list api_route) : list api_route :=
  map (fun r => {| rt_method := rt_method r; rt_pattern := Lit prefix :: rt_pattern r; rt_handler := rt_handler r |}) rs.

Definition buildApp : list api_route :=
  healthRoutes ++ register "v1" endpointsRoutes ++ register "v1" eventsRoutes ++ register "v1" dlqRoutes ++
  register "v1" deliveriesRoutes ++ register "v1" statsRoutes.

Definition patterns : list (string * list segment) := map (fun r => (rt_method r, rt_pattern r)) buildApp.

(** The error handler: only an error it does not know is logged. *)
Definition unknown_error (e : exn) : bool :=
  match e with
  | AppError _ _ _ _ => false
  | _ => negb (bool_decide (su_code su e = Some "FST_ERR_CTP_BODY_TOO_LARGE")) &&
         match su_validation su e with Some _ => false | None => true end
  end.

Definition on_error (e : exn) : io reply :=
  (if unknown_error e then log "error" (exn_message e) else Ret tt) ;;;
  Ret (error_reply e (su_code su e) (su_validation su e)).

(** The handler of a route, on the body when it can be parsed. *)
Definition run_route (r : api_route) (ps : list string) (rq : incoming) : io reply :=
  match su_parse su rq with inl e => Throw e | inr body => rt_handler r ps rq body end.

(** A request from its arrival to its reply. *)
Definition answer_request (rq : incoming) : io reply :=
  match su_find su patterns rq with
  | None => Ret (su_not_found su rq)
  | Some (i, ps) =>
      match buildApp !! i with
      | None => Ret (su_not_found su rq)
      | Some r => try_catch (run_route r ps rq) on_error
      end
  end.

(** ** Routing *)

Lemma apart_no_path p q path ps qs : apart p q = true -> match_path p path = Some ps -> match_path q path = Some qs -> False.
Proof.
  revert q path ps qs. induction p as [|[s|] p IH]; intros [|[t|] q] [|x path] ps qs; cbn; try done.
  - intros [H|H]%orb_true_iff; destruct (String.eqb_spec s x) as [->|]; try done; destruct (String.eqb_spec t x) as [->|]; try done.
    + by rewrite String.eqb_refl in H.
    + by apply IH.
  - destruct (String.eqb_spec s x); [|done]. intros H Hp.
    destruct (match_path q path) as [qs'|] eqn:E; [|done]. intros _. by eapply IH.
  - destruct (match_path p path) as [ps'|] eqn:E; [|done]. intros H _.
    destruct (String.eqb_spec t x); [|done]. by eapply IH.
  - destruct (match_path p path) as [ps'|] eqn:E; [|done]. intros H _.
    destruct (match_path q path) as [qs'|] eqn:E'; [|done]. intros _. by eapply IH.
Qed.

(** The routes of one method are apart, so their order does not matter. *)
Definition routes_apart (rs : list (string * list segment)) : bool :=
  forallb (fun i => forallb (fun j =>
    bool_decide (i = j) || match rs !! i, rs !! j with
      | Some (m, p), Some (m', p') => negb (String.eqb m m') || apart p p'
      | _, _ => true
      end) (seq 0 (length rs))) (seq 0 (length rs)).

Lemma routes_apart_same rs i j m p q path ps qs :
  routes_apart rs = true -> rs !! i = Some (m, p) -> rs !! j = Some (m, q) ->
  match_path p path = Some ps -> match_path q path = Some qs -> i = j.
Proof.
  intros Ha Hi Hj Hp Hq. unfold routes_apart in Ha. rewrite forallb_forall in Ha. specialize (Ha i).
  rewrite forallb_forall in Ha.
  assert (forall k x, rs !! k = Some x -> In k (seq 0 (length rs))) as Hin.
  { intros k x Hk. apply in_seq. apply lookup_lt_Some in Hk. lia. }
  specialize (Ha (Hin _ _ Hi) j (Hin _ _ Hj)). rewrite Hi, Hj, String.eqb_refl in Ha.
  apply orb_true_iff in Ha as [Ha%bool_decide_eq_true|Ha]; [done|]. by destruct (apart_no_path _ _ _ _ _ Ha Hp Hq).
Qed.

Lemma no_head_route i m p : patterns !! i = Some (m, p) -> m <> "HEAD".
Proof. intros H%list_elem_of_lookup_2. revert H. cbn. rewrite !elem_of_cons, elem_of_nil. intros H ->. intuition discriminate. Qed.

(** A request of the method and the form of a route gets its handler. *)
Lemma serve_routed rq i r ps :
  fastify su -> plain (in_path rq) -> buildApp !! i = Some r -> in_method rq = rt_method r ->
  match_path (rt_pattern r) (in_path rq) = Some ps ->
  answer_request rq = try_catch (run_route r ps rq) on_error.
Proof.
  intros Hf Hpl Hr Hm Hp. unfold answer_request.
  assert (patterns !! i = Some (rt_method r, rt_pattern r)) as Hi.
  { unfold patterns. by rewrite list_lookup_fmap, Hr. }
  destruct (su_find su patterns rq) as [[j qs]|] eqn:E; [|by destruct (fy_finds su Hf _ _ _ _ _ _ Hpl Hi Hm Hp)].
  apply (fy_found su Hf) in E as (m & q & Hj & [Hm'|[_ Hm']] & Hq).
  - rewrite <- Hm', Hm in Hj. assert (i = j) as <- by (by eapply (routes_apart_same patterns)).
    rewrite Hr. rewrite Hi in Hj. injection Hj as <-. rewrite Hp in Hq. by injection Hq as ->.
  - rewrite Hm in Hm'. by apply no_head_route in Hi.
Qed.

End Server.

(** ** What a request does *)

(** A call that looks at the database and the queues. *)
Definition reads (c : cmd) : Prop :=
  match c with
  | Pg (POOL_QUERY (Select _)) | JobCounts _ _ | Redis PING | Log _ _ => True
  | _ => False
  end.

Section Effects.
Context {RS BS : Type} `{!RedisServer RS} `{!RedisLaws RS} `{!BullMQ BS} `{!BullMQLaws BS}.
Abbreviation world := (world RS BS).
Context (su : surroundings) (cfg : Config).

(** Nothing is written, enqueued or sent. *)
Definition unchanged (w w' : world) : Prop := db_same w w' /\ s_bull w'.1 = s_bull w.1.

Lemma bull_step (w : world) c r w1 :
  match c with QueueAdd _ _ _ _ | MoveToDelayed _ _ _ => False | _ => True end -> env w c r w1 -> s_bull w1.1 = s_bull w.1.
Proof.
  intros Hc (s1 & (t & _ & ->) & H). destruct w as [s l].
  destruct c; try done; destruct r; cbn in H; repeat match goal with
    | H : _ /\ _ |- _ => destruct H
    | H : _ \/ _ |- _ => destruct H
    | H : exists _, _ |- _ => destruct H
    end; subst; done.
Qed.

Lemma reads_step (w : world) c r w1 : reads c -> env w c r w1 -> unchanged w w1.
Proof.
  intros Hc He. split; [|eapply bull_step; [|exact He]; by destruct c].
  destruct c as [c|c| |q ty| | | | | | | | | | |lv m]; try done; try (apply (quiet_db_same w _ r w1); [exact I|exact He]).
  destruct c as [| | | | |q|q]; try done. destruct q as [| | | | | | | | | | | | | | | |q]; try done.
  pose proof (wp_select q (fun _ w1 => db_same w w1) w (fun _ _ H _ _ => H) (fun _ _ H _ => H)) as H.
  specialize (H r w1 He). by destruct r.
Qed.

#[export] Instance unchanged_preorder : PreOrder unchanged.
Proof. split; [by split|]. intros w1 w2 w3 [H1 H2] [H3 H4]. split; [by etrans|congruence]. Qed.

Lemma wp_reads {A} (p : io A) (w : world) : issues reads p -> wp env p (fun o w' => o <> Exited /\ unchanged w w') w.
Proof.
  intros Hp. apply (wp_issues env reads (unchanged w)); [|done|done].
  intros w1 c r w2 Hc H1 He. etrans; [done|by eapply reads_step].
Qed.

(** The handlers of the GET routes only look. *)
Lemma get_routes_read : Forall (fun r => rt_method r = "GET" -> forall ps rq body, issues reads (rt_handler r ps rq body)) (buildApp su cfg).
Proof.
  unfold buildApp, register, healthRoutes, endpointsRoutes, eventsRoutes, dlqRoutes, deliveriesRoutes, statsRoutes.
  cbn [map app]. repeat (apply Forall_cons; split; [intros Hm ps rq body; cbn [rt_method rt_handler] in *; try discriminate Hm|]).
  all: try apply Forall_nil_2.
  all: issues_tac ltac:(exact I).
Qed.

(** How a handler may end: it dies only by the test switch, no transaction is
    left open, and the tables stay well-formed and only grow. *)
Definition kept (w : world) (o : outcome exn reply) (w' : world) : Prop :=
  (o = Exited -> su_crash su = true) /\ idle w' /\ audit (tables_of w') /\ grows (tables_of w) (tables_of w').

Lemma wp_kept_reads (p : io reply) (w : world) :
  idle w -> audit (tables_of w) -> issues reads p -> wp env p (kept w) w.
Proof.
  intros Hi Ha Hp. eapply wp_mono; [by apply wp_reads|]. intros o w1 [Hne [Hs _]].
  split; [done|]. split; [by eapply db_same_idle|]. by rewrite (db_same_tables _ _ Hs).
Qed.

(** A handler that is one activity of the engine. *)
Lemma wp_kept_flow f {A} (p : io A) Q (w : world) :
  idle w -> audit (tables_of w) -> (forall o w', exec env p w o w' -> flow_runs cfg (fun _ _ => "") f w w') ->
  wp env p Q w -> wp env p (fun o w' => Q o w' /\ audit (tables_of w') /\ grows (tables_of w) (tables_of w')) w.
Proof.
  intros Hi Ha Hf HQ. apply wp_exec. intros o w' Hx. rewrite wp_exec in HQ. split; [by apply HQ|].
  by apply (flow_audit cfg (fun _ _ => "") f w w' Hi (Hf _ _ Hx)).
Qed.

Lemma wp_kept_postEndpoints is_url issues_of body (w : world) :
  idle w -> audit (tables_of w) -> wp env (postEndpoints is_url issues_of cfg body) (kept w) w.
Proof.
  intros Hi Ha. eapply wp_mono.
  - apply (wp_kept_flow (FRegister is_url issues_of body)); [done|done|intros o w1 Hx; by exists o|apply wp_postEndpoints].
  - intros o w1 [Ho Hg]. split; [by intros ->|]. split; [|done].
    destruct o as [r|e|]; [| |done].
    + destruct Ho as (id & e & _ & Hw & _). by eapply wrote_idle.
    + destruct Ho as [[Hw _]|(_ & id & e' & _ & Hw)]; by eapply wrote_idle.
Qed.

Lemma wp_kept_patchEndpoint is_url issues_of id body (w : world) :
  idle w -> audit (tables_of w) -> wp env (patchEndpoint is_url issues_of id body) (kept w) w.
Proof.
  intros Hi Ha. eapply wp_mono.
  - apply (wp_kept_flow (FPatch is_url issues_of id body)); [done|done|intros o w1 Hx; by exists o|apply wp_patchEndpoint].
  - intros o w1 [Ho Hg]. split; [by intros ->|]. split; [|done].
    destruct o as [r|e|]; [| |done].
    + destruct Ho as (active & url & e & (_ & _ & _ & Hw) & _). by eapply wrote_idle.
    + destruct Ho as [[Hw _]|(_ & active & url & e' & _ & _ & _ & Hw)]; by eapply wrote_idle.
Qed.

Lemma wp_kept_postRetry id (w : world) : idle w -> audit (tables_of w) -> wp env (postRetry cfg id) (kept w) w.
Proof.
  intros Hi Ha. unfold postRetry. apply wp_bind. eapply wp_mono.
  - apply (wp_kept_flow (FRetry id)); [done|done|intros o w1 Hx; by exists o|by apply wp_retry_post].
  - intros [res|e|] w1 [[_ [Hi1 Ho]] Hg]; cbn [after].
    + eapply wp_mono.
      * apply wp_quiet. destruct res; quiet_tac.
      * intros o w2 [Hne Hs]. split; [done|]. split; [by eapply db_same_idle|]. by rewrite (db_same_tables _ _ Hs).
    + split; [done|]. by split.
    + destruct (d_status <$> deliveries (tables_of w) !! id) as [[]|]; repeat match goal with
      | H : _ /\ _ |- _ => destruct H
      | H : _ \/ _ |- _ => destruct H
      | H : ex _ |- _ => destruct H
      end; discriminate.
Qed.

Lemma wp_kept_postEvents is_uuid issues_of hit rq (w : world) :
  idle w -> audit (tables_of w) -> wp env (postEvents is_uuid issues_of cfg (su_crash su) hit rq) (kept w) w.
Proof.
  intros Hi Ha. eapply wp_mono; [by apply wp_postEvents|]. intros o w1 [Hi1 Ho].
  assert (forall p res ws, created (tables_of w) p res ws ->
    audit (apply_writes (tables_of w) ws) /\ grows (tables_of w) (apply_writes (tables_of w) ws)) as Hnew.
  { intros p res ws Hc. by eapply audit_created. }
  destruct o as [r|e|]; (split; [|split; [done|]]); try done.
  - destruct Ho as (_ & p & res & _ & _ & [(_ & ws & Hc & [->|(_ & t & ->)])|(_ & -> & _)]); [by eapply Hnew| |done].
    destruct (Hnew _ _ _ Hc) as [H1 H2]. destruct (audit_enqueued _ (delivery_id res) t H1). split; [done|by etrans].
  - destruct Ho as [[-> _]|(_ & p & res & ws & _ & Hc & ->)]; [done|by eapply Hnew].
  - by destruct Ho.
  - destruct Ho as (_ & p & res & ws & _ & Hc & ->). by eapply Hnew.
Qed.

Lemma routes_kept : Forall (fun r => forall ps rq body (w : world), idle w -> audit (tables_of w) ->
  wp env (rt_handler r ps rq body) (kept w) w) (buildApp su cfg).
Proof.
  apply Forall_forall. intros r Hr ps rq body w Hi Ha. destruct (String.eqb_spec (rt_method r) "GET") as [Hm|Hm].
  - pose proof get_routes_read as Hg. rewrite Forall_forall in Hg. apply wp_kept_reads; [done|done|by apply Hg].
  - revert r Hr Hm. apply (Forall_forall (fun r => rt_method r <> "GET" -> wp env (rt_handler r ps rq body) (kept w) w)).
    unfold buildApp, register, healthRoutes, endpointsRoutes, eventsRoutes, dlqRoutes, deliveriesRoutes, statsRoutes.
    cbn [map app]. repeat (apply Forall_cons; split; [intros Hm; cbn [rt_method rt_handler] in *; try (by destruct Hm)|]).
    all: try apply Forall_nil_2.
    + by apply wp_kept_postEndpoints.
    + by apply wp_kept_patchEndpoint.
    + by apply wp_kept_postEvents.
    + by apply wp_kept_postRetry.
Qed.

(** The error handler answers every error. *)
Lemma wp_on_error e Q (w : world) :
  (forall w1, unchanged w w1 -> Q (Returned (error_reply e (su_code su e) (su_validation su e))) w1) ->
  wp env (on_error su e) Q w.
Proof.
  intros HQ. unfold on_error. destruct (unknown_error su e).
  - apply wp_bind. eapply wp_mono; [apply wp_and; [apply (wp_log "error" (exn_message e))|apply (wp_reads (log "error" (exn_message e)))]|].
    + by issues_tac ltac:(exact I).
    + intros o w1 [[-> _] [_ Hu]]. apply wp_ret. by apply HQ.
  - apply wp_bind, wp_ret, wp_ret. by apply HQ.
Qed.

Lemma wp_answer_request rq (w : world) :
  idle w -> audit (tables_of w) ->
  wp env (answer_request su cfg rq) (fun o w' => ((exists r, o = Returned r) \/ o = Exited /\ su_crash su = true) /\
    idle w' /\ audit (tables_of w') /\ grows (tables_of w) (tables_of w')) w.
Proof.
  intros Hi Ha. unfold answer_request. destruct (su_find _ _ _) as [[i ps]|]; [|by apply wp_ret; split; [eauto|]].
  destruct (_ !! i) as [r|] eqn:Hr; [|by apply wp_ret; split; [eauto|]]. apply list_elem_of_lookup_2 in Hr.
  pose proof routes_kept as Hk. rewrite Forall_forall in Hk. specialize (Hk r Hr ps rq).
  apply wp_try_catch. unfold run_route. destruct (su_parse su rq) as [e|body].
  - apply wp_throw, wp_on_error. intros w1 [Hs _]. split; [eauto|]. split; [by eapply db_same_idle|].
    by rewrite (db_same_tables _ _ Hs).
  - eapply wp_mono; [by apply Hk|]. intros [r1|e|] w1 (Hc & Hi1 & Ha1 & Hg1); [by eauto 8| |by auto].
    apply wp_on_error. intros w2 [Hs _]. split; [eauto|]. split; [by eapply db_same_idle|].
    by rewrite (db_same_tables _ _ Hs).
Qed.

(** A request that looks. *)
Lemma wp_answer_get rq (w : world) :
  fastify su -> in_method rq = "GET" \/ in_method rq = "HEAD" ->
  wp env (answer_request su cfg rq) (fun _ w' => unchanged w w') w.
Proof.
  intros Hf Hm. unfold answer_request. destruct (su_find _ _ _) as [[i ps]|] eqn:E; [|by apply wp_ret].
  destruct (_ !! i) as [r|] eqn:Hr; [|by apply wp_ret].
  assert (rt_method r = "GET") as Hget.
  { apply (fy_found su Hf) in E as (m & p & Hi & Hs & _). unfold patterns in Hi. rewrite list_lookup_fmap, Hr in Hi.
    injection Hi as <- _. destruct Hs as [Hs|[Hs _]]; [|done]. destruct Hm as [Hm|Hm]; [congruence|].
    destruct (no_head_route su cfg i (rt_method r) (rt_pattern r)); [|congruence].
    unfold patterns. by rewrite list_lookup_fmap, Hr. }
  apply list_elem_of_lookup_2 in Hr. pose proof get_routes_read as Hg. rewrite Forall_forall in Hg. specialize (Hg r Hr Hget ps rq).
  apply wp_try_catch. unfold run_route. destruct (su_parse su rq) as [e|body].
  { apply wp_throw, wp_on_error. by intros w1 Hu. }
  eapply wp_mono; [by apply wp_reads|]. intros [r1|e|] w1 [_ Hu]; [done| |done].
  apply wp_on_error. intros w2 Hu2. by etrans.
Qed.
End Effects.

(** ** The dashboard: src/dashboard/src/api.ts and the proxy before the API *)

(** What [fetch] is called with. The header Content-Type of [apiFetch] is
    application/json whatever the request. *)
Record fetched := { ft_method : string; ft_path : string; ft_params : params }.

Definition BASE : string := "/api/v1".

Definition apiGet (path : string) (p : params) : fetched := {|
  ft_method := "GET"; ft_path := BASE ++s path; ft_params := p |}.

Definition apiPost (path : string) : fetched := {| ft_method := "POST"; ft_path := BASE ++s path; ft_params := [] |}.

(** [p.replace(/^\/api/, '')]. *)
Definition proxied (path : string) : string := if String.prefix "/api" path then str_drop 4 path else path.

(** The request as it arrives at the API; a POST without a body has length 0. *)
Definition arrived (f : fetched) : incoming := {|
  in_method := ft_method f; in_path := tail (str_split "/"%char (proxied (ft_path f))); in_query := sent (ft_params f);
  in_idempotency_key := Absent; in_content_type := Some "application/json";
  in_content_length := if String.eqb (ft_method f) "POST" then Some "0" else None; in_text := "" |}.

(** The same without the header. *)
Definition untyped (rq : incoming) : incoming := {|
  in_method := in_method rq; in_path := in_path rq; in_query := in_query rq;
  in_idempotency_key := in_idempotency_key rq; in_content_type := None;
  in_content_length := in_content_length rq; in_text := in_text rq |}.

(** A text that is one segment of a URL as it stands, as the ids are. *)
Definition one_segment (id : string) : bool :=
  negb (String.eqb id "") && (String.length id <=? 100)%nat &&
  forallb (fun c => without c id) ["/"%char; "?"%char; "#"%char; "%"%char].

Lemma one_segment_spec id :
  one_segment id = true -> id <> "" /\ (String.length id <= 100)%nat /\ without "/"%char id = true.
Proof.
  unfold one_segment. rewrite !andb_true_iff, negb_true_iff, String.eqb_neq, Nat.leb_le.
  intros [[H1 H2] H3]. cbn in H3. apply andb_true_iff in H3 as [H3 _]. auto.
Qed.

Lemma arrived_retry id : without "/"%char id = true -> in_path (arrived (apiPost ("/dlq/" ++s id ++s "/retry"))) = ["v1"; "dlq"; id; "retry"].
Proof.
  intros H. change (tail (str_split "/"%char ("/v1/dlq/" ++s id ++s "/retry")) = ["v1"; "dlq"; id; "retry"]).
  change (tail ("" :: str_split "/"%char ("v1" ++s "/dlq/" ++s id ++s "/retry")) = ["v1"; "dlq"; id; "retry"]).
  cbn [tail]. change ("v1" :: "dlq" :: str_split "/"%char (id ++s "/retry") = ["v1"; "dlq"; id; "retry"]).
  by rewrite (str_split_app "/"%char id "retry").
Qed.

Ltac plain_tac := repeat (apply Forall_cons; split; [split; [done|cbn; lia]|]); apply Forall_nil_2.

Section Requests.
Context (su : surroundings) (cfg : Config).

(** The requests the dashboard polls and lists with are those its components
    mean: each reaches its handler, with its parameters. *)
Theorem dashboard_routed (p : params) (id : string) :
  fastify su -> one_segment id = true ->
  let answered h := try_catch h (on_error su) in
  answer_request su cfg (arrived (apiGet "/stats" [])) = answered (getStats (su_seconds_text su) cfg (su_db_stats su) (su_depths su)) /\
  answer_request su cfg (arrived (apiGet "/endpoints" [])) = answered (getEndpoints (su_pg_array su) Absent) /\
  answer_request su cfg (arrived (apiGet "/deliveries" p)) =
    answered (getDeliveries (su_platform su) (su_new_Date su) (su_Number su) (su_is_uuid su) (su_query_issues su) (query_of p)) /\
  answer_request su cfg (arrived (apiGet "/dlq" p)) =
    answered (getDlq (su_platform su) (su_new_Date su) (su_Number su) (su_query_issues su) (query_of p)) /\
  answer_request su cfg (arrived (apiGet ("/deliveries/" ++s id) [])) = answered (getDelivery id).
Proof.
  intros Hf (Hne & Hl & Hs)%one_segment_spec answered.
  assert (forall i r ps f, buildApp su cfg !! i = Some r -> ft_method f = "GET" -> rt_method r = "GET" ->
    plain (in_path (arrived f)) -> match_path (rt_pattern r) (in_path (arrived f)) = Some ps ->
    answer_request su cfg (arrived f) = answered (rt_handler r ps (arrived f) JNull)) as Hget.
  { intros i r ps f Hr Hm Hmr Hpl Hp. rewrite (serve_routed su cfg (arrived f) i r ps) by (done || by rewrite Hmr).
    unfold run_route. by rewrite (fy_get su Hf). }
  assert (in_path (arrived (apiGet ("/deliveries/" ++s id) [])) = ["v1"; "deliveries"; id]) as Hid.
  { change ("v1" :: "deliveries" :: str_split "/"%char id = ["v1"; "deliveries"; id]). by rewrite str_split_none. }
  repeat split.
  - apply (Hget 10%nat _ [] (apiGet "/stats" []) eq_refl); [done..|plain_tac|done].
  - apply (Hget 3%nat _ [] (apiGet "/endpoints" []) eq_refl); [done..|plain_tac|done].
  - apply (Hget 8%nat _ [] (apiGet "/deliveries" p) eq_refl); [done..|plain_tac|done].
  - apply (Hget 6%nat _ [] (apiGet "/dlq" p) eq_refl); [done..|plain_tac|done].
  - apply (Hget 9%nat _ [id] (apiGet ("/deliveries/" ++s id) []) eq_refl); [done..|rewrite Hid; plain_tac|by rewrite Hid].
Qed.

(** The route of the retry button. *)
Lemma retry_routed rq id :
  fastify su -> one_segment id = true -> in_method rq = "POST" -> in_path rq = ["v1"; "dlq"; id; "retry"] ->
  answer_request su cfg rq =
    try_catch (match su_parse su rq with inl e => Throw e | inr _ => postRetry cfg id end) (on_error su).
Proof.
  intros Hf (Hne & Hl & _)%one_segment_spec Hm Hp.
  rewrite (serve_routed su cfg rq 7%nat _ [id] Hf ltac:(rewrite Hp; plain_tac) eq_refl);
    [done|done|by rewrite Hp].
Qed.
End Requests.

(** ** Properties *)

(** C21: a request to the API, whatever it is and whatever the services answer,
    is answered, with an error too, and only the test switch
    CRASH_AFTER_COMMIT ends the process instead; no transaction is left open;
    the tables keep their invariant and only grow. A GET or HEAD request
    writes nothing and adds no job. *)
Theorem request_kept {RS BS : Type} `{!RedisServer RS} `{!RedisLaws RS} `{!BullMQ BS} `{!BullMQLaws BS}
    (su : surroundings) (cfg : Config) (rq : incoming) (w w' : world RS BS) (o : outcome exn reply) :
  fastify su -> idle w -> audit (tables_of w) -> exec env (answer_request su cfg rq) w o w' ->
  ((exists r, o = Returned r) \/ o = Exited /\ su_crash su = true) /\
  idle w' /\ audit (tables_of w') /\ grows (tables_of w) (tables_of w') /\
  (in_method rq = "GET" \/ in_method rq = "HEAD" -> unchanged w w').
Proof.
  intros Hf Hi Ha Hx. pose proof (wp_answer_request su cfg rq w Hi Ha) as H. rewrite wp_exec in H.
  destruct (H _ _ Hx) as (H1 & H2 & H3 & H4). do 4 (split; [done|]).
  intros Hm. pose proof (wp_answer_get su cfg rq w Hf Hm) as Hg. rewrite wp_exec in Hg. by eapply Hg.
Qed.

(** C22: the retry button of the dashboard does nothing. [apiFetch] announces a
    JSON body and [apiPost] sends none, which Fastify refuses before the
    handler; the error handler does not know the error, so the user is shown
    "An unexpected error occurred" and the delivery stays in the DLQ. The same
    request without the header is the manual retry. *)
Theorem retry_button_refused {RS BS : Type} `{!RedisServer RS} `{!RedisLaws RS} `{!BullMQ BS} `{!BullMQLaws BS}
    (su : surroundings) (cfg : Config) (text_of : json -> string) (statusText id : string) (w w' : world RS BS)
    (o : outcome exn reply) :
  fastify su -> one_segment id = true ->
  let rq := arrived (apiPost ("/dlq/" ++s id ++s "/retry")) in
  exec env (answer_request su cfg rq) w o w' ->
  unchanged w w' /\
  (exists r e, o = Returned r /\ rp_code r = 500 /\ apiFetch text_of (received statusText r) = inl e /\
     retry_message text_of e = "An unexpected error occurred") /\
  answer_request su cfg (untyped rq) = try_catch (postRetry cfg id) (on_error su).
Proof.
  intros Hf Hid rq Hx. pose proof (one_segment_spec _ Hid) as (_ & _ & Hs).
  pose proof (arrived_retry id Hs) as Hp. split; [|split].
  3:{ rewrite (retry_routed su cfg (untyped rq) id Hf Hid) by done. by rewrite (fy_none su Hf). }
  all: rewrite (retry_routed su cfg rq id Hf Hid eq_refl Hp) in Hx.
  all: destruct (fy_empty su Hf rq) as (e & He & Hfo & Hco & Hva); [done..|].
  all: rewrite He in Hx; cbn [try_catch] in Hx; revert o w' Hx; apply wp_exec, wp_on_error; intros w1 Hu.
  - exact Hu.
  - rewrite Hco, Hva. destruct e; try done; (eexists _, _; split; [reflexivity|]; repeat split; reflexivity).
Qed.

(** ** Witnesses *)

Fixpoint first_match (i : nat) (rs : list (string * list segment)) (rq : incoming) : option (nat * list string) :=
  match rs with
  | [] => None
  | (m, p) :: rs =>
      match (if String.eqb (in_method rq) m || String.eqb m "GET" && String.eqb (in_method rq) "HEAD"
             then match_path p (in_path rq) else None) with
      | Some ps => Some (i, ps)
      | None => first_match (S i) rs rq
      end
  end.

Lemma first_match_found k rs rq i ps : first_match k rs rq = Some (i, ps) ->
  exists j m p, i = (k + j)%nat /\ rs !! j = Some (m, p) /\ serves m rq /\ match_path p (in_path rq) = Some ps.
Proof.
  revert k. induction rs as [|[m p] rs IH]; intros k; cbn; [done|].
  destruct (_ || _) eqn:Hm; [destruct (match_path p (in_path rq)) as [qs|] eqn:Hp|].
  1: { intros [= <- <-]. exists 0%nat, m, p. split; [lia|]. split; [done|]. split; [|done]. unfold serves.
       apply orb_true_iff in Hm as [Hm%String.eqb_eq|[H1%String.eqb_eq H2%String.eqb_eq]%andb_true_iff]; auto. }
  all: intros (j & m' & q & -> & Hr)%IH; exists (S j), m', q; split; [lia|done].
Qed.

Lemma first_match_finds k rs rq i m p ps :
  rs !! i = Some (m, p) -> in_method rq = m -> match_path p (in_path rq) = Some ps -> first_match k rs rq <> None.
Proof.
  intros Hi Hm Hp. revert k i Hi. induction rs as [|[m' q] rs IH]; intros k i Hi; [done|]. cbn.
  destruct i as [|i]; cbn in Hi.
  - injection Hi as -> ->. by rewrite Hm, String.eqb_refl, Hp.
  - case_match; [done|]. by apply (IH _ i).
Qed.

(** Fastify on the bodies of the examples. *)
Definition demo_parse (rq : incoming) : exn + json :=
  if String.eqb (in_method rq) "POST" && bool_decide (in_content_type rq = Some "application/json") && String.eqb (in_text rq) ""
  then inl (JsError "FastifyError" "Body cannot be empty when content-type is set to 'application/json'")
  else inr JNull.

Definition demo_su : surroundings := {|
  su_platform := demo_platform; su_new_Date := plain_Date; su_Number := plain_Number;
  su_is_uuid := fun _ => true; su_is_url := fun _ => true; su_issues := fun _ => JNull; su_query_issues := fun _ => JNull;
  su_pg_array := fun _ => ""; su_seconds_text := show_Z;
  su_find := first_match 0; su_parse := demo_parse;
  su_not_found := fun _ => {| rp_code := 404; rp_headers := []; rp_body := JNull |};
  su_code := fun e => match e with JsError "FastifyError" _ => Some "FST_ERR_CTP_EMPTY_JSON_BODY" | _ => None end;
  su_validation := fun _ => None; su_counts := None; su_db_stats := None; su_depths := None; su_crash := false |}.

Lemma demo_fastify : fastify demo_su.
Proof.
  split; cbn.
  - intros rs rq i ps (j & m & p & -> & H)%first_match_found. by exists m, p.
  - intros rs rq i m p ps _. apply first_match_finds.
  - intros rq H. unfold demo_parse. by rewrite H.
  - intros rq H _ _. unfold demo_parse. rewrite H, bool_decide_eq_false_2 by done. by rewrite andb_false_r.
  - intros rq H1 H2 H3. unfold demo_parse. rewrite H1, H2, H3. cbn. eexists. by split.
Qed.

Definition retry_click : incoming := arrived (apiPost ("/dlq/" ++s first_id ++s "/retry")).

Lemma request_kept_witness :
  (exists r, (run_with (serve reliable) (answer_request demo_su default_config retry_click) attempted_run.2).1 = Returned r) /\
  audit (tables_of (run_with (serve reliable) (answer_request demo_su default_config retry_click) attempted_run.2).2).
Proof.
  assert (idle attempted_run.2) as Hi by (split; [vm_compute; reflexivity|intros k; vm_compute; intros H; inversion H]).
  destruct (request_kept demo_su default_config retry_click _ _ _ demo_fastify Hi demo_audit
    (serve_exec reliable (answer_request demo_su default_config retry_click) attempted_run.2)) as ([H|[_ H]] & _ & Ha & _).
  - split; [exact H|exact Ha].
  - discriminate H.
Defined.

Lemma retry_button_refused_witness :
  let w := demo_world 1000 (demo_tables DLQ [demo_attempt 1] None) ∅ ∅ in
  let r := run_with (serve reliable) (answer_request demo_su default_config (arrived (apiPost "/dlq/d1/retry"))) w in
  exists x, r.1 = Returned x /\ rp_code x = 500 /\ unchanged w r.2.
Proof.
  intros w r.
  destruct (retry_button_refused demo_su default_config (fun _ => "") "Internal Server Error" "d1" w r.2 r.1
    demo_fastify eq_refl (serve_exec reliable _ w)) as (Hu & (x & e & Hx & Hc & _) & _).
  exists x. split; [exact Hx|]. split; [exact Hc|exact Hu].
Defined.
