(* ===== verification/Views.v ===== *)
(** * What the dashboard draws

    The JSX of src/dashboard/src/components and App.tsx as functions from the
    state of Dashboard.v and the JSON received to a tree of elements, without
    keys and inline styles. Nothing checks the JSON against types.ts: a
    property is read as JavaScript reads it, and a drawing may throw. Then
    what an operator sees of a delivery, and which buttons do something. *)

From S2P Require Import Prelude Async Config Json Parse Dates Tables Queries Schema Redis Services Concrete Repo Frames.
From S2P Require Import Signature Cursor Listing Api AuditTrail ReadApi Pagination ReadSpec Monitor Dashboard.
From Stdlib Require Import ZArith Lia String Ascii SpecFloat.
From stdpp Require Import prelude strings gmap.

Open Scope Z_scope.

#[local] Set Warnings "-register-all".

(** ** Results *)

Definition rbind {A B} (r : exn + A) (f : A -> exn + B) : exn + B :=
  match r with inl e => inl e | inr a => f a end.

Notation "'let?' x := r 'in' f" := (rbind r (fun x => f)) (at level 10, x binder, r at level 200, f at level 200).

(** [l.map(f)], when [f] may throw. *)
Fixpoint rmap {A B} (f : A -> exn + B) (l : list A) : exn + list B :=
  match l with
  | [] => inr []
  | x :: l => let? y := f x in let? ys := rmap f l in inr (y :: ys)
  end.

Lemma rmap_ok {A B C} (f : B -> exn + C) (g : A -> B) (h : A -> C) (l : list A) :
  Forall (fun x => f (g x) = inr (h x)) l -> rmap f (map g l) = inr (map h l).
Proof. induction 1 as [|x l Hx _ IH]; cbn; [done|]. by rewrite Hx, IH. Qed.

(** ** Elements *)

(** What a click or a change does. *)
Inductive act :=
| DoTab (t : Tab)
| DoFilters (f : Filters)
| DoType (f : string -> Filters)
| DoSelect (id : string)
| DoClose
| DoMore
| DoRetry (id : string).

Inductive node :=
| Txt (s : string)
| El (tag : string) (attrs : list (string * string)) (on : option act) (children : list node).

Definition el (tag : string) (children : list node) : node := El tag [] None children.
Definition el_class (tag class : string) (children : list node) : node := El tag [("class", class)] None children.

Fixpoint inner_text (n : node) : string :=
  match n with
  | Txt s => s
  | El _ _ _ ns => str_join "" (map inner_text ns)
  end.

(** The elements of a tag, in the order of the document, down to the first
    of them on each branch. *)
Fixpoint elements (tag : string) (n : node) : list node :=
  match n with
  | Txt _ => []
  | El t _ _ ns => if String.eqb t tag then [n] else flat_map (elements tag) ns
  end.

(** The texts of the cells of a table body, row by row. *)
Definition cells (tbody : node) : list (list string) :=
  map (fun tr => map inner_text (elements "td" tr)) (elements "tr" tbody).

(** What a click on the drawing can do: a button that is off does nothing. *)
Fixpoint actions (n : node) : list act :=
  match n with
  | Txt _ => []
  | El _ attrs on ns =>
      (if existsb (fun a => String.eqb a.1 "disabled") attrs then [] else match on with Some a => [a] | None => [] end) ++
      flat_map actions ns
  end.

(** ** Values *)

(** A value of JavaScript made of JSON; [None] is [undefined]. *)
Definition value : Type := option json.

Definition type_error : exn := JsError "TypeError" "Cannot read properties".

(** [v.name], for the names the components read. *)
Definition get (name : string) (v : value) : exn + value :=
  match v with
  | None | Some JNull => inl type_error
  | Some (JObj fs) => inr (field name fs)
  | Some _ => inr None
  end.

Definition truthy (v : value) : bool :=
  match v with
  | None | Some JNull => false
  | Some (JBool b) => b
  | Some (JNum t) => negb (String.eqb t "0")
  | Some (JStr s) => negb (String.eqb s "")
  | Some _ => true
  end.

(** [v ?? d]. *)
Definition nullish (v d : value) : value := match v with None | Some JNull => d | _ => v end.

(** [{v}] as a child: an object is refused. *)
Fixpoint draw_json (v : json) : exn + list node :=
  match v with
  | JNull | JBool _ => inr []
  | JNum t => inr [Txt t]
  | JStr s => inr [Txt s]
  | JArr l => (fix go l := match l with
                           | [] => inr []
                           | v :: l => let? ns := draw_json v in let? ms := go l in inr (ns ++ ms)
                           end) l
  | JObj _ => inl (JsError "Error" "Objects are not valid as a React child")
  end.

Definition draw (v : value) : exn + list node := match v with Some v => draw_json v | None => inr [] end.

(** [{v && ns}]. *)
Definition draw_if (v : value) (ns : exn + list node) : exn + list node := if truthy v then ns else draw v.

(** [{s && ns}] for a text of the component's own state. *)
Definition shown_if (s : option string) (ns : string -> list node) : list node :=
  match s with None => [] | Some "" => [Txt ""] | Some s => ns s end.

(** [l.length === 0]. *)
Definition is_empty (v : value) : exn + bool :=
  match v with
  | None | Some JNull => inl type_error
  | Some (JArr []) | Some (JStr "") => inr true
  | Some (JObj fs) => inr (match field "length" fs with Some (JNum "0") => true | _ => false end)
  | Some _ => inr false
  end.

(** [l.map(f)]: only an array has it. *)
Definition map_rows {B} (f : json -> exn + B) (v : value) : exn + list B :=
  match v with Some (JArr l) => rmap f l | _ => inl type_error end.

(** [s.replace(c, d)] for single characters. *)
Fixpoint replace_first (c d : ascii) (s : string) : string :=
  match s with
  | EmptyString => ""
  | String x s => if Ascii.eqb x c then String d s else String x (replace_first c d s)
  end.

(** A time as the components print it, from the text [toISOString] gives. *)
Definition plain_time (n : nat) (iso : string) : string := str_take n (replace_first "T" " " iso).

(** [JSON.stringify(v, null, 2)], at the indentation [ind]. *)
Definition newline (ind : string) : string := String (ascii_of_nat 10) ind.

Fixpoint pretty (ind : string) (v : json) : string :=
  let inner := ind ++s "  " in
  let block (l r : string) (items : list string) : string :=
    match items with
    | [] => l ++s r
    | _ => l ++s newline inner ++s str_join ("," ++s newline inner) items ++s newline ind ++s r
    end in
  match v with
  | JArr l => block "[" "]" (map (pretty inner) l)
  | JObj fs => block "{" "}" (map (fun '(k, v) => json_quote k ++s ": " ++s pretty inner v) fs)
  | v => stringify v
  end.

(** ** Numbers *)

(** [n / d] in double precision, for integers it holds. *)
Definition integer_double (n : Z) : spec_float := binary_normalize 53 1024 n 0 false.
Definition divide (n d : Z) : spec_float := SFdiv 53 1024 (integer_double n) (integer_double d).

(** [x.toFixed(1)], below 10^21: the tenths nearest to [x], the larger of two. *)
Definition tenths (m : positive) (e : Z) : Z :=
  if 0 <=? e then 10 * Zpos m * 2 ^ e else (20 * Zpos m + 2 ^ (- e)) / (2 * 2 ^ (- e)).

Definition toFixed1 (x : spec_float) : string :=
  match x with
  | S754_zero _ => "0.0"
  | S754_finite s m e =>
      (if s then "-" else "") ++s show_Z (tenths m e / 10) ++s "." ++s show_Z (tenths m e mod 10)
  | S754_infinity s => if s then "-Infinity" else "Infinity"
  | S754_nan => "NaN"
  end.

(** The number a text of digits stands for, in units of [10 ^ - k]: its
    numerator and the power of ten below it. *)
Fixpoint decimal (acc scale : Z) (point : bool) (s : string) : option (Z * Z) :=
  match s with
  | EmptyString => Some (acc, scale)
  | String c s =>
      if Ascii.eqb c "." then if point then None else decimal acc scale true s
      else
        let v := Z.of_nat (nat_of_ascii c) - 48 in
        if (0 <=? v) && (v <=? 9) then decimal (10 * acc + v) (if point then 10 * scale else scale) point s else None
  end.

(** The double a JSON number without an exponent stands for. *)
Definition number_double (t : string) : spec_float :=
  match t with
  | String "-" t => match decimal 0 1 false t with Some (n, d) => divide (- n) d | None => S754_nan end
  | t => match decimal 0 1 false t with Some (n, d) => divide n d | None => S754_nan end
  end.

(** StatusTiles.tsx, for an integer. *)
Definition fmt (n : Z) : string :=
  if 1000000 <=? n then toFixed1 (divide n 1000000) ++s "M"
  else if 1000 <=? n then toFixed1 (divide n 1000) ++s "k"
  else show_Z n.

(** ** The components *)

Section Components.
(** [new Date(v)], and [String(v)] of a value that is no text. *)
Context (Date_of : value -> jsnum) (text_of : json -> string).

Definition to_text (v : value) : string :=
  match v with None => "undefined" | Some (JStr s) => s | Some v => text_of v end.

(** [new Date(v).toISOString().replace('T', ' ').slice(0, n)]. *)
Definition ts (n : nat) (v : value) : exn + string :=
  let? iso := iso_of (Date_of v) in inr (plain_time n iso).

(** [v.slice(0, 8)]. *)
Definition slice8 (v : value) : exn + string :=
  match v with Some (JStr s) => inr (shortId s) | _ => inl type_error end.

(** DetailPanel.tsx, [truncate] of a value: what is neither text nor list has
    no length. *)
Definition truncate_value (v : value) (n : nat) : exn + list node :=
  match v with
  | None => inr [Txt "—"]
  | Some (JStr s) => inr [Txt (truncate (Some s) n)]
  | Some (JArr l) => if (n <? length l)%nat then inr [Txt (text_of (JArr (take n l)) ++s "…")] else draw v
  | Some w => if truthy v then draw_json w else inr [Txt "—"]
  end.

(** A property in an element of its own. *)
Definition draw_in (wrap : list node -> node) (v : exn + value) : exn + node :=
  let? v := v in let? ns := draw v in inr (wrap ns).

Definition head_row (names : list string) : node := el "tr" (map (fun s => el "th" [Txt s]) names).

(** [{...}] with a label before it. *)
Definition labelled (label : string) (ns : list node) : list node := [el "span" [Txt label]; el "span" ns].

Definition attempt_line (a : json) : exn + node :=
  let a := Some a in
  let? number := draw_in (el "td") (get "attempt_number" a) in
  let? o := get "outcome" a in
  let? outcome := draw_in (el_class "td" ("outcome-" ++s to_text o)) (inr o) in
  let? http := draw_in (el "td") (let? v := get "http_status" a in inr (nullish v (Some (JStr "—")))) in
  let? latency := draw_in (el "td") (get "latency_ms" a) in
  let? started := (let? v := get "started_at" a in ts 22 v) in
  let? response_body := get "response_body" a in
  let? error_message := get "error_message" a in
  let? shown := truncate_value (nullish response_body error_message) 40 in
  let title := to_text (nullish (nullish response_body error_message) (Some (JStr ""))) in
  inr (el "tr" [number; outcome; http; latency; el "td" [Txt started]; El "td" [("title", title)] None shown]).

Definition transition_line (t : json) : exn + node :=
  let t := Some t in
  let? from := draw_in (el "td") (let? v := get "from_status" t in inr (nullish v (Some (JStr "null")))) in
  let? s := get "to_status" t in
  let? to_ := draw_in (el_class "td" ("status-" ++s to_text s)) (inr s) in
  let? actor_ := draw_in (el "td") (get "actor" t) in
  let? reason := draw_in (el "td") (let? v := get "reason" t in inr (nullish v (Some (JStr "—")))) in
  let? created := (let? v := get "created_at" t in ts 22 v) in
  inr (el "tr" [from; to_; actor_; reason; el "td" [Txt created]]).

(** The panel for [deliveryId], with its two states. *)
Definition detail_sections (detail : value) : exn + list node :=
  let? id := draw_in (el "span") (get "id" detail) in
  let? s := get "status" detail in
  let? status := draw_in (el_class "span" ("status-" ++s to_text s)) (inr s) in
  let? attempts := draw_in (el "span") (get "attempt_count" detail) in
  let? event := get "event" detail in
  let? event_type := draw_in (el "span") (get "event_type" event) in
  let? endpoint := get "endpoint" detail in
  let? url := draw_in (el "span") (get "url" endpoint) in
  let? next := get "next_attempt_at" detail in
  let? next_attempt := draw_if next (let? t := ts 22 next in inr (labelled "next_attempt" [Txt t])) in
  let? atts := get "attempts" detail in
  let? none := is_empty atts in
  let? timeline :=
    (if (none : bool) then inr (el "span" [Txt "no attempts yet"])
     else let? rows := map_rows attempt_line atts in
          inr (el "table" [el "thead" [head_row ["#"; "outcome"; "http"; "ms"; "started"; "body"]]; el "tbody" rows])) in
  let? trs := get "transitions" detail in
  let? chain := map_rows transition_line trs in
  let? payload := get "payload" event in
  inr [el "section" [el "div" [Txt "DELIVERY"];
         el "div" ([el "span" [Txt "id"]; id; el "span" [Txt "status"]; status;
                    el "span" [Txt "attempts"]; attempts; el "span" [Txt "event_type"]; event_type;
                    el "span" [Txt "endpoint"]; url] ++ next_attempt)];
       el "section" [el "div" [Txt "ATTEMPT TIMELINE"]; timeline];
       el "section" [el "div" [Txt "TRANSITION CHAIN"];
         el "table" [el "thead" [head_row ["from"; "to"; "actor"; "reason"; "at"]]; el "tbody" chain]];
       el "section" [el "div" [Txt "EVENT PAYLOAD"];
         el "pre" (match payload with Some v => [Txt (pretty "" v)] | None => [] end)]].

Definition DetailPanel (deliveryId : string) (detail : value) (error : option string) : exn + node :=
  let? body := draw_if detail (let? sections := detail_sections detail in inr [el "div" sections]) in
  inr (el "div"
    ([el "div" [el "span" [Txt "DELIVERY "; Txt (shortId deliveryId)]; El "button" [] (Some DoClose) [Txt "✕"]]] ++
     shown_if error (fun e => [el "div" [Txt "error: "; Txt e]]) ++ body)).

(** DlqView.tsx. *)
Definition button (disabled : bool) (a : act) (label : string) : node :=
  El "button" (if disabled then [("disabled", "")] else []) (Some a) [Txt label].

Definition empty_row (text : string) : node := el "tr" [El "td" [("colSpan", "6")] None [Txt text]].

(** The button under a list, while there is a next page. *)
Definition load_more (nextCursor : option string) (loading : bool) : list node :=
  shown_if nextCursor (fun _ => [el "div" [button loading DoMore (if loading then "loading…" else "load more")]]).

Definition dlq_line (retrying : gset string) (row : json) : exn + node :=
  let row := Some row in
  let? idv := get "id" row in
  let? short := slice8 idv in
  let? event_type := draw_in (el "td") (get "event_type" row) in
  let? attempts := draw_in (el "td") (get "attempt_count" row) in
  let? entered := (let? v := get "dlq_entered_at" row in ts 19 v) in
  let? updated := (let? v := get "updated_at" row in ts 19 v) in
  let id := to_text idv in
  let off := bool_decide (id ∈ retrying) in
  inr (el "tr" [el "td" [Txt short]; event_type; attempts; el "td" [Txt entered]; el "td" [Txt updated];
                el "td" [button off (DoRetry id) (if off then "…" else "retry")]]).

Definition DlqView (s : @dlq_view json) : exn + node :=
  let? rows := rmap (dlq_line (dq_retrying s)) (dq_rows s) in
  inr (el "div"
    (shown_if (dq_toast s) (fun t => [el "div" [Txt t]]) ++
     shown_if (dq_error s) (fun e => [el "div" [Txt "error: "; Txt e]]) ++
     [el "table" [el "thead" [head_row ["id"; "event_type"; "attempts"; "entered_dlq"; "updated"; ""]];
                  el "tbody" (rows ++ match dq_rows s with [] => [empty_row "DLQ is empty"] | _ => [] end)]] ++
     load_more (dq_nextCursor s) (dq_loadingMore s))).

(** DeliveryTable.tsx, drawn at the time [now]. *)
Definition rel_time (now : Z) (v : value) : string :=
  match Date_of v with Num t => relTime now t | NaN => "NaNh ago" end.

Definition delivery_line (now : Z) (selectedId : option string) (row : json) : exn + node :=
  let row := Some row in
  let? idv := get "id" row in
  let? short := slice8 idv in
  let? event_type := draw_in (el "td") (get "event_type" row) in
  let? s := get "status" row in
  let? status := draw_in (el_class "td" ("status-" ++s to_text s)) (inr s) in
  let? attempts := draw_in (el "td") (get "attempt_count" row) in
  let? next := get "next_attempt_at" row in
  let? updated := get "updated_at" row in
  let id := to_text idv in
  inr (El "tr" (if bool_decide (selectedId = Some id) then [("background", "var(--bg3)")] else []) (Some (DoSelect id))
    [el "td" [Txt short]; event_type; status; attempts;
     el "td" [Txt (if truthy next then rel_time now next else "—")]; el "td" [Txt (rel_time now updated)]]).

Definition DeliveryTable (now : Z) (selectedId : option string) (s : @table json) : exn + node :=
  if truthy (JStr <$> tb_error s) then inr (el "div" [Txt "error: "; Txt (default "" (tb_error s))])
  else
    let? rows := rmap (delivery_line now selectedId) (tb_rows s) in
    inr (el "div"
      ([el "table" [el "thead" [head_row ["id"; "event_type"; "status"; "attempts"; "next_attempt"; "updated"]];
                    el "tbody" (rows ++ match tb_rows s with [] => [empty_row "no deliveries"] | _ => [] end)]] ++
       load_more (tb_nextCursor s) (tb_loading s))).

(** StatusTiles.tsx, with the data and the error of its poll. A count that is
    no integer is printed as it is. *)
Definition fmt_value (v : value) : string :=
  match v with
  | Some (JNum t) => match read_Z t with Some n => fmt n | None => t end
  | v => to_text v
  end.

Definition zero : value := Some (JNum "0").
Definition no_fields : value := Some (JObj []).

Definition queue_line (label name : string) (depths : value) : exn + node :=
  let? span := draw_in (el "span") (let? v := get name depths in inr (nullish v zero)) in
  inr (el "div" [Txt label; span]).

Definition age_line (v : value) : exn + list node :=
  match v with
  | None | Some JNull => inr []
  | Some (JNum t) => inr [el "div" [Txt "oldest pending: "; el "span" [Txt (toFixed1 (number_double t)); Txt "s"]]]
  | Some _ => inl type_error
  end.

(** [stats?.name], and [stats?.queues[name]]. *)
Definition of_stats (name : string) (stats : value) : exn + value :=
  match stats with None | Some JNull => inr None | _ => get name stats end.
Definition queue_of_stats (name : string) (stats : value) : exn + value :=
  match stats with None | Some JNull => inr None | _ => let? q := get "queues" stats in get name q end.

Definition STATUSES : list string := ["PENDING"; "DELIVERING"; "DELIVERED"; "FAILED"; "DLQ"].

Definition tile (counts : value) (s : string) : exn + node :=
  let? n := get s counts in
  inr (el_class "div" ("status-" ++s s) [el "span" [Txt (fmt_value (nullish n zero))]; el "span" [Txt s]]).

Definition StatusTiles (stats : value) (error : option string) : exn + node :=
  if truthy (JStr <$> error) then inr (el "div" [Txt "stats error: "; Txt (default "" error)])
  else
    let? d := of_stats "deliveries" stats in
    let counts := nullish d no_fields in
    let? q := queue_of_stats "webhook-delivery" stats in
    let delivery := nullish q no_fields in
    let? q := queue_of_stats "webhook-dlq" stats in
    let dlqQueue := nullish q no_fields in
    let? tiles := rmap (tile counts) STATUSES in
    let? wait := queue_line "queue wait: " "wait" delivery in
    let? active := queue_line "active: " "active" delivery in
    let? delayed := queue_line "delayed: " "delayed" delivery in
    let? dlq := queue_line "dlq-q: " "wait" dlqQueue in
    let? a := of_stats "oldest_pending_age_s" stats in
    let? age := age_line a in
    let? b := of_stats "backpressure_active" stats in
    let? banner := draw_if b (inr [el "div" [Txt "BACKPRESSURE"]]) in
    inr (el "div" (tiles ++ [el "div" [wait; active; delayed; dlq]] ++ age ++ banner)).

(** Filters.tsx, with the endpoints it has fetched. *)
Definition set_endpoint (e : string) (f : Filters) : Filters := {|
  fl_statuses := fl_statuses f; fl_endpoint_id := e; fl_from := fl_from f; fl_to := fl_to f |}.

Definition set_from (v : string) (f : Filters) : Filters := {|
  fl_statuses := fl_statuses f; fl_endpoint_id := fl_endpoint_id f; fl_from := v; fl_to := fl_to f |}.
Definition set_to (v : string) (f : Filters) : Filters := {|
  fl_statuses := fl_statuses f; fl_endpoint_id := fl_endpoint_id f; fl_from := fl_from f; fl_to := v |}.

Definition endpoint_option (f : Filters) (ep : json) : exn + node :=
  let? id := get "id" (Some ep) in
  let? url := get "url" (Some ep) in
  let? ns := draw url in
  inr (El "option" [("value", to_text id)] (Some (DoFilters (set_endpoint (to_text id) f))) ns).

Definition status_box (f : Filters) (s : string) : node :=
  el_class "label" ("status-" ++s s)
    [El "input" (("type", "checkbox") :: (if bool_decide (s ∈ fl_statuses f) then [("checked", "")] else []))
       (Some (DoFilters (toggleStatus s f))) []; Txt s].

Definition date_box (v : string) (change : string -> Filters) : node :=
  El "input" [("type", "datetime-local"); ("value", v)] (Some (DoType change)) [].

Definition FiltersBar (f : Filters) (endpoints : list json) : exn + node :=
  let? options := rmap (endpoint_option f) endpoints in
  inr (el "div"
    ([el "span" [Txt "STATUS"]] ++ map (status_box f) ALL_STATUSES ++
     [el "span" [Txt "ENDPOINT"];
      El "select" [("value", fl_endpoint_id f)] None
        (El "option" [("value", "")] (Some (DoFilters (set_endpoint "" f))) [Txt "— all endpoints —"] :: options);
      el "span" [Txt "FROM"]; date_box (fl_from f) (fun v => set_from v f);
      el "span" [Txt "TO"]; date_box (fl_to f) (fun v => set_to v f);
      El "button" [] (Some (DoFilters EMPTY_FILTERS)) [Txt "clear"]])).
End Components.

(** App.tsx, around the drawings of its parts. *)
Definition tab_button (a : Dashboard.app) (t : Tab) (label : string) : node :=
  El "button" (match ap_tab a, t with
               | tab_deliveries, tab_deliveries | tab_dlq, tab_dlq => [("borderBottom", "2px solid var(--accent)")]
               | _, _ => [] end) (Some (DoTab t)) [Txt label].

(** The delivery whose panel is open. *)
Definition open_panel (a : Dashboard.app) : option string :=
  match ap_tab a, ap_selectedId a with
  | tab_deliveries, Some id => if String.eqb id "" then None else Some id
  | _, _ => None
  end.

Definition App (a : Dashboard.app) (tiles filters table panel dlq : node) : node :=
  el "div"
    ([el "div" [el "span" [Txt "webhook-delivery"]; tab_button a tab_deliveries "deliveries"; tab_button a tab_dlq "DLQ"];
      el "div" [tiles]] ++
     match ap_tab a with
     | tab_deliveries =>
         [el "div" [filters];
          el "div" (el "div" [table] :: match open_panel a with Some _ => [panel] | None => [] end)]
     | tab_dlq => [el "div" [dlq]]
     end).

(** What an action, with the text typed if it is an input's, does to the state
    of the application; the others are the lists' own. *)
Definition app_event_of (x : act) (typed : string) : option app_event :=
  match x with
  | DoTab t => Some (ClickTab t)
  | DoFilters f => Some (ChangeFilters f)
  | DoType f => Some (ChangeFilters (f typed))
  | DoSelect id => Some (SelectRow id)
  | DoClose => Some ClosePanel
  | DoMore | DoRetry _ => None
  end.

(** ** The panel and its requests *)

(** DetailPanel.tsx: the states of an instance. *)
Record panel := { pn_id : string; pn_detail : value; pn_error : option string }.

Definition fresh_panel (id : string) : panel := {| pn_id := id; pn_detail := Some JNull; pn_error := None |}.

(** The application with the instance of the panel that is mounted, and the
    requests in flight by instance: [key] makes a new instance for each id. *)
Record screen := {
  sc_app : Dashboard.app; sc_panel : option (nat * panel); sc_next : nat; sc_pending : list (nat * string)
}.

Definition mount (a : Dashboard.app) (s : screen) : screen :=
  match open_panel a with
  | None => {| sc_app := a; sc_panel := None; sc_next := sc_next s; sc_pending := sc_pending s |}
  | Some id =>
      match sc_panel s with
      | Some (k, p) =>
          if String.eqb (pn_id p) id then {| sc_app := a; sc_panel := Some (k, p); sc_next := sc_next s; sc_pending := sc_pending s |}
          else {| sc_app := a; sc_panel := Some (sc_next s, fresh_panel id); sc_next := S (sc_next s);
                  sc_pending := sc_pending s ++ [(sc_next s, id)] |}
      | None => {| sc_app := a; sc_panel := Some (sc_next s, fresh_panel id); sc_next := S (sc_next s);
                   sc_pending := sc_pending s ++ [(sc_next s, id)] |}
      end
  end.

(** A setter of an instance: nothing once it is unmounted. *)
Definition on_panel (k : nat) (f : panel -> panel) (rest : list (nat * string)) (s : screen) : screen := {|
  sc_app := sc_app s;
  sc_panel := match sc_panel s with
              | Some (k', p) => Some (k', if (k' =? k)%nat then f p else p)
              | None => None
              end;
  sc_next := sc_next s; sc_pending := rest |}.

Definition setDetail (v : json) (p : panel) : panel := {| pn_id := pn_id p; pn_detail := Some v; pn_error := pn_error p |}.
Definition setError (m : string) (p : panel) : panel := {| pn_id := pn_id p; pn_detail := pn_detail p; pn_error := Some m |}.

Section Screen.
(** What the API answers to GET /v1/deliveries/:id. *)
Context (answered : string -> json -> Prop).

Inductive screen_step (s : screen) : screen -> Prop :=
| sc_event e : screen_step s (mount (app_step (sc_app s) e) s)
| sc_answer l1 k id l2 v : sc_pending s = l1 ++ (k, id) :: l2 -> answered id v ->
    screen_step s (on_panel k (setDetail v) (l1 ++ l2) s)
| sc_failed l1 k id l2 m : sc_pending s = l1 ++ (k, id) :: l2 ->
    screen_step s (on_panel k (setError m) (l1 ++ l2) s).

(** Every instance asks for its own delivery. *)
Record screen_ok (s : screen) : Prop := {
  sk_open : match sc_panel s with Some (k, p) => (k < sc_next s)%nat /\ open_panel (sc_app s) = Some (pn_id p) | None => open_panel (sc_app s) = None end;
  sk_detail k p v : sc_panel s = Some (k, p) -> pn_detail p = Some v -> v = JNull \/ answered (pn_id p) v;
  sk_pending k id p : (k, id) ∈ sc_pending s -> (k < sc_next s)%nat /\ (sc_panel s = Some (k, p) -> id = pn_id p)
}.

Lemma mount_ok a s : screen_ok s -> screen_ok (mount a s).
Proof.
  intros [Ho Hd Hp]. unfold mount. destruct (open_panel a) as [id|] eqn:Ha.
  2: { split; cbn; [done|done|]. intros k i p Hin. split; [by apply (Hp k i (fresh_panel i))|done]. }
  assert (screen_ok {| sc_app := a; sc_panel := Some (sc_next s, fresh_panel id); sc_next := S (sc_next s);
    sc_pending := sc_pending s ++ [(sc_next s, id)] |}) as Hnew.
  { split; cbn; [split; [lia|done]| |].
    - intros k p v [= <- <-] [= <-]. by left.
    - intros k i p [Hin|[= -> ->]%list_elem_of_singleton]%elem_of_app; [|split; [lia|by intros [= <-]]].
      destruct (Hp k i p Hin) as [Hk _]. split; [lia|]. intros [= <- _]. lia. }
  destruct (sc_panel s) as [[k p]|] eqn:Hs; [|done]. destruct (String.eqb_spec (pn_id p) id) as [E|]; [|done].
  split; cbn.
  - destruct Ho as [Hk _]. by rewrite E.
  - intros k' p' v [= <- <-]. by apply (Hd k).
  - exact Hp.
Qed.

Lemma on_panel_ok k f rest s :
  screen_ok s -> (forall x, x ∈ rest -> x ∈ sc_pending s) -> (forall p, pn_id (f p) = pn_id p) ->
  (forall p v, sc_panel s = Some (k, p) -> pn_detail (f p) = Some v ->
     pn_detail p = Some v \/ answered (pn_id p) v) ->
  screen_ok (on_panel k f rest s).
Proof.
  intros [Ho Hd Hp] Hr Hid Hf. unfold on_panel. destruct (sc_panel s) as [[k' p]|] eqn:Hs.
  - assert (pn_id (if (k' =? k)%nat then f p else p) = pn_id p) as E by (destruct (_ =? _)%nat; [apply Hid|done]).
    split; cbn; [by rewrite E| |].
    + intros k0 p0 v [= <- <-]. rewrite E. destruct (Nat.eqb_spec k' k) as [-> |]; [|by apply (Hd k')].
      intros [H|H]%Hf; [by eapply Hd|by right|done].
    + intros k0 i p0 Hin%Hr. destruct (Hp k0 i p Hin) as [H1 H2]. split; [done|]. intros [= <- <-]. rewrite E. by apply H2.
  - split; cbn; [done|done|]. intros k0 i p0 Hin%Hr. split; [by apply (Hp k0 i p0)|done].
Qed.

Lemma screen_step_ok s s' : screen_ok s -> screen_step s s' -> screen_ok s'.
Proof.
  intros Hs Hst. destruct Hst as [e|l1 k id l2 v Hp Hv|l1 k id l2 m Hp]; [by apply mount_ok|..].
  all: apply on_panel_ok; [done|intros x; rewrite Hp, !elem_of_app, elem_of_cons; tauto|done|].
  - intros p w Hpan [= <-]. right. destruct (sk_pending s Hs k id p) as [_ Hid]; [rewrite Hp; set_solver|]. by rewrite <- (Hid Hpan).
  - intros p w _ H. by left.
Qed.

(** App.tsx at its start. *)
Definition first_screen : screen := {|
  sc_app := {| ap_tab := tab_deliveries; ap_filters := EMPTY_FILTERS; ap_selectedId := None |};
  sc_panel := None; sc_next := 0; sc_pending := [] |}.

Lemma screens_ok s : rtc screen_step first_screen s -> screen_ok s.
Proof.
  intros H. apply (rtc_ind_r screen_ok first_screen) in H; [done| |].
  - split; [done|done|]. intros k id p []%elem_of_nil.
  - intros x y _ Hxy Hx. by eapply screen_step_ok.
Qed.
End Screen.

(** ** A delivery as the panel shows it *)

Section Drawn.
Context (Date_of : value -> jsnum) (text_of : json -> string).
Context (HDate : forall ms, four_digit_years (ms / 86400000) -> Date_of (Some (JStr (toISOString ms))) = Num ms).

(** A time whose year has four digits, and as it is shown. *)
Definition dated (t : Z) : Prop := four_digit_years (ms_of_ts t / 86400000).
Definition shown_time (t : Z) : string := plain_time 22 (toISOString (ms_of_ts t)).

Lemma ts_date n t : dated t -> ts Date_of n (Some (date_json t)) = inr (plain_time n (toISOString (ms_of_ts t))).
Proof using HDate. intros Ht. unfold ts, date_json. by rewrite HDate. Qed.

Definition attempt_cells (a : AttemptDetail) : list string :=
  [show_Z (ad_attempt_number a); outcome_text (ad_outcome a); from_option show_Z "—" (ad_http_status a);
   show_Z (ad_latency_ms a); shown_time (ad_started_at a);
   truncate (match ad_response_body a with Some b => Some b | None => ad_error_message a end) 40].

Definition transition_cells (x : TransitionDetail) : list string :=
  [from_option status_text "null" (td_from_status x); status_text (td_to_status x); actor_text (td_actor x);
   td_reason x; shown_time (td_created_at x)].

(** The columns of the delivery itself: id, status, attempts, event type and
    endpoint, and the next attempt if there is one. *)
Definition summary_texts (v : DeliveryDetail) : list string :=
  let r := dd_row v in
  ["id"; de_id r; "status"; status_text (de_status r); "attempts"; show_Z (de_attempt_count r);
   "event_type"; de_event_type r; "endpoint"; de_endpoint_url r] ++
  match de_next_attempt_at r with Some t => ["next_attempt"; shown_time t] | None => [] end.

Definition row_of (texts : list (list (string * string) * string)) : node :=
  el "tr" (map (fun x => El "td" x.1 None [Txt x.2]) texts).

Definition attempt_drawn (a : AttemptDetail) : node :=
  row_of (zip [[]; [("class", "outcome-" ++s outcome_text (ad_outcome a))]; []; []; [];
               [("title", match ad_response_body a with Some b => b | None => default "" (ad_error_message a) end)]]
    (attempt_cells a)).

Definition transition_drawn (x : TransitionDetail) : node :=
  row_of (zip [[]; [("class", "status-" ++s status_text (td_to_status x))]; []; []; []] (transition_cells x)).

Lemma attempt_line_drawn a : dated (ad_started_at a) -> attempt_line Date_of text_of (attempt_json a) = inr (attempt_drawn a).
Proof using HDate.
  intros Ht. destruct a as [n o http body err lat st fi]. cbn in Ht. unfold attempt_line, attempt_json, attempt_drawn, attempt_cells.
  cbv -[ts truncate date_json shown_time show_Z outcome_text append plain_time toISOString ms_of_ts]. rewrite ts_date by done. destruct http, body, err; reflexivity.
Qed.

Lemma transition_line_drawn x : dated (td_created_at x) -> transition_line Date_of text_of (transition_json x) = inr (transition_drawn x).
Proof using HDate.
  intros Ht. destruct x as [from to_ act reason cr]. cbn in Ht. unfold transition_line, transition_json, transition_drawn, transition_cells.
  cbv -[ts truncate date_json shown_time show_Z status_text actor_text append plain_time toISOString ms_of_ts]. rewrite ts_date by done. destruct from; reflexivity.
Qed.

Lemma row_of_texts l : map inner_text (elements "td" (row_of l)) = map snd l.
Proof. unfold row_of. cbn. induction l as [|[c s] l IH]; cbn; [done|]. by f_equal. Qed.

(** What the panel draws for the reply [detail_json v]. *)
Definition timeline (atts : list AttemptDetail) : node :=
  match atts with
  | [] => el "span" [Txt "no attempts yet"]
  | _ => el "table" [el "thead" [head_row ["#"; "outcome"; "http"; "ms"; "started"; "body"]]; el "tbody" (map attempt_drawn atts)]
  end.

Definition summary_spans (v : DeliveryDetail) : list node :=
  let r := dd_row v in
  [el "span" [Txt "id"]; el "span" [Txt (de_id r)]; el "span" [Txt "status"];
   el_class "span" ("status-" ++s status_text (de_status r)) [Txt (status_text (de_status r))];
   el "span" [Txt "attempts"]; el "span" [Txt (show_Z (de_attempt_count r))];
   el "span" [Txt "event_type"]; el "span" [Txt (de_event_type r)]; el "span" [Txt "endpoint"];
   el "span" [Txt (de_endpoint_url r)]] ++
  match de_next_attempt_at r with Some t => labelled "next_attempt" [Txt (shown_time t)] | None => [] end.

Definition sections (v : DeliveryDetail) : list node :=
  [el "section" [el "div" [Txt "DELIVERY"]; el "div" (summary_spans v)];
   el "section" [el "div" [Txt "ATTEMPT TIMELINE"]; timeline (dd_attempts v)];
   el "section" [el "div" [Txt "TRANSITION CHAIN"];
     el "table" [el "thead" [head_row ["from"; "to"; "actor"; "reason"; "at"]]; el "tbody" (map transition_drawn (dd_transitions v))]];
   el "section" [el "div" [Txt "EVENT PAYLOAD"]; el "pre" [Txt (pretty "" (de_payload (dd_row v)))]]].

(** Every time of the view has a year of four digits. *)
Definition dated_view (v : DeliveryDetail) : Prop :=
  (forall t, de_next_attempt_at (dd_row v) = Some t -> dated t) /\
  Forall (fun a => dated (ad_started_at a)) (dd_attempts v) /\
  Forall (fun x => dated (td_created_at x)) (dd_transitions v).

Lemma detail_gets v :
  let D := Some (detail_json v) in let r := dd_row v in
  get "id" D = inr (Some (JStr (de_id r))) /\ get "status" D = inr (Some (JStr (status_text (de_status r)))) /\
  get "attempt_count" D = inr (Some (num_json (de_attempt_count r))) /\
  get "next_attempt_at" D = inr (Some (opt_json date_json (de_next_attempt_at r))) /\
  get "attempts" D = inr (Some (JArr (map attempt_json (dd_attempts v)))) /\
  get "transitions" D = inr (Some (JArr (map transition_json (dd_transitions v)))) /\
  exists event endpoint, get "event" D = inr event /\ get "endpoint" D = inr endpoint /\
    get "event_type" event = inr (Some (JStr (de_event_type r))) /\ get "payload" event = inr (Some (de_payload r)) /\
    get "url" endpoint = inr (Some (JStr (de_endpoint_url r))).
Proof.
  do 6 (split; [reflexivity|]). eexists _, _. split; [reflexivity|]. split; [reflexivity|].
  split; [reflexivity|]. split; reflexivity.
Qed.

Lemma next_attempt_drawn o : (forall t, o = Some t -> dated t) ->
  draw_if (Some (opt_json date_json o)) (let? t := ts Date_of 22 (Some (opt_json date_json o)) in
    inr (labelled "next_attempt" [Txt t])) =
  inr (match o with Some t => labelled "next_attempt" [Txt (shown_time t)] | None => [] end).
Proof using HDate.
  intros Ho. destruct o as [t|]; [|done]. cbn [opt_json]. rewrite ts_date by auto. unfold draw_if, truthy, date_json.
  destruct (String.eqb_spec (toISOString (ms_of_ts t)) "") as [E|]; [by destruct (toISOString_not_empty _ E)|done].
Qed.

Lemma sections_drawn v : dated_view v -> detail_sections Date_of text_of (Some (detail_json v)) = inr (sections v).
Proof using HDate.
  intros (Hn & Ha & Ht). destruct (detail_gets v) as (E1 & E2 & E3 & E4 & E5 & E6 & event & endpoint & E7 & E8 & E9 & E10 & E11).
  assert (map_rows (attempt_line Date_of text_of) (Some (JArr (map attempt_json (dd_attempts v)))) = inr (map attempt_drawn (dd_attempts v))) as Hatts
    by (apply rmap_ok; eapply Forall_impl; [exact Ha|]; intros a; apply attempt_line_drawn).
  assert (map_rows (transition_line Date_of text_of) (Some (JArr (map transition_json (dd_transitions v)))) = inr (map transition_drawn (dd_transitions v))) as Htrs
    by (apply rmap_ok; eapply Forall_impl; [exact Ht|]; intros a; apply transition_line_drawn).
  unfold detail_sections. rewrite E1, E2, E3, E4, E5, E6, E7, E8. unfold draw_in. cbn [rbind]. rewrite E9, E10, E11, Htrs.
  cbn [rbind draw draw_json num_json]. rewrite next_attempt_drawn by done. cbn [rbind].
  unfold sections, timeline. destruct (dd_attempts v); [done|]. cbn [map is_empty rbind]. cbn [map] in Hatts. rewrite Hatts. done.
Qed.
Lemma rows_cells {A} (h : A -> node) (c : A -> list string) l :
  (forall x, elements "tr" (h x) = [h x] /\ map inner_text (elements "td" (h x)) = c x) ->
  cells (el "tbody" (map h l)) = map c l.
Proof.
  intros H. unfold cells. cbn. induction l as [|x l IH]; [done|]. cbn. destruct (H x) as [-> Hc]. cbn. by rewrite Hc, IH.
Qed.

Lemma rows_none {A} tag (h : A -> node) l : (forall x, elements tag (h x) = []) -> flat_map (elements tag) (map h l) = [].
Proof. intros H. induction l as [|x l IH]; cbn; [done|]. by rewrite H, IH. Qed.

(** The panel as a whole: its tables, and its columns. *)
Lemma panel_drawn id v err : dated_view v -> exists n,
  DetailPanel Date_of text_of id (Some (detail_json v)) err = inr n /\
  map cells (elements "tbody" n) =
    match dd_attempts v with [] => [] | atts => [map attempt_cells atts] end ++ [map transition_cells (dd_transitions v)] /\
  map inner_text (elements "span" n) =
    ("DELIVERY " ++s shortId id) :: summary_texts v ++ match dd_attempts v with [] => ["no attempts yet"] | _ => [] end.
Proof using HDate.
  intros Hv. unfold DetailPanel, draw_if. cbn [truthy detail_json]. fold (detail_json v). rewrite sections_drawn by done. cbn [rbind].
  eexists. split; [reflexivity|]. unfold sections, timeline, summary_spans, summary_texts. split.
  - assert (forall l, cells (el "tbody" (map attempt_drawn l)) = map attempt_cells l) as Ha by (intros l; by apply rows_cells).
    assert (forall l, cells (el "tbody" (map transition_drawn l)) = map transition_cells l) as Ht by (intros l; by apply rows_cells).
    rewrite <- Ht. destruct (dd_attempts v) as [|a l]; [|rewrite <- Ha]; destruct (de_next_attempt_at (dd_row v)), err as [[]|]; reflexivity.
  - pose proof (rows_none "span" attempt_drawn (dd_attempts v) (fun _ => eq_refl)) as Ha.
    pose proof (rows_none "span" transition_drawn (dd_transitions v) (fun _ => eq_refl)) as Ht.
    destruct (dd_attempts v) as [|a l]; destruct (de_next_attempt_at (dd_row v)), err as [[]|]; cbn -[attempt_drawn];
      cbn -[attempt_drawn] in Ha; rewrite ?Ha, Ht; reflexivity.
Qed.
End Drawn.

(** ** Properties *)

(** What the API answers to GET /v1/deliveries/:id, on tables that satisfy
    [A]. *)
Definition api_answers {RS BS : Type} `{!RedisServer RS} `{!RedisLaws RS} `{!BullMQ BS} (A : tables -> Prop) (id : string) (v : json) : Prop :=
  exists (w w' : world RS BS) r, A (tables_of w) /\ exec env (getDelivery id) w (Returned r) w' /\ rp_body r = v.

(** C29: what an operator sees of a delivery. Whatever rows are selected, tabs
    and filters changed, and answers arrive in whatever order: the panel that
    is open is that of the selected delivery, and what it holds is what the
    API answered for this delivery, its row and the rows of its logs at some
    moment. When the tables of that moment have the audit invariant, as all
    have that flows run one after the other leave (and not all that interleaved
    jobs leave), the attempts shown are numbered from 1 to the attempt count
    and the transitions lead by permitted moves to the status shown. When the
    dates shown are of the years 0 to 9999, and the browser reads such a date
    back, the panel is drawn without an error: the delivery's fields, a row for
    each attempt and a row for each transition. *)
Theorem panel_shows {RS BS : Type} `{!RedisServer RS} `{!RedisLaws RS} `{!BullMQ BS}
    (Date_of : value -> jsnum) (text_of : json -> string) (A : tables -> Prop) (s : screen) (k : nat) (p : panel) (v : json) :
  (forall ms, four_digit_years (ms / 86400000) -> Date_of (Some (JStr (toISOString ms))) = Num ms) ->
  rtc (screen_step (api_answers (RS := RS) (BS := BS) A)) first_screen s ->
  sc_panel s = Some (k, p) -> pn_detail p = Some v -> v <> JNull ->
  open_panel (sc_app s) = Some (pn_id p) /\
  exists (T : tables) d view, A T /\ deliveries T !! pn_id p = Some d /\
    detail_of T (pn_id p) = Some view /\ v = detail_json view /\
    de_status (dd_row view) = d_status d /\ de_attempt_count (dd_row view) = d_attempt_count d /\
    (audit T ->
       map ad_attempt_number (dd_attempts view) = seqZ 1 (d_attempt_count d) /\
       story None (dd_transitions view) (Some (d_status d))) /\
    (dated_view view -> exists n,
       DetailPanel Date_of text_of (pn_id p) (pn_detail p) (pn_error p) = inr n /\
       map cells (elements "tbody" n) =
         match dd_attempts view with [] => [] | atts => [map attempt_cells atts] end ++
         [map transition_cells (dd_transitions view)] /\
       map inner_text (elements "span" n) =
         ("DELIVERY " ++s shortId (pn_id p)) :: summary_texts view ++
         match dd_attempts view with [] => ["no attempts yet"] | _ => [] end).
Proof.
  intros HD Hs Hp Hv Hne. destruct (screens_ok _ s Hs) as [Ho Hd _]. rewrite Hp in Ho. destruct Ho as [_ Ho].
  split; [done|]. destruct (Hd k p v Hp Hv) as [?|(w & w' & r & Ha & Hx & <-)]; [done|].
  pose proof (wp_getDelivery_shown (pn_id p) w) as H. rewrite wp_exec in H.
  destruct (H _ _ Hx) as (_ & d & view & Hd' & Hdet & -> & H1 & H2).
  exists (tables_of w), d, view. do 6 (split; [done|]). split.
  - intros HT. pose proof (audit_detail _ (pn_id p) HT) as H3. rewrite Hdet in H3.
    destruct H3 as (d' & Hd'' & _ & _ & H3). rewrite Hd' in Hd''. injection Hd'' as <-. exact H3.
  - rewrite Hv. cbn [rp_body]. by apply panel_drawn.
Qed.

(** A browser's [new Date] on the texts of [toISOString]. *)
Definition iso_Date (v : value) : jsnum :=
  match v with Some (JStr s) => match parse_iso s with Some ms => Num ms | None => NaN end | _ => NaN end.

Lemma iso_Date_law ms : four_digit_years (ms / 86400000) -> iso_Date (Some (JStr (toISOString ms))) = Num ms.
Proof. intros H. unfold iso_Date. by rewrite parse_toISOString. Qed.

(** The panel of a delivery with one failed attempt is opened and answered. *)
Definition demo_reply : outcome exn reply := (run_with (serve reliable) (getDelivery first_id) attempted_run.2).1.

Definition demo_body : json := match demo_reply with Returned r => rp_body r | _ => JNull end.

Definition demo_screen : screen :=
  on_panel 0 (setDetail demo_body) [] (mount (app_step (sc_app first_screen) (SelectRow first_id)) first_screen).

Lemma demo_screen_steps :
  rtc (screen_step (api_answers (RS := mem_redis) (BS := mem_bull) audit)) first_screen demo_screen.
Proof.
  eapply rtc_l; [apply (sc_event _ _ (SelectRow first_id))|].
  eapply rtc_l; [|apply rtc_refl]. apply (sc_answer _ _ [] 0 first_id []); [vm_compute; reflexivity|].
  pose proof (serve_exec reliable (getDelivery first_id) attempted_run.2) as Hx.
  exists attempted_run.2, (run_with (serve reliable) (getDelivery first_id) attempted_run.2).2.
  unfold demo_body, demo_reply.
  destruct (run_with (serve reliable) (getDelivery first_id) attempted_run.2).1 as [r|e|] eqn:E; [|vm_compute in E; discriminate E..].
  exists r. split; [exact demo_audit|]. split; [exact Hx|reflexivity].
Qed.

Lemma panel_shows_witness :
  open_panel (sc_app demo_screen) = Some first_id /\
  (exists view, demo_body = detail_json view /\ map ad_attempt_number (dd_attempts view) = seqZ 1 (de_attempt_count (dd_row view)) /\
     story None (dd_transitions view) (Some (de_status (dd_row view)))) /\
  match DetailPanel iso_Date (fun _ => "") first_id (Some demo_body) None with
  | inr n => map cells (elements "tbody" n)
  | inl _ => []
  end = [[["1"; "HTTP_ERROR"; "503"; "0"; "1970-01-01 00:00:01.00"; "body"]];
         [["null"; "PENDING"; "api"; "created"; "1970-01-01 00:00:01.00"];
          ["PENDING"; "DELIVERING"; "worker"; "attempt_1"; "1970-01-01 00:00:01.00"];
          ["DELIVERING"; "FAILED"; "worker"; "http_503"; "1970-01-01 00:00:01.00"]]].
Proof.
  destruct (panel_shows (RS := mem_redis) (BS := mem_bull) iso_Date (fun _ => "") audit demo_screen 0
    (setDetail demo_body (fresh_panel first_id)) demo_body iso_Date_law demo_screen_steps)
    as [Ho (T & d & view & HT & _ & _ & Hv & Hs & Hc & Ha & _)]; [vm_compute; reflexivity|reflexivity|vm_compute; discriminate|].
  destruct (Ha HT) as [Hn Hst].
  split; [exact Ho|]. split; [|vm_compute; reflexivity]. exists view. rewrite Hs, Hc. exact (conj Hv (conj Hn Hst)).
Defined.

Lemma rmap_inv {A B} (f : A -> exn + B) l ys : rmap f l = inr ys -> Forall2 (fun x y => f x = inr y) l ys.
Proof.
  revert ys. induction l as [|x l IH]; intros ys; cbn; [by intros [= <-]|]. destruct (f x) as [e|y] eqn:E; [done|]. cbn.
  destruct (rmap f l) as [e|zs]; [done|]. cbn. intros [= <-]. constructor; auto.
Qed.

Lemma rbind_inr {A B} (r : exn + A) (f : A -> exn + B) y : rbind r f = inr y -> exists a, r = inr a /\ f a = inr y.
Proof. destruct r as [e|a]; [done|]. by exists a. Qed.

(** A drawn value does nothing when clicked. *)
Lemma draw_json_still v ns : draw_json v = inr ns -> flat_map actions ns = [].
Proof.
  revert ns. induction v as [| | | |l IH|fs IH] using json_nested_ind; intros ns; cbn; try (by intros [= <-]).
  revert ns. induction IH as [|v l Hv _ IHl]; intros ns; [by intros [= <-]|].
  intros (ns1 & E1 & (ns2 & E2 & [= <-])%rbind_inr)%rbind_inr. by rewrite flat_map_app, Hv, IHl.
Qed.

Lemma draw_in_still wrap v n :
  (forall ns, actions (wrap ns) = flat_map actions ns) -> draw_in wrap v = inr n -> actions n = [].
Proof.
  intros Hw. unfold draw_in. intros (w & -> & (ns & Hd & [= <-])%rbind_inr)%rbind_inr. rewrite Hw.
  destruct w as [w|]; [by eapply draw_json_still|]. by injection Hd as <-.
Qed.

Lemma load_more_actions next loading a :
  a ∈ flat_map actions (load_more next loading) <-> a = DoMore /\ loading = false /\ exists c, next = Some c /\ c <> "".
Proof.
  unfold load_more, button. destruct next as [c|]; [|cbn; split; [by intros ?%elem_of_nil|by intros (_ & _ & c & ? & _)]].
  destruct c as [|x c]; [cbn; split; [by intros ?%elem_of_nil|intros (_ & _ & c & [= <-] & ?); done]|].
  destruct loading; cbn; (split; [intros H|intros (-> & Hl & _)]); try done; try (by apply elem_of_nil in H); [|left].
  apply list_elem_of_singleton in H. eauto.
Qed.

Section Clicks.
Context (Date_of : value -> jsnum) (text_of : json -> string).

Definition json_id (row : json) : string := match get "id" (Some row) with inr v => to_text text_of v | inl _ => "" end.

(** What clicking an action makes of the view. *)
Inductive clicked (s : @dlq_view json) : act -> @dlq_view json -> Prop :=
| click_more c : dq_nextCursor s = Some c -> c <> "" -> dq_loadingMore s = false ->
    clicked s DoMore (set_loadingMore true (dq_issue (DlqNext c) s))
| click_retry row : row ∈ dq_rows s -> json_id row ∉ dq_retrying s ->
    clicked s (DoRetry (json_id row)) (begin_retry (json_id row) (dq_issue (DlqRetry (json_id row)) s)).

Lemma clicked_step s a s' : clicked s a s' -> dlq_step json_id text_of s s'.
Proof. intros [c H1 H2 H3|row H1 H2]; [by apply dq_more|by apply dq_retry]. Qed.

Lemma dlq_row_actions retrying row n :
  dlq_line Date_of text_of retrying row = inr n ->
  actions n = if bool_decide (json_id row ∈ retrying) then [] else [DoRetry (json_id row)].
Proof.
  unfold dlq_line. intros (idv & Hid & (short & _ & (n1 & H1 & (n2 & H2 & (t1 & _ & (t2 & _ & [= <-])%rbind_inr)%rbind_inr)%rbind_inr)%rbind_inr)%rbind_inr)%rbind_inr.
  assert (json_id row = to_text text_of idv) as -> by (unfold json_id; by rewrite Hid).
  apply draw_in_still in H1; [|done]. apply draw_in_still in H2; [|done]. cbn. rewrite H1, H2. cbn. unfold button.
  by case_bool_decide.
Qed.

(** The DLQ view does what its buttons say. The actions of the buttons that
    are on are exactly: the next page, when there is one and none is being
    loaded, and one retry for each row whose retry is not in flight; each is a
    step of the view. *)
Theorem dlq_view_clicks (s : @dlq_view json) (n : node) :
  DlqView Date_of text_of s = inr n ->
  (forall a, a ∈ actions n <-> exists s', clicked s a s') /\
  (forall a s', clicked s a s' -> dlq_step json_id text_of s s').
Proof.
  intros Hn. split; [|by apply clicked_step]. intros a. unfold DlqView in Hn. apply rbind_inr in Hn as (rows & Hr%rmap_inv & [= <-]).
  assert (flat_map actions (match dq_rows s with [] => [empty_row "DLQ is empty"] | _ => [] end) = []) as Hempty by by destruct (dq_rows s).
  assert (forall o f, (forall t, flat_map actions (f t) = []) -> flat_map actions (shown_if o f) = []) as Hshown.
  { intros o f Hf. unfold shown_if. destruct o as [[|x t]|]; [done|apply Hf|done]. }
  cbn. rewrite !flat_map_app. cbn. rewrite !flat_map_app, Hempty, !Hshown, !app_nil_r by done. cbn.
  rewrite elem_of_app, load_more_actions. split.
  - intros [Hin|(-> & Hl & c & Hc & Hne)]; [|eexists; by eapply click_more].
    apply list_elem_of_In, in_flat_map in Hin as (y & Hy%list_elem_of_In & Hin%list_elem_of_In).
    apply list_elem_of_lookup in Hy as [i Hy]. destruct (Forall2_lookup_r _ _ _ _ _ Hr Hy) as (row & Hrow & Hdraw).
    rewrite (dlq_row_actions _ _ _ Hdraw) in Hin. case_bool_decide; [by apply elem_of_nil in Hin|].
    apply list_elem_of_singleton in Hin as ->. eexists. apply click_retry; [by eapply list_elem_of_lookup_2|done].
  - intros [s' [c H1 H2 H3|row H1 H2]]; [right; eauto 10|left].
    apply list_elem_of_lookup in H1 as [i Hrow]. destruct (Forall2_lookup_l _ _ _ _ _ Hr Hrow) as (y & Hy & Hdraw).
    apply list_elem_of_In, in_flat_map. exists y. split; [by apply list_elem_of_In, (list_elem_of_lookup_2 _ i)|].
    apply list_elem_of_In. rewrite (dlq_row_actions _ _ _ Hdraw), bool_decide_false by done. by left.
Qed.
End Clicks.

Definition demo_row (id : string) : json :=
  JObj [("id", JStr id); ("event_type", JStr "order.created"); ("attempt_count", JNum "5");
        ("dlq_entered_at", JStr "2026-06-26T00:00:00.000Z"); ("updated_at", JStr "2026-06-26T00:00:00.000Z")].

Definition demo_dlq_view : @dlq_view json :=
  begin_retry "d1" (on_dlq_page [demo_row "d1"; demo_row "d2"] (Some "c") dlq_mounted).

Lemma dlq_view_clicks_witness :
  exists n s', DlqView iso_Date (fun _ => "") demo_dlq_view = inr n /\ actions n = [DoRetry "d2"; DoMore] /\
    clicked (fun _ => "") demo_dlq_view (DoRetry "d2") s'.
Proof.
  destruct (DlqView iso_Date (fun _ => "") demo_dlq_view) as [e|n] eqn:E; [vm_compute in E; discriminate E|].
  assert (actions n = [DoRetry "d2"; DoMore]) as Ha by (vm_compute in E; injection E as <-; reflexivity).
  destruct (dlq_view_clicks iso_Date (fun _ => "") demo_dlq_view n E) as [H _].
  destruct (proj1 (H (DoRetry "d2"))) as [s' Hs]; [rewrite Ha; by left|].
  exists n, s'. exact (conj eq_refl (conj Ha Hs)).
Defined.

(** types.ts makes a [DeliveryDetail] a [DeliveryListItem] as well; the API
    does not send the three properties that only a list item has. *)
Theorem detail_untyped (v : DeliveryDetail) (name : string) :
  name ∈ ["event_id"; "endpoint_id"; "event_type"] -> get name (Some (detail_json v)) = inr None.
Proof. intros H. repeat (apply elem_of_cons in H as [-> |H]; [reflexivity|]). by apply elem_of_nil in H. Qed.

(** ** Texts *)

(** A time to come is shown as past: the next attempt of a delivery that
    waits for its retry reads as minus some seconds ago. *)
Theorem future_ago (now t : Z) : now < t -> relTime now t = ("-" ++s show_Z (- ((now - t) / 1000)) ++s "s ago")%string.
Proof.
  intros H. unfold relTime. rewrite (proj2 (Z.ltb_lt (now - t) 60000)) by lia.
  assert ((now - t) / 1000 < 0) as Hn by (apply Z.div_lt_upper_bound; lia).
  remember ((now - t) / 1000) as n. destruct n as [|q|q]; [lia|lia|]. reflexivity.
Qed.

Example next_in_half_a_minute : relTime 1000 31000 = "-30s ago".
Proof. reflexivity. Qed.

(** Counts short of a million are rounded up past their unit. *)
Theorem fmt_carries : forallb (fun n => String.eqb (fmt (999950 + Z.of_nat n)) "1000.0k") (seq 0 50) = true.
Proof. vm_compute. reflexivity. Qed.

Example fmt_values : map fmt [999; 1000; 1049; 1050; 1450; 12345; 1000000; 1250000] =
  ["999"; "1.0k"; "1.0k"; "1.1k"; "1.4k"; "12.3k"; "1.0M"; "1.3M"].
Proof. vm_compute. reflexivity. Qed.

(** ** The tiles *)

Definition kids (n : node) : list node := match n with El _ _ _ ns => ns | Txt _ => [] end.

Definition banner : node := el "div" [Txt "BACKPRESSURE"].

Definition tile_drawn (c : status -> Z) (st : status) : node :=
  el_class "div" ("status-" ++s status_text st) [el "span" [Txt (fmt (c st))]; el "span" [Txt (status_text st)]].

Definition line_drawn (label : string) (n : Z) : node := el "div" [Txt label; el "span" [Txt (show_Z n)]].

(** The drawing of a reply: the counts [c], the depths, the age and the flag. *)
Definition tiles_drawn (c : status -> Z) (wait active delayed dlq : Z) (age : option string) (shed : bool) : node :=
  el "div" (map (tile_drawn c) statuses ++
    [el "div" [line_drawn "queue wait: " wait; line_drawn "active: " active; line_drawn "delayed: " delayed;
               line_drawn "dlq-q: " dlq]] ++
    match age with
    | Some t => [el "div" [Txt "oldest pending: "; el "span" [Txt (toFixed1 (number_double t)); Txt "s"]]]
    | None => []
    end ++
    if shed then [banner] else []).

Lemma tile_of_counts text_of (c : status -> Z) (st : status) :
  tile text_of (Some (JObj (map (fun st => (status_text st, num_json (c st))) statuses))) (status_text st) = inr (tile_drawn c st).
Proof.
  unfold tile, tile_drawn. assert (get (status_text st) (Some (JObj (map (fun st => (status_text st, num_json (c st))) statuses))) =
    inr (Some (num_json (c st)))) as -> by (by destruct st).
  cbn. by rewrite read_show_Z.
Qed.

Lemma stats_drawn text_of seconds_text cfg (c : status -> Z) (age : option Z) (d q : gmap string Z) w a l f dw da :
  d !! "wait" = Some w -> d !! "active" = Some a -> d !! "delayed" = Some l -> d !! "failed" = Some f ->
  q !! "wait" = Some dw -> q !! "active" = Some da ->
  StatusTiles text_of (Some (rp_body (stats_reply seconds_text cfg
    {| counts := map (fun st => (status_text st, c st)) statuses; oldest_pending_age := age |}
    {| webhook_delivery_counts := d; webhook_dlq_counts := q |}))) None =
  inr (tiles_drawn c w a l dw (seconds_text <$> age) (overloaded cfg d)).
Proof.
  intros Hw Ha Hl Hf Hdw Hda. unfold stats_reply. cbn [counts oldest_pending_age webhook_delivery_counts webhook_dlq_counts rp_body].
  assert (counts_json delivery_types d = JObj [("wait", num_json w); ("active", num_json a); ("delayed", num_json l); ("failed", num_json f)]) as ->
    by (unfold counts_json; cbn; by rewrite Hw, Ha, Hl, Hf).
  assert (counts_json dlq_types q = JObj [("wait", num_json dw); ("active", num_json da)]) as ->
    by (unfold counts_json; cbn; by rewrite Hdw, Hda).
  assert (map (fun x => (x.1, num_json x.2)) (map (fun st => (status_text st, c st)) statuses) =
    map (fun st => (status_text st, num_json (c st))) statuses) as -> by done.
  pose proof (tile_of_counts text_of c) as Ht. set (cs := map _ statuses) in *. unfold StatusTiles.
  set (stats := Some (JObj _)).
  assert (of_stats "deliveries" stats = inr (Some (JObj cs))) as -> by done.
  assert (rmap (tile text_of (Some (JObj cs))) STATUSES = inr (map (tile_drawn c) statuses)) as Htiles.
  { change STATUSES with (map status_text statuses). apply rmap_ok, Forall_forall. intros st _. apply Ht. }
  cbn [truthy fmap option_fmap option_map rbind nullish]. rewrite Htiles. clearbody cs.
  destruct age as [us|], (overloaded cfg d); reflexivity.
Qed.

(** The tiles show the statistics. For the reply of GET /v1/stats the tiles
    are drawn without an error: the exact count of each status in their order,
    the jobs waiting, active and delayed and those of the dead-letter queue,
    the age of the oldest pending delivery if there is one, and the banner just
    when the API sheds events. *)
Theorem tiles_show {RS BS : Type} `{!RedisServer RS} `{!RedisLaws RS} `{!BullMQ BS}
    (text_of : json -> string) (seconds_text : Z -> string) (cfg : Config) (w w' : world RS BS) (r : reply) :
  exec env (getStats seconds_text cfg None None) w (Returned r) w' ->
  let waiting q ty := count_jobs (bq_jobs (s_bull w.1) q) ty in
  exists n age, StatusTiles text_of (Some (rp_body r)) None = inr n /\
    map inner_text (elements "span" n) =
      flat_map (fun st => [fmt (count_status (tables_of w) st); status_text st]) statuses ++
      map show_Z [waiting webhook_delivery "wait"; waiting webhook_delivery "active"; waiting webhook_delivery "delayed";
                  waiting webhook_dlq "wait"] ++
      match age with Some us => [toFixed1 (number_double (seconds_text us)) ++s "s"] | None => [] end /\
    (is_Some age <-> exists d, d ∈ with_status (tables_of w) PENDING) /\
    (banner ∈ kids n <-> BACKPRESSURE_QUEUE_LIMIT cfg < waiting webhook_delivery "wait" + waiting webhook_delivery "delayed").
Proof.
  intros Hx waiting. pose proof (wp_getStats seconds_text cfg w) as H. rewrite wp_exec in H.
  destruct (H _ _ Hx) as (_ & db & q & -> & (Hc & now & _ & Hage) & Hdq). clear H.
  pose proof (overloaded_counts cfg w q Hdq) as Ho. destruct Hdq as [Hd Hq].
  destruct db as [cs age], q as [m1 m2]. cbn in *. subst cs age.
  assert (forall ty, ty ∈ delivery_types -> m1 !! ty = Some (waiting webhook_delivery ty)) as H1 by exact Hd.
  assert (forall ty, ty ∈ dlq_types -> m2 !! ty = Some (waiting webhook_dlq ty)) as H2 by exact Hq.
  exists (tiles_drawn (count_status (tables_of w)) (waiting webhook_delivery "wait") (waiting webhook_delivery "active")
    (waiting webhook_delivery "delayed") (waiting webhook_dlq "wait")
    (seconds_text <$> ((fun m => now - m) <$> min_created (with_status (tables_of w) PENDING))) (overloaded cfg m1)),
    ((fun m => now - m) <$> min_created (with_status (tables_of w) PENDING)).
  split; [eapply stats_drawn; first [apply H1|apply H2]; unfold delivery_types, dlq_types; set_solver|].
  set (age := min_created _). split; [|split].
  - destruct age as [m|], (overloaded cfg m1); reflexivity.
  - subst age. unfold min_created. destruct (with_status (tables_of w) PENDING) as [|d l]; cbn.
    + split; [by intros []|]. by intros [d ?%elem_of_nil].
    + split; [|done]. intros _. exists d. by left.
  - unfold tiles_drawn. cbn [kids el]. transitivity (overloaded cfg m1 = true); [|rewrite Ho; apply Z.ltb_lt].
    destruct age as [m|], (overloaded cfg m1); cbn; rewrite ?elem_of_cons; (split; [intros H|intros H]); try done; try tauto;
      repeat match type of H with _ \/ _ => destruct H as [H|H] end; try discriminate H; by apply elem_of_nil in H.
Qed.

Lemma tiles_show_witness :
  let w := demo_world 1000 (demo_tables PENDING [] None) ∅ {["d1" := {| j_deliveryId := "d1"; j_state := JWait |}]} in
  exists r n age, (run_with (serve reliable) (getStats show_Z default_config None None) w).1 = Returned r /\
    StatusTiles (fun _ => "") (Some (rp_body r)) None = inr n /\
    map inner_text (elements "span" n) =
      ["1"; "PENDING"; "0"; "DELIVERING"; "0"; "DELIVERED"; "0"; "FAILED"; "0"; "DLQ"; "1"; "0"; "0"; "0"] ++ age.
Proof.
  intros w. pose proof (serve_exec reliable (getStats show_Z default_config None None) w) as Hx.
  destruct (run_with (serve reliable) (getStats show_Z default_config None None) w).1 as [r|e|] eqn:E; [|vm_compute in E; discriminate E..].
  destruct (tiles_show (fun _ => "") show_Z default_config w _ r Hx) as (n & age & Hn & Hs & _).
  eexists r, n, _. split; [reflexivity|]. split; [exact Hn|]. exact Hs.
Defined.
