(* ===== verification/Explain.v ===== *)
(** * The check of the query plans

    src/scripts/explain-check.ts: the search of a plan for sequential scans on
    the hot tables, the loop that decides how the script ends, and its queries.
    The plans are PostgreSQL's; section [Reference] says what the search finds,
    [hot_queries_served] which queries have an index of Migrations.v. *)

From S2P Require Import Prelude Tables Schema Migrations.
From Stdlib Require Import ZArith Lia String.
From stdpp Require Import prelude strings gmap.

(** A node of a plan: its type, its relation and the nodes below it. *)
Inductive PlanNode := Node (node_type : string) (relation_name : option string) (plans : list PlanNode).

Definition SEQ_SCAN_ALERT_TABLES : gset string := {["deliveries"; "delivery_attempts"]}.

(** [findSeqScans(node, found)]: [found] as it is afterwards. *)
Fixpoint findSeqScans (node : PlanNode) (found : list string) : list string :=
  let '(Node node_type relation plans) := node in
  let found :=
    match relation with
    | Some (String _ _ as r) =>
        if String.eqb node_type "Seq Scan" && bool_decide (r ∈ SEQ_SCAN_ALERT_TABLES) then found ++ [r] else found
    | _ => found
    end in
  foldl (fun acc child => findSeqScans child acc) found plans.

(** How a query ends: skipped without a plan, failed, or passed. *)
Inductive check_result := Skip | Fails (seqScans : list string) | Passes.

Definition check_query (plan : option PlanNode) : check_result :=
  match plan with
  | None => Skip
  | Some p => match findSeqScans p [] with [] => Passes | seqScans => Fails seqScans end
  end.

(** The loop over the queries: the flag [failed]. *)
Definition run_checks (plans : list (option PlanNode)) : bool :=
  foldl (fun failed plan => match check_query plan with Fails _ => true | _ => failed end) false plans.

(** [process.exit(1)], or 0 at the end of the script. *)
Definition exit_code (plans : list (option PlanNode)) : Z := if run_checks plans then 1%Z else 0%Z.

(** ** The queries *)

(** The parts of a query: the clauses with the parameters filled in, at a
    time [now()] in microseconds. *)
Record hot_query := {
  hq_label : string; hq_select : list string; hq_from : string;
  hq_join : option (string * (string * string));           (** the table, and the columns that are equal *)
  hq_where : Z -> cond; hq_order_by : list (string * bool); (** with whether it is [DESC] *)
  hq_for_update_skip_locked : bool; hq_limit : option Z
}.

Definition list_columns : list string :=
  ["d.id"; "d.event_id"; "d.endpoint_id"; "ev.event_type"; "d.status"; "d.attempt_count"; "d.next_attempt_at";
   "d.created_at"; "d.updated_at"].

Definition zero_uuid : string := "00000000-0000-0000-0000-000000000000".

Definition HOT_QUERIES : list hot_query := [
  {| hq_label := "list deliveries — default (status filter)"; hq_select := list_columns;
     hq_from := "deliveries"; hq_join := Some ("events", ("ev.id", "d.event_id"));
     hq_where := fun _ => CIn "status" (map Text ["PENDING"; "DELIVERING"; "DELIVERED"; "FAILED"; "DLQ"]);
     hq_order_by := [("d.updated_at", true); ("d.id", true)]; hq_for_update_skip_locked := false; hq_limit := Some 51%Z |};
  {| hq_label := "list deliveries — by endpoint_id"; hq_select := list_columns;
     hq_from := "deliveries"; hq_join := Some ("events", ("ev.id", "d.event_id"));
     hq_where := fun _ => CEq "endpoint_id" (Uuid zero_uuid);
     hq_order_by := [("d.updated_at", true); ("d.id", true)]; hq_for_update_skip_locked := false; hq_limit := Some 51%Z |};
  {| hq_label := "getDetail — delivery_attempts lookup";
     hq_select := ["attempt_number"; "outcome"; "http_status"; "response_body"; "error_message"; "latency_ms";
                   "started_at"; "finished_at"];
     hq_from := "delivery_attempts"; hq_join := None;
     hq_where := fun _ => CEq "delivery_id" (Uuid zero_uuid);
     hq_order_by := [("attempt_number", false)]; hq_for_update_skip_locked := false; hq_limit := None |};
  {| hq_label := "reconciler claimUnenqueued sweep"; hq_select := ["id"]; hq_from := "deliveries"; hq_join := None;
     hq_where := fun now => CAnd (CEq "enqueued" (Bool false)) (CLt "created_at" (Time (now - 1000000 * 60)));
     hq_order_by := []; hq_for_update_skip_locked := true; hq_limit := Some 500%Z |}].

(** The script, given the planner. *)
Definition explain_check (plan_of : hot_query -> option PlanNode) : Z := exit_code (map plan_of HOT_QUERIES).

(** An index of the catalog serves the query. *)
Definition served (c : catalog) (q : hot_query) : Prop :=
  exists n ix, cat_indexes c !! n = Some ix /\ serves (hq_from q) (hq_where q) ix.

(** ** Reference *)

Section Reference.

(** Induction through the nodes below. *)
Lemma plan_ind (P : PlanNode -> Prop) :
  (forall ty r plans, Forall P plans -> P (Node ty r plans)) -> forall n, P n.
Proof.
  intros H. fix IH 1. intros [ty r plans]. apply H. induction plans as [|n plans IHp]; constructor; [apply IH|exact IHp].
Qed.

(** [m] is [n] or a node below it. *)
Inductive within (m : PlanNode) : PlanNode -> Prop :=
| within_self : within m m
| within_below ty r plans n : n ∈ plans -> within m n -> within m (Node ty r plans).

(** A sequential scan of a hot table. *)
Definition hot_scan (n : PlanNode) (r : string) : Prop :=
  match n with Node ty rel _ => ty = "Seq Scan" /\ rel = Some r /\ r ∈ SEQ_SCAN_ALERT_TABLES end.

(** The scans of a plan, the root before what is below it. *)
Fixpoint scans (node : PlanNode) : list string :=
  let '(Node ty rel plans) := node in
  (match rel with
   | Some r => if bool_decide (ty = "Seq Scan" /\ r ∈ SEQ_SCAN_ALERT_TABLES) then [r] else []
   | None => []
   end) ++ concat (map scans plans).

Lemma hot_table_named r : r ∈ SEQ_SCAN_ALERT_TABLES -> r <> "".
Proof. unfold SEQ_SCAN_ALERT_TABLES. set_solver. Qed.

(** The accumulator gets the scans of the plan, in order. *)
Lemma findSeqScans_scans node found : findSeqScans node found = found ++ scans node.
Proof.
  revert found. induction node as [ty rel plans IH] using plan_ind. intros found. cbn [findSeqScans scans].
  assert (forall acc, foldl (fun acc child => findSeqScans child acc) acc plans = acc ++ concat (map scans plans)) as Hplans.
  { induction IH as [|n plans Hn Hplans IHp]; intros acc; cbn; [by rewrite app_nil_r|].
    by rewrite IHp, Hn, app_assoc. }
  rewrite Hplans, app_assoc. f_equal. destruct rel as [[|c r]|]; [| |by rewrite app_nil_r].
  - case_bool_decide as H; [by destruct (hot_table_named "" (proj2 H))|by rewrite app_nil_r].
  - set (t := String c r) in *. case_bool_decide as Ht; case_bool_decide as H; destruct (String.eqb_spec ty "Seq Scan") as [E|E];
      cbn [andb]; rewrite ?app_nil_r; tauto.
Qed.

Lemma hot_scan_root ty rel plans r :
  r ∈ match rel with
      | Some r => if bool_decide (ty = "Seq Scan" /\ r ∈ SEQ_SCAN_ALERT_TABLES) then [r] else []
      | None => []
      end <-> hot_scan (Node ty rel plans) r.
Proof.
  unfold hot_scan. destruct rel as [r'|]; [|set_solver]. case_bool_decide as H.
  - rewrite list_elem_of_singleton. naive_solver.
  - split; [set_solver|]. intros (H1 & [= ->] & H2). by destruct H.
Qed.

Lemma scans_spec node r : r ∈ scans node <-> exists m, within m node /\ hot_scan m r.
Proof.
  induction node as [ty rel plans IH] using plan_ind. cbn [scans]. rewrite elem_of_app, (hot_scan_root ty rel plans r).
  rewrite Forall_forall in IH. rewrite (list_elem_of_In (concat _) r), in_concat. split.
  - intros [H|(l & Hl & Hr)].
    + exists (Node ty rel plans). split; [constructor|done].
    + apply in_map_iff in Hl as (n & <- & Hn). apply list_elem_of_In in Hn, Hr.
      apply IH in Hr as (m & Hm & Hs); [|done]. exists m. split; [by eapply within_below|done].
  - intros (m & Hm & Hs). inversion Hm as [|ty' r' plans' n Hn Hm']; subst; [by left|right].
    exists (scans n). split; [apply in_map_iff; exists n; split; [done|by apply list_elem_of_In]|].
    apply list_elem_of_In, IH; [done|by exists m].
Qed.
End Reference.

(** The check finds what it looks for. The script ends with 1 just when
    the plan of some query has, at any depth, a sequential scan of a hot
    table; and what it prints for a plan are the tables of those scans, the
    outer ones first, each as often as it is scanned. *)
Theorem explain_check_spec (plans : list (option PlanNode)) :
  (exit_code plans = 1%Z <-> exists p m r, Some p ∈ plans /\ within m p /\ hot_scan m r) /\
  forall p, check_query (Some p) = match scans p with [] => Passes | l => Fails l end.
Proof.
  split; [|intros p; unfold check_query; by rewrite findSeqScans_scans].
  assert (forall b, foldl (fun failed plan => match check_query plan with Fails _ => true | _ => failed end) b plans = true <->
    b = true \/ exists p m r, Some p ∈ plans /\ within m p /\ hot_scan m r) as H.
  { induction plans as [|plan plans IH]; intros b; cbn [foldl].
    { split; [by left|]. intros [H|(p & m & r & H & _)]; [done|]. by apply elem_of_nil in H. }
    rewrite IH. destruct plan as [p|]; cbn [check_query]; [|set_solver]. rewrite findSeqScans_scans. cbn [app].
    destruct (scans p) as [|r l] eqn:E.
    - split; [set_solver|]. intros [Hb|(p' & m & r & [[= ->]|Hin]%elem_of_cons & Hm & Hs)]; [by left| |right; by exists p', m, r].
      assert (r ∈ scans p) as Hr by (apply scans_spec; by exists m). rewrite E in Hr. by apply elem_of_nil in Hr.
    - split; [|by left]. intros _. right. destruct (proj1 (scans_spec p r)) as (m & Hm & Hs); [rewrite E; left|].
      exists p, m, r. split; [left|done]. }
  unfold exit_code, run_checks. specialize (H false). destruct (foldl _ _ _).
  - split; [|done]. intros _. by destruct (proj1 H eq_refl).
  - split; [done|]. intros Hp. by discriminate (proj2 H (or_intror Hp)).
Qed.

(** A plan that is missing does not fail the check. *)
Example no_plan_passes : exit_code [None] = 0%Z.
Proof. reflexivity. Qed.

Lemma served_whole (c : catalog) (q : hot_query) n table cols col :
  cat_indexes c !! n = Some (plain_index table btree cols) -> hq_from q = table ->
  fst <$> head cols = Some col -> (forall now, col ∈ bounded_columns (hq_where q now)) -> served c q.
Proof.
  intros Hn Ht Hc Hb. exists n, (plain_index table btree cols). split; [done|]. split; [done|]. split; [done|].
  split; [by exists col|done].
Qed.

(** An index on the table of the query with a first column it bounds. *)
Definition leads (q : hot_query) (ix : index_def) : bool :=
  String.eqb (ix_table ix) (hq_from q) &&
  match ix_columns ix with (col, _) :: _ => bool_decide (col ∈ bounded_columns (hq_where q 0%Z)) | [] => false end.

Lemma not_served (c : catalog) (q : hot_query) :
  forallb (fun p => negb (leads q p.2)) (map_to_list (cat_indexes c)) = true -> ~ served c q.
Proof.
  rewrite forallb_forall. intros H (n & ix & Hn & Ht & _ & (col & Hc & Hb) & _).
  specialize (H (n, ix) (proj1 (list_elem_of_In _ _) (proj2 (elem_of_map_to_list _ _ _) Hn))). apply negb_true_iff in H.
  unfold leads in H. cbn [snd] in H. rewrite Ht, String.eqb_refl in H. destruct (ix_columns ix) as [|[col' d] cols]; [discriminate Hc|].
  injection Hc as ->. cbn [andb] in H. apply bool_decide_eq_false in H. by apply H.
Qed.

(** The queries the check explains and the indexes there are. After both
    migrations the first three have an index that serves them; the fourth,
    the sweep as it was before the second migration, had one then and has none
    now, so the check asks for an index no query of the engine needs. The
    sweep the engine runs, whose arms have theirs, is not among the queries. *)
Theorem hot_queries_served :
  Forall (served current_schema) (take 3 HOT_QUERIES) /\
  Forall (fun q => served initial_schema q /\ ~ served current_schema q) (drop 3 HOT_QUERIES) /\
  Forall (fun q => exists now r, selects (claim_where 60 now) r = true /\ selects (hq_where q now) r = false) (drop 3 HOT_QUERIES).
Proof.
  split; [|split].
  - repeat constructor.
    + eapply (served_whole _ _ "idx_deliveries_status_updated"); [vm_compute; reflexivity|done|done|]. intros now. cbn. set_solver.
    + eapply (served_whole _ _ "idx_deliveries_endpoint_created"); [vm_compute; reflexivity|done|done|]. intros now. cbn. set_solver.
    + eapply (served_whole _ _ "idx_attempts_delivery"); [vm_compute; reflexivity|done|done|]. intros now. cbn. set_solver.
  - constructor; [|constructor]. split.
    + exists "idx_deliveries_unenqueued", idx_deliveries_unenqueued. split; [vm_compute; reflexivity|]. split; [done|]. split; [done|].
      split; [exists "created_at"; split; [done|]; intros now; cbn; set_solver|].
      intros now r H. cbn [hq_where] in H. rewrite selects_and in H. by apply andb_true_iff in H as [H _].
    + apply not_served. vm_compute. reflexivity.
  - constructor; [|constructor]. exists 60000001%Z, [("status", Text "PENDING"); ("enqueued", Bool true); ("updated_at", Time 0)].
    split; vm_compute; reflexivity.
Qed.
