(* ===== verification/Journeys.v ===== *)
(** * Across the components

    What a call to one part of the program means for the calls to the others
    that come after it. *)

From S2P Require Import Prelude Async Config Json Parse Dates Tables Queries Schema Redis Services Concrete Scripts.
From S2P Require Lock TokenBucket.
From S2P Require Import CircuitBreaker Repo Frames Ingest Signature Worker WorkerSpec DeadLetter Crash Jobs Api Endpoints AuditTrail ApiSpec Reconciler.
From Stdlib Require Import ZArith Lia String.
From stdpp Require Import prelude strings gmap.

Open Scope Z_scope.

Section Pause.
Context {RS BS : Type} `{!RedisServer RS} `{!RedisLaws RS} `{!BullMQ BS} `{!BullMQLaws BS}.
Abbreviation world := (world RS BS).

(** The endpoint is there and switched off. *)
Definition paused (T : tables) (id : string) : Prop :=
  exists e, endpoints T !! id = Some e /\ e_is_active e = false.

Lemma patch_pauses is_url issues_of id body url (w w1 : world) r :
  patchSchema is_url body = Some (Some false, url) ->
  exec env (patchEndpoint is_url issues_of id body) w (Returned r) w1 -> paused (tables_of w1) id.
Proof.
  intros Hb Hx. pose proof (wp_patchEndpoint is_url issues_of id body w) as H. rewrite wp_exec in H.
  destruct (H _ _ Hx) as (active & url' & e & (Hb' & _ & He & HT & _) & _). rewrite Hb in Hb'. injection Hb' as <- <-.
  exists (patched (Some false) url e). split; [|done]. rewrite HT. cbn. by rewrite lookup_alter, decide_True, He.
Qed.

Lemma paused_accepts_nothing is_uuid issues_of cfg T id key ty pl rq p :
  paused T id -> check_request is_uuid issues_of cfg rq = inr (key, id, ty, pl) -> ~ accepted is_uuid issues_of cfg T rq p.
Proof.
  intros (e & He & Hoff) Hck (key' & ep & ty' & pl' & row & Hck' & Hrow & Hon & _).
  rewrite Hck in Hck'. injection Hck' as <- <- <- <-. congruence.
Qed.

Lemma paused_inactive T id did d : paused T id -> for_worker T did = Some d -> endpointId d = id -> endpointActive d = false.
Proof.
  intros (e & He & Hoff). unfold for_worker, worker_row. destruct (deliveries T !! did) as [row|]; [|done]. cbn.
  destruct (endpoints T !! d_endpoint_id row) as [e'|] eqn:He'; [|done]. cbn.
  destruct (events T !! d_event_id row); [|done]. cbn. intros [= <-] <-. cbn in *. congruence.
Qed.
End Pause.

(** C23: an endpoint that is switched off gets no new traffic. After a PATCH
    with [is_active] false has been answered, and while the endpoints are as it
    left them: a request to ingest that starts then, for that endpoint, is
    refused and stores nothing, and a job of one of its deliveries that starts
    then sends no request, records no attempt and changes nothing in the
    database: the deliveries wait, with their attempts. The request and the job
    are each run alone, with any answers and failures of the services; an
    attempt already in flight when the PATCH is answered is not covered, and
    may complete, as the documents say. *)
Theorem pause_stops_traffic {RS BS : Type} `{!RedisServer RS} `{!RedisLaws RS} `{!BullMQ BS} `{!BullMQLaws BS}
    (is_url is_uuid : string -> bool) (issues_of : json -> json) (cfg : Config) (hmac : string -> string -> string)
    (id : string) (body : json) (url : option string) (r : reply) (w w1 w2 : world RS BS) :
  patchSchema is_url body = Some (Some false, url) ->
  exec env (patchEndpoint is_url issues_of id body) w (Returned r) w1 ->
  endpoints (tables_of w2) = endpoints (tables_of w1) -> idle w2 ->
  (forall crash hit rq key ty pl o w3, check_request is_uuid issues_of cfg rq = inr (key, id, ty, pl) ->
     exec env (postEvents is_uuid issues_of cfg crash hit rq) w2 o w3 ->
     tables_of w3 = tables_of w2 /\ exists e, o = Threw e) /\
  (forall sched j token d o w3, for_worker (tables_of w2) (job_deliveryId j) = Some d -> endpointId d = id ->
     exec env (processDelivery cfg hmac sched j token) w2 o w3 ->
     tables_of w3 = tables_of w2 /\ s_sent w3.1 = s_sent w2.1).
Proof.
  intros Hb Hx Hep Hi. assert (paused (tables_of w2) id) as Hp.
  { unfold paused. rewrite Hep. by eapply patch_pauses. }
  split.
  - intros crash hit rq key ty pl o w3 Hck Hpost.
    pose proof (wp_postEvents is_uuid issues_of cfg crash hit rq w2 Hi) as H. rewrite wp_exec in H.
    destruct (H _ _ Hpost) as [_ Ho]. destruct o as [x|e|].
    + destruct Ho as (_ & p & _ & Hacc & _). by destruct (paused_accepts_nothing _ _ _ _ _ _ _ _ _ _ Hp Hck Hacc).
    + destruct Ho as [[HT _]|(_ & p & _ & _ & Hacc & _)]; [by eauto|].
      by destruct (paused_accepts_nothing _ _ _ _ _ _ _ _ _ _ Hp Hck Hacc).
    + destruct Ho as (_ & p & _ & _ & Hacc & _). by destruct (paused_accepts_nothing _ _ _ _ _ _ _ _ _ _ Hp Hck Hacc).
  - intros sched j token d o w3 Hd Hid Hrun. pose proof (paused_inactive _ _ _ _ Hp Hd Hid) as Hoff.
    pose proof (wp_processDelivery cfg hmac sched j token w2 Hi) as H. rewrite wp_exec in H.
    destruct (H _ _ Hrun) as (_ & sent & fin & Hs & He & _). rewrite Hs.
    inversion He; subst; try congruence; by rewrite app_nil_r.
Qed.

Definition switch_off : json := JObj [("is_active", JBool false)].

Definition switched_off : outcome exn reply * mem_world :=
  run_with (serve reliable) (patchEndpoint (fun _ => true) (fun _ => JNull) "e1" switch_off) pending_world.

Lemma pause_stops_traffic_witness :
  let r := run_with (serve reliable) (processDelivery default_config toy_hmac demo_schedule demo_job None) switched_off.2 in
  r.1 = Threw DelayedError /\ s_sent r.2.1 = s_sent switched_off.2.1.
Proof.
  intros r. split; [vm_compute; reflexivity|].
  destruct switched_off.1 as [x| |] eqn:E; [|vm_compute in E; discriminate E..].
  destruct (for_worker (tables_of switched_off.2) "d1") as [d|] eqn:Hd; [|vm_compute in Hd; discriminate Hd].
  pose proof (serve_exec reliable (patchEndpoint (fun _ => true) (fun _ => JNull) "e1" switch_off) pending_world) as Hx.
  fold switched_off in Hx. rewrite E in Hx.
  destruct (pause_stops_traffic (fun _ => true) (fun _ => true) (fun _ => JNull) default_config toy_hmac "e1" switch_off None x
    pending_world switched_off.2 switched_off.2) as [_ H]; [reflexivity|exact Hx|reflexivity| |].
  - split; [vm_compute; reflexivity|]. intros k. vm_compute. intros Hk. inversion Hk.
  - refine (proj2 (H demo_schedule demo_job None d r.1 r.2 Hd _ _)).
    + vm_compute in Hd. injection Hd as <-. reflexivity.
    + exact (serve_exec reliable (processDelivery default_config toy_hmac demo_schedule demo_job None) switched_off.2).
Defined.

(** ** From the request to the end of its job *)

Section Accepted.
Context {RS BS : Type} `{!RedisServer RS} `{!RedisLaws RS} `{!BullMQ BS} `{!BullMQLaws BS}.
Abbreviation world := (world RS BS).
Context (cfg : Config) (hmac : string -> string -> string).

(** The delivery is there and not in the dead-letter queue. *)
Definition in_work (T : tables) (id : string) : Prop :=
  exists d, deliveries T !! id = Some d /\ d_status d <> DLQ.

Lemma effect_in_work T id T' sent fin : delivery_effect cfg hmac T id T' sent fin -> in_work T id -> in_work T' id.
Proof.
  intros He (row & Hrow & Hs). destruct He as [|_|d now next t0 T' _ _ _ Hrec|d t0 _ _ _|d t0 now _ _ _|d t0 now lost r st fi next t1 T' _ _ _ Hrec].
  - by exists row.
  - by exists row.
  - destruct (recorded_lookup _ _ _ _ _ Hrec Hrow) as (nx & _ & Hl). by eexists.
  - eexists. split; [by apply announced_lookup|done].
  - eexists. split; [by apply announced_lookup|done].
  - destruct (recorded_lookup _ _ _ _ _ Hrec (announced_lookup _ _ d t0 _ Hrow)) as (nx & _ & Hl). eexists. split; [exact Hl|].
    cbn. by destruct (is_success _).
Qed.

(** The tables of a delivery in work: the whole trail, and the row. *)
Definition fine (w : world) (id : string) : Prop := audit (tables_of w) /\ in_work (tables_of w) id.

Lemma run_fine j sched token o (w w1 : world) :
  idle w -> exec env (processDelivery cfg hmac sched j token) w o w1 -> fine w (job_deliveryId j) -> fine w1 (job_deliveryId j).
Proof.
  intros Hi Hx [Ha Hw]. split; [by apply (flow_audit cfg hmac (FDeliver sched j token) w w1 Hi); [exists o|]|].
  pose proof (wp_processDelivery cfg hmac sched j token w Hi) as H. rewrite wp_exec in H.
  destruct (H _ _ Hx) as (_ & sent & fin & _ & He & _). by eapply effect_in_work.
Qed.

Lemma cut_fine j sched token (w w1 : world) :
  idle w -> cut (processDelivery cfg hmac sched j token) w w1 -> fine w (job_deliveryId j) -> fine w1 (job_deliveryId j).
Proof.
  intros Hi Hc Hf. destruct (cut_exec _ _ _ Hc) as (_ & o & w2 & Hx & HT & _). unfold fine. rewrite <- HT.
  by eapply run_fine.
Qed.

Lemma same_fine (w w1 : world) id : tables_of w1 = tables_of w -> fine w id -> fine w1 id.
Proof. unfold fine. by intros ->. Qed.

(** Over its whole life a job leaves its delivery in work. *)
Lemma life_fine j made stalls (w w' : world) f :
  life cfg hmac j made stalls w f w' -> idle w -> made < jo_attempts (defaultJobOptions cfg) ->
  fine w (job_deliveryId j) -> idle w' /\ fine w' (job_deliveryId j).
Proof.
  induction 1 as [made stalls sched token w w1 Hx|made stalls sched token w w1 w2 f w3 Hx (HT & Hs & _ & Hi2) Hl IH
    |made stalls sched token w w1 w2 f w3 Hx Hm (HT & Hs & _ & Hi2) Hl IH|made stalls sched token w w1 Hx Hm
    |made stalls sched token e u d o w w1 w2 w3 w4 f w5 Hx He Hm (HT & Hs & _ & Hi2) Hf Hu Hd (HT4 & Hs4 & _ & Hi4) Ht Hl IH
    |made stalls sched token e w w1 Hx He Hm]; intros Hi Hlt Hfine.
  - split; [by eapply run_post|by eapply run_fine].
  - apply IH; [done|done|]. eapply same_fine; [exact HT|by eapply run_fine].
  - apply IH; [done|done|]. eapply same_fine; [exact HT|by eapply cut_fine].
  - split; [by eapply cut_post|by eapply cut_fine].
  - destruct (early_failed _ _ _ _ _ _ Hi2 Hm Hf) as (_ & HT3 & _). apply IH; [done|done|].
    eapply same_fine; [exact HT4|]. eapply same_fine; [exact HT3|]. eapply same_fine; [exact HT|by eapply run_fine].
  - split; [by eapply run_post|by eapply run_fine].
Qed.

(** A finished delivery that is not in the dead-letter queue was delivered,
    with a success that was answered. *)
Definition delivered (T : tables) (id : string) : Prop :=
  exists d a z, deliveries T !! id = Some d /\ d_status d = DELIVERED /\ last (attempts_of T id) = Some a /\
    a_outcome a = SUCCESS /\ a_http_status a = Some z /\ 200 <= z < 300.

Lemma fine_for_worker (w : world) id : fine w id ->
  exists row d, deliveries (tables_of w) !! id = Some row /\ for_worker (tables_of w) id = Some d /\
    d_status row <> DLQ /\ dw_status d = d_status row.
Proof.
  intros [Ha (row & Hrow & Hs)]. destruct (au_refs _ Ha id row Hrow) as [[ev Hev] [ep Hep]].
  destruct (for_worker (tables_of w) id) as [d|] eqn:Hd.
  - exists row, d. destruct (for_worker_row _ _ _ Hd) as (row' & Hrow' & _ & Hst). rewrite Hrow in Hrow'. injection Hrow' as <-. done.
  - unfold for_worker, worker_row in Hd. rewrite Hrow in Hd. cbn in Hd. rewrite Hep in Hd. cbn in Hd. rewrite Hev in Hd. discriminate Hd.
Qed.

Lemma finished_delivered j (w : world) :
  fine w (job_deliveryId j) -> finished j (tables_of w) -> delivered (tables_of w) (job_deliveryId j).
Proof.
  intros Hf Hfin. destruct (fine_for_worker _ _ Hf) as (row & d & Hrow & Hd & Hs & Hst). destruct Hf as [Ha _].
  specialize (Hfin d Hd). unfold settled in Hfin. rewrite Hst in Hfin.
  assert (d_status row = DELIVERED) as Hdel by by destruct (d_status row). clear Hfin.
  pose proof (au_history _ Ha _ _ Hrow) as Hh. destruct (h_delivered _ _ _ Hh Hdel) as (a & Hlast & Hok).
  pose proof (h_honest _ _ _ Hh) as Hhon. rewrite Forall_forall in Hhon.
  destruct (Hhon a (last_Some_elem_of _ _ Hlast) Hok) as (z & Hz & Hr). by exists row, a, z.
Qed.

(** What a 202 leaves in the tables. *)
Lemma accepted_stored is_uuid issues_of crash hit down rq (w w1 : world) r :
  audit (tables_of w) -> events_post is_uuid issues_of cfg crash hit down rq w (Returned r) w1 -> rp_code r = 202 ->
  exists p res d, accepted is_uuid issues_of cfg (tables_of w) rq p /\ r = event_reply res /\ audit (tables_of w1) /\
    deliveries (tables_of w1) !! delivery_id res = Some d /\ d_status d = PENDING /\ d_endpoint_id d = endpoint_id p /\
    exists t, events (tables_of w1) !! d_event_id d = Some (new_event p t).
Proof.
  intros Ha (_ & _ & p & res & Hacc & -> & [(_ & ws & Hc & HT)|(Hn & _)]) Hcode; [|cbn in Hcode; by rewrite Hn in Hcode].
  pose proof (proj1 (audit_created _ _ _ _ Ha Hc)) as Ha1. destruct Hc as (_ & _ & _ & _ & _ & _ & t0 & ->).
  set (T1 := apply_writes _ _) in *.
  assert (deliveries T1 !! delivery_id res = Some (new_delivery (event_id res) (endpoint_id p) t0)) as Hd by (apply lookup_insert_eq).
  assert (events T1 !! event_id res = Some (new_event p t0)) as Hev by (apply lookup_insert_eq).
  destruct HT as [HT|(_ & t & HT)].
  - exists p, res, (new_delivery (event_id res) (endpoint_id p) t0). rewrite HT.
    do 3 (split; [done|]). split; [exact Hd|]. do 2 (split; [done|]). by exists t0.
  - exists p, res, (set_enqueued t (new_delivery (event_id res) (endpoint_id p) t0)). rewrite HT.
    split; [done|]. split; [done|]. split; [by apply audit_enqueued|]. split; [|split; [done|split; [done|by exists t0]]].
    cbn -[T1]. rewrite lookup_alter, decide_True by done. by rewrite Hd.
Qed.

(** Later flows leave the row. *)
Lemma row_stays (s s' : shared RS BS) id d :
  audit (pg_tables (s_pg s)) -> rtc (sys_step cfg hmac) s s' -> deliveries (pg_tables (s_pg s)) !! id = Some d ->
  audit (pg_tables (s_pg s')) /\ exists d', deliveries (pg_tables (s_pg s')) !! id = Some d' /\ d_event_id d' = d_event_id d.
Proof using RedisLaws0 BullMQLaws0.
  intros Ha Hs Hd. destruct (sys_steps_audit cfg hmac s s' Hs Ha) as [Ha' Hg]. split; [done|].
  destruct (gr_deliveries _ _ Hg id d Hd) as (d' & Hd' & He & _). by exists d'.
Qed.

(** The last 'failed' event of a delivery in work. *)
Lemma last_event_dead_letters j (w w1 : world) o :
  fine w (job_deliveryId j) -> idle w ->
  exec steady (handleFailed cfg (failed_event j (jo_attempts (defaultJobOptions cfg)))) w o w1 ->
  exists d, deliveries (tables_of w1) !! job_deliveryId j = Some d /\ d_status d = DLQ.
Proof.
  intros Hf Hi Hx. destruct (fine_for_worker _ _ Hf) as (row & d & Hrow & Hd & Hs & Hst).
  set (job := {| fj_attemptsMade := jo_attempts (defaultJobOptions cfg); fj_deliveryId := job_deliveryId j |}).
  pose proof (wp_handleFailed_steady cfg job d w Hi) as H. rewrite wp_exec in H.
  destruct (H ltac:(unfold exhausted; cbn; lia) Hd ltac:(congruence) _ _ Hx) as (t0 & l & _ & HT & _).
  exists (set_status DLQ t0 row). split; [|done]. rewrite HT. cbn. by rewrite lookup_alter, decide_True, Hrow.
Qed.
End Accepted.

(** C5: the way of an accepted event, from its 202 to the end of its job. When
    POST /v1/events, run alone on tables with the audit invariant, answers 202,
    the event is stored as it was sent, with a PENDING delivery whose id the
    reply carries. Other flows may follow, one after the other, with any
    failures and dying processes: the delivery stays, of the same event. If it
    is then PENDING, not updated for the grace period and its row not locked,
    a tick of the reconciler run alone, on services that answer, finds a full
    batch or leaves the queue with a job for it: a new waiting one where the
    queue remembered none, else the remembered one as it was, and if that has
    failed no sweep brings it back. If it is not in the DLQ and a job of it
    then runs its whole life with nothing else touching the tables: when it
    completes, the delivery is DELIVERED with a last attempt answered with a
    2xx; when its attempts are used up, the last 'failed' event, run alone on
    services that answer, leaves the delivery in the DLQ; when its workers have
    died too often, the delivery is still there, not in the DLQ. *)
Theorem accepted_event_ends {RS BS : Type} `{!RedisServer RS} `{!RedisLaws RS} `{!BullMQ BS} `{!BullMQLaws BS}
    (is_uuid : string -> bool) (issues_of : json -> json) (cfg : Config) (hmac : string -> string -> string)
    (crash : bool) (hit : option (gmap string Z)) (rq : event_request) (r : reply) (w w1 : world RS BS) :
  BACKOFF_BASE_MS cfg <> [] -> audit (tables_of w) -> idle w ->
  exec env (postEvents is_uuid issues_of cfg crash hit rq) w (Returned r) w1 -> rp_code r = 202 ->
  exists p res d, accepted is_uuid issues_of cfg (tables_of w) rq p /\ r = event_reply res /\
    deliveries (tables_of w1) !! delivery_id res = Some d /\ d_status d = PENDING /\ d_endpoint_id d = endpoint_id p /\
    (exists t, events (tables_of w1) !! d_event_id d = Some (new_event p t)) /\
    forall w2, rtc (sys_step cfg hmac) w1.1 w2.1 -> idle w2 ->
    exists d2, deliveries (tables_of w2) !! delivery_id res = Some d2 /\ d_event_id d2 = d_event_id d /\
    (forall w3 o, d_status d2 = PENDING -> d_updated_at d2 < s_now w2.1 - 1000000 * RECONCILER_GRACE_SECONDS cfg ->
       unlocked w2 (delivery_id res) -> exec steady (tick cfg) w2 o w3 ->
       (exists n, claimed cfg (RECONCILER_BATCH_SIZE cfg) w2 w3 n /\ RECONCILER_BATCH_SIZE cfg <= n) \/
       bq_jobs (s_bull w3.1) webhook_delivery !! delivery_id res =
         match bq_jobs (s_bull w2.1) webhook_delivery !! delivery_id res with
         | None => Some (waiting_job (delivery_id res))
         | Some remembered => Some remembered
         end) /\
    (forall j f w3, job_deliveryId j = delivery_id res -> d_status d2 <> DLQ -> life cfg hmac j 0 0 w2 f w3 ->
       match f with
       | Completed => delivered (tables_of w3) (delivery_id res)
       | Exhausted => forall w4 w5 o, passes w3 w4 ->
           exec steady (handleFailed cfg (failed_event j (jo_attempts (defaultJobOptions cfg)))) w4 o w5 ->
           exists d5, deliveries (tables_of w5) !! delivery_id res = Some d5 /\ d_status d5 = DLQ
       | Stalled _ => in_work (tables_of w3) (delivery_id res)
       end).
Proof.
  intros Hne Ha Hi Hx Hcode. pose proof (wp_postEvents is_uuid issues_of cfg crash hit rq w Hi) as Hp.
  rewrite wp_exec in Hp. specialize (Hp _ _ Hx).
  destruct (accepted_stored _ _ _ _ _ _ _ _ _ _ Ha Hp Hcode) as (p & res & d & Hacc & Hr & Ha1 & Hd & Hst & Hep & Hev).
  exists p, res, d. do 6 (split; [done|]). intros w2 Hs Hi2.
  destruct (row_stays cfg hmac w1.1 w2.1 _ d Ha1 Hs Hd) as (Ha2 & d2 & Hd2 & He2). exists d2. do 2 (split; [done|]). split.
  - intros w3 o Hpend Hold Hu Hx3. destruct (tick_recovers cfg w2 w3 o Hi2 Hx3) as (_ & n & Hc & [Hb|Hall]).
    + left. by exists n.
    + right. transitivity (Some (default (waiting_job (delivery_id res)) (bq_jobs (s_bull w2.1) webhook_delivery !! delivery_id res)));
        [|by destruct (bq_jobs (s_bull w2.1) webhook_delivery !! delivery_id res)].
      apply Hall; [|exact Hu]. exists d2. split; [exact Hd2|].
      unfold claimable. rewrite Hpend. cbn [bool_decide]. by apply andb_true_iff; split; [|apply Z.ltb_lt].
  - intros j f w3 Hj Hndlq Hl. rewrite <- Hj in *. assert (fine w2 (job_deliveryId j)) as Hf by (split; [done|by exists d2]).
    assert (0 < jo_attempts (defaultJobOptions cfg)) as Hpos.
    { cbn. destruct (BACKOFF_BASE_MS cfg); [done|]. cbn. lia. }
    destruct (life_fine cfg hmac _ _ _ _ _ _ Hl Hi2 Hpos Hf) as [Hi3 Hf3]. destruct f as [| |made].
    + apply finished_delivered; [done|]. by apply (life_post cfg hmac j 0 0 w2 w3 Completed Hl Hi2 Hpos).
    + intros w4 w5 o (HT & _ & _ & Hi4) Hx5. by apply (last_event_dead_letters cfg j w4 w5 o); [eapply same_fine|..].
    + by destruct Hf3 as [_ Hf3].
Qed.

Definition posted : outcome exn reply * mem_world :=
  run_with (serve reliable) (postEvents (fun _ => true) (fun _ => JNull) default_config false None (demo_request "k1")) blank_world.

Definition worked_off : outcome exn unit * mem_world :=
  run_with (serve reliable) (processDelivery default_config toy_hmac demo_schedule first_job None) posted.2.

Lemma accepted_event_ends_witness :
  (exists r, posted.1 = Returned r /\ rp_code r = 202) /\ delivered (tables_of worked_off.2) first_id.
Proof.
  pose proof (serve_exec reliable (postEvents (fun _ => true) (fun _ => JNull) default_config false None (demo_request "k1")) blank_world) as Hx.
  fold posted in Hx. destruct posted.1 as [r|e|] eqn:E; [|vm_compute in E; discriminate E..].
  assert (rp_code r = 202 /\ forall res, r = event_reply res -> delivery_id res = first_id) as [Hcode Hid].
  { vm_compute in E. injection E as <-. split; [reflexivity|]. intros res Hres. injection Hres.
    assert (first_id = "00000000-0000-4000-8000-000000000000") as -> by (vm_compute; reflexivity). congruence. }
  split; [exists r; split; [reflexivity|exact Hcode]|].
  destruct (accepted_event_ends (fun _ => true) (fun _ => JNull) default_config toy_hmac false None (demo_request "k1") r
    blank_world posted.2 ltac:(discriminate) (blank_audit _ blank_world_blank) (demo_idle _ _ _ _) Hx Hcode)
    as (p & res & d & _ & Hr & Hd & Hst & _ & _ & Hall).
  rewrite (Hid res Hr) in *.
  assert (idle posted.2) as Hi. { split; [vm_compute; reflexivity|]. intros k. vm_compute. intros Hk. inversion Hk. }
  destruct (Hall posted.2 (rtc_refl _ _) Hi) as (d2 & Hd2 & _ & _ & Hj). rewrite Hd in Hd2. injection Hd2 as <-.
  apply (Hj first_job Completed worked_off.2); [reflexivity|by rewrite Hst|].
  apply (life_completed default_config toy_hmac first_job 0 0 demo_schedule None).
  pose proof (serve_exec reliable (processDelivery default_config toy_hmac demo_schedule first_job None) posted.2) as Hrun.
  fold worked_off in Hrun. assert (worked_off.1 = Returned tt) as E2 by (vm_compute; reflexivity). rewrite E2 in Hrun. exact Hrun.
Defined.
